(** * crypto-wasm-ts: anonymous credentials, composite proof specs and
      threshold signing -- a shallow embedding and its properties.

    The development follows the TypeScript sources:
    - [src/threshold-sigs/common.ts]            (module [ThresholdSig])
    - [src/composite-proof/proof-spec.ts]       (module [ProofSpec])
    - [src/anonymous-credentials/schema.ts]     (modules [Json], [JsNumber], [Schema], [SigParams])
    - [src/anonymous-credentials/presentation-builder.ts] (module [Presentation])

    Conventions.  A JS [number] used as an index is a [Z] (negative values are
    legal inputs); a [Uint8Array] is a list of bytes; a [Map<number, _>] is a
    [gmap Z _]; a [Set<string>] is a [gset string]; a JS object used as a
    dictionary is an association list in insertion order.  A method that can
    [throw] returns a [Result]; every [throw] site of the sources has its own
    constructor of [Error]. *)

From Stdlib Require Import ZArith String Ascii List Lia Bool.
From Stdlib Require Import Strings.Byte DecimalString DecimalFacts DecimalPos.
From Stdlib Require Import Sorting.Sorted Sorting.Permutation.
From Stdlib Require OrdersEx.
From stdpp Require Import base option list gmap sets strings.

Local Open Scope string_scope.
Local Open Scope list_scope.
Local Open Scope Z_scope.

(** ** Errors and results *)

(** One constructor per [throw new Error(...)] of the sources.  The
    constructor names the throw site; of the interpolated message only the
    credential index is kept.  [TypeError] and [StackOverflow] are the errors
    the JS run time raises by itself (property access on [undefined] or
    [null], a call of something that is not a function, unbounded
    recursion) and [BackendError] is a failure raised inside the WASM
    back-end or a library.  [OutsideModel] is not an error of the code: it
    marks an input outside the fragment the embedding describes (a schema
    field that does not have its declared TypeScript type, a key that
    shadows [Object.prototype]); nothing is stated about the code there. *)
Inductive Error : Type :=
  (* threshold-sigs/common.ts *)
  | Round1NotStarted
  | Round1NotFinished
  | Round2NotStarted
  | Round2NotFinished
  (* anonymous-credentials/presentation-builder.ts *)
  | InvalidCredIndex (credIdx : Z) (numCreds : nat)
  | NoStatusDetails (credIdx : Z)
  | ExpectedMembershipWitness (credIdx : Z)
  | ExpectedNonMembershipWitness (credIdx : Z)
  | AttributeNotFound (name : string)
  (* anonymous-credentials/schema.ts *)
  | NoSubjectKey
  | StatusFieldNotString (fieldName : string)
  | SchemaValueNoType (name : string)
  | SchemaValueUnknownType (name : string)
  | SchemaValueBadField (name : string)
  | PointerError
  | NoPropertiesObject
  | UnknownSchemaType
  | CannotParseNode
  | NoMinimum
  | NoMinimumOrMultipleOf
  | BadMultipleOf (shown : string)
  | WrongSchemaType
  | NotDataUri
  | MalformedDataUri
  | WrongMediaType (found : string)
  | Base64NotSupported
  | LabelMissing
  (* encoder and message helpers *)
  | NoEncoderFor (name : string)
  | RevealedNamesMissing
  (* raised by the JS run time, by a library or by the back-end *)
  | TypeError
  | StackOverflow
  | BackendError
  (* outside the embedding *)
  | OutsideModel.

Inductive Result (A : Type) : Type :=
  | Ok (a : A)
  | Throw (e : Error).
Arguments Ok {A} a.
Arguments Throw {A} e.

Definition bind {A B : Type} (r : Result A) (k : A -> Result B) : Result B :=
  match r with
  | Ok a => k a
  | Throw e => Throw e
  end.

Definition is_ok {A : Type} (r : Result A) : bool :=
  match r with Ok _ => true | Throw _ => false end.

Definition throws {A : Type} (r : Result A) : Prop :=
  exists e, r = Throw e.

#[global] Instance Result_bind : MBind Result := fun A B k r => bind r k.
#[global] Instance Result_ret : MRet Result := @Ok.

(** [if (cond) throw e] *)
Definition throw_if (cond : bool) (e : Error) : Result unit :=
  if cond then Throw e else Ok tt.

(** A [Uint8Array]. *)
Definition bytes : Type := list byte.

(** ** Threshold signing: [src/threshold-sigs/common.ts] *)

Module ThresholdSig.

(** The [BytearrayWrapper] subclasses only wrap a byte array. *)
Definition Commitments := bytes.
Definition CommitmentsForZeroSharing := bytes.
Definition Shares := bytes.
Definition ZeroShares := bytes.
Definition Message1 := bytes.
Definition Message2 := bytes.
Definition BaseOTOutput := bytes.
Definition GadgetVector := bytes.

Record ThresholdSigner : Type := {
  id : Z;
  others : gset Z;
  sigBatchSize : Z;
  protocolId : bytes;
  comms : option Commitments;
  commsForZero : option (gmap Z CommitmentsForZeroSharing);
  msg1s : option (gmap Z Message1);
  msg2s : option (gmap Z Message2);
  round1State : option bytes;
  round1Output : option bytes;
  round2State : option bytes;
  round2Output : option bytes
}.

(** [constructor(id, others, sigBatchSize, protocolId)]: every optional
    field starts [undefined]. *)
Definition new (id : Z) (others : gset Z) (sigBatchSize : Z) (protocolId : bytes)
  : ThresholdSigner :=
  {| id := id; others := others; sigBatchSize := sigBatchSize; protocolId := protocolId;
     comms := None; commsForZero := None; msg1s := None; msg2s := None;
     round1State := None; round1Output := None; round2State := None; round2Output := None |}.

Definition hasStarted (s : ThresholdSigner) : bool := bool_decide (round1State s <> None).
Definition hasFinishedRound1 (s : ThresholdSigner) : bool := bool_decide (round1Output s <> None).
Definition hasStartedRound2 (s : ThresholdSigner) : bool := bool_decide (round2State s <> None).
Definition hasFinishedRound2 (s : ThresholdSigner) : bool := bool_decide (round2Output s <> None).

Definition ensureRound1Started (s : ThresholdSigner) : Result unit :=
  throw_if (negb (hasStarted s)) Round1NotStarted.
Definition ensureRound1Finished (s : ThresholdSigner) : Result unit :=
  throw_if (negb (hasFinishedRound1 s)) Round1NotFinished.
Definition ensureRound2Started (s : ThresholdSigner) : Result unit :=
  throw_if (negb (hasStartedRound2 s)) Round2NotStarted.
Definition ensureRound2Finished (s : ThresholdSigner) : Result unit :=
  throw_if (negb (hasFinishedRound2 s)) Round2NotFinished.

(** [this.round1State as Uint8Array]: after the guard the cast reads the
    stored state. *)
Definition cast (o : option bytes) : Result bytes :=
  match o with Some b => Ok b | None => Throw TypeError end.

(** The abstract protocol functions a concrete signer supplies
    ([protected abstract ...Func()]); they call into the WASM back-end and
    may fail there. *)
Class SignerFuncs : Type := {
  startRound1Func : Z -> Z -> gset Z -> bytes -> Result (bytes * bytes * gmap Z bytes);
  processCommFunc : bytes -> Z -> bytes -> bytes -> Result bytes;
  getSharesForOtherFunc : bytes -> Z -> Result (bytes * bytes);
  getSharesForOthersFunc : bytes -> list Z -> Result (list (bytes * bytes));
  processSharesFunc : bytes -> Z -> bytes -> bytes -> Result bytes;
  finishRound1Func : bytes -> bytes -> Result bytes;
  startRound2Func : Z -> gset Z -> bytes -> bytes -> bytes -> Result (bytes * gmap Z bytes);
  recvMsg1Func : bytes -> Z -> bytes -> bytes -> Result (bytes * bytes);
  recvMsg2Func : bytes -> Z -> bytes -> bytes -> Result bytes;
  finishRound2Func : bytes -> Result bytes
}.

Section Signer.
Context `{F : SignerFuncs}.

Definition set_round1State (s : ThresholdSigner) (st : bytes) : ThresholdSigner :=
  {| id := id s; others := others s; sigBatchSize := sigBatchSize s;
     protocolId := protocolId s; comms := comms s; commsForZero := commsForZero s;
     msg1s := msg1s s; msg2s := msg2s s;
     round1State := Some st; round1Output := round1Output s;
     round2State := round2State s; round2Output := round2Output s |}.

Definition set_round2State (s : ThresholdSigner) (st : bytes) : ThresholdSigner :=
  {| id := id s; others := others s; sigBatchSize := sigBatchSize s;
     protocolId := protocolId s; comms := comms s; commsForZero := commsForZero s;
     msg1s := msg1s s; msg2s := msg2s s;
     round1State := round1State s; round1Output := round1Output s;
     round2State := Some st; round2Output := round2Output s |}.

Definition startRound1 (s : ThresholdSigner)
  : Result ((Commitments * gmap Z CommitmentsForZeroSharing) * ThresholdSigner) :=
  r ← startRound1Func (sigBatchSize s) (id s) (others s) (protocolId s);
  let '(r0, r1, r2) := r in
  (* the loop copies every entry of [r[2]] into a fresh map *)
  let cz : gmap Z CommitmentsForZeroSharing := r2 in
  Ok ((r1, cz),
      {| id := id s; others := others s; sigBatchSize := sigBatchSize s;
         protocolId := protocolId s; comms := Some r1; commsForZero := Some cz;
         msg1s := msg1s s; msg2s := msg2s s;
         round1State := Some r0; round1Output := round1Output s;
         round2State := round2State s; round2Output := round2Output s |}).

Definition processReceivedCommitments (s : ThresholdSigner) (senderId : Z)
    (c : Commitments) (commsZeroShare : CommitmentsForZeroSharing)
  : Result ThresholdSigner :=
  ensureRound1Started s;;
  st ← cast (round1State s);
  st' ← processCommFunc st senderId c commsZeroShare;
  Ok (set_round1State s st').

Definition getSharesForOtherSigner (s : ThresholdSigner) (signerId : Z)
  : Result (Shares * ZeroShares) :=
  ensureRound1Started s;;
  st ← cast (round1State s);
  getSharesForOtherFunc st signerId.

Definition getSharesForOtherSigners (s : ThresholdSigner) (signerIds : list Z)
  : Result (list (Shares * ZeroShares)) :=
  ensureRound1Started s;;
  st ← cast (round1State s);
  getSharesForOthersFunc st signerIds.

Definition processReceivedShares (s : ThresholdSigner) (senderId : Z)
    (shares : Shares) (zeroShares : ZeroShares) : Result ThresholdSigner :=
  ensureRound1Started s;;
  st ← cast (round1State s);
  st' ← processSharesFunc st senderId shares zeroShares;
  Ok (set_round1State s st').

Definition startRound2 (s : ThresholdSigner) (baseOTOut : BaseOTOutput)
    (gadgetVector : GadgetVector) : Result (gmap Z Message1 * ThresholdSigner) :=
  ensureRound1Finished s;;
  out ← cast (round1Output s);
  r ← startRound2Func (id s) (others s) out baseOTOut gadgetVector;
  let '(r0, r1) := r in
  let m1 : gmap Z Message1 := r1 in
  Ok (m1,
      {| id := id s; others := others s; sigBatchSize := sigBatchSize s;
         protocolId := protocolId s; comms := comms s; commsForZero := commsForZero s;
         msg1s := Some m1; msg2s := msg2s s;
         round1State := round1State s; round1Output := round1Output s;
         round2State := Some r0; round2Output := round2Output s |}).

Definition processReceivedMsg1 (s : ThresholdSigner) (senderId : Z) (msg : Message1)
    (gadgetVector : GadgetVector) : Result (Message2 * ThresholdSigner) :=
  ensureRound2Started s;;
  st ← cast (round2State s);
  r ← recvMsg1Func st senderId msg gadgetVector;
  let '(r0, m) := r in
  let old : gmap Z Message2 := match msg2s s with Some m2 => m2 | None => ∅ end in
  Ok (m,
      {| id := id s; others := others s; sigBatchSize := sigBatchSize s;
         protocolId := protocolId s; comms := comms s; commsForZero := commsForZero s;
         msg1s := msg1s s; msg2s := Some (<[senderId := m]> old);
         round1State := round1State s; round1Output := round1Output s;
         round2State := Some r0; round2Output := round2Output s |}).

Definition processReceivedMsg2 (s : ThresholdSigner) (senderId : Z) (msg : Message2)
    (gadgetVector : GadgetVector) : Result ThresholdSigner :=
  ensureRound2Started s;;
  st ← cast (round2State s);
  st' ← recvMsg2Func st senderId msg gadgetVector;
  Ok (set_round2State s st').

Definition finishRound2 (s : ThresholdSigner) : Result ThresholdSigner :=
  ensureRound2Started s;;
  st ← cast (round2State s);
  out ← finishRound2Func st;
  Ok {| id := id s; others := others s; sigBatchSize := sigBatchSize s;
        protocolId := protocolId s; comms := comms s; commsForZero := commsForZero s;
        msg1s := msg1s s; msg2s := msg2s s;
        round1State := round1State s; round1Output := round1Output s;
        round2State := round2State s; round2Output := Some out |}.

(** [protected finishR1(secretKey)], reached through the concrete
    signer's [finishRound1]. *)
Definition finishR1 (s : ThresholdSigner) (secretKey : bytes) : Result ThresholdSigner :=
  ensureRound1Started s;;
  st ← cast (round1State s);
  out ← finishRound1Func st secretKey;
  Ok {| id := id s; others := others s; sigBatchSize := sigBatchSize s;
        protocolId := protocolId s; comms := comms s; commsForZero := commsForZero s;
        msg1s := msg1s s; msg2s := msg2s s;
        round1State := round1State s; round1Output := Some out;
        round2State := round2State s; round2Output := round2Output s |}.

(** *** Histories of method calls *)

Inductive Call : Type :=
  | CStartRound1
  | CProcessReceivedCommitments (senderId : Z) (c : Commitments)
      (commsZeroShare : CommitmentsForZeroSharing)
  | CGetSharesForOtherSigner (signerId : Z)
  | CGetSharesForOtherSigners (signerIds : list Z)
  | CProcessReceivedShares (senderId : Z) (shares : Shares) (zeroShares : ZeroShares)
  | CFinishR1 (secretKey : bytes)
  | CStartRound2 (baseOTOut : BaseOTOutput) (gadgetVector : GadgetVector)
  | CProcessReceivedMsg1 (senderId : Z) (msg : Message1) (gadgetVector : GadgetVector)
  | CProcessReceivedMsg2 (senderId : Z) (msg : Message2) (gadgetVector : GadgetVector)
  | CFinishRound2.

(** The effect of one call on the signer; the returned value is dropped. *)
Definition exec (s : ThresholdSigner) (c : Call) : Result ThresholdSigner :=
  match c with
  | CStartRound1 => r ← startRound1 s; Ok (snd r)
  | CProcessReceivedCommitments i c z => processReceivedCommitments s i c z
  | CGetSharesForOtherSigner i => _ ← getSharesForOtherSigner s i; Ok s
  | CGetSharesForOtherSigners l => _ ← getSharesForOtherSigners s l; Ok s
  | CProcessReceivedShares i sh z => processReceivedShares s i sh z
  | CFinishR1 sk => finishR1 s sk
  | CStartRound2 b g => r ← startRound2 s b g; Ok (snd r)
  | CProcessReceivedMsg1 i m g => r ← processReceivedMsg1 s i m g; Ok (snd r)
  | CProcessReceivedMsg2 i m g => processReceivedMsg2 s i m g
  | CFinishRound2 => finishRound2 s
  end.

(** A call that throws leaves the object as it was (every method checks
    its guard and calls the back-end before its first assignment), and
    the caller may go on using the object. *)
Definition step (s : ThresholdSigner) (c : Call) : ThresholdSigner :=
  match exec s c with
  | Ok s' => s'
  | Throw _ => s
  end.

Definition run (s : ThresholdSigner) (cs : list Call) : ThresholdSigner :=
  fold_left step cs s.

Definition isStartRound1 (c : Call) : bool :=
  match c with CStartRound1 => true | _ => false end.
Definition isFinishR1 (c : Call) : bool :=
  match c with CFinishR1 _ => true | _ => false end.
Definition isStartRound2 (c : Call) : bool :=
  match c with CStartRound2 _ _ => true | _ => false end.

End Signer.
End ThresholdSig.

(** ** Proof specifications: [src/composite-proof/proof-spec.ts] *)

Module ProofSpec.

(** Modelled from the spec: the containers [Statements] and [MetaStatements]
    of [./statement], which is not among the sources.  They hold the encoded
    entries in the order they were added ([values]), and [add] returns the
    index of the entry it appended.  The entries are opaque blobs produced by
    the statement factories, so the container is generic in their type. *)
Record Container (A : Type) : Type := { values : list A }.
Arguments values {A} c.

Definition empty {A : Type} : Container A := {| values := [] |}.

Definition add {A : Type} (c : Container A) (x : A) : Z * Container A :=
  (Z.of_nat (length (values c ++ [x])) - 1, {| values := values c ++ [x] |}).

(** [SetupParam] of [./setup-param] (not among the sources) wraps the bytes
    it exposes as [value]. *)
Record SetupParam : Type := { sp_value : bytes }.

(** The WASM entry point [generateProofSpecG1] and the validity check. *)
Class ProofSpecBackend (Stmt MetaStmt : Type) : Type := {
  generateProofSpecG1 :
    list Stmt -> list MetaStmt -> list bytes -> option bytes -> Result bytes;
  isProofSpecG1Valid : bytes -> bool
}.

Record ProofSpecG1 : Type := { value : bytes }.

Section Spec.
Context {Stmt MetaStmt : Type} `{B : ProofSpecBackend Stmt MetaStmt}.

Definition Statements := Container Stmt.
Definition MetaStatements := Container MetaStmt.

(** [new ProofSpecG1(statements, metaStatements, setupParams?, context?)] *)
Definition newProofSpecG1 (statements : Statements) (metaStatements : MetaStatements)
    (setupParams : option (list SetupParam)) (context : option bytes)
  : Result ProofSpecG1 :=
  let params := map sp_value (default [] setupParams) in
  v ← generateProofSpecG1 (values statements) (values metaStatements) params context;
  Ok {| value := v |}.

Definition isValid (p : ProofSpecG1) : bool := isProofSpecG1Valid (value p).

Record QuasiProofSpecG1 : Type := {
  statements : Statements;
  metaStatements : MetaStatements;
  setupParams : list SetupParam;
  context : option bytes
}.

(** [new QuasiProofSpecG1(statements?, metaStatements?, setupParams?, context?)]:
    [x || dflt] keeps [x] unless it is [undefined] (objects and arrays are
    truthy). *)
Definition newQuasiProofSpecG1 (st : option Statements) (ms : option MetaStatements)
    (sp : option (list SetupParam)) (ctx : option bytes) : QuasiProofSpecG1 :=
  {| statements := default empty st;
     metaStatements := default empty ms;
     setupParams := default [] sp;
     context := ctx |}.

Definition addStatement (q : QuasiProofSpecG1) (statement : Stmt) : Z * QuasiProofSpecG1 :=
  let '(i, c) := add (statements q) statement in
  (i, {| statements := c; metaStatements := metaStatements q;
         setupParams := setupParams q; context := context q |}).

Definition addMetaStatement (q : QuasiProofSpecG1) (metaStatement : MetaStmt)
  : Z * QuasiProofSpecG1 :=
  let '(i, c) := add (metaStatements q) metaStatement in
  (i, {| statements := statements q; metaStatements := c;
         setupParams := setupParams q; context := context q |}).

Definition addSetupParam (q : QuasiProofSpecG1) (setupParam : SetupParam)
  : Z * QuasiProofSpecG1 :=
  let l := setupParams q ++ [setupParam] in
  (Z.of_nat (length l) - 1,
   {| statements := statements q; metaStatements := metaStatements q;
      setupParams := l; context := context q |}).

Definition setContext (q : QuasiProofSpecG1) (ctx : bytes) : QuasiProofSpecG1 :=
  {| statements := statements q; metaStatements := metaStatements q;
     setupParams := setupParams q; context := Some ctx |}.

Definition toProofSpec (q : QuasiProofSpecG1) : Result ProofSpecG1 :=
  newProofSpecG1 (statements q) (metaStatements q) (Some (setupParams q)) (context q).

End Spec.
Arguments QuasiProofSpecG1 : clear implicits.
Arguments Statements : clear implicits.
Arguments MetaStatements : clear implicits.
End ProofSpec.

(** ** JS numbers as they occur in schema documents *)

Module JsNumber.

(** A [number] is modelled by a decimal literal that denotes it,
    [mant * 10^expo].  Schema documents carry short literals ([0], [-100],
    [0.001], ...): for a literal of at most 15 significant digits the decimal
    value is also the shortest decimal that reads back as the same double,
    which is the value [Number.prototype.toString] prints.  [NaN] and the
    infinities are not JSON and are left out. *)
Record number : Type := { mant : Z; expo : Z }.

Definition of_Z (z : Z) : number := {| mant := z; expo := 0 |}.

Definition zero : number := of_Z 0.

(** [10^-k], written [0.0..01] with [k] decimals. *)
Definition pow10_neg (k : nat) : number := {| mant := 1; expo := - Z.of_nat k |}.

(** [x >= 0] *)
Definition ge_zero (x : number) : bool := 0 <=? mant x.

(** Drop the trailing zeros of the mantissa. *)
Fixpoint strip_zeros (fuel : nat) (m e : Z) : Z * Z :=
  match fuel with
  | O => (m, e)
  | S fuel' =>
      if (m mod 10 =? 0) then strip_zeros fuel' (m / 10) (e + 1) else (m, e)
  end.

(** The pair [(s, e)] with [|x| = s * 10^e] and [s] not a multiple of ten
    (for [x <> 0]). *)
Definition normal (x : number) : Z * Z :=
  if mant x =? 0 then (0, 0)
  else strip_zeros (S (Z.to_nat (Z.log2 (Z.abs (mant x))))) (Z.abs (mant x)) (expo x).

(** The value denoted, as a fraction [num / den]. *)
Definition num (x : number) : Z := if 0 <=? expo x then mant x * 10 ^ expo x else mant x.
Definition den (x : number) : Z := if 0 <=? expo x then 1 else 10 ^ (- expo x).

(** [x] denotes [10^-k]. *)
Definition is_pow10_neg (x : number) (k : nat) : Prop :=
  num x * 10 ^ Z.of_nat k = den x.

(** [x === y] on numbers: the same value. *)
Definition eqb (x y : number) : bool := (num x * den y =? num y * den x).

(** [Number.isInteger(x)] *)
Definition isInteger (x : number) : bool := 0 <=? snd (normal x).

Definition digits (s : Z) : string :=
  match s with
  | Zpos p => NilEmpty.string_of_uint (Pos.to_uint p)
  | _ => "0"
  end.

Fixpoint zeros (n : nat) : string :=
  match n with
  | O => EmptyString
  | S n' => String "0" (zeros n')
  end.

(** [Number.prototype.toString()] in radix 10 (ECMA-262, Number::toString):
    with [k] the number of digits of [s] and [n = k + e],
    - [k <= n <= 21]: the digits followed by [n - k] zeros;
    - [0 < n <= 21]: the digits with a decimal point after the first [n];
    - [-6 < n <= 0]: ["0."], then [-n] zeros, then the digits;
    - otherwise the exponential notation [d.ddde±x]. *)
Definition toString (x : number) : string :=
  let '(s, e) := normal x in
  if s =? 0 then "0"
  else
    let sign := if mant x <? 0 then "-" else "" in
    let ds := digits s in
    let k := Z.of_nat (String.length ds) in
    let n := k + e in
    let body :=
      if (k <=? n) && (n <=? 21) then ds +:+ zeros (Z.to_nat (n - k))
      else if (0 <? n) && (n <=? 21) then
        String.substring 0 (Z.to_nat n) ds +:+ "." +:+
        String.substring (Z.to_nat n) (Z.to_nat (k - n)) ds
      else if (-6 <? n) && (n <=? 0) then
        "0." +:+ zeros (Z.to_nat (- n)) +:+ ds
      else
        let ex := n - 1 in
        let exs := (if 0 <=? ex then "+" else "-") +:+ digits (Z.abs ex) in
        if k =? 1 then ds +:+ "e" +:+ exs
        else String.substring 0 1 ds +:+ "." +:+
             String.substring 1 (Z.to_nat (k - 1)) ds +:+ "e" +:+ exs
    in
    sign +:+ body.

(** The digits a positive number can start with. *)
Definition nonzero_digit (c : ascii) : Prop :=
  In c ["1"; "2"; "3"; "4"; "5"; "6"; "7"; "8"; "9"]%char.

End JsNumber.

(** ** JSON values and JS objects *)

Module Json.
Import JsNumber.

Local Set Warnings "-register-all".
Inductive json : Type :=
  | JNull
  | JBool (b : bool)
  | JNum (n : number)
  | JStr (s : string)
  | JArr (items : list json)
  | JObj (fields : list (string * json)).

(** A JS object used as a dictionary: its own properties in insertion order.
    (A JS engine lists integer-like keys first; the functions below never
    depend on the order in which an object lists its keys, because
    flattening sorts the names it returns.) *)
Definition dict (A : Type) : Type := list (string * A).

(** [o[k]], [undefined] being [None] *)
Fixpoint dict_get {A : Type} (k : string) (o : dict A) : option A :=
  match o with
  | [] => None
  | (k', v) :: o' => if String.eqb k k' then Some v else dict_get k o'
  end.

(** [o[k] = v]: an existing key keeps its place, a new key goes last. *)
Fixpoint dict_set {A : Type} (k : string) (v : A) (o : dict A) : dict A :=
  match o with
  | [] => [(k, v)]
  | (k', v') :: o' =>
      if String.eqb k k' then (k, v) :: o' else (k', v') :: dict_set k v o'
  end.

Definition dict_keys {A : Type} (o : dict A) : list string := map fst o.

(** [{ ...a, ...b }] *)
Definition spread {A : Type} (a b : dict A) : dict A :=
  fold_left (fun acc kv => dict_set (fst kv) (snd kv) acc) b a.

(** The key under which an array lists its [i]-th item. *)
Definition index_key (i : nat) : string := digits (Z.of_nat i).

Fixpoint array_entries_from (i : nat) (items : list json) : dict json :=
  match items with
  | [] => []
  | x :: items' => (index_key i, x) :: array_entries_from (S i) items'
  end.

Definition array_entries (items : list json) : dict json := array_entries_from 0 items.

Fixpoint string_entries_from (i : nat) (s : string) : dict json :=
  match s with
  | EmptyString => []
  | String c s' => (index_key i, JStr (String c EmptyString)) :: string_entries_from (S i) s'
  end.

(** [Object.entries(v)]: throws a [TypeError] on [null]. *)
Definition Object_entries (v : json) : Result (dict json) :=
  match v with
  | JNull => Throw TypeError
  | JObj fields => Ok fields
  | JArr items => Ok (array_entries items)
  | JStr s => Ok (string_entries_from 0 s)
  | JBool _ | JNum _ => Ok []
  end.

(** [v.k] for the property names the sources read ([$ref], [type],
    [properties], [items], [minimum], [multipleOf], [compress],
    [decimalPlaces]), none of which is a built-in property of an array, a
    string, a number or a boolean.  Reading a property of [null] throws. *)
Definition get_prop (v : json) (k : string) : Result (option json) :=
  match v with
  | JNull => Throw TypeError
  | JObj fields => Ok (dict_get k fields)
  | JArr items => Ok (dict_get k (array_entries items))
  | JStr _ | JBool _ | JNum _ => Ok None
  end.

(** [{ ...v }] for an arbitrary value *)
Definition spread_value (v : json) : dict json :=
  match v with
  | JObj fields => fields
  | JArr items => array_entries items
  | JStr s => string_entries_from 0 s
  | JNull | JBool _ | JNum _ => []
  end.

(** JS truthiness *)
Definition truthy (v : json) : bool :=
  match v with
  | JNull => false
  | JBool b => b
  | JNum n => negb (mant n =? 0)
  | JStr s => negb (String.eqb s "")
  | JArr _ | JObj _ => true
  end.

(** [typeof v === 'object' && v !== null] *)
Definition is_object (v : json) : bool :=
  match v with
  | JArr _ | JObj _ => true
  | _ => false
  end.

(** [v === s] for a string constant [s] *)
Definition is_str (v : option json) (s : string) : bool :=
  match v with
  | Some (JStr s') => String.eqb s' s
  | _ => false
  end.

(** *** Strings *)

(** [k.lastIndexOf('.')] followed by [k.substring(0, pos)] and
    [k.substring(pos + 1)]; without a dot ([pos = -1]) the two substrings are
    [""] and [k]. *)
Fixpoint split_last_dot_aux (s : string) : option (string * string) :=
  match s with
  | EmptyString => None
  | String c r =>
      match split_last_dot_aux r with
      | Some (n, t) => Some (String c n, t)
      | None => if Ascii.eqb c "." then Some (EmptyString, r) else None
      end
  end.

Definition split_last_dot (s : string) : string * string :=
  match split_last_dot_aux s with
  | Some p => p
  | None => (EmptyString, s)
  end.

(** [Array.prototype.sort()] on strings: ascending order of code units.
    Any sort returns the same list; insertion sort is used here. *)
Fixpoint insert_sorted (x : string) (l : list string) : list string :=
  match l with
  | [] => [x]
  | y :: l' => if String.leb x y then x :: l else y :: insert_sorted x l'
  end.

Definition sort_strings (l : list string) : list string :=
  fold_right insert_sorted [] l.

(** [names.indexOf(name)], [-1] when absent *)
Fixpoint indexOf_from (i : Z) (name : string) (names : list string) : Z :=
  match names with
  | [] => -1
  | n :: names' => if String.eqb n name then i else indexOf_from (i + 1) name names'
  end.

Definition indexOf (names : list string) (name : string) : Z := indexOf_from 0 name names.

(** [s.split(sep)] for a one-character separator *)
Fixpoint split_on (sep : ascii) (s : string) : list string :=
  match s with
  | EmptyString => [EmptyString]
  | String c r =>
      if Ascii.eqb c sep then EmptyString :: split_on sep r
      else match split_on sep r with
           | [] => [String c EmptyString]
           | h :: t => String c h :: t
           end
  end.

(** [s.replace(/\r?\n/g, '')] *)
Fixpoint strip_newlines (s : string) : string :=
  match s with
  | EmptyString => EmptyString
  | String c r =>
      if Ascii.eqb c "010" then strip_newlines r
      else if Ascii.eqb c "013" then
        match r with
        | String c' r' =>
            if Ascii.eqb c' "010" then strip_newlines r'
            else String c (strip_newlines r)
        | EmptyString => String c EmptyString
        end
      else String c (strip_newlines r)
  end.

(** [s.substring(n)] *)
Fixpoint drop_chars (n : nat) (s : string) : string :=
  match n, s with
  | O, _ => s
  | S n', String _ r => drop_chars n' r
  | S _, EmptyString => EmptyString
  end.

End Json.

(** ** Credential schemas: [src/anonymous-credentials/schema.ts] *)

Module Schema.
Import JsNumber Json.

(** Modelled from the spec: the string constants of [./types-and-consts],
    which is not among the sources.  Section 6 lists the reserved attribute
    names [cryptoVersion], [credentialSchema], [credentialSubject] and
    [credentialStatus], the status leaves [id], [type], [revocationCheck] and
    [revocationId], and the schema type tag [JsonSchemaValidator2018]. *)
Definition CRYPTO_VERSION_STR : string := "cryptoVersion".
Definition SCHEMA_STR : string := "credentialSchema".
Definition SUBJECT_STR : string := "credentialSubject".
Definition STATUS_STR : string := "credentialStatus".
Definition ID_STR : string := "id".
Definition TYPE_STR : string := "type".
Definition REV_CHECK_STR : string := "revocationCheck".
Definition REV_ID_STR : string := "revocationId".
Definition SCHEMA_TYPE_STR : string := "JsonSchemaValidator2018".

Definition META_SCHEMA_STR : string := "$schema".

(** [`${a}.${b}`] *)
Definition dotted (a b : string) : string := a +:+ "." +:+ b.

Record ISchemaParsingOpts : Type := {
  useDefaults : bool;
  defaultMinimumInteger : number;
  defaultDecimalPlaces : number
}.

(** [Partial<ISchemaParsingOpts>] *)
Record PartialParsingOpts : Type := {
  useDefaults_opt : option bool;
  defaultMinimumInteger_opt : option number;
  defaultDecimalPlaces_opt : option number
}.

Definition DefaultSchemaParsingOpts : ISchemaParsingOpts :=
  {| useDefaults := false;
     defaultMinimumInteger := of_Z (- (2 ^ 32 - 1));
     defaultDecimalPlaces := of_Z 0 |}.

(** [{ ...DefaultSchemaParsingOpts, ...parsingOpts }] *)
Definition mergeParsingOpts (p : PartialParsingOpts) : ISchemaParsingOpts :=
  {| useDefaults := default (useDefaults DefaultSchemaParsingOpts) (useDefaults_opt p);
     defaultMinimumInteger :=
       default (defaultMinimumInteger DefaultSchemaParsingOpts) (defaultMinimumInteger_opt p);
     defaultDecimalPlaces :=
       default (defaultDecimalPlaces DefaultSchemaParsingOpts) (defaultDecimalPlaces_opt p) |}.

(** A complete options object read where a partial one is expected. *)
Definition asPartial (o : ISchemaParsingOpts) : PartialParsingOpts :=
  {| useDefaults_opt := Some (useDefaults o);
     defaultMinimumInteger_opt := Some (defaultMinimumInteger o);
     defaultDecimalPlaces_opt := Some (defaultDecimalPlaces o) |}.

(** The default of the constructor's second parameter. *)
Definition noParsingOpts : PartialParsingOpts := asPartial DefaultSchemaParsingOpts.

Definition VERSION : string := "0.0.1".

Definition STR_TYPE : string := "string".
Definition STR_REV_TYPE : string := "stringReversible".
Definition POSITIVE_INT_TYPE : string := "positiveInteger".
Definition INT_TYPE : string := "integer".
Definition POSITIVE_NUM_TYPE : string := "positiveDecimalNumber".
Definition NUM_TYPE : string := "decimalNumber".

Definition RESERVED_NAMES : list string :=
  [CRYPTO_VERSION_STR; SCHEMA_STR; SUBJECT_STR; STATUS_STR].

Definition string_leaf : json := JObj [("type", JStr "string")].

Definition IMPLICIT_FIELDS : dict json :=
  [(CRYPTO_VERSION_STR, string_leaf); (SCHEMA_STR, string_leaf)].

Definition JSON_SCHEMA_CUSTOM_DEFS : dict json :=
  [("encryptableString", string_leaf); ("encryptableCompString", string_leaf)].

Definition JSON_SCHEMA_OVERRIDE_DEFS : dict json :=
  [("#/definitions/encryptableString",
      JObj [("type", JStr STR_REV_TYPE); ("compress", JBool false)]);
   ("#/definitions/encryptableCompString",
      JObj [("type", JStr STR_REV_TYPE); ("compress", JBool true)])].

Definition IGNORE_GENERIC_VALIDATION : list string :=
  [CRYPTO_VERSION_STR; SCHEMA_STR; dotted STATUS_STR ID_STR;
   dotted STATUS_STR REV_CHECK_STR; dotted STATUS_STR REV_ID_STR].

Definition POSSIBLE_TYPES : list string :=
  [STR_TYPE; STR_REV_TYPE; POSITIVE_INT_TYPE; INT_TYPE; POSITIVE_NUM_TYPE; NUM_TYPE].

Definition mem_string (s : string) (l : list string) : bool :=
  existsb (String.eqb s) l.

(** The names every object inherits from [Object.prototype]: looking one of
    them up in an object literal does not give [undefined]. *)
Definition OBJECT_PROTOTYPE_KEYS : list string :=
  ["constructor"; "__proto__"; "hasOwnProperty"; "isPrototypeOf";
   "propertyIsEnumerable"; "toLocaleString"; "toString"; "valueOf";
   "__defineGetter__"; "__defineSetter__"; "__lookupGetter__"; "__lookupSetter__"].

(** What the sources use of the JS run time and of the [json-pointer]
    package. *)
Class JsRuntime : Type := {
  JSON_stringify : json -> string;
  JSON_parse : string -> Result json;
  encodeURIComponent : string -> string;
  decodeURIComponent : string -> Result string;
  pointer_get : json -> string -> Result json
}.

(** *** Numeric leaves *)

(** [0*1$] *)
Fixpoint zeros_then_one (r : string) : bool :=
  match r with
  | String c r' =>
      if Ascii.eqb c "1" then (match r' with EmptyString => true | _ => false end)
      else if Ascii.eqb c "0" then zeros_then_one r'
      else false
  | EmptyString => false
  end.

(** [s.match(/^0?\.(0*1$)/)]: the captured group, [None] for [null]. *)
Definition match_decimal_point (s : string) : option string :=
  let after_point :=
    match s with
    | String c (String c' r) =>
        if Ascii.eqb c "0" && Ascii.eqb c' "." then Some r
        else if Ascii.eqb c "." then Some (String c' r)
        else None
    | String c EmptyString => if Ascii.eqb c "." then Some EmptyString else None
    | EmptyString => None
    end in
  match after_point with
  | Some r => if zeros_then_one r then Some r else None
  | None => None
  end.

Definition getDecimalPlaces (d : number) : Result number :=
  match match_decimal_point (toString d) with
  | None => Throw (BadMultipleOf (toString d))
  | Some m1 => Ok (of_Z (Z.of_nat (String.length m1)))
  end.

(** A field declared [number | undefined] in the TypeScript signature. *)
Definition get_number (node : json) (k : string) : Result (option number) :=
  v ← get_prop node k;
  match v with
  | None => Ok None
  | Some (JNum n) => Ok (Some n)
  | Some _ => Throw OutsideModel
  end.

Definition is_None {A : Type} (o : option A) : bool :=
  match o with None => true | Some _ => false end.

Definition parseIntegerType (node : json) (parsingOpts : ISchemaParsingOpts) : Result json :=
  minimum ← get_number node "minimum";
  throw_if (negb (useDefaults parsingOpts) && is_None minimum) NoMinimum;;
  let min := default (defaultMinimumInteger parsingOpts) minimum in
  Ok (if ge_zero min
      then JObj [("type", JStr POSITIVE_INT_TYPE)]
      else JObj [("type", JStr INT_TYPE); ("minimum", JNum min)]).

Definition parseNumberType (node : json) (parsingOpts : ISchemaParsingOpts) : Result json :=
  minimum ← get_number node "minimum";
  multipleOf ← get_number node "multipleOf";
  throw_if (negb (useDefaults parsingOpts) && (is_None minimum || is_None multipleOf))
    NoMinimumOrMultipleOf;;
  let min := default (defaultMinimumInteger parsingOpts) minimum in
  d ← match multipleOf with
      | Some m => getDecimalPlaces m
      | None => Ok (defaultDecimalPlaces parsingOpts)
      end;
  Ok (if ge_zero min
      then JObj [("type", JStr POSITIVE_NUM_TYPE); ("decimalPlaces", JNum d)]
      else JObj [("type", JStr NUM_TYPE); ("minimum", JNum min); ("decimalPlaces", JNum d)]).

(** *** Conversion to the internal schema *)

(** [Object.entries(props).forEach(([k, v]) => { result[k] = conv(v) })].
    The value is converted first and assigned then.  The assignment
    [result['__proto__'] = x] creates no key: it sets the prototype of
    [result], through which later reads of [result] go.  Objects with a
    prototype of their own are not represented, so a key [__proto__] whose
    value converts is [OutsideModel]. *)
Fixpoint convert_entries (conv : json -> Result json) (entries : dict json)
    (result : dict json) : Result (dict json) :=
  match entries with
  | [] => Ok result
  | (k, v) :: entries' =>
      x ← conv v;
      throw_if (mem_string k ["__proto__"]) OutsideModel;;
      convert_entries conv entries' (dict_set k x result)
  end.

(** [items.map(conv)] *)
Fixpoint convert_items (conv : json -> Result json) (items : list json)
  : Result (list json) :=
  match items with
  | [] => Ok []
  | i :: items' =>
      x ← conv i;
      xs ← convert_items conv items';
      Ok (x :: xs)
  end.

(** [ref.replace('#', '')]: the first [#] is removed. *)
Fixpoint remove_first_hash (s : string) : string :=
  match s with
  | EmptyString => EmptyString
  | String c r => if Ascii.eqb c "#" then r else String c (remove_first_hash r)
  end.

Section Conversion.
Context `{RT : JsRuntime}.

(** [try { node = { ...pointer.get(rootNode, ref.replace('#', '')) } }
     catch (e) { throw new Error(...) }].  Whatever is thrown inside the
    block is rethrown as the pointer error.  The stack that [pointer.get]
    itself needs is not counted: when the stack runs out inside that call,
    the code rethrows the overflow as the pointer error too. *)
Definition resolve_pointer (rootNode : json) (ref : string) : Result json :=
  match pointer_get rootNode (remove_first_hash ref) with
  | Ok pointed => Ok (JObj (spread_value pointed))
  | Throw _ => Throw PointerError
  end.

(** The node a [$ref] stands for: [inl] when the conversion returns at once
    with an override, [inr node] when it goes on with [node]. *)
Definition resolve_ref (inputNode rootNode : json) : Result (json + json) :=
  ref ← get_prop inputNode "$ref";
  match ref with
  | Some r =>
      if truthy r then
        match r with
        | JStr s =>
            if mem_string s OBJECT_PROTOTYPE_KEYS then Throw OutsideModel
            else match dict_get s JSON_SCHEMA_OVERRIDE_DEFS with
                 | Some overrideRef => Ok (inl overrideRef)
                 | None => node ← resolve_pointer rootNode s; Ok (inr node)
                 end
        | _ => Throw OutsideModel
        end
      else Ok (inr inputNode)
  | None => Ok (inr inputNode)
  end.

(** [convertToInternalSchemaObj(inputNode, parsingOpts, nodeKeyName,
    rootObject)].  [nodeKeyName] only feeds the error messages and is left
    out.  A [$ref] may point anywhere in the document, also at a node that
    contains it, so the recursion is bounded by [fuel], the call depth the
    run time allows before a stack overflow. *)
Fixpoint convertToInternalSchemaObj (fuel : nat) (inputNode : json)
    (parsingOpts : ISchemaParsingOpts) (rootObject : option json) : Result json :=
  match fuel with
  | O => Throw StackOverflow
  | S fuel' =>
      let rootNode :=
        match rootObject with
        | Some r => if truthy r then r else inputNode
        | None => inputNode
        end in
      resolved ← resolve_ref inputNode rootNode;
      match resolved with
      | inl overrideRef => Ok overrideRef
      | inr node =>
          typ ← get_prop node "type";
          match typ with
          | None => Throw CannotParseNode
          | Some (JStr t) =>
              if String.eqb t "string" then Ok node
              else if String.eqb t "integer" then parseIntegerType node parsingOpts
              else if String.eqb t "number" then parseNumberType node parsingOpts
              else if String.eqb t "object" then
                props ← get_prop node "properties";
                match props with
                | None => Throw NoPropertiesObject
                | Some p =>
                    entries ← Object_entries p;
                    result ← convert_entries
                      (fun v => convertToInternalSchemaObj fuel' v parsingOpts (Some rootNode))
                      entries [];
                    Ok (JObj result)
                end
              else if String.eqb t "array" then
                items ← get_prop node "items";
                match items with
                | Some (JArr l) =>
                    xs ← convert_items
                      (fun i => convertToInternalSchemaObj fuel' i parsingOpts (Some rootNode))
                      l;
                    Ok (JArr xs)
                | _ => Throw TypeError
                end
              else Throw UnknownSchemaType
          | Some _ => Throw UnknownSchemaType
          end
      end
  end.

End Conversion.

(** *** Shapes of schema nodes, for the statements about the conversion *)

(** A node [{ type: t, ... }] without [$ref]. *)
Definition plain_node (fields : dict json) (t : string) : Prop :=
  dict_get "$ref" fields = None /\ dict_get "type" fields = Some (JStr t).

(** The field [k] has its declared type [number | undefined]. *)
Definition number_field (fields : dict json) (k : string) (v : option number) : Prop :=
  dict_get k fields = option_map JNum v.

(** The [rootNode] of a call on [inputNode]. *)
Definition rootNodeOf (inputNode : json) (rootObject : option json) : json :=
  match rootObject with
  | Some r => if truthy r then r else inputNode
  | None => inputNode
  end.

Definition positiveIntegerLeaf : json := JObj [("type", JStr POSITIVE_INT_TYPE)].
Definition integerLeaf (min : number) : json :=
  JObj [("type", JStr INT_TYPE); ("minimum", JNum min)].
Definition positiveDecimalLeaf (places : number) : json :=
  JObj [("type", JStr POSITIVE_NUM_TYPE); ("decimalPlaces", JNum places)].
Definition decimalLeaf (min places : number) : json :=
  JObj [("type", JStr NUM_TYPE); ("minimum", JNum min); ("decimalPlaces", JNum places)].
Definition reversibleLeaf (compress : bool) : json :=
  JObj [("type", JStr STR_REV_TYPE); ("compress", JBool compress)].

(** *** Flattening *)

(** Modelled from the spec: [flattenTill2ndLastKey] of [./util], which is not
    among the sources, and the [flat] package it relies on.  Section 4.1: a
    nested object contributes [<parent>.<child>] entries, array items
    contribute [<parent>.<index>.<child>] with zero-based indices, the names
    are sorted in lexicographic order of full paths, and every name comes
    with the descriptor found under it.  As the name of the function says,
    the flattening stops at the last but one key: the innermost keys
    ([type], [minimum], ...) stay together as the descriptor of the leaf.
    The sort is one sort over all the names, those of the implicit fields
    included: the flattening test of the repository expects
    [credentialSchema; credentialSubject.fname; <version name>] for a subject
    with the single attribute [fname]. *)
Definition join_key (prev key : string) : string :=
  if String.eqb prev "" then key else prev +:+ "." +:+ key.

(** One level of [flat]: a non-empty object or array is entered, anything
    else is stored under the dotted key that leads to it. *)
Fixpoint flat_value (v : json) (newKey : string) (output : dict json) {struct v}
  : dict json :=
  match v with
  | JObj ((_ :: _) as fields) =>
      (fix go (fs : list (string * json)) (out : dict json) : dict json :=
         match fs with
         | [] => out
         | (k, x) :: fs' => go fs' (flat_value x (join_key newKey k) out)
         end) fields output
  | JArr ((_ :: _) as items) =>
      (fix go (i : nat) (its : list json) (out : dict json) : dict json :=
         match its with
         | [] => out
         | x :: its' => go (S i) its' (flat_value x (join_key newKey (index_key i)) out)
         end) 0%nat items output
  | _ => dict_set newKey v output
  end.

Definition flat (target : dict json) : dict json :=
  fold_left (fun out kv => flat_value (snd kv) (fst kv) out) target [].

(** [flattened[name][t] = temp[k]], creating [flattened[name]] on first use *)
Definition regroup_one (flattened : dict (dict json)) (kv : string * json)
  : dict (dict json) :=
  let '(name, t) := split_last_dot (fst kv) in
  let entry := default [] (dict_get name flattened) in
  dict_set name (dict_set t (snd kv) entry) flattened.

Definition regroup (temp : dict json) : dict (dict json) :=
  fold_left regroup_one temp [].

Definition FlattenedSchema : Type := list string * list json.

Definition flattenTill2ndLastKey (obj : dict json) : FlattenedSchema :=
  let flattened := regroup (flat obj) in
  let keys := sort_strings (dict_keys flattened) in
  let values := map (fun k => JObj (default [] (dict_get k flattened))) keys in
  (keys, values).

(** [flattenTill2ndLastKey({ ...this.IMPLICIT_FIELDS, ...schema })] *)
Definition flattenSchemaObj (schema : json) : FlattenedSchema :=
  flattenTill2ndLastKey (spread IMPLICIT_FIELDS (spread_value schema)).

(** The leaves of a flattened schema, as a relation.  [FlatKey v key r]: the
    value [v] found under the dotted key [key] makes [flat] store the dotted
    key [r]: a non-empty object is entered by each of its keys, a non-empty
    array by each of its zero-based indices, anything else is stored under
    [key] itself. *)
Definition entered (v : json) : bool :=
  match v with
  | JObj (_ :: _) | JArr (_ :: _) => true
  | _ => false
  end.

Inductive FlatKey : json -> string -> string -> Prop :=
  | FlatKey_field (fields : dict json) (key k : string) (x : json) (r : string) :
      In (k, x) fields -> FlatKey x (join_key key k) r -> FlatKey (JObj fields) key r
  | FlatKey_item (items : list json) (key : string) (i : nat) (x : json) (r : string) :
      items !! i = Some x -> FlatKey x (join_key key (index_key i)) r ->
      FlatKey (JArr items) key r
  | FlatKey_leaf (v : json) (key : string) :
      entered v = false -> FlatKey v key key.

(** [SubValue v key v' key']: flattening [v] found under [key] comes across
    the value [v'], under the dotted key [key']. *)
Inductive SubValue : json -> string -> json -> string -> Prop :=
  | SubValue_here (v : json) (key : string) : SubValue v key v key
  | SubValue_field (fields : dict json) (key k : string) (x v' : json) (key' : string) :
      In (k, x) fields -> SubValue x (join_key key k) v' key' ->
      SubValue (JObj fields) key v' key'
  | SubValue_item (items : list json) (key : string) (i : nat) (x v' : json)
      (key' : string) :
      items !! i = Some x -> SubValue x (join_key key (index_key i)) v' key' ->
      SubValue (JArr items) key v' key'.

(** [a < b] in the order [Array.prototype.sort()] uses on strings *)
Definition string_lt (a b : string) : Prop := String.ltb a b = true.

(** The two implicit names are the first two of [names], in either order. *)
Definition implicit_leaves_lead (names : list string) : bool :=
  match names with
  | a :: b :: _ =>
      (String.eqb a CRYPTO_VERSION_STR && String.eqb b SCHEMA_STR)
      || (String.eqb a SCHEMA_STR && String.eqb b CRYPTO_VERSION_STR)
  | _ => false
  end.

(** Induction on a JSON value, with the items of an array and the values of
    an object as induction hypotheses. *)
Fixpoint json_nested_ind (P : json -> Prop)
    (Hnull : P JNull) (Hbool : forall b, P (JBool b)) (Hnum : forall n, P (JNum n))
    (Hstr : forall s, P (JStr s))
    (Harr : forall items, Forall P items -> P (JArr items))
    (Hobj : forall fields, Forall (fun kv => P (snd kv)) fields -> P (JObj fields))
    (v : json) {struct v} : P v :=
  match v with
  | JNull => Hnull
  | JBool b => Hbool b
  | JNum n => Hnum n
  | JStr s => Hstr s
  | JArr items =>
      Harr items
        ((fix go (l : list json) : Forall P l :=
            match l with
            | [] => List.Forall_nil P
            | x :: l' =>
                @List.Forall_cons _ P x l' (json_nested_ind P Hnull Hbool Hnum Hstr Harr Hobj x) (go l')
            end) items)
  | JObj fields =>
      Hobj fields
        ((fix go (l : list (string * json)) : Forall (fun kv => P (snd kv)) l :=
            match l with
            | [] => List.Forall_nil _
            | kv :: l' =>
                @List.Forall_cons _ (fun kv => P (snd kv)) kv l'
                  (json_nested_ind P Hnull Hbool Hnum Hstr Harr Hobj (snd kv)) (go l')
            end) fields)
  end.

(** *** Validation of the internal schema *)

Definition validateStringType (schema : json) (fieldName : string) : Result unit :=
  f ← get_prop schema fieldName;
  match f with
  | Some v =>
      if truthy v then
        t ← get_prop v "type";
        throw_if (negb (is_str t "string")) (StatusFieldNotString fieldName)
      else Throw (StatusFieldNotString fieldName)
  | None => Throw (StatusFieldNotString fieldName)
  end.

(** [typeof v === 'boolean'] *)
Definition is_boolean (v : option json) : bool :=
  match v with Some (JBool _) => true | _ => false end.

(** [Number.isInteger(v)] *)
Definition Number_isInteger (v : option json) : bool :=
  match v with Some (JNum n) => isInteger n | _ => false end.

(** Modelled from the spec: [isPositiveInteger] of [../util], which is not
    among the sources.  Section 3 gives [decimalPlaces] the type [uint]: an
    integer that is not negative. *)
Definition isPositiveInteger (v : option json) : bool :=
  match v with Some (JNum n) => isInteger n && ge_zero n | _ => false end.

(** The body of the loop of [validateGeneric] for one flattened entry; the
    values [flattenTill2ndLastKey] returns are objects, so the [typeof]
    test of the loop never fires. *)
Definition validateEntry (ignoreKeys : list string) (name : string) (value : json)
  : Result unit :=
  if mem_string name ignoreKeys then Ok tt
  else
    typ ← get_prop value "type";
    match typ with
    | None => Throw (SchemaValueNoType name)
    | Some (JStr t) =>
        throw_if (negb (mem_string t POSSIBLE_TYPES)) (SchemaValueUnknownType name);;
        compress ← get_prop value "compress";
        minimum ← get_prop value "minimum";
        decimalPlaces ← get_prop value "decimalPlaces";
        if String.eqb t STR_REV_TYPE then
          throw_if (negb (is_boolean compress)) (SchemaValueBadField name)
        else if String.eqb t INT_TYPE then
          throw_if (negb (Number_isInteger minimum)) (SchemaValueBadField name)
        else if String.eqb t POSITIVE_NUM_TYPE then
          throw_if (negb (isPositiveInteger decimalPlaces)) (SchemaValueBadField name)
        else if String.eqb t NUM_TYPE then
          throw_if (negb (Number_isInteger minimum) || negb (isPositiveInteger decimalPlaces))
            (SchemaValueBadField name)
        else Ok tt
    | Some _ => Throw (SchemaValueUnknownType name)
    end.

Fixpoint validateEntries (ignoreKeys : list string) (names : list string)
    (values : list json) : Result unit :=
  match names, values with
  | name :: names', value :: values' =>
      validateEntry ignoreKeys name value;;
      validateEntries ignoreKeys names' values'
  | _, _ => Ok tt
  end.

Definition validateGeneric (schema : json) (ignoreKeys : list string) : Result unit :=
  let '(names, values) := flattenSchemaObj schema in
  validateEntries ignoreKeys names values.

Definition validate (schema : json) : Result unit :=
  subject ← get_prop schema SUBJECT_STR;
  throw_if (is_None subject) NoSubjectKey;;
  schemaStatus ← get_prop schema STATUS_STR;
  match schemaStatus with
  | Some st =>
      validateStringType st TYPE_STR;;
      validateStringType st ID_STR;;
      validateStringType st REV_CHECK_STR;;
      validateStringType st REV_ID_STR
  | None => Ok tt
  end;;
  validateGeneric schema IGNORE_GENERIC_VALIDATION.

(** *** The encoder configuration *)

(** Modelled from the spec: the encoding functions the factories of
    [Encoder] ([../bbs-plus], not among the sources) return.  Section 4.1
    lists one encoding per leaf type; a function is identified by the factory
    that made it and the arguments the factory was given. *)
Inductive EncodeFunc : Type :=
  | defaultEncodeFunc
  | reversibleEncoderString (compress : option json)
  | positiveIntegerEncoder
  | integerEncoder (minimum : option json)
  | positiveDecimalNumberEncoder (decimalPlaces : option json)
  | decimalNumberEncoder (minimum decimalPlaces : option json).

(** [new Encoder(encoders, defaultEncoder?)]; a [Map] lists its keys in
    insertion order. *)
Record Encoder : Type := {
  encoders : dict EncodeFunc;
  defaultEncoder : option EncodeFunc
}.

Definition encodeFuncFor (value : json) : Result EncodeFunc :=
  typ ← get_prop value "type";
  compress ← get_prop value "compress";
  minimum ← get_prop value "minimum";
  decimalPlaces ← get_prop value "decimalPlaces";
  Ok (if is_str typ STR_REV_TYPE then reversibleEncoderString compress
      else if is_str typ POSITIVE_INT_TYPE then positiveIntegerEncoder
      else if is_str typ INT_TYPE then integerEncoder minimum
      else if is_str typ POSITIVE_NUM_TYPE then positiveDecimalNumberEncoder decimalPlaces
      else if is_str typ NUM_TYPE then decimalNumberEncoder minimum decimalPlaces
      else defaultEncodeFunc).

Fixpoint setEncoders (names : list string) (values : list json)
    (encs : dict EncodeFunc) : Result (dict EncodeFunc) :=
  match names, values with
  | name :: names', value :: values' =>
      f ← encodeFuncFor value;
      setEncoders names' values' (dict_set name f encs)
  | _, _ => Ok encs
  end.

Definition initEncoder (schema : json) (parsingOptions : ISchemaParsingOpts)
  : Result Encoder :=
  let '(names, values) := flattenSchemaObj schema in
  encs ← setEncoders names values [];
  let encs := dict_set CRYPTO_VERSION_STR defaultEncodeFunc encs in
  let encs := dict_set SCHEMA_STR defaultEncodeFunc encs in
  Ok {| encoders := encs;
        defaultEncoder := if useDefaults parsingOptions then Some defaultEncodeFunc else None |}.

(** *** The schema object *)

Record CredentialSchema : Type := {
  version : string;
  schema : json;
  jsonSchema : json;
  parsingOptions : ISchemaParsingOpts;
  encoder : Encoder
}.

(** Modelled from the spec: the class [Versioned] (./versioned) is not among
    the sources.  The spec calls a schema a versioned object; the statement
    [credSchema.version = version] of [fromJSON] is read as the assignment
    of that field. *)
Definition set_version (cs : CredentialSchema) (v : string) : CredentialSchema :=
  {| version := v; schema := schema cs; jsonSchema := jsonSchema cs;
     parsingOptions := parsingOptions cs; encoder := encoder cs |}.

Definition flatten (cs : CredentialSchema) : FlattenedSchema :=
  flattenSchemaObj (schema cs).

Definition hasStatus (cs : CredentialSchema) : bool :=
  match get_prop (schema cs) STATUS_STR with
  | Ok (Some _) => true
  | _ => false
  end.

(** The object [toJSON] returns and [fromJSON] reads, with the types the
    two methods give its fields. *)
Record SchemaJson : Type := {
  sj_id : string;
  sj_type : string;
  sj_parsingOptions : PartialParsingOpts;
  sj_version : string
}.

Definition DATA_URI_PREFIX : string := "data:application/json;,".

Section SchemaObject.
Context `{RT : JsRuntime}.

(** [new CredentialSchema(jsonSchema, parsingOpts)] *)
Definition newCredentialSchema (fuel : nat) (jsonSchema : json)
    (parsingOpts : PartialParsingOpts) : Result CredentialSchema :=
  let pOpts := mergeParsingOpts parsingOpts in
  schema ← convertToInternalSchemaObj fuel jsonSchema pOpts None;
  validate schema;;
  enc ← initEncoder schema pOpts;
  Ok {| version := VERSION; schema := schema; jsonSchema := jsonSchema;
        parsingOptions := pOpts; encoder := enc |}.

Definition toJSON (cs : CredentialSchema) : SchemaJson :=
  {| sj_id := DATA_URI_PREFIX +:+ encodeURIComponent (JSON_stringify (jsonSchema cs));
     sj_type := SCHEMA_TYPE_STR;
     sj_parsingOptions := asPartial (parsingOptions cs);
     sj_version := version cs |}.

Definition extractJsonSchemaFromEmbedded (embedded : string) : Result json :=
  throw_if (negb (String.prefix "data:" embedded)) NotDataUri;;
  let dataUri := strip_newlines embedded in
  match String.index 0 "," dataUri with
  | None => Throw MalformedDataUri
  | Some firstComma =>
      let meta := split_on ";" (String.substring 5 (firstComma - 5) dataUri) in
      let meta0 := match meta with m :: _ => m | [] => EmptyString end in
      throw_if (negb (String.eqb meta0 "application/json")) (WrongMediaType meta0);;
      throw_if (mem_string "base64" meta) Base64NotSupported;;
      dataStr ← decodeURIComponent (drop_chars (S firstComma) dataUri);
      JSON_parse dataStr
  end.

Definition fromJSON (fuel : nat) (j : SchemaJson) : Result CredentialSchema :=
  throw_if (negb (String.eqb (sj_type j) SCHEMA_TYPE_STR)) WrongSchemaType;;
  jsonSchema ← extractJsonSchemaFromEmbedded (sj_id j);
  credSchema ← newCredentialSchema fuel jsonSchema (sj_parsingOptions j);
  Ok (set_version credSchema (sj_version j)).

End SchemaObject.

End Schema.

(** ** Signature parameters: [PSSignatureParams] in the sources *)

Module SigParams.

(** [PSSigParams]: the generators, one [h] per message. *)
Record PSSigParams : Type := {
  g : bytes;
  g_tilde : bytes;
  h : list bytes
}.

(** The WASM entry points. *)
Class SigParamsBackend : Type := {
  psGenerateSignatureParams : nat -> option bytes -> PSSigParams;
  psAdaptSignatureParamsForMsgCount : PSSigParams -> bytes -> nat -> PSSigParams;
  psIsSignatureParamsValid : PSSigParams -> bool
}.

(** What section 6 asks of the back-end: [generateSignatureParams(n, _)] and
    [adaptSignatureParams(_, _, n)] return parameters for [n] messages. *)
Class SigParamsBackendLaws `{B : SigParamsBackend} : Prop := {
  generate_count : forall n label, length (h (psGenerateSignatureParams n label)) = n;
  adapt_count : forall v label n,
    length (h (psAdaptSignatureParamsForMsgCount v label n)) = n
}.

Record PSSignatureParams : Type := {
  label : option bytes;
  value : PSSigParams
}.

Section Params.
Context `{B : SigParamsBackend}.

Definition generate (numMessages : nat) (label : option bytes) : PSSignatureParams :=
  {| value := psGenerateSignatureParams numMessages label; label := label |}.

Definition supportedMessageCount (p : PSSignatureParams) : nat := length (h (value p)).

Definition isValid (p : PSSignatureParams) : bool := psIsSignatureParamsValid (value p).

(** [adapt(newMsgCount)] returns new parameters and leaves [this] as it is. *)
Definition adapt (p : PSSignatureParams) (newMsgCount : nat) : Result PSSignatureParams :=
  match label p with
  | None => Throw LabelMissing
  | Some l =>
      let newParams :=
        if (newMsgCount <=? supportedMessageCount p)%nat then
          {| g := g (value p); g_tilde := g_tilde (value p);
             h := take newMsgCount (h (value p)) |}
        else psAdaptSignatureParamsForMsgCount (value p) l newMsgCount in
      Ok {| value := newParams; label := label p |}
  end.

Definition isValidIndex (p : PSSignatureParams) (index : Z) : bool :=
  (0 <=? index) && (index <? Z.of_nat (supportedMessageCount p)).

End Params.
End SigParams.

(** ** Presentations: [src/anonymous-credentials/presentation-builder.ts] *)

Module Presentation.
Import Json Schema SigParams.

(** The builder names two constants as an earlier revision of
    [./types-and-consts] did; the spec calls them [cryptoVersion] and
    [status.id]. *)
Definition CRED_VERSION_STR : string := CRYPTO_VERSION_STR.
Definition REGISTRY_ID_STR : string := ID_STR.

(** Modelled from the spec: [MEM_CHECK_STR] of [./types-and-consts], the
    value of [revocationCheck] that asks for a membership proof. *)
Definition MEM_CHECK_STR : string := "membership".

(** [AccumulatorWitness] and its two subclasses. *)
Inductive AccumulatorWitness : Type :=
  | MembershipWitness (w : bytes)
  | NonMembershipWitness (w : bytes).

Definition isMembershipWitness (w : AccumulatorWitness) : bool :=
  match w with MembershipWitness _ => true | NonMembershipWitness _ => false end.

Definition isNonMembershipWitness (w : AccumulatorWitness) : bool :=
  match w with NonMembershipWitness _ => true | MembershipWitness _ => false end.

(** Modelled from the spec: the statement factories of [../composite-proof],
    which are not among the sources.  Section 3 makes a statement a tagged
    variant carrying its public parameters, and section 4.2 makes every
    factory a pure function of its arguments; a statement is represented by
    its tag and the arguments the factory was called with. *)
Inductive Statement : Type :=
  | St_bbsSignature (sigParams : PSSignatureParams) (pk : bytes)
      (revealedMsgs : gmap nat bytes) (encodeMessages : bool)
  | St_accumulatorMembership (params pk provingKey accumulated : bytes)
  | St_accumulatorNonMembership (params pk provingKey accumulated : bytes).

(** Modelled from the spec: the witness factories, as for [Statement]. *)
Inductive Witness : Type :=
  | Wi_bbsSignature (signature : bytes) (unrevealedMsgs : gmap nat bytes)
      (encodeMessages : bool)
  | Wi_accumulatorMembership (member : bytes) (witness : AccumulatorWitness)
  | Wi_accumulatorNonMembership (nonMember : bytes) (witness : AccumulatorWitness).

(** Modelled from the spec: [WitnessEqualityMetaStatement], the pairs
    [(statement index, position within the statement)] in the order
    [addWitnessRef] received them. *)
Record WitnessEqualityMetaStatement : Type := { witnessRefs : list (Z * Z) }.

Definition addWitnessRef (w : WitnessEqualityMetaStatement) (statementId witnessId : Z)
  : WitnessEqualityMetaStatement :=
  {| witnessRefs := witnessRefs w ++ [(statementId, witnessId)] |}.

Definition newWitnessEquality : WitnessEqualityMetaStatement := {| witnessRefs := [] |}.

Definition AttributeEquality : Type := list (Z * string).

(** [./credential] is not among the sources; the builder reads the fields
    below, and [serializeForSigning()] is represented by the object it
    returns. *)
Record Credential : Type := {
  cred_schema : CredentialSchema;
  credStatus : option (dict json);
  signature : bytes;
  issuerPubKey : json;
  serializeForSigning : json
}.

(** *** The presentation specification (the source file whose name is not
    known) *)

(** The [status] object [finalize] builds: [id], [revocationCheck],
    [accumulated] and [extra]. *)
Record PresentedStatus : Type := {
  ps_id : option json;
  ps_revocationCheck : option json;
  ps_accumulated : bytes;
  ps_extra : json
}.

Record IPresentedCredential : Type := {
  pc_version : option json;
  pc_schema : option json;
  pc_issuer : json;
  pc_revealedAttributes : dict json;
  pc_status : option PresentedStatus;
  pc_bounds : option json
}.

Record PresentationSpecification : Type := {
  spec_credentials : list IPresentedCredential;
  spec_attributeEqualities : list AttributeEquality
}.

Definition newPresentationSpecification : PresentationSpecification :=
  {| spec_credentials := []; spec_attributeEqualities := [] |}.

Definition addPresentedCredential (s : PresentationSpecification)
    (version schema : option json) (issuer : json) (revealedAttributes : dict json)
    (status : option PresentedStatus) (bounds : option json) : PresentationSpecification :=
  let ps := {| pc_version := version; pc_schema := schema; pc_issuer := issuer;
               pc_revealedAttributes := revealedAttributes;
               pc_status := status; pc_bounds := bounds |} in
  {| spec_credentials := spec_credentials s ++ [ps];
     spec_attributeEqualities := spec_attributeEqualities s |}.

Definition pushAttributeEquality (s : PresentationSpecification) (eql : AttributeEquality)
  : PresentationSpecification :=
  {| spec_credentials := spec_credentials s;
     spec_attributeEqualities := spec_attributeEqualities s ++ [eql] |}.

(** *** The back-end and the helpers that are not among the sources *)

Class PresentationBackend : Type := {
  (* the scalar an encoding function gives for a raw value *)
  applyEncodeFunc : EncodeFunc -> option json -> Result bytes;
  SIGNATURE_PARAMS_LABEL_BYTES : bytes;
  dockAccumulatorParams : bytes;
  dockAccumulatorMemProvingKey : bytes;
  dockAccumulatorNonMemProvingKey : bytes;
  (* [CompositeProofG1.generateUsingQuasiProofSpec] *)
  generateUsingQuasiProofSpec :
    ProofSpec.QuasiProofSpecG1 Statement WitnessEqualityMetaStatement ->
    list Witness -> option bytes -> Result bytes
}.

Record Presentation : Type := {
  p_version : string;
  p_spec : PresentationSpecification;
  p_proof : bytes;
  p_context : option bytes;
  p_nonce : option bytes
}.

Record PresentationBuilder : Type := {
  version : string;
  _context : option bytes;
  _nonce : option bytes;
  proof : option bytes;
  _proofSpec : option (ProofSpec.QuasiProofSpecG1 Statement WitnessEqualityMetaStatement);
  spec : PresentationSpecification;
  credentials : list (Credential * bytes);
  revealedAttributes : gmap Z (gset string);
  attributeEqualities : list AttributeEquality;
  credStatuses : gmap Z (AccumulatorWitness * bytes * bytes * json)
}.

Definition VERSION : string := "0.0.1".

Definition newPresentationBuilder : PresentationBuilder :=
  {| version := VERSION; _context := None; _nonce := None; proof := None;
     _proofSpec := None; spec := newPresentationSpecification;
     credentials := []; revealedAttributes := ∅; attributeEqualities := [];
     credStatuses := ∅ |}.

Definition addCredential (b : PresentationBuilder) (credential : Credential) (pk : bytes)
  : Z * PresentationBuilder :=
  let creds := credentials b ++ [(credential, pk)] in
  (Z.of_nat (length creds) - 1,
   {| version := version b; _context := _context b; _nonce := _nonce b;
      proof := proof b; _proofSpec := _proofSpec b; spec := spec b;
      credentials := creds; revealedAttributes := revealedAttributes b;
      attributeEqualities := attributeEqualities b; credStatuses := credStatuses b |}).

Definition validateCredIndex (b : PresentationBuilder) (credIdx : Z) : Result unit :=
  throw_if (Z.of_nat (length (credentials b)) <=? credIdx)
    (InvalidCredIndex credIdx (length (credentials b))).

Definition markAttributesRevealed (b : PresentationBuilder) (credIdx : Z)
    (attributeNames : gset string) : Result PresentationBuilder :=
  validateCredIndex b credIdx;;
  let revealed : gset string := default ∅ (revealedAttributes b !! credIdx) in
  let revealed := revealed ∪ set_map (dotted SUBJECT_STR) attributeNames in
  Ok {| version := version b; _context := _context b; _nonce := _nonce b;
        proof := proof b; _proofSpec := _proofSpec b; spec := spec b;
        credentials := credentials b;
        revealedAttributes := <[credIdx := revealed]> (revealedAttributes b);
        attributeEqualities := attributeEqualities b; credStatuses := credStatuses b |}.

Fixpoint validateRefs (b : PresentationBuilder) (equality : AttributeEquality)
  : Result unit :=
  match equality with
  | [] => Ok tt
  | aRef :: rest => validateCredIndex b (fst aRef);; validateRefs b rest
  end.

Definition markAttributesEqual (b : PresentationBuilder) (equality : AttributeEquality)
  : Result PresentationBuilder :=
  validateRefs b equality;;
  Ok {| version := version b; _context := _context b; _nonce := _nonce b;
        proof := proof b; _proofSpec := _proofSpec b; spec := spec b;
        credentials := credentials b; revealedAttributes := revealedAttributes b;
        attributeEqualities := attributeEqualities b ++ [equality];
        credStatuses := credStatuses b |}.

Definition addAccumInfoForCredStatus (b : PresentationBuilder) (credIdx : Z)
    (accumWitness : AccumulatorWitness) (accumulated accumPublicKey : bytes)
    (extra : json) : Result PresentationBuilder :=
  validateCredIndex b credIdx;;
  Ok {| version := version b; _context := _context b; _nonce := _nonce b;
        proof := proof b; _proofSpec := _proofSpec b; spec := spec b;
        credentials := credentials b; revealedAttributes := revealedAttributes b;
        attributeEqualities := attributeEqualities b;
        credStatuses :=
          <[credIdx := (accumWitness, accumulated, accumPublicKey, extra)]> (credStatuses b) |}.


(** *** [finalize] *)

(** [arr[i]] for a JS number [i]: [undefined] outside the array. *)
Definition nthZ {A : Type} (l : list A) (i : Z) : option A :=
  if i <? 0 then None else l !! Z.to_nat i.

Section Finalize.
Context `{PB : PresentationBackend} `{SB : SigParamsBackend}.

(** Modelled from the spec: [Encoder.encodeMessage] ([../bbs-plus], not among
    the sources).  Section 4.1: the encoder maps a leaf to the scalar its
    encoding function gives and, without a default, rejects a leaf it was
    not configured for. *)
Definition encodeMessage (enc : Encoder) (name : string) (value : option json)
  : Result bytes :=
  match dict_get name (encoders enc) with
  | Some f => applyEncodeFunc f value
  | None =>
      match defaultEncoder enc with
      | Some d => applyEncodeFunc d value
      | None => Throw (NoEncoderFor name)
      end
  end.

Fixpoint encodeEach (enc : Encoder) (names : list string) (raw : dict json)
  : Result (list bytes) :=
  match names with
  | [] => Ok []
  | n :: names' =>
      v ← encodeMessage enc n (dict_get n raw);
      vs ← encodeEach enc names' raw;
      Ok (v :: vs)
  end.

(** Modelled from the spec: [Encoder.encodeMessageObject].  Section 3: the
    attribute vector is the ordered sequence of scalars produced by
    flattening the credential and encoding each leaf, in the flat order. *)
Definition encodeMessageObject (enc : Encoder) (messages : json)
  : Result (list string * list bytes) :=
  let raw := flat (spread_value messages) in
  let names := sort_strings (dict_keys raw) in
  vals ← encodeEach enc names raw;
  Ok (names, vals).

(** The two maps [position -> scalar], filled from position [i] on. *)
Fixpoint splitMsgs (revealedMsgNames : gset string) (i : nat) (names : list string)
    (encodedValues : list bytes) (acc : gmap nat bytes * gmap nat bytes)
  : gmap nat bytes * gmap nat bytes :=
  match names, encodedValues with
  | n :: names', v :: vals' =>
      splitMsgs revealedMsgNames (S i) names' vals'
        (if bool_decide (n ∈ revealedMsgNames)
         then (<[i := v]> (fst acc), snd acc)
         else (fst acc, <[i := v]> (snd acc)))
  | _, _ => acc
  end.

(** Modelled from the spec: [getRevealedAndUnrevealed] of
    [../sign-verify-js-objs], which is not among the sources.  Section 4.4,
    step 2: the attributes are split into [revealedMsgs : position -> scalar]
    and [unrevealedMsgs : position -> scalar] by their flat position; the
    third component holds the raw values of the revealed attributes (here in
    flat form, under their dotted names). *)
Definition getRevealedAndUnrevealed (messages : json) (revealedMsgNames : gset string)
    (enc : Encoder) : Result (gmap nat bytes * gmap nat bytes * dict json) :=
  '(names, encodedValues) ← encodeMessageObject enc messages;
  let '(revealedMsgs, unrevealedMsgs) :=
    splitMsgs revealedMsgNames 0 names encodedValues (∅, ∅) in
  let raw := flat (spread_value messages) in
  let revealedMsgsRaw :=
    filter (fun kv => fst kv ∈ revealedMsgNames) raw in
  Ok (revealedMsgs, unrevealedMsgs, revealedMsgsRaw).

(** The local variables of [finalize], and the two fields of the builder
    it updates on the way: [spec], and [revealedAttributes], whose sets the
    first loop extends in place. *)
Record Locals : Type := {
  maxAttribs : nat;
  sigParams : PSSignatureParams;
  statements : ProofSpec.Container Statement;
  metaStatements : ProofSpec.Container WitnessEqualityMetaStatement;
  witnesses : ProofSpec.Container Witness;
  flattenedSchemas : list FlattenedSchema;
  credStatusAux : list (Z * option json * bytes);
  l_spec : PresentationSpecification;
  l_revealedAttributes : gmap Z (gset string)
}.

Definition initLocals (b : PresentationBuilder) : Locals :=
  {| maxAttribs := 2;
     sigParams := generate 2 (Some SIGNATURE_PARAMS_LABEL_BYTES);
     statements := ProofSpec.empty;
     metaStatements := ProofSpec.empty;
     witnesses := ProofSpec.empty;
     flattenedSchemas := [];
     credStatusAux := [];
     l_spec := spec b;
     l_revealedAttributes := revealedAttributes b |}.

(** The names [finalize] always reveals for a credential. *)
Definition alwaysRevealed (cred : Credential) : gset string :=
  {[CRED_VERSION_STR]} ∪ {[SCHEMA_STR]} ∪
  (match credStatus cred with
   | Some _ => {[dotted STATUS_STR REGISTRY_ID_STR]} ∪ {[dotted STATUS_STR REV_CHECK_STR]}
   | None => ∅
   end).

(** The set [revealedNames] of the loop body for credential [i]. *)
Definition revealedNamesFor (revealed : gmap Z (gset string)) (i : nat) (cred : Credential)
  : gset string :=
  default ∅ (revealed !! Z.of_nat i) ∪ alwaysRevealed cred.

Definition is_subject_name (name : string) : bool :=
  String.prefix (SUBJECT_STR +:+ ".") name.

(** The body of [for (let i = 0; i < numCreds; i++)] *)
Definition credStep (b : PresentationBuilder) (i : nat) (credpk : Credential * bytes)
    (st : Locals) : Result Locals :=
  let cred := fst credpk in
  let schema := cred_schema cred in
  let flattenedSchema := flatten schema in
  let numAttribs := length (fst flattenedSchema) in
  maxAttribs' ←
    (if (maxAttribs st <? numAttribs)%nat
     then (* [sigParams.adapt(numAttribs);] -- the value is dropped *)
          adapt (sigParams st) numAttribs;; Ok numAttribs
     else Ok (maxAttribs st));
  let revealedNames := revealedNamesFor (l_revealedAttributes st) i cred in
  let revealed' :=
    match l_revealedAttributes st !! Z.of_nat i with
    | Some _ => <[Z.of_nat i := revealedNames]> (l_revealedAttributes st)
    | None => l_revealedAttributes st
    end in
  '(revealedMsgs, unrevealedMsgs, revealedMsgsRaw) ←
    getRevealedAndUnrevealed (serializeForSigning cred) revealedNames (encoder schema);
  p ← adapt (sigParams st) numAttribs;
  let statement := St_bbsSignature p (snd credpk) revealedMsgs false in
  let witness := Wi_bbsSignature (signature cred) unrevealedMsgs false in
  let statements' := snd (ProofSpec.add (statements st) statement) in
  let witnesses' := snd (ProofSpec.add (witnesses st) witness) in
  '(presentedStatus, aux') ←
    match credStatus cred with
    | Some cs =>
        match credStatuses b !! Z.of_nat i with
        | None => Throw (NoStatusDetails (Z.of_nat i))
        | Some s =>
            v ← encodeMessage (encoder schema) (dotted STATUS_STR REV_ID_STR)
                  (dict_get REV_ID_STR cs);
            Ok (Some {| ps_id := dict_get REGISTRY_ID_STR cs;
                        ps_revocationCheck := dict_get REV_CHECK_STR cs;
                        ps_accumulated := snd (fst (fst s));
                        ps_extra := snd s |},
                credStatusAux st ++ [(Z.of_nat i, dict_get REV_CHECK_STR cs, v)])
        end
    | None => Ok (None, credStatusAux st)
    end;
  let spec' :=
    addPresentedCredential (l_spec st)
      (dict_get CRED_VERSION_STR revealedMsgsRaw)
      (dict_get SCHEMA_STR revealedMsgsRaw)
      (issuerPubKey cred)
      (filter (fun kv => is_subject_name (fst kv) = true) revealedMsgsRaw)
      presentedStatus None in
  Ok {| maxAttribs := maxAttribs';
        sigParams := sigParams st;
        statements := statements';
        metaStatements := metaStatements st;
        witnesses := witnesses';
        flattenedSchemas := flattenedSchemas st ++ [flattenedSchema];
        credStatusAux := aux';
        l_spec := spec';
        l_revealedAttributes := revealed' |}.

Fixpoint credLoop (b : PresentationBuilder) (i : nat) (creds : list (Credential * bytes))
    (st : Locals) : Result Locals :=
  match creds with
  | [] => Ok st
  | credpk :: creds' =>
      st' ← credStep b i credpk st;
      credLoop b (S i) creds' st'
  end.

(** The statement and the witness for one status entry. *)
Definition statusStatement (i : Z) (t : option json) (value : bytes)
    (wit : AccumulatorWitness) (acc pk : bytes) : Result (Statement * Witness) :=
  if is_str t MEM_CHECK_STR then
    if isMembershipWitness wit then
      Ok (St_accumulatorMembership dockAccumulatorParams pk dockAccumulatorMemProvingKey acc,
          Wi_accumulatorMembership value wit)
    else Throw (ExpectedMembershipWitness i)
  else
    if isNonMembershipWitness wit then
      Ok (St_accumulatorNonMembership dockAccumulatorParams pk
            dockAccumulatorNonMemProvingKey acc,
          Wi_accumulatorNonMembership value wit)
    else Throw (ExpectedNonMembershipWitness i).

(** The body of [credStatusAux.forEach(([i, t, value]) => ...)] *)
Definition statusStep (b : PresentationBuilder) (entry : Z * option json * bytes)
    (st : Locals) : Result Locals :=
  let '(i, t, value) := entry in
  match credStatuses b !! i with
  | None => Throw (NoStatusDetails i)
  | Some s =>
      let '(wit, acc, pk, _) := s in
      '(statement, witness) ← statusStatement i t value wit acc pk;
      let '(sIdx, statements') := ProofSpec.add (statements st) statement in
      let witnesses' := snd (ProofSpec.add (witnesses st) witness) in
      match nthZ (flattenedSchemas st) i with
      | None => Throw TypeError
      | Some fs =>
          let witnessEq := newWitnessEquality in
          let witnessEq :=
            addWitnessRef witnessEq i (indexOf (fst fs) (dotted STATUS_STR REV_ID_STR)) in
          let witnessEq := addWitnessRef witnessEq sIdx 0 in
          Ok {| maxAttribs := maxAttribs st;
                sigParams := sigParams st;
                statements := statements';
                metaStatements := snd (ProofSpec.add (metaStatements st) witnessEq);
                witnesses := witnesses';
                flattenedSchemas := flattenedSchemas st;
                credStatusAux := credStatusAux st;
                l_spec := l_spec st;
                l_revealedAttributes := l_revealedAttributes st |}
      end
  end.

Fixpoint statusLoop (b : PresentationBuilder) (aux : list (Z * option json * bytes))
    (st : Locals) : Result Locals :=
  match aux with
  | [] => Ok st
  | entry :: aux' =>
      st' ← statusStep b entry st;
      statusLoop b aux' st'
  end.

(** [for (const [cIdx, name] of eql)] *)
Fixpoint resolveRefs (schemas : list FlattenedSchema) (eql : AttributeEquality)
    (witnessEq : WitnessEqualityMetaStatement) : Result WitnessEqualityMetaStatement :=
  match eql with
  | [] => Ok witnessEq
  | (cIdx, name) :: eql' =>
      match nthZ schemas cIdx with
      | None => Throw TypeError
      | Some fs =>
          let i := indexOf (fst fs) (dotted SUBJECT_STR name) in
          throw_if (i =? -1) (AttributeNotFound name);;
          resolveRefs schemas eql' (addWitnessRef witnessEq cIdx i)
      end
  end.

(** The body of [for (const eql of this.attributeEqualities)] *)
Definition equalityStep (eql : AttributeEquality) (st : Locals) : Result Locals :=
  witnessEq ← resolveRefs (flattenedSchemas st) eql newWitnessEquality;
  Ok {| maxAttribs := maxAttribs st;
        sigParams := sigParams st;
        statements := statements st;
        metaStatements := snd (ProofSpec.add (metaStatements st) witnessEq);
        witnesses := witnesses st;
        flattenedSchemas := flattenedSchemas st;
        credStatusAux := credStatusAux st;
        l_spec := pushAttributeEquality (l_spec st) eql;
        l_revealedAttributes := l_revealedAttributes st |}.

Fixpoint equalityLoop (eqls : list AttributeEquality) (st : Locals) : Result Locals :=
  match eqls with
  | [] => Ok st
  | eql :: eqls' =>
      st' ← equalityStep eql st;
      equalityLoop eqls' st'
  end.

(** [finalize] up to the construction of the proof spec: the three loops. *)
Definition assemble (b : PresentationBuilder) : Result Locals :=
  st ← credLoop b 0 (credentials b) (initLocals b);
  st ← statusLoop b (credStatusAux st) st;
  equalityLoop (attributeEqualities b) st.

Definition proofSpecOf (b : PresentationBuilder) (st : Locals)
  : ProofSpec.QuasiProofSpecG1 Statement WitnessEqualityMetaStatement :=
  ProofSpec.newQuasiProofSpecG1 (Some (statements st)) (Some (metaStatements st))
    (Some []) (_context b).

(** [finalize()]: the presentation, and the builder as it is left. *)
Definition finalize (b : PresentationBuilder) : Result (Presentation * PresentationBuilder) :=
  st ← assemble b;
  let ps := proofSpecOf b st in
  pr ← generateUsingQuasiProofSpec ps (ProofSpec.values (witnesses st)) (_nonce b);
  Ok ({| p_version := version b; p_spec := l_spec st; p_proof := pr;
         p_context := _context b; p_nonce := _nonce b |},
      {| version := version b; _context := _context b; _nonce := _nonce b;
         proof := Some pr; _proofSpec := Some ps; spec := l_spec st;
         credentials := credentials b;
         revealedAttributes := l_revealedAttributes st;
         attributeEqualities := attributeEqualities b;
         credStatuses := credStatuses b |}).

End Finalize.

End Presentation.

(** ** What the loops of [finalize] are expected to emit *)

Module PresentationSpec.
Import Json Schema SigParams Presentation.

Definition namesOf (cred : Credential) : list string :=
  fst (flatten (cred_schema cred)).

(** [hasStatus credpk]: the credential declares a status. *)
Definition declaresStatus (credpk : Credential * bytes) : bool :=
  match credStatus (fst credpk) with Some _ => true | None => false end.

(** The number of status-bearing credentials among the first [i]. *)
Definition statusRank (creds : list (Credential * bytes)) (i : nat) : nat :=
  length (filter (fun c => declaresStatus c = true) (take i creds)).

(** The flattened schemas of the credentials of a builder, by index. *)
Definition schemasOf (b : PresentationBuilder) : list FlattenedSchema :=
  map (fun c => flatten (cred_schema (fst c))) (credentials b).

Section Relations.
Context `{PB : PresentationBackend} `{SB : SigParamsBackend}.

(** The signature statements and witnesses for the credentials [creds],
    the first of which has index [i]: credential [i + k] contributes the
    [k]-th statement, made from parameters adapted to the length of its own
    flattened schema and from the split of its attributes by the revealed
    names. *)
Inductive SigFor (sp : PSSignatureParams) (revealed : gmap Z (gset string))
  : nat -> list (Credential * bytes) -> list Statement -> list Witness -> Prop :=
  | SigFor_nil (i : nat) : SigFor sp revealed i [] [] []
  | SigFor_cons (i : nat) (credpk : Credential * bytes) (creds : list (Credential * bytes))
      (p : PSSignatureParams) (rm um : gmap nat bytes) (raw : dict json)
      (sts : list Statement) (wts : list Witness) :
      adapt sp (length (namesOf (fst credpk))) = Ok p ->
      getRevealedAndUnrevealed (serializeForSigning (fst credpk))
        (revealedNamesFor revealed i (fst credpk))
        (encoder (cred_schema (fst credpk))) = Ok (rm, um, raw) ->
      SigFor sp revealed (S i) creds sts wts ->
      SigFor sp revealed i (credpk :: creds)
        (St_bbsSignature p (snd credpk) rm false :: sts)
        (Wi_bbsSignature (signature (fst credpk)) um false :: wts).

(** The entries of [credStatusAux]: one per status-bearing credential, in
    the order of the credentials, each with the status info supplied for
    it. *)
Inductive AuxFor (b : PresentationBuilder)
  : nat -> list (Credential * bytes) -> list (Z * option json * bytes) -> Prop :=
  | AuxFor_nil (i : nat) : AuxFor b i [] []
  | AuxFor_skip (i : nat) (credpk : Credential * bytes) (creds : list (Credential * bytes))
      (auxs : list (Z * option json * bytes)) :
      credStatus (fst credpk) = None ->
      AuxFor b (S i) creds auxs ->
      AuxFor b i (credpk :: creds) auxs
  | AuxFor_status (i : nat) (credpk : Credential * bytes) (creds : list (Credential * bytes))
      (cs : dict json) (s : AccumulatorWitness * bytes * bytes * json) (v : bytes)
      (auxs : list (Z * option json * bytes)) :
      credStatus (fst credpk) = Some cs ->
      credStatuses b !! Z.of_nat i = Some s ->
      encodeMessage (encoder (cred_schema (fst credpk))) (dotted STATUS_STR REV_ID_STR)
        (dict_get REV_ID_STR cs) = Ok v ->
      AuxFor b (S i) creds auxs ->
      AuxFor b i (credpk :: creds) ((Z.of_nat i, dict_get REV_CHECK_STR cs, v) :: auxs).

(** The accumulator statement, its witness and its witness equality for
    one entry of [credStatusAux], the statement landing at index [sIdx]. *)
Definition AccEntry (b : PresentationBuilder) (schemas : list FlattenedSchema) (sIdx : nat)
    (entry : Z * option json * bytes) (stm : Statement) (w : Witness)
    (eq : WitnessEqualityMetaStatement) : Prop :=
  exists wit acc pk extra fs,
    credStatuses b !! (fst (fst entry)) = Some (wit, acc, pk, extra) /\
    statusStatement (fst (fst entry)) (snd (fst entry)) (snd entry) wit acc pk = Ok (stm, w) /\
    nthZ schemas (fst (fst entry)) = Some fs /\
    witnessRefs eq =
      [(fst (fst entry), indexOf (fst fs) (dotted STATUS_STR REV_ID_STR));
       (Z.of_nat sIdx, 0)].

Inductive AccFor (b : PresentationBuilder) (schemas : list FlattenedSchema)
  : nat -> list (Z * option json * bytes) -> list Statement -> list Witness ->
    list WitnessEqualityMetaStatement -> Prop :=
  | AccFor_nil (n : nat) : AccFor b schemas n [] [] [] []
  | AccFor_cons (n : nat) (entry : Z * option json * bytes)
      (auxs : list (Z * option json * bytes)) (stm : Statement) (w : Witness)
      (eq : WitnessEqualityMetaStatement) (sts : list Statement) (wts : list Witness)
      (eqs : list WitnessEqualityMetaStatement) :
      AccEntry b schemas n entry stm w eq ->
      AccFor b schemas (S n) auxs sts wts eqs ->
      AccFor b schemas n (entry :: auxs) (stm :: sts) (w :: wts) (eq :: eqs).

(** The witness equality for one attribute-equality request: every named
    attribute is found, and the references are the pairs of the credential
    index and the position of the name in that credential's flattened
    schema, in the order of the request. *)
Definition ResolvedRef (schemas : list FlattenedSchema) (ref : Z * string) (wref : Z * Z)
  : Prop :=
  exists fs,
    nthZ schemas (fst ref) = Some fs /\
    fst wref = fst ref /\
    snd wref = indexOf (fst fs) (dotted SUBJECT_STR (snd ref)) /\
    snd wref <> -1.

Definition ResolvedEquality (schemas : list FlattenedSchema) (eql : AttributeEquality)
    (eq : WitnessEqualityMetaStatement) : Prop :=
  Forall2 (ResolvedRef schemas) eql (witnessRefs eq).

End Relations.

(** The split of the attributes of one credential: a position of the flat
    attribute vector is in [revealedMsgs] if its name is revealed and in
    [unrevealedMsgs] if not, with the scalar of that position, and the two
    maps hold nothing else. *)
Definition SplitBy (R : gset string) (names : list string) (vals : list bytes)
    (rm um : gmap nat bytes) : Prop :=
  forall pos : nat,
    match names !! pos, vals !! pos with
    | Some name, Some v =>
        if bool_decide (name ∈ R)
        then rm !! pos = Some v /\ um !! pos = None
        else um !! pos = Some v /\ rm !! pos = None
    | _, _ => rm !! pos = None /\ um !! pos = None
    end.


(** The names a caller marks are stored under the subject prefix. *)
Definition subjectOnly (b : PresentationBuilder) : Prop :=
  forall (i : Z) (X : gset string) (name : string),
    revealedAttributes b !! i = Some X -> name ∈ X -> is_subject_name name = true.


(** The builders the API can produce before [finalize]. *)
Inductive reachable : PresentationBuilder -> Prop :=
  | reach_new : reachable newPresentationBuilder
  | reach_addCredential (b : PresentationBuilder) (cred : Credential) (pk : bytes) :
      reachable b -> reachable (snd (addCredential b cred pk))
  | reach_markRevealed (b b' : PresentationBuilder) (credIdx : Z) (names : gset string) :
      reachable b -> markAttributesRevealed b credIdx names = Ok b' -> reachable b'
  | reach_markEqual (b b' : PresentationBuilder) (equality : AttributeEquality) :
      reachable b -> markAttributesEqual b equality = Ok b' -> reachable b'
  | reach_addAccumInfo (b b' : PresentationBuilder) (credIdx : Z)
      (w : AccumulatorWitness) (acc pk : bytes) (extra : json) :
      reachable b -> addAccumInfoForCredStatus b credIdx w acc pk extra = Ok b' ->
      reachable b'
  | reach_setContext (b : PresentationBuilder) (ctx : option bytes) :
      reachable b ->
      reachable {| version := version b; _context := ctx; _nonce := _nonce b;
                   proof := proof b; _proofSpec := _proofSpec b; spec := spec b;
                   credentials := credentials b;
                   revealedAttributes := revealedAttributes b;
                   attributeEqualities := attributeEqualities b;
                   credStatuses := credStatuses b |}
  | reach_setNonce (b : PresentationBuilder) (nonce : option bytes) :
      reachable b ->
      reachable {| version := version b; _context := _context b; _nonce := nonce;
                   proof := proof b; _proofSpec := _proofSpec b; spec := spec b;
                   credentials := credentials b;
                   revealedAttributes := revealedAttributes b;
                   attributeEqualities := attributeEqualities b;
                   credStatuses := credStatuses b |}.

End PresentationSpec.
(** ** Further operations of the same classes *)

(** The errors the operations of this part raise besides those above. *)
Inductive Raised : Type :=
  | Earlier (e : Error)
  (* PSSignatureParams *)
  | SigParamsMismatch (needed got : nat)
  | InvalidParamIndex (index : Z) (count : nat)
  (* CredentialSchema.typeOfValue, typeOfName *)
  | UnknownType (typ : option Json.json)
  | ForName (r : Raised) (name : string).

Inductive Outcome (A : Type) : Type :=
  | Returns (a : A)
  | Raises (r : Raised).
Arguments Returns {A} a.
Arguments Raises {A} r.

Definition lift {A : Type} (r : Result A) : Outcome A :=
  match r with
  | Ok a => Returns a
  | Throw e => Raises (Earlier e)
  end.

#[global] Instance Outcome_bind : MBind Outcome := fun A B k o =>
  match o with
  | Returns a => k a
  | Raises r => Raises r
  end.
#[global] Instance Outcome_ret : MRet Outcome := @Returns.

Definition returns {A : Type} (o : Outcome A) : bool :=
  match o with Returns _ => true | Raises _ => false end.

(** *** [ThresholdSigner]: when a call goes through *)

Module ThresholdOps.
Import ThresholdSig.

(** The flag the guard of a method reads; [startRound1] has no guard. *)
Definition guardOf (s : ThresholdSigner) (c : Call) : bool :=
  match c with
  | CStartRound1 => true
  | CProcessReceivedCommitments _ _ _ | CGetSharesForOtherSigner _
  | CGetSharesForOtherSigners _ | CProcessReceivedShares _ _ _ | CFinishR1 _ =>
      hasStarted s
  | CStartRound2 _ _ => hasFinishedRound1 s
  | CProcessReceivedMsg1 _ _ _ | CProcessReceivedMsg2 _ _ _ | CFinishRound2 =>
      hasStartedRound2 s
  end.

(** The error a method throws when its guard fails. *)
Definition guardError (c : Call) : Error :=
  match c with
  | CStartRound2 _ _ => Round1NotFinished
  | CProcessReceivedMsg1 _ _ _ | CProcessReceivedMsg2 _ _ _ | CFinishRound2 =>
      Round2NotStarted
  | _ => Round1NotStarted
  end.

(** The fields a call leaves as they are or sets, never clears. *)
Record Kept (s s' : ThresholdSigner) : Prop := {
  kept_id : id s' = id s;
  kept_others : others s' = others s;
  kept_sigBatchSize : sigBatchSize s' = sigBatchSize s;
  kept_protocolId : protocolId s' = protocolId s;
  kept_round1State : round1State s <> None -> round1State s' <> None;
  kept_round1Output : round1Output s <> None -> round1Output s' <> None;
  kept_round2State : round2State s <> None -> round2State s' <> None;
  kept_round2Output : round2Output s <> None -> round2Output s' <> None
}.

(** A concrete signer whose protocol functions never throw. *)
Record NeverFails (F : SignerFuncs) : Prop := {
  nf_startRound1 : forall a b c d, is_ok (startRound1Func a b c d) = true;
  nf_processComm : forall a b c d, is_ok (processCommFunc a b c d) = true;
  nf_getSharesForOther : forall a b, is_ok (getSharesForOtherFunc a b) = true;
  nf_getSharesForOthers : forall a b, is_ok (getSharesForOthersFunc a b) = true;
  nf_processShares : forall a b c d, is_ok (processSharesFunc a b c d) = true;
  nf_finishRound1 : forall a b, is_ok (finishRound1Func a b) = true;
  nf_startRound2 : forall a b c d e, is_ok (startRound2Func a b c d e) = true;
  nf_recvMsg1 : forall a b c d, is_ok (recvMsg1Func a b c d) = true;
  nf_recvMsg2 : forall a b c d, is_ok (recvMsg2Func a b c d) = true;
  nf_finishRound2 : forall a, is_ok (finishRound2Func a) = true
}.

End ThresholdOps.

(** *** [PSSignatureParams]: parameters of a required size, generators by
    index *)

Module SigParamsOps.
Import SigParams.

(** [labelOrParams: Uint8Array | PSSignatureParams] *)
Inductive LabelOrParams : Type :=
  | IsLabel (label : bytes)
  | IsParams (params : PSSignatureParams).

Section Ops.
Context `{B : SigParamsBackend}.

Definition getSigParamsOfRequiredSize (msgCount : nat) (labelOrParams : LabelOrParams)
  : Outcome PSSignatureParams :=
  match labelOrParams with
  | IsParams p =>
      if negb (supportedMessageCount p =? msgCount)%nat then
        match label p with
        | None => Raises (SigParamsMismatch msgCount (supportedMessageCount p))
        | Some _ => lift (adapt p msgCount)
        end
      else Returns p
  | IsLabel l => Returns (generate msgCount (Some l))
  end.

(** The loop of [getParamsForIndices]; [this.value.h[i]] is read after the
    index was checked. *)
Fixpoint pushParamsFor (params : PSSignatureParams) (indices : list Z) (p : list bytes)
  : Outcome (list bytes) :=
  match indices with
  | [] => Returns p
  | i :: rest =>
      if negb (isValidIndex params i)
      then Raises (InvalidParamIndex i (supportedMessageCount params))
      else match h (value params) !! Z.to_nat i with
           | Some hi => pushParamsFor params rest (p ++ [hi])
           | None => Raises (Earlier OutsideModel)
           end
  end.

Definition getParamsForIndices (params : PSSignatureParams) (indices : list Z)
  : Outcome (list bytes) :=
  pushParamsFor params indices [g_tilde (value params)].

End Ops.
End SigParamsOps.

(** *** [CredentialSchema]: the type of a name, the JSON-LD context, the
    schemas the class hands out *)

Module SchemaOps.
Import JsNumber Json Schema.

Inductive ValueType : Type :=
  | Str | RevStr | PositiveInteger | Integer | PositiveNumber | Number.

(** [ValueTypes]: the tag and the fields read from the descriptor, which
    [typeOfValue] copies without looking at them. *)
Record ValueTypes : Type := {
  vt_type : ValueType;
  vt_compress : option json;
  vt_minimum : option json;
  vt_decimalPlaces : option json
}.

Definition mkValueTypes (t : ValueType) (compress minimum decimalPlaces : option json)
  : ValueTypes :=
  {| vt_type := t; vt_compress := compress; vt_minimum := minimum;
     vt_decimalPlaces := decimalPlaces |}.

(** The [type] string of the descriptors that [typeOfValue] gives each tag. *)
Definition typeString (t : ValueType) : string :=
  match t with
  | Str => STR_TYPE
  | RevStr => STR_REV_TYPE
  | PositiveInteger => POSITIVE_INT_TYPE
  | Integer => INT_TYPE
  | PositiveNumber => POSITIVE_NUM_TYPE
  | Number => NUM_TYPE
  end.

(** [typeOfValue(value)]; [value] is [undefined] when [typeOfName] indexed
    outside the array, and reading [value['type']] then throws. *)
Definition typeOfValue (value : option json) : Outcome ValueTypes :=
  match value with
  | None => Raises (Earlier TypeError)
  | Some v =>
      typ ← lift (get_prop v "type");
      compress ← lift (get_prop v "compress");
      minimum ← lift (get_prop v "minimum");
      decimalPlaces ← lift (get_prop v "decimalPlaces");
      if is_str typ STR_TYPE then Returns (mkValueTypes Str None None None)
      else if is_str typ STR_REV_TYPE then Returns (mkValueTypes RevStr compress None None)
      else if is_str typ POSITIVE_INT_TYPE then
        Returns (mkValueTypes PositiveInteger None None None)
      else if is_str typ INT_TYPE then Returns (mkValueTypes Integer None minimum None)
      else if is_str typ POSITIVE_NUM_TYPE then
        Returns (mkValueTypes PositiveNumber None None decimalPlaces)
      else if is_str typ NUM_TYPE then
        Returns (mkValueTypes Number None minimum decimalPlaces)
      else Raises (UnknownType typ)
  end.

(** [static typeOfName(name, flattenedSchema)]: [values[names.indexOf(name)]],
    any error rethrown with the name. *)
Definition typeOfName (name : string) (flattenedSchema : FlattenedSchema)
  : Outcome ValueTypes :=
  let '(names, values) := flattenedSchema in
  let nameIdx := indexOf names name in
  match typeOfValue (Presentation.nthZ values nameIdx) with
  | Returns t => Returns t
  | Raises r => Raises (ForName r name)
  end.

(** The method [typeOfName(name, flattenedSchema?)] of a schema object. *)
Definition typeOfNameIn (cs : CredentialSchema) (name : string)
    (flattenedSchema : option FlattenedSchema) : Outcome ValueTypes :=
  typeOfName name (default (flatten cs) flattenedSchema).

Definition getDummyContextValue (term : string) : string := "dk:" +:+ term.

(** [Set.prototype.add] on a set kept in insertion order *)
Definition set_add (terms : list string) (term : string) : list string :=
  if mem_string term terms then terms else terms ++ [term].

(** [for (const name of flattened[0]) for (part of name.split('.'))
    terms.add(part)] *)
Definition addNameParts (terms : list string) (names : list string) : list string :=
  fold_left (fun ts name => fold_left set_add (split_on "." name) ts) names terms.

Definition LD_NAMESPACE : string := "https://ld.dock.io/credentials#".

(** The terms [getJsonLdContext] collects, in the order it adds them. *)
Definition contextTerms (cs : CredentialSchema) : list string :=
  let terms := set_add (set_add [] SCHEMA_STR) CRYPTO_VERSION_STR in
  let terms :=
    if hasStatus cs
    then set_add (set_add (set_add (set_add terms ID_STR) REV_CHECK_STR) REV_ID_STR) TYPE_STR
    else terms in
  addNameParts terms (fst (flatten cs)).

(** The object [ctx] of [getJsonLdContext], as the map of its own
    properties: it starts as [{ dk: LD_NAMESPACE }] and gets
    [ctx[term] = getDummyContextValue(term)] for every term.  Assigning a
    string to [ctx['__proto__']] creates no property (the setter inherited
    from [Object.prototype] ignores it).  The result of the method is
    [{ '@context': [{ '@version': 1.1 }, ctx] }]. *)
Definition assignTerm (ctx : gmap string string) (term : string) : gmap string string :=
  if String.eqb term "__proto__" then ctx
  else <[term := getDummyContextValue term]> ctx.

Definition contextOf (terms : list string) : gmap string string :=
  fold_left assignTerm terms {["dk" := LD_NAMESPACE]}.

Record JsonLdContext : Type := {
  ld_version : number;
  ld_ctx : gmap string string
}.

Definition getJsonLdContext (cs : CredentialSchema) : JsonLdContext :=
  {| ld_version := {| mant := 11; expo := -1 |};
     ld_ctx := contextOf (contextTerms cs) |}.

(** [static essential(withDefinitions = true)] *)
Definition essential (withDefinitions : bool) : json :=
  let s := [(META_SCHEMA_STR, JStr "http://json-schema.org/draft-07/schema#");
            ("type", JStr "object");
            ("properties",
             JObj [(SUBJECT_STR, JObj [("type", JStr "object"); ("properties", JObj [])])])] in
  JObj (if withDefinitions
        then dict_set "definitions" (JObj JSON_SCHEMA_CUSTOM_DEFS) s
        else s).

(** [static statusAsJsonSchema()] *)
Definition statusAsJsonSchema : json :=
  JObj [("type", JStr "object");
        ("properties",
         JObj [(ID_STR, string_leaf); (TYPE_STR, string_leaf);
               (REV_CHECK_STR, string_leaf); (REV_ID_STR, string_leaf)])].

(** The character [c] does not occur in [s]. *)
Fixpoint lacks (c : ascii) (s : string) : bool :=
  match s with
  | EmptyString => true
  | String x r => negb (Ascii.eqb x c) && lacks c r
  end.

(** The descriptor of a leaf has the fields its type needs, as the loop of
    [validateGeneric] checks them. *)
Definition well_typed_leaf (value : json) : Prop :=
  exists t : string,
    get_prop value "type" = Ok (Some (JStr t)) /\
    In t POSSIBLE_TYPES /\
    (t = STR_REV_TYPE ->
     exists b, get_prop value "compress" = Ok (Some (JBool b))) /\
    (t = INT_TYPE \/ t = NUM_TYPE ->
     exists n, get_prop value "minimum" = Ok (Some (JNum n)) /\ isInteger n = true) /\
    (t = POSITIVE_NUM_TYPE \/ t = NUM_TYPE ->
     exists dp, get_prop value "decimalPlaces" = Ok dp /\ isPositiveInteger dp = true).

End SchemaOps.

(** *** [QuasiProofSpecG1]: a spec built step by step *)

Module QuasiOps.
Import ProofSpec.

Section Ops.
Context {Stmt MetaStmt : Type}.

Inductive QuasiCall : Type :=
  | QAddStatement (statement : Stmt)
  | QAddMetaStatement (metaStatement : MetaStmt)
  | QAddSetupParam (setupParam : SetupParam)
  | QSetContext (context : bytes).

(** The effect of one call on the object; the returned index is dropped. *)
Definition quasiStep (q : QuasiProofSpecG1 Stmt MetaStmt) (c : QuasiCall)
  : QuasiProofSpecG1 Stmt MetaStmt :=
  match c with
  | QAddStatement s => snd (addStatement q s)
  | QAddMetaStatement m => snd (addMetaStatement q m)
  | QAddSetupParam p => snd (addSetupParam q p)
  | QSetContext ctx => setContext q ctx
  end.

Definition statementsOf (cs : list QuasiCall) : list Stmt :=
  omap (fun c => match c with QAddStatement s => Some s | _ => None end) cs.
Definition metaStatementsOf (cs : list QuasiCall) : list MetaStmt :=
  omap (fun c => match c with QAddMetaStatement m => Some m | _ => None end) cs.
Definition setupParamsOf (cs : list QuasiCall) : list SetupParam :=
  omap (fun c => match c with QAddSetupParam p => Some p | _ => None end) cs.
Definition lastContext (cs : list QuasiCall) : option bytes :=
  last (omap (fun c => match c with QSetContext ctx => Some ctx | _ => None end) cs).

End Ops.
Arguments QuasiCall : clear implicits.
End QuasiOps.

(** *** [PresentationSpecification] and the accessors of the builder *)

Module BuilderOps.
Import Json Schema Presentation.

(** [forPresentation()]: [{ credentials: this.credentials }] *)
Record ForPresentation : Type := { fp_credentials : list IPresentedCredential }.

Definition forPresentation (s : PresentationSpecification) : ForPresentation :=
  {| fp_credentials := spec_credentials s |}.

(** The entry of the specification for one credential: its issuer, a
    status exactly when the credential has one, no bounds. *)
Definition PresentedFor (credpk : Credential * bytes) (pc : IPresentedCredential) : Prop :=
  pc_issuer pc = issuerPubKey (fst credpk) /\
  (pc_status pc = None <-> credStatus (fst credpk) = None) /\
  pc_bounds pc = None.

(** [set context(context)] *)
Definition set_context (b : PresentationBuilder) (context : option bytes)
  : PresentationBuilder :=
  {| version := version b; _context := context; _nonce := _nonce b;
     proof := proof b; _proofSpec := _proofSpec b; spec := spec b;
     credentials := credentials b; revealedAttributes := revealedAttributes b;
     attributeEqualities := attributeEqualities b; credStatuses := credStatuses b |}.

(** [set nonce(nonce)] *)
Definition set_nonce (b : PresentationBuilder) (nonce : option bytes)
  : PresentationBuilder :=
  {| version := version b; _context := _context b; _nonce := nonce;
     proof := proof b; _proofSpec := _proofSpec b; spec := spec b;
     credentials := credentials b; revealedAttributes := revealedAttributes b;
     attributeEqualities := attributeEqualities b; credStatuses := credStatuses b |}.

(** [enforceBounds] and [verifiablyEncrypt] have an empty body. *)
Definition enforceBounds (b : PresentationBuilder) (credIdx : Z) (attributeName : string)
    (min max : JsNumber.number) (provingKey : bytes) : PresentationBuilder := b.
Definition verifiablyEncrypt (b : PresentationBuilder) (credIdx : Z)
    (attributeName : string) : PresentationBuilder := b.

(** The calls a user makes on a builder before [finalize]. *)
Inductive BuilderCall : Type :=
  | BAddCredential (credential : Credential) (pk : bytes)
  | BMarkAttributesRevealed (credIdx : Z) (attributeNames : gset string)
  | BMarkAttributesEqual (equality : AttributeEquality)
  | BAddAccumInfoForCredStatus (credIdx : Z) (accumWitness : AccumulatorWitness)
      (accumulated accumPublicKey : bytes) (extra : json)
  | BSetContext (context : option bytes)
  | BSetNonce (nonce : option bytes)
  | BEnforceBounds (credIdx : Z) (attributeName : string) (min max : JsNumber.number)
      (provingKey : bytes)
  | BVerifiablyEncrypt (credIdx : Z) (attributeName : string).

Definition builderExec (b : PresentationBuilder) (c : BuilderCall)
  : Result PresentationBuilder :=
  match c with
  | BAddCredential cred pk => Ok (snd (addCredential b cred pk))
  | BMarkAttributesRevealed i names => markAttributesRevealed b i names
  | BMarkAttributesEqual eql => markAttributesEqual b eql
  | BAddAccumInfoForCredStatus i w acc pk extra => addAccumInfoForCredStatus b i w acc pk extra
  | BSetContext ctx => Ok (set_context b ctx)
  | BSetNonce n => Ok (set_nonce b n)
  | BEnforceBounds i a mn mx k => Ok (enforceBounds b i a mn mx k)
  | BVerifiablyEncrypt i a => Ok (verifiablyEncrypt b i a)
  end.

(** A call that throws leaves the builder as it was: every method checks
    its indices before its first assignment. *)
Definition builderStep (b : PresentationBuilder) (c : BuilderCall) : PresentationBuilder :=
  match builderExec b c with
  | Ok b' => b'
  | Throw _ => b
  end.

Definition builderRun (b : PresentationBuilder) (cs : list BuilderCall)
  : PresentationBuilder :=
  fold_left builderStep cs b.

End BuilderOps.

(** ** Concrete instances used to exercise the statements *)

Module Examples.

(** A signer whose protocol functions always succeed with empty outputs. *)
Definition demoSigner : ThresholdSig.SignerFuncs :=
  {| ThresholdSig.startRound1Func := fun _ _ _ _ => Ok ([], [], ∅);
     ThresholdSig.processCommFunc := fun st _ _ _ => Ok st;
     ThresholdSig.getSharesForOtherFunc := fun _ _ => Ok ([], []);
     ThresholdSig.getSharesForOthersFunc := fun _ l => Ok (map (fun _ => ([], [])) l);
     ThresholdSig.processSharesFunc := fun st _ _ _ => Ok st;
     ThresholdSig.finishRound1Func := fun st _ => Ok st;
     ThresholdSig.startRound2Func := fun _ _ out _ _ => Ok (out, ∅);
     ThresholdSig.recvMsg1Func := fun st _ m _ => Ok (st, m);
     ThresholdSig.recvMsg2Func := fun st _ _ _ => Ok st;
     ThresholdSig.finishRound2Func := fun st => Ok st |}.

(** A history in which no round was ever opened. *)
Definition idleHistory : list ThresholdSig.Call :=
  [ThresholdSig.CProcessReceivedShares 2 [] []; ThresholdSig.CFinishRound2].


(** Signature parameters with empty generators, one per message. *)
Definition demoSigBackend : SigParams.SigParamsBackend :=
  {| SigParams.psGenerateSignatureParams := fun n _ =>
       {| SigParams.g := []; SigParams.g_tilde := []; SigParams.h := repeat [] n |};
     SigParams.psAdaptSignatureParamsForMsgCount := fun v _ n =>
       {| SigParams.g := SigParams.g v; SigParams.g_tilde := SigParams.g_tilde v;
          SigParams.h := repeat [] n |};
     SigParams.psIsSignatureParamsValid := fun _ => true |}.

(** A run time whose [JSON.stringify] prints nothing useful and whose
    [JSON.parse] knows no document: enough for schemas without [$ref]s to
    other definitions. *)
Definition bareRuntime : Schema.JsRuntime :=
  {| Schema.JSON_stringify := fun _ => "";
     Schema.JSON_parse := fun _ => Throw BackendError;
     Schema.encodeURIComponent := fun s => s;
     Schema.decodeURIComponent := fun s => Ok s;
     Schema.pointer_get := fun _ _ => Throw BackendError |}.

(** The first schema of the flattening test: a subject with one string. *)
Definition fnameJsonSchema : Json.json :=
  Json.JObj
    [("$schema", Json.JStr "http://json-schema.org/draft-07/schema#");
     ("type", Json.JStr "object");
     ("properties",
      Json.JObj
        [("credentialSubject",
          Json.JObj
            [("type", Json.JStr "object");
             ("properties",
              Json.JObj [("fname", Json.JObj [("type", Json.JStr "string")])])])])].

Definition fnameInternal : Json.json :=
  Json.JObj [("credentialSubject", Json.JObj [("fname", Schema.string_leaf)])].

(** An internal schema with an array of two items under the subject. *)
Definition petsInternal : Json.json :=
  Json.JObj
    [("credentialSubject",
      Json.JObj
        [("fname", Schema.string_leaf);
         ("pets", Json.JArr [Json.JObj [("name", Schema.string_leaf)];
                             Json.JObj [("name", Schema.string_leaf)]])])].

Definition fnameSchema : Schema.CredentialSchema :=
  {| Schema.version := Schema.VERSION;
     Schema.schema := fnameInternal;
     Schema.jsonSchema := fnameJsonSchema;
     Schema.parsingOptions := Schema.DefaultSchemaParsingOpts;
     Schema.encoder :=
       {| Schema.encoders :=
            [("credentialSchema", Schema.defaultEncodeFunc);
             ("credentialSubject.fname", Schema.defaultEncodeFunc);
             ("cryptoVersion", Schema.defaultEncodeFunc)];
          Schema.defaultEncoder := None |} |}.

(** A run time that prints JSON without white space (strings are printed as
    they are: the example has nothing to escape), percent-encodes all but
    the characters [encodeURIComponent] keeps, and parses the one document
    of the example. *)
Definition double_quote : string := String "034" EmptyString.

Definition join_with (sep : string) (l : list string) : string :=
  match l with
  | [] => EmptyString
  | x :: r => fold_left (fun acc y => acc +:+ sep +:+ y) r x
  end.

Fixpoint print (v : Json.json) : string :=
  match v with
  | Json.JNull => "null"
  | Json.JBool b => if b then "true" else "false"
  | Json.JNum n => JsNumber.toString n
  | Json.JStr s => double_quote +:+ s +:+ double_quote
  | Json.JArr items => "[" +:+ join_with "," (map print items) +:+ "]"
  | Json.JObj fields =>
      "{" +:+ join_with ","
                (map (fun kv => double_quote +:+ fst kv +:+ double_quote +:+ ":"
                                +:+ print (snd kv)) fields)
          +:+ "}"
  end.

Definition between (lo hi n : nat) : bool := (lo <=? n)%nat && (n <=? hi)%nat.

Definition unreserved (c : ascii) : bool :=
  let n := nat_of_ascii c in
  between 48 57 n || between 65 90 n || between 97 122 n
  || existsb (Ascii.eqb c) (list_ascii_of_string "-_.!~*'()").

Definition hex_digit (n : nat) : ascii :=
  nth n (list_ascii_of_string "0123456789ABCDEF") "0"%char.

Definition hex_value (c : ascii) : option nat :=
  let n := nat_of_ascii c in
  if between 48 57 n then Some (n - 48)%nat
  else if between 65 70 n then Some (n - 55)%nat
  else None.

Fixpoint percent_encode (s : string) : string :=
  match s with
  | EmptyString => EmptyString
  | String c r =>
      if unreserved c then String c (percent_encode r)
      else String "%" (String (hex_digit (nat_of_ascii c / 16))
                         (String (hex_digit (nat_of_ascii c mod 16)) (percent_encode r)))
  end.

Fixpoint percent_decode (s : string) : Result string :=
  match s with
  | EmptyString => Ok EmptyString
  | String c r =>
      if Ascii.eqb c "%" then
        match r with
        | String a (String b r') =>
            match hex_value a, hex_value b with
            | Some h, Some l =>
                rest ← percent_decode r';
                Ok (String (ascii_of_nat (16 * h + l)) rest)
            | _, _ => Throw BackendError
            end
        | _ => Throw BackendError
        end
      else (rest ← percent_decode r; Ok (String c rest))
  end.

Definition printingRuntime : Schema.JsRuntime :=
  {| Schema.JSON_stringify := print;
     Schema.JSON_parse := fun s =>
       if String.eqb s (print fnameJsonSchema) then Ok fnameJsonSchema
       else Throw BackendError;
     Schema.encodeURIComponent := percent_encode;
     Schema.decodeURIComponent := percent_decode;
     Schema.pointer_get := fun _ _ => Throw BackendError |}.

(** A credential under that schema, without status. *)
Definition fnameCredential : Presentation.Credential :=
  {| Presentation.cred_schema := fnameSchema;
     Presentation.credStatus := None;
     Presentation.signature := [];
     Presentation.issuerPubKey := Json.JStr "did:dock:some-issuer-did-123";
     Presentation.serializeForSigning :=
       Json.JObj
         [("cryptoVersion", Json.JStr "0.0.1");
          ("credentialSchema", Json.JStr "schema");
          ("credentialSubject", Json.JObj [("fname", Json.JStr "John")])] |}.

(** A back-end that encodes every value as the empty scalar. *)
Definition demoPresentationBackend : Presentation.PresentationBackend :=
  {| Presentation.applyEncodeFunc := fun _ _ => Ok [];
     Presentation.SIGNATURE_PARAMS_LABEL_BYTES := ["x"]%byte;
     Presentation.dockAccumulatorParams := [];
     Presentation.dockAccumulatorMemProvingKey := [];
     Presentation.dockAccumulatorNonMemProvingKey := [];
     Presentation.generateUsingQuasiProofSpec := fun _ _ _ => Ok [] |}.

(** A builder holding that one credential. *)
Definition oneCredentialBuilder : Presentation.PresentationBuilder :=
  snd (Presentation.addCredential Presentation.newPresentationBuilder fnameCredential []).


Definition from_ok {A : Type} (dflt : A) (r : Result A) : A :=
  match r with Ok a => a | Throw _ => dflt end.

(** A schema with a credential status. *)
Definition statusJsonSchema : Json.json :=
  Json.JObj
    [("$schema", Json.JStr "http://json-schema.org/draft-07/schema#");
     ("type", Json.JStr "object");
     ("properties",
      Json.JObj
        [("credentialSubject",
          Json.JObj
            [("type", Json.JStr "object");
             ("properties",
              Json.JObj [("fname", Json.JObj [("type", Json.JStr "string")])])]);
         ("credentialStatus",
          Json.JObj
            [("type", Json.JStr "object");
             ("properties",
              Json.JObj
                [("id", Json.JObj [("type", Json.JStr "string")]);
                 ("type", Json.JObj [("type", Json.JStr "string")]);
                 ("revocationCheck", Json.JObj [("type", Json.JStr "string")]);
                 ("revocationId", Json.JObj [("type", Json.JStr "string")])])])])].

Definition statusSchema : Schema.CredentialSchema :=
  from_ok fnameSchema
    (Schema.newCredentialSchema (RT := bareRuntime) 10 statusJsonSchema Schema.noParsingOpts).

Definition statusObject : Json.dict Json.json :=
  [("id", Json.JStr "dock:accumulator:accumId123");
   ("type", Json.JStr "DockVBAccumulator2022");
   ("revocationCheck", Json.JStr "membership");
   ("revocationId", Json.JStr "user:A-123")].

Definition statusCredential : Presentation.Credential :=
  {| Presentation.cred_schema := statusSchema;
     Presentation.credStatus := Some statusObject;
     Presentation.signature := [];
     Presentation.issuerPubKey := Json.JStr "did:dock:some-issuer-did-123";
     Presentation.serializeForSigning :=
       Json.JObj
         [("cryptoVersion", Json.JStr "0.0.1");
          ("credentialSchema", Json.JStr "schema");
          ("credentialSubject", Json.JObj [("fname", Json.JStr "John")]);
          ("credentialStatus", Json.JObj statusObject)] |}.

(** Two credentials, the first with a status; [fname] of the first is
    revealed, the two [fname]s are declared equal, and the status info of the
    first is supplied. *)
Definition twoCredentials : Presentation.PresentationBuilder :=
  snd (Presentation.addCredential
         (snd (Presentation.addCredential Presentation.newPresentationBuilder
                 statusCredential ["a"]%byte))
         fnameCredential ["b"]%byte).

Definition twoRevealed : Presentation.PresentationBuilder :=
  from_ok twoCredentials (Presentation.markAttributesRevealed twoCredentials 0 {["fname"]}).

Definition twoEqual : Presentation.PresentationBuilder :=
  from_ok twoRevealed
    (Presentation.markAttributesEqual twoRevealed [(0, "fname"); (1, "fname")]).

Definition readyBuilder : Presentation.PresentationBuilder :=
  from_ok twoEqual
    (Presentation.addAccumInfoForCredStatus twoEqual 0
       (Presentation.MembershipWitness ["w"]%byte) ["c"]%byte ["k"]%byte (Json.JObj [])).

(** The same builder with a non-membership witness for the membership
    check, and one asking for the equality of an attribute that the second
    credential does not have. *)
Definition wrongWitnessBuilder : Presentation.PresentationBuilder :=
  from_ok twoEqual
    (Presentation.addAccumInfoForCredStatus twoEqual 0
       (Presentation.NonMembershipWitness ["w"]%byte) ["c"]%byte ["k"]%byte (Json.JObj [])).

Definition missingNameBuilder : Presentation.PresentationBuilder :=
  from_ok readyBuilder
    (Presentation.markAttributesEqual readyBuilder [(0, "fname"); (1, "lname")]).

End Examples.
(** ** Further instances *)

Module MoreExamples.

(** Labelled parameters for five and for three messages, with one-byte
    generators. *)
Definition fiveParams : SigParams.PSSignatureParams :=
  {| SigParams.label := Some ["l"]%byte;
     SigParams.value :=
       {| SigParams.g := ["g"]%byte; SigParams.g_tilde := ["t"]%byte;
          SigParams.h := [["0"]; ["1"]; ["2"]; ["3"]; ["4"]]%byte |} |}.

Definition threeParams : SigParams.PSSignatureParams :=
  {| SigParams.label := Some ["l"]%byte;
     SigParams.value :=
       {| SigParams.g := ["g"]%byte; SigParams.g_tilde := ["t"]%byte;
          SigParams.h := [["0"]; ["1"]; ["2"]]%byte |} |}.

(** A document whose only property refers to the document itself. *)
Definition selfReferring (k : string) : Json.json :=
  Json.JObj [("type", Json.JStr "object");
             ("properties", Json.JObj [(k, Json.JObj [("$ref", Json.JStr "#")])])].

(** A run time whose pointer library knows the empty pointer only. *)
Definition rootPointerRuntime : Schema.JsRuntime :=
  {| Schema.JSON_stringify := fun _ => "";
     Schema.JSON_parse := fun _ => Throw BackendError;
     Schema.encodeURIComponent := fun s => s;
     Schema.decodeURIComponent := fun s => Ok s;
     Schema.pointer_get := fun r p =>
       if String.eqb p "" then Ok r else Throw BackendError |}.

(** [{ ...DefaultSchemaParsingOpts, useDefaults: true }] *)
Definition lenientOpts : Schema.ISchemaParsingOpts :=
  Schema.mergeParsingOpts
    {| Schema.useDefaults_opt := Some true;
       Schema.defaultMinimumInteger_opt := None;
       Schema.defaultDecimalPlaces_opt := None |}.

(** A schema with a leaf of each numeric kind and an encryptable string. *)
Definition typedJsonSchema : Json.json :=
  Json.JObj
    [("$schema", Json.JStr "http://json-schema.org/draft-07/schema#");
     ("type", Json.JStr "object");
     ("properties",
      Json.JObj
        [("credentialSubject",
          Json.JObj
            [("type", Json.JStr "object");
             ("properties",
              Json.JObj
                [("fname", Json.JObj [("type", Json.JStr "string")]);
                 ("SSN", Json.JObj [("$ref", Json.JStr "#/definitions/encryptableString")]);
                 ("rank", Json.JObj [("type", Json.JStr "integer");
                                     ("minimum", Json.JNum (JsNumber.of_Z 0))]);
                 ("score", Json.JObj [("type", Json.JStr "number");
                                      ("minimum", Json.JNum (JsNumber.of_Z (-100)));
                                      ("multipleOf", Json.JNum (JsNumber.pow10_neg 1))])])])]);
     ("definitions", Json.JObj Schema.JSON_SCHEMA_CUSTOM_DEFS)].

Definition typedSchema : Schema.CredentialSchema :=
  Examples.from_ok Examples.fnameSchema
    (Schema.newCredentialSchema (RT := Examples.bareRuntime) 10 typedJsonSchema
       Schema.noParsingOpts).

(** The presentation and the builder after [finalize] on the ready
    builder, and after a second [finalize]. *)
Definition noPresentation : Presentation.Presentation * Presentation.PresentationBuilder :=
  ({| Presentation.p_version := EmptyString;
      Presentation.p_spec := Presentation.newPresentationSpecification;
      Presentation.p_proof := [];
      Presentation.p_context := None;
      Presentation.p_nonce := None |},
   Presentation.newPresentationBuilder).

Definition finalizedOnce : Presentation.Presentation * Presentation.PresentationBuilder :=
  Examples.from_ok noPresentation
    (Presentation.finalize (PB := Examples.demoPresentationBackend)
       (SB := Examples.demoSigBackend) Examples.readyBuilder).

Definition presentedOnce : Presentation.Presentation := fst finalizedOnce.
Definition builderAfterOnce : Presentation.PresentationBuilder := snd finalizedOnce.

Definition finalizedTwice : Presentation.Presentation * Presentation.PresentationBuilder :=
  Examples.from_ok noPresentation
    (Presentation.finalize (PB := Examples.demoPresentationBackend)
       (SB := Examples.demoSigBackend) builderAfterOnce).

Definition presentedTwice : Presentation.Presentation := fst finalizedTwice.
Definition builderAfterTwice : Presentation.PresentationBuilder := snd finalizedTwice.

(** A schema whose subject has an attribute called [dk]. *)
Definition dkSchema : Schema.CredentialSchema :=
  Examples.from_ok Examples.fnameSchema
    (Schema.newCredentialSchema (RT := Examples.bareRuntime) 10
       (Json.JObj
          [("type", Json.JStr "object");
           ("properties",
            Json.JObj
              [("credentialSubject",
                Json.JObj
                  [("type", Json.JStr "object");
                   ("properties",
                    Json.JObj [("dk", Json.JObj [("type", Json.JStr "string")])])])])])
       Schema.noParsingOpts).

(** The JSON of the [fname] schema as an earlier version of the library
    wrote it. *)
Definition olderVersionJson : Schema.SchemaJson :=
  let j := Schema.toJSON (RT := Examples.printingRuntime) Examples.fnameSchema in
  {| Schema.sj_id := Schema.sj_id j;
     Schema.sj_type := Schema.sj_type j;
     Schema.sj_parsingOptions := Schema.sj_parsingOptions j;
     Schema.sj_version := "0.0.1" |}.

End MoreExamples.

(** * Properties *)

(** ** The result monad *)

Lemma bind_ok_inv {A B : Type} (r : Result A) (k : A -> Result B) (b : B) :
  bind r k = Ok b -> exists a, r = Ok a /\ k a = Ok b.
Proof. destruct r as [a|e]; simpl; [eauto | discriminate]. Qed.

Lemma mbind_ok_inv {A B : Type} (r : Result A) (k : A -> Result B) (b : B) :
  (r ≫= k) = Ok b -> exists a, r = Ok a /\ k a = Ok b.
Proof. apply bind_ok_inv. Qed.

Lemma bind_throw_l {A B : Type} (r : Result A) (k : A -> Result B) :
  throws r -> throws (r ≫= k).
Proof. intros [e ->]. exists e. reflexivity. Qed.

Lemma bind_throw_r {A B : Type} (r : Result A) (k : A -> Result B) :
  (forall a, throws (k a)) -> throws (r ≫= k).
Proof.
  intros Hk. destruct r as [a|e]; [apply Hk | exists e; reflexivity].
Qed.

Lemma throws_not_ok {A : Type} (r : Result A) : throws r <-> is_ok r = false.
Proof.
  split.
  - intros [e ->]. reflexivity.
  - destruct r as [a|e]; [discriminate | exists e; reflexivity].
Qed.

Lemma ok_not_throws {A : Type} (r : Result A) (a : A) : r = Ok a -> ~ throws r.
Proof. intros -> [e He]. discriminate. Qed.

Lemma throw_if_true (e : Error) : throw_if true e = Throw e.
Proof. reflexivity. Qed.

Lemma throw_if_ok (c : bool) (e : Error) (u : unit) : throw_if c e = Ok u -> c = false.
Proof. destruct c; [discriminate | reflexivity]. Qed.

Lemma Ok_inj {A : Type} (a b : A) : Ok a = Ok b -> a = b.
Proof. intros H. injection H as H. exact H. Qed.

(** Splits every successful monadic sequence among the hypotheses into its
    successful steps. *)
Ltac inv_binds :=
  repeat match goal with
  | H : (_ ≫= _) = Ok _ |- _ =>
      let a := fresh "a" in let Ha := fresh "Ha" in
      apply mbind_ok_inv in H; destruct H as (a & Ha & H)
  | H : Ok _ = Ok _ |- _ => apply Ok_inj in H
  | H : Throw _ = Ok _ |- _ => discriminate H
  | H : (let '(_, _) := ?p in _) = Ok _ |- _ => destruct p
  | H : (_, _) = (_, _) |- _ =>
      apply pair_equal_spec in H; destruct H
  | H : ?x = _ |- _ => is_var x; subst x
  | H : _ = ?y |- _ => is_var y; subst y
  end.

(** ** Round ordering of the threshold signer *)

Module ThresholdSigFacts.
Import ThresholdSig.

Section Facts.
Context `{F : SignerFuncs}.

(** *** The guards, on an arbitrary signer object *)

Lemma not_started_guard (s : ThresholdSigner) :
  round1State s = None -> ensureRound1Started s = Throw Round1NotStarted.
Proof. intros H. unfold ensureRound1Started, hasStarted. rewrite H. reflexivity. Qed.

Lemma not_finished1_guard (s : ThresholdSigner) :
  round1Output s = None -> ensureRound1Finished s = Throw Round1NotFinished.
Proof. intros H. unfold ensureRound1Finished, hasFinishedRound1. rewrite H. reflexivity. Qed.

Lemma not_started2_guard (s : ThresholdSigner) :
  round2State s = None -> ensureRound2Started s = Throw Round2NotStarted.
Proof. intros H. unfold ensureRound2Started, hasStartedRound2. rewrite H. reflexivity. Qed.

Lemma round1_calls_throw (s : ThresholdSigner) :
  round1State s = None ->
  (forall i c z, processReceivedCommitments s i c z = Throw Round1NotStarted) /\
  (forall i, getSharesForOtherSigner s i = Throw Round1NotStarted) /\
  (forall l, getSharesForOtherSigners s l = Throw Round1NotStarted) /\
  (forall i sh z, processReceivedShares s i sh z = Throw Round1NotStarted).
Proof.
  intros H. repeat split; intros;
    unfold processReceivedCommitments, getSharesForOtherSigner,
      getSharesForOtherSigners, processReceivedShares;
    rewrite (not_started_guard s H); reflexivity.
Qed.

Lemma startRound2_throws (s : ThresholdSigner) :
  round1Output s = None ->
  forall b g, startRound2 s b g = Throw Round1NotFinished.
Proof.
  intros H b g. unfold startRound2. rewrite (not_finished1_guard s H). reflexivity.
Qed.

Lemma round2_calls_throw (s : ThresholdSigner) :
  round2State s = None ->
  (forall i m g, processReceivedMsg1 s i m g = Throw Round2NotStarted) /\
  (forall i m g, processReceivedMsg2 s i m g = Throw Round2NotStarted) /\
  finishRound2 s = Throw Round2NotStarted.
Proof.
  intros H. repeat split; intros;
    unfold processReceivedMsg1, processReceivedMsg2, finishRound2;
    rewrite (not_started2_guard s H); reflexivity.
Qed.

Lemma started_guard_ok (s : ThresholdSigner) (u : unit) :
  ensureRound1Started s = Ok u -> round1State s <> None.
Proof. intros H Hn. rewrite (not_started_guard s Hn) in H. discriminate. Qed.

Lemma started2_guard_ok (s : ThresholdSigner) (u : unit) :
  ensureRound2Started s = Ok u -> round2State s <> None.
Proof. intros H Hn. rewrite (not_started2_guard s Hn) in H. discriminate. Qed.

(** *** Which call can set which field *)

Ltac exec_cases H :=
  unfold exec, startRound1, processReceivedCommitments, getSharesForOtherSigner,
    getSharesForOtherSigners, processReceivedShares, finishR1, startRound2,
    processReceivedMsg1, processReceivedMsg2, finishRound2 in H;
  inv_binds; simpl.

Lemma step_round1State (s : ThresholdSigner) (c : Call) :
  round1State (step s c) <> None ->
  round1State s <> None \/ isStartRound1 c = true.
Proof.
  unfold step. destruct (exec s c) as [s'|e] eqn:E; [|auto].
  destruct c; simpl; auto; exec_cases E; eauto using started_guard_ok.
Qed.

Lemma step_round1Output (s : ThresholdSigner) (c : Call) :
  round1Output (step s c) <> None ->
  round1Output s <> None \/ isFinishR1 c = true.
Proof.
  unfold step. destruct (exec s c) as [s'|e] eqn:E; [|auto].
  destruct c; simpl; auto; exec_cases E; auto.
Qed.

Lemma step_round2State (s : ThresholdSigner) (c : Call) :
  round2State (step s c) <> None ->
  round2State s <> None \/ isStartRound2 c = true.
Proof.
  unfold step. destruct (exec s c) as [s'|e] eqn:E; [|auto].
  destruct c; simpl; auto; exec_cases E; eauto using started2_guard_ok.
Qed.

Lemma run_snoc (s : ThresholdSigner) (cs : list Call) (c : Call) :
  run s (cs ++ [c]) = step (run s cs) c.
Proof. unfold run. rewrite fold_left_app. reflexivity. Qed.

Lemma existsb_snoc {A : Type} (f : A -> bool) (l : list A) (x : A) :
  existsb f (l ++ [x]) = existsb f l || f x.
Proof. rewrite existsb_app. simpl. rewrite orb_false_r. reflexivity. Qed.

(** Induction over the history, from its last call backwards. *)
Lemma run_field_None {X : Type} (field : ThresholdSigner -> option X) (is_setter : Call -> bool) :
  (forall s c, field (step s c) <> None -> field s <> None \/ is_setter c = true) ->
  forall (s : ThresholdSigner) (cs : list Call),
    field s = None -> existsb is_setter cs = false -> field (run s cs) = None.
Proof.
  intros Hstep s cs H0. induction cs as [|c cs IH] using rev_ind; intros Hex.
  - exact H0.
  - rewrite existsb_snoc in Hex. apply orb_false_elim in Hex as [Hcs Hc].
    rewrite run_snoc.
    destruct (field (step (run s cs) c)) as [x|] eqn:E; [|reflexivity].
    destruct (Hstep (run s cs) c) as [Hprev|Hset].
    + rewrite E. discriminate.
    + rewrite (IH Hcs) in Hprev. congruence.
    + congruence.
Qed.

(** C10.  The signer enforces the order of the rounds.  Take any signer
    object built by the constructor and driven by any history [cs] of method
    calls (calls that threw included).  If [startRound1] was never called,
    [processReceivedCommitments], [getSharesForOtherSigner],
    [getSharesForOtherSigners] and [processReceivedShares] throw
    "Round 1 has not started yet"; if round 1 was never finished
    ([finishR1] never called), [startRound2] throws; and if [startRound2] was
    never called, [processReceivedMsg1], [processReceivedMsg2] and
    [finishRound2] throw "Round 2 has not started yet". *)
Theorem round_ordering (sid : Z) (oth : gset Z) (batch : Z) (pid : bytes) (cs : list Call) :
  (existsb isStartRound1 cs = false ->
     (forall i c z,
        processReceivedCommitments (run (new sid oth batch pid) cs) i c z
        = Throw Round1NotStarted) /\
     (forall i, getSharesForOtherSigner (run (new sid oth batch pid) cs) i
        = Throw Round1NotStarted) /\
     (forall l, getSharesForOtherSigners (run (new sid oth batch pid) cs) l
        = Throw Round1NotStarted) /\
     (forall i sh z, processReceivedShares (run (new sid oth batch pid) cs) i sh z
        = Throw Round1NotStarted)) /\
  (existsb isFinishR1 cs = false ->
     forall b g, startRound2 (run (new sid oth batch pid) cs) b g = Throw Round1NotFinished) /\
  (existsb isStartRound2 cs = false ->
     (forall i m g, processReceivedMsg1 (run (new sid oth batch pid) cs) i m g
        = Throw Round2NotStarted) /\
     (forall i m g, processReceivedMsg2 (run (new sid oth batch pid) cs) i m g
        = Throw Round2NotStarted) /\
     finishRound2 (run (new sid oth batch pid) cs) = Throw Round2NotStarted).
Proof.
  split; [|split]; intros Hex.
  - apply round1_calls_throw.
    exact (run_field_None round1State isStartRound1 step_round1State (new sid oth batch pid) cs eq_refl Hex).
  - apply startRound2_throws.
    exact (run_field_None round1Output isFinishR1 step_round1Output (new sid oth batch pid) cs eq_refl Hex).
  - apply round2_calls_throw.
    exact (run_field_None round2State isStartRound2 step_round2State (new sid oth batch pid) cs eq_refl Hex).
Qed.

(** The same fact read forwards: a call that went through was preceded by
    the call that opens its round. *)
Corollary processed_after_start (sid : Z) (oth : gset Z) (batch : Z) (pid : bytes)
    (cs : list Call) (c : Call) (s' : ThresholdSigner) :
  exec (run (new sid oth batch pid) cs) c = Ok s' ->
  match c with
  | CProcessReceivedCommitments _ _ _ | CGetSharesForOtherSigner _
  | CGetSharesForOtherSigners _ | CProcessReceivedShares _ _ _ | CFinishR1 _ =>
      existsb isStartRound1 cs = true
  | CStartRound2 _ _ => existsb isFinishR1 cs = true
  | CProcessReceivedMsg1 _ _ _ | CProcessReceivedMsg2 _ _ _ | CFinishRound2 =>
      existsb isStartRound2 cs = true
  | CStartRound1 => True
  end.
Proof.
  intros E.
  pose proof (run_field_None round1State isStartRound1 step_round1State
                (new sid oth batch pid) cs eq_refl) as H1.
  pose proof (run_field_None round1Output isFinishR1 step_round1Output
                (new sid oth batch pid) cs eq_refl) as H2.
  pose proof (run_field_None round2State isStartRound2 step_round2State
                (new sid oth batch pid) cs eq_refl) as H3.
  assert (G1 : forall u, ensureRound1Started (run (new sid oth batch pid) cs) = Ok u ->
                         existsb isStartRound1 cs = true).
  { intros u Hu. apply not_false_iff_true. intros Hf.
    exact (started_guard_ok _ _ Hu (H1 Hf)). }
  assert (G3 : forall u, ensureRound2Started (run (new sid oth batch pid) cs) = Ok u ->
                         existsb isStartRound2 cs = true).
  { intros u Hu. apply not_false_iff_true. intros Hf.
    exact (started2_guard_ok _ _ Hu (H3 Hf)). }
  destruct c; try exact I; exec_cases E; eauto.
  apply not_false_iff_true. intros Hf.
  match goal with
  | H : ensureRound1Finished _ = Ok _ |- _ =>
      rewrite (not_finished1_guard _ (H2 Hf)) in H; discriminate H
  end.
Qed.

End Facts.

Lemma round_ordering_witness :
  existsb isStartRound1 Examples.idleHistory = false /\
  existsb isFinishR1 Examples.idleHistory = false /\
  existsb isStartRound2 Examples.idleHistory = false /\
  processReceivedShares (F := Examples.demoSigner)
    (run (F := Examples.demoSigner) (new 1 {[2]} 1 []) Examples.idleHistory) 2 [] []
    = Throw Round1NotStarted /\
  startRound2 (F := Examples.demoSigner)
    (run (F := Examples.demoSigner) (new 1 {[2]} 1 []) Examples.idleHistory) [] []
    = Throw Round1NotFinished /\
  finishRound2 (F := Examples.demoSigner)
    (run (F := Examples.demoSigner) (new 1 {[2]} 1 []) Examples.idleHistory)
    = Throw Round2NotStarted.
Proof.
  destruct (round_ordering (F := Examples.demoSigner) 1 {[2]} 1 [] Examples.idleHistory)
    as (H1 & H2 & H3).
  split; [reflexivity|]. split; [reflexivity|]. split; [reflexivity|].
  split; [apply (H1 eq_refl)|].
  split; [apply (H2 eq_refl)|].
  apply (H3 eq_refl).
Defined.

End ThresholdSigFacts.

(** ** The quasi proof spec materialises to the direct proof spec *)

Module ProofSpecFacts.
Import ProofSpec.

Section Facts.
Context {Stmt MetaStmt : Type} `{B : ProofSpecBackend Stmt MetaStmt}.

Lemma quasi_fields (st : Statements Stmt) (ms : MetaStatements MetaStmt)
    (sp : option (list SetupParam)) (ctx : option bytes) :
  statements (newQuasiProofSpecG1 (Some st) (Some ms) sp ctx) = st /\
  metaStatements (newQuasiProofSpecG1 (Some st) (Some ms) sp ctx) = ms /\
  setupParams (newQuasiProofSpecG1 (Some st) (Some ms) sp ctx) = default [] sp /\
  context (newQuasiProofSpecG1 (Some st) (Some ms) sp ctx) = ctx.
Proof. repeat split. Qed.

(** C9.  For all statements, meta-statements, optional setup-params and
    optional context, [new QuasiProofSpecG1(...).toProofSpec()] is
    [new ProofSpecG1(...)] on the same arguments: the same back-end call on
    the same inputs, so the same bytes or the same failure. *)
Theorem quasi_toProofSpec (st : Statements Stmt) (ms : MetaStatements MetaStmt)
    (sp : option (list SetupParam)) (ctx : option bytes) :
  toProofSpec (newQuasiProofSpecG1 (Some st) (Some ms) sp ctx)
  = newProofSpecG1 st ms sp ctx.
Proof.
  unfold toProofSpec, newProofSpecG1, newQuasiProofSpecG1. simpl.
  destruct sp as [l|]; reflexivity.
Qed.

(** Whatever is computed from the materialised spec (its validity, a proof
    generated from it, the verdict of a verification against it) is
    therefore the same on both paths. *)
Corollary quasi_observation {R : Type} (observe : Result ProofSpecG1 -> R)
    (st : Statements Stmt) (ms : MetaStatements MetaStmt)
    (sp : option (list SetupParam)) (ctx : option bytes) :
  observe (toProofSpec (newQuasiProofSpecG1 (Some st) (Some ms) sp ctx))
  = observe (newProofSpecG1 st ms sp ctx).
Proof. rewrite quasi_toProofSpec. reflexivity. Qed.

End Facts.
End ProofSpecFacts.

(** ** Numeric leaves of a schema *)

Module NumberFacts.
Import JsNumber Json Schema.

Lemma pow10_neg_is_pow10_neg (k : nat) : is_pow10_neg (pow10_neg k) k.
Proof.
  unfold is_pow10_neg, pow10_neg, num, den. simpl.
  destruct (Z.leb_spec 0 (- Z.of_nat k)) as [H|H].
  - assert (k = 0%nat) by lia. subst k. reflexivity.
  - rewrite Z.opp_involutive. lia.
Qed.

(** *** Decimal digits *)

Lemma nzhead_no_leading_zero (d : Decimal.uint) :
  match Decimal.nzhead d with Decimal.D0 _ => False | _ => True end.
Proof. induction d; simpl; auto. Qed.

Lemma to_uint_normal (p : positive) : Decimal.unorm (Pos.to_uint p) = Pos.to_uint p.
Proof.
  pose proof (DecimalPos.Unsigned.to_of (Pos.to_uint p)) as H.
  rewrite DecimalPos.Unsigned.of_to in H. simpl in H. symmetry. exact H.
Qed.

Lemma digits_head (p : positive) :
  exists c r, digits (Zpos p) = String c r /\ nonzero_digit c.
Proof.
  unfold digits.
  pose proof (to_uint_normal p) as Hn.
  pose proof (DecimalPos.Unsigned.to_uint_nonzero p) as Hz.
  pose proof (nzhead_no_leading_zero (Pos.to_uint p)) as Hh.
  unfold Decimal.unorm in Hn.
  destruct (Decimal.nzhead (Pos.to_uint p)) as [|u|u|u|u|u|u|u|u|u|u] eqn:E;
    try contradiction; try (exfalso; apply Hz; rewrite <- Hn; reflexivity);
    rewrite <- Hn; simpl; eexists _, _; (split; [reflexivity|]);
    unfold nonzero_digit; simpl; auto 10.
Qed.

Lemma string_of_uint_one (d : Decimal.uint) :
  NilEmpty.string_of_uint d = "1" -> d = Decimal.D1 Decimal.Nil.
Proof.
  destruct d as [|u|u|u|u|u|u|u|u|u|u]; simpl; intros H; try discriminate.
  injection H as H. destruct u; simpl in H; try discriminate. reflexivity.
Qed.

Lemma digits_one (p : positive) : digits (Zpos p) = "1" -> p = 1%positive.
Proof.
  unfold digits. intros H. apply string_of_uint_one in H.
  apply DecimalPos.Unsigned.to_uint_inj. rewrite H. reflexivity.
Qed.

(** *** Normal forms *)

Lemma strip_zeros_spec (fuel : nat) :
  forall (m e s e' : Z),
    0 < m -> strip_zeros fuel m e = (s, e') ->
    0 < s /\ e <= e' /\ m = s * 10 ^ (e' - e).
Proof.
  induction fuel as [|fuel IH]; intros m e s e' Hm H; simpl in H.
  - injection H as <- <-. rewrite Z.sub_diag. simpl. lia.
  - destruct (Z.eqb_spec (m mod 10) 0) as [Hmod|Hmod].
    + assert (Hdiv : m = 10 * (m / 10)) by (rewrite (Z.div_mod m 10) at 1; lia).
      assert (Hpos : 0 < m / 10) by lia.
      destruct (IH (m / 10) (e + 1) s e' Hpos H) as (Hs & He & Hv).
      split; [exact Hs|]. split; [lia|].
      replace (e' - e) with (Z.succ (e' - (e + 1))) by lia.
      rewrite Z.pow_succ_r by lia. rewrite Hdiv at 1. rewrite Hv. ring.
    + injection H as <- <-. rewrite Z.sub_diag. simpl. lia.
Qed.

Lemma normal_spec (x : number) (s e : Z) :
  mant x <> 0 -> normal x = (s, e) ->
  0 < s /\ expo x <= e /\ Z.abs (mant x) = s * 10 ^ (e - expo x).
Proof.
  intros Hm. unfold normal. destruct (Z.eqb_spec (mant x) 0); [contradiction|].
  apply strip_zeros_spec. lia.
Qed.

(** *** The pattern [/^0?\.(0*1$)/] *)

Lemma match_head (c : ascii) (r m : string) :
  match_decimal_point (String c r) = Some m -> c = "0"%char \/ c = "."%char.
Proof.
  unfold match_decimal_point. destruct r as [|c' r'].
  - destruct (Ascii.eqb_spec c "."); [auto | discriminate].
  - destruct (Ascii.eqb_spec c "0"); [auto|]. simpl.
    destruct (Ascii.eqb_spec c "."); [auto | discriminate].
Qed.

Lemma nonzero_digit_not_head (c : ascii) :
  nonzero_digit c -> c <> "0"%char /\ c <> "."%char /\ c <> "-"%char.
Proof.
  unfold nonzero_digit. simpl.
  intros [<-|[<-|[<-|[<-|[<-|[<-|[<-|[<-|[<-|[]]]]]]]]]]; repeat split; discriminate.
Qed.

Lemma match_nonzero_head (c : ascii) (r : string) :
  nonzero_digit c -> match_decimal_point (String c r) = None.
Proof.
  intros H. destruct (match_decimal_point (String c r)) as [m|] eqn:E; [|reflexivity].
  apply match_head in E. apply nonzero_digit_not_head in H as (H0 & H1 & _).
  destruct E; contradiction.
Qed.

Lemma append_cons (c : ascii) (r s : string) : String c r +:+ s = String c (r +:+ s).
Proof. reflexivity. Qed.

Lemma match_zero_point (rest : string) :
  match_decimal_point ("0." +:+ rest) = if zeros_then_one rest then Some rest else None.
Proof. reflexivity. Qed.

Lemma zeros_then_one_zeros (j : nat) (c : ascii) (r : string) :
  nonzero_digit c ->
  zeros_then_one (zeros j +:+ String c r) = true -> c = "1"%char /\ r = EmptyString.
Proof.
  intros Hc. induction j as [|j IH]; simpl.
  - destruct (Ascii.eqb_spec c "1") as [->|Hne].
    + destruct r; [auto | discriminate].
    + apply nonzero_digit_not_head in Hc as (H0 & _).
      destruct (Ascii.eqb_spec c "0"); [contradiction | discriminate].
  - exact IH.
Qed.

Lemma length_zeros (j : nat) (s : string) :
  String.length (zeros j +:+ s) = (j + String.length s)%nat.
Proof. induction j as [|j IH]; simpl; [reflexivity | rewrite IH; reflexivity]. Qed.

(** *** [getDecimalPlaces] *)

(** The only numbers the pattern lets through are those printed
    [0.0..01]: the powers [10^-k] with [1 <= k]. *)
Lemma toString_matches (d : number) (m1 : string) :
  match_decimal_point (toString d) = Some m1 ->
  exists e : Z,
    0 < mant d /\ normal d = (1, e) /\ -6 < 1 + e <= 0 /\
    m1 = zeros (Z.to_nat (- (1 + e))) +:+ "1".
Proof.
  unfold toString. destruct (normal d) as [s e] eqn:En.
  destruct (Z.eqb_spec (mant d) 0) as [Hz|Hnz].
  { unfold normal in En. rewrite Hz in En. simpl in En. injection En as <- <-.
    simpl. discriminate. }
  destruct (normal_spec d s e Hnz En) as (Hs & He & Hv).
  destruct (Z.eqb_spec s 0) as [|_]; [lia|].
  destruct s as [|p|p]; try lia.
  destruct (digits_head p) as (c & r & Hd & Hc).
  destruct (Z.ltb_spec (mant d) 0) as [Hneg|Hpos].
  { change ("-" +:+ ?b) with (String "-" b).
    intros H. apply match_head in H. destruct H; discriminate. }
  assert (Hm : 0 < mant d) by lia.
  change ("" +:+ ?b) with b.
  rewrite Hd.
  set (k := Z.of_nat (String.length (String c r))).
  set (n := k + e).
  assert (Hk : 1 <= k) by (unfold k; simpl; lia).
  destruct ((k <=? n) && (n <=? 21)) eqn:B1.
  { rewrite append_cons, match_nonzero_head by exact Hc. discriminate. }
  destruct ((0 <? n) && (n <=? 21)) eqn:B2.
  { apply andb_true_iff in B2 as [B2 _]. apply Z.ltb_lt in B2.
    destruct (Z.to_nat n) as [|n'] eqn:En'; [lia|]. simpl String.substring.
    rewrite append_cons, match_nonzero_head by exact Hc. discriminate. }
  destruct ((-6 <? n) && (n <=? 0)) eqn:B3.
  - apply andb_true_iff in B3 as [B3a B3b]. apply Z.ltb_lt in B3a. apply Z.leb_le in B3b.
    change ("0." +:+ zeros (Z.to_nat (- n)) +:+ String c r)
      with ("0." +:+ (zeros (Z.to_nat (- n)) +:+ String c r)).
    rewrite match_zero_point.
    destruct (zeros_then_one (zeros (Z.to_nat (- n)) +:+ String c r)) eqn:Ez; [|discriminate].
    destruct (zeros_then_one_zeros _ c r Hc Ez) as [-> ->].
    intros H. injection H as <-.
    apply digits_one in Hd. subst p.
    unfold n, k in *. simpl in *.
    exists e. repeat split; try lia; try assumption.
  - destruct (k =? 1).
    + rewrite append_cons, match_nonzero_head by exact Hc. discriminate.
    + simpl String.substring.
      rewrite append_cons, match_nonzero_head by exact Hc. discriminate.
Qed.

Lemma getDecimalPlaces_sound (d r : number) :
  getDecimalPlaces d = Ok r ->
  exists k : nat, r = of_Z (Z.of_nat k) /\ (1 <= k <= 6)%nat /\ is_pow10_neg d k.
Proof.
  unfold getDecimalPlaces.
  destruct (match_decimal_point (toString d)) as [m1|] eqn:E; [|discriminate].
  intros H. apply Ok_inj in H. subst r.
  apply toString_matches in E as (e & Hm & Hn & He & ->).
  exists (Z.to_nat (- e)). split; [|split].
  - rewrite length_zeros. simpl. f_equal. lia.
  - lia.
  - assert (Hnz : mant d <> 0) by lia.
    destruct (normal_spec d 1 e Hnz Hn) as (_ & Hle & Hv).
    unfold is_pow10_neg, num, den.
    destruct (Z.leb_spec 0 (expo d)) as [Hexp|Hexp]; [lia|].
    rewrite Z.abs_eq in Hv by lia. rewrite Hv, Z.mul_1_l.
    rewrite Z2Nat.id by lia. rewrite <- Z.pow_add_r by lia. f_equal. lia.
Qed.

(** The literals [0.1], [0.01], ..., [0.000001] are let through. *)
Lemma getDecimalPlaces_pow10 (k : nat) :
  (1 <= k <= 6)%nat -> getDecimalPlaces (pow10_neg k) = Ok (of_Z (Z.of_nat k)).
Proof.
  intros H.
  assert (Hk : (k = 1 \/ k = 2 \/ k = 3 \/ k = 4 \/ k = 5 \/ k = 6)%nat) by lia.
  destruct Hk as [->|[->|[->|[->|[->| ->]]]]]; reflexivity.
Qed.

End NumberFacts.

(** ** Conversion of a JSON-Schema document *)

Module SchemaFacts.
Import JsNumber Json Schema NumberFacts.

Section Conversion.
Context `{RT : JsRuntime}.

Lemma get_number_field (fields : dict json) (k : string) (v : option number) :
  number_field fields k v -> get_number (JObj fields) k = Ok v.
Proof.
  unfold number_field, get_number. simpl. intros ->. destruct v; reflexivity.
Qed.

Lemma resolve_ref_plain (fields : dict json) (rootNode : json) :
  dict_get "$ref" fields = None ->
  resolve_ref (JObj fields) rootNode = Ok (inr (JObj fields)).
Proof. intros H. unfold resolve_ref. simpl. rewrite H. reflexivity. Qed.

Lemma convert_plain (fuel : nat) (fields : dict json) (t : string)
    (opts : ISchemaParsingOpts) (root : option json) :
  plain_node fields t ->
  convertToInternalSchemaObj (S fuel) (JObj fields) opts root
  = if String.eqb t "string" then Ok (JObj fields)
    else if String.eqb t "integer" then parseIntegerType (JObj fields) opts
    else if String.eqb t "number" then parseNumberType (JObj fields) opts
    else if String.eqb t "object" then
      match dict_get "properties" fields with
      | None => Throw NoPropertiesObject
      | Some p =>
          entries ← Object_entries p;
          result ← convert_entries
            (fun v => convertToInternalSchemaObj fuel v opts
                        (Some (rootNodeOf (JObj fields) root)))
            entries [];
          Ok (JObj result)
      end
    else if String.eqb t "array" then
      match dict_get "items" fields with
      | Some (JArr l) =>
          xs ← convert_items
            (fun i => convertToInternalSchemaObj fuel i opts
                        (Some (rootNodeOf (JObj fields) root)))
            l;
          Ok (JArr xs)
      | _ => Throw TypeError
      end
    else Throw UnknownSchemaType.
Proof.
  intros [Href Htype]. simpl.
  rewrite (resolve_ref_plain fields _ Href). simpl. rewrite Htype. simpl.
  reflexivity.
Qed.

Lemma resolve_ref_override (fields : dict json) (rootNode : json) (ref : string) (o : json) :
  dict_get "$ref" fields = Some (JStr ref) ->
  dict_get ref JSON_SCHEMA_OVERRIDE_DEFS = Some o ->
  resolve_ref (JObj fields) rootNode = Ok (inl o).
Proof.
  intros Href Ho.
  assert (Hcases : ref = "#/definitions/encryptableString" \/
                   ref = "#/definitions/encryptableCompString").
  { simpl in Ho.
    destruct (String.eqb_spec ref "#/definitions/encryptableString"); [auto|].
    destruct (String.eqb_spec ref "#/definitions/encryptableCompString");
      [auto | discriminate]. }
  unfold resolve_ref. simpl get_prop. rewrite Href.
  destruct Hcases as [-> | ->]; simpl in Ho; apply Some_inj in Ho; subst o; reflexivity.
Qed.

Lemma convert_override (fuel : nat) (fields : dict json) (ref : string) (o : json)
    (opts : ISchemaParsingOpts) (root : option json) :
  dict_get "$ref" fields = Some (JStr ref) ->
  dict_get ref JSON_SCHEMA_OVERRIDE_DEFS = Some o ->
  convertToInternalSchemaObj (S fuel) (JObj fields) opts root = Ok o.
Proof.
  intros Href Ho. cbn [convertToInternalSchemaObj].
  rewrite (resolve_ref_override fields _ ref o Href Ho). reflexivity.
Qed.

Lemma convert_items_ok (conv : json -> Result json) (items : list json) :
  forall xs, convert_items conv items = Ok xs ->
    length xs = length items /\
    forall (i : nat) (item : json), items !! i = Some item ->
      exists x, xs !! i = Some x /\ conv item = Ok x.
Proof.
  induction items as [|it items IH]; intros xs H; simpl in H.
  - apply Ok_inj in H. subst xs. split; [reflexivity|]. intros i item Hi. discriminate.
  - apply mbind_ok_inv in H as (x & Hx & H). apply mbind_ok_inv in H as (xs' & Hxs & H).
    apply Ok_inj in H. subst xs. destruct (IH xs' Hxs) as [Hlen Hall].
    split; [simpl; lia|]. intros [|i] item Hi; simpl in Hi.
    + apply Some_inj in Hi. subst it. exists x. auto.
    + exact (Hall i item Hi).
Qed.

Lemma convert_items_complete (conv : json -> Result json) (items xs : list json) :
  Forall2 (fun item x => conv item = Ok x) items xs ->
  convert_items conv items = Ok xs.
Proof.
  induction 1 as [|item x items xs Hx _ IH]; [reflexivity|].
  cbn [convert_items]. rewrite Hx, IH. reflexivity.
Qed.

Lemma parseIntegerType_ok (fields : dict json) (opts : ISchemaParsingOpts) (m : number) :
  number_field fields "minimum" (Some m) ->
  parseIntegerType (JObj fields) opts
  = Ok (if ge_zero m then positiveIntegerLeaf else integerLeaf m).
Proof.
  intros Hm. unfold parseIntegerType. rewrite (get_number_field _ _ _ Hm). simpl.
  rewrite andb_false_r. reflexivity.
Qed.

Lemma parseIntegerType_strict (fields : dict json) (opts : ISchemaParsingOpts) :
  useDefaults opts = false ->
  number_field fields "minimum" None ->
  parseIntegerType (JObj fields) opts = Throw NoMinimum.
Proof.
  intros Hu Hm. unfold parseIntegerType. rewrite (get_number_field _ _ _ Hm). simpl.
  rewrite Hu. reflexivity.
Qed.

Lemma parseNumberType_ok (fields : dict json) (opts : ISchemaParsingOpts) (m d : number) :
  number_field fields "minimum" (Some m) ->
  number_field fields "multipleOf" (Some d) ->
  parseNumberType (JObj fields) opts
  = (places ← getDecimalPlaces d;
     Ok (if ge_zero m then positiveDecimalLeaf places else decimalLeaf m places)).
Proof.
  intros Hm Hd. unfold parseNumberType.
  rewrite (get_number_field _ _ _ Hm), (get_number_field _ _ _ Hd). simpl.
  rewrite andb_false_r. reflexivity.
Qed.

Lemma parseNumberType_strict (fields : dict json) (opts : ISchemaParsingOpts)
    (mn mo : option number) :
  useDefaults opts = false ->
  number_field fields "minimum" mn ->
  number_field fields "multipleOf" mo ->
  mn = None \/ mo = None ->
  parseNumberType (JObj fields) opts = Throw NoMinimumOrMultipleOf.
Proof.
  intros Hu Hm Hd Hnone. unfold parseNumberType.
  rewrite (get_number_field _ _ _ Hm), (get_number_field _ _ _ Hd). simpl.
  rewrite Hu. destruct Hnone as [-> | ->]; simpl; [reflexivity|].
  rewrite orb_true_r. reflexivity.
Qed.

(** C6, as the code has it.  For a node [{...fields}] of a schema document
    and every parsing options:
    - a [$ref] to [#/definitions/encryptableString] converts to
      [stringReversible] with [compress: false], one to
      [#/definitions/encryptableCompString] to [compress: true];
    - type [integer] with a minimum [m] converts to [positiveInteger] when
      [m >= 0] and to [integer{minimum: m}] otherwise;
    - type [number] with a minimum [m] and a [multipleOf] written [0.1],
      [0.01], ..., [0.000001] (that is [10^-k], [1 <= k <= 6]) converts to
      [positiveDecimalNumber{decimalPlaces: k}] when [m >= 0] and to
      [decimalNumber{minimum: m, decimalPlaces: k}] otherwise; whenever the
      conversion of such a node succeeds, [multipleOf] is some [10^-k] with
      [1 <= k] and [decimalPlaces] is that [k]; a [multipleOf] that is no
      [10^-k] with [1 <= k] (the number 1 among them) is rejected;
    - type [array] converts to the array of the conversions of its items,
      item by item, in the same order: that array is the result whenever
      every item converts, and whatever the conversion returns is that
      array;
    - under strict parsing ([useDefaults = false]) an [integer] without
      minimum is rejected, and so is a [number] without minimum or without
      [multipleOf]. *)
Theorem conversion_of_leaves (fuel : nat) (fields : dict json)
    (opts : ISchemaParsingOpts) (root : option json) :
  (forall (ref : string) (compress : bool),
     In (ref, compress) [("#/definitions/encryptableString", false);
                         ("#/definitions/encryptableCompString", true)] ->
     dict_get "$ref" fields = Some (JStr ref) ->
     convertToInternalSchemaObj (S fuel) (JObj fields) opts root
     = Ok (reversibleLeaf compress)) /\
  (forall m : number,
     plain_node fields "integer" ->
     number_field fields "minimum" (Some m) ->
     convertToInternalSchemaObj (S fuel) (JObj fields) opts root
     = Ok (if ge_zero m then positiveIntegerLeaf else integerLeaf m)) /\
  (forall m d : number,
     plain_node fields "number" ->
     number_field fields "minimum" (Some m) ->
     number_field fields "multipleOf" (Some d) ->
     (forall k : nat, (1 <= k <= 6)%nat -> d = pow10_neg k ->
        convertToInternalSchemaObj (S fuel) (JObj fields) opts root
        = Ok (if ge_zero m then positiveDecimalLeaf (of_Z (Z.of_nat k))
              else decimalLeaf m (of_Z (Z.of_nat k)))) /\
     (forall res : json,
        convertToInternalSchemaObj (S fuel) (JObj fields) opts root = Ok res ->
        exists k : nat,
          (1 <= k)%nat /\ is_pow10_neg d k /\
          res = (if ge_zero m then positiveDecimalLeaf (of_Z (Z.of_nat k))
                 else decimalLeaf m (of_Z (Z.of_nat k)))) /\
     ((forall k : nat, (1 <= k)%nat -> ~ is_pow10_neg d k) ->
        convertToInternalSchemaObj (S fuel) (JObj fields) opts root
        = Throw (BadMultipleOf (toString d)))) /\
  (forall items : list json,
     plain_node fields "array" ->
     dict_get "items" fields = Some (JArr items) ->
     (forall xs : list json,
        Forall2 (fun item x =>
                   convertToInternalSchemaObj fuel item opts
                     (Some (rootNodeOf (JObj fields) root)) = Ok x) items xs ->
        convertToInternalSchemaObj (S fuel) (JObj fields) opts root = Ok (JArr xs)) /\
     (forall res : json,
        convertToInternalSchemaObj (S fuel) (JObj fields) opts root = Ok res ->
        exists xs : list json,
          res = JArr xs /\ length xs = length items /\
          forall (i : nat) (item : json), items !! i = Some item ->
            exists x, xs !! i = Some x /\
              convertToInternalSchemaObj fuel item opts
                (Some (rootNodeOf (JObj fields) root)) = Ok x)) /\
  (useDefaults opts = false ->
     (plain_node fields "integer" ->
      number_field fields "minimum" None ->
      convertToInternalSchemaObj (S fuel) (JObj fields) opts root = Throw NoMinimum) /\
     (forall mn mo : option number,
        plain_node fields "number" ->
        number_field fields "minimum" mn ->
        number_field fields "multipleOf" mo ->
        mn = None \/ mo = None ->
        convertToInternalSchemaObj (S fuel) (JObj fields) opts root
        = Throw NoMinimumOrMultipleOf)).
Proof.
  split; [|split; [|split; [|split]]].
  - intros ref compress Hin Href.
    apply (convert_override fuel fields ref); [exact Href|].
    destruct Hin as [H|[H|[]]]; injection H as <- <-; reflexivity.
  - intros m Hp Hm. rewrite (convert_plain fuel fields "integer" opts root Hp). simpl.
    apply parseIntegerType_ok. exact Hm.
  - intros m d Hp Hm Hd.
    rewrite (convert_plain fuel fields "number" opts root Hp). simpl.
    rewrite (parseNumberType_ok fields opts m d Hm Hd).
    split; [|split].
    + intros k Hk ->. rewrite (getDecimalPlaces_pow10 k Hk). reflexivity.
    + intros res H. apply mbind_ok_inv in H as (places & Hpl & H).
      apply Ok_inj in H. subst res.
      apply getDecimalPlaces_sound in Hpl as (k & -> & Hk & Hpow).
      exists k. split; [lia|]. split; [exact Hpow | reflexivity].
    + intros Hnot. unfold getDecimalPlaces.
      destruct (match_decimal_point (toString d)) as [m1|] eqn:E; [|reflexivity].
      exfalso.
      assert (Hok : getDecimalPlaces d = Ok (of_Z (Z.of_nat (String.length m1)))).
      { unfold getDecimalPlaces. rewrite E. reflexivity. }
      apply getDecimalPlaces_sound in Hok as (k & _ & Hk & Hpow).
      apply (Hnot k); [lia | exact Hpow].
  - intros items Hp Hitems.
    rewrite (convert_plain fuel fields "array" opts root Hp). simpl. rewrite Hitems.
    split.
    + intros xs Hall. rewrite (convert_items_complete _ items xs Hall). reflexivity.
    + intros res H. apply mbind_ok_inv in H as (xs & Hxs & H).
      apply Ok_inj in H. subst res. exists xs. split; [reflexivity|].
      exact (convert_items_ok _ items xs Hxs).
  - intros Hu. split.
    + intros Hp Hm. rewrite (convert_plain fuel fields "integer" opts root Hp). simpl.
      apply parseIntegerType_strict; assumption.
    + intros mn mo Hp Hm Hd Hnone.
      rewrite (convert_plain fuel fields "number" opts root Hp). simpl.
      apply (parseNumberType_strict fields opts mn mo); assumption.
Qed.

End Conversion.

(** C6 as stated fails.  [multipleOf: 1] is [10^-0], and
    [multipleOf: 0.0000001] is [10^-7]; both are rejected: the pattern asks
    for a decimal point, and [toString] prints [10^-7] as [1e-7]. *)
Lemma multipleOf_powers_rejected :
  is_pow10_neg (of_Z 1) 0 /\
  convertToInternalSchemaObj (RT := Examples.bareRuntime) 3
    (JObj [("type", JStr "number"); ("minimum", JNum (of_Z 0));
           ("multipleOf", JNum (of_Z 1))])
    DefaultSchemaParsingOpts None
  = Throw (BadMultipleOf "1") /\
  is_pow10_neg (pow10_neg 7) 7 /\
  convertToInternalSchemaObj (RT := Examples.bareRuntime) 3
    (JObj [("type", JStr "number"); ("minimum", JNum (of_Z 0));
           ("multipleOf", JNum (pow10_neg 7))])
    DefaultSchemaParsingOpts None
  = Throw (BadMultipleOf "1e-7").
Proof. repeat split. Qed.

Lemma conversion_of_leaves_witness :
  convertToInternalSchemaObj (RT := Examples.bareRuntime) 1
    (JObj [("$ref", JStr "#/definitions/encryptableCompString")])
    DefaultSchemaParsingOpts None
  = Ok (reversibleLeaf true) /\
  convertToInternalSchemaObj (RT := Examples.bareRuntime) 1
    (JObj [("type", JStr "integer"); ("minimum", JNum (of_Z (-100)))])
    DefaultSchemaParsingOpts None
  = Ok (integerLeaf (of_Z (-100))) /\
  convertToInternalSchemaObj (RT := Examples.bareRuntime) 1
    (JObj [("type", JStr "number"); ("minimum", JNum (of_Z (-90)));
           ("multipleOf", JNum (pow10_neg 3))])
    DefaultSchemaParsingOpts None
  = Ok (decimalLeaf (of_Z (-90)) (of_Z 3)) /\
  convertToInternalSchemaObj (RT := Examples.bareRuntime) 1
    (JObj [("type", JStr "number"); ("minimum", JNum (of_Z 0));
           ("multipleOf", JNum {| mant := 5; expo := -1 |})])
    DefaultSchemaParsingOpts None
  = Throw (BadMultipleOf "0.5") /\
  convertToInternalSchemaObj (RT := Examples.bareRuntime) 1
    (JObj [("type", JStr "integer")])
    DefaultSchemaParsingOpts None
  = Throw NoMinimum /\
  convertToInternalSchemaObj (RT := Examples.bareRuntime) 1
    (JObj [("type", JStr "number"); ("minimum", JNum (of_Z 0))])
    DefaultSchemaParsingOpts None
  = Throw NoMinimumOrMultipleOf /\
  convertToInternalSchemaObj (RT := Examples.bareRuntime) 2
    (JObj [("type", JStr "array");
           ("items",
            JArr [JObj [("type", JStr "string")];
                  JObj [("type", JStr "integer"); ("minimum", JNum (of_Z 0))];
                  JObj [("$ref", JStr "#/definitions/encryptableString")]])])
    DefaultSchemaParsingOpts None
  = Ok (JArr [string_leaf; positiveIntegerLeaf; reversibleLeaf false]).
Proof.
  split; [|split; [|split; [|split; [|split; [|split]]]]].
  - apply (proj1 (conversion_of_leaves (RT := Examples.bareRuntime) 0 _ _ _)
             "#/definitions/encryptableCompString" true);
      [right; left; reflexivity | reflexivity].
  - apply (proj1 (proj2 (conversion_of_leaves (RT := Examples.bareRuntime) 0 _ _ _))
             (of_Z (-100))); [split; reflexivity | reflexivity].
  - destruct (conversion_of_leaves (RT := Examples.bareRuntime) 0
                [("type", JStr "number"); ("minimum", JNum (of_Z (-90)));
                 ("multipleOf", JNum (pow10_neg 3))]
                DefaultSchemaParsingOpts None) as (_ & _ & H & _).
    destruct (H (of_Z (-90)) (pow10_neg 3)) as (H1 & _);
      [split; reflexivity | reflexivity | reflexivity |].
    apply (H1 3%nat); [lia | reflexivity].
  - destruct (conversion_of_leaves (RT := Examples.bareRuntime) 0
                [("type", JStr "number"); ("minimum", JNum (of_Z 0));
                 ("multipleOf", JNum {| mant := 5; expo := -1 |})]
                DefaultSchemaParsingOpts None) as (_ & _ & H & _).
    destruct (H (of_Z 0) {| mant := 5; expo := -1 |}) as (_ & _ & H3);
      [split; reflexivity | reflexivity | reflexivity |].
    apply H3. intros k Hk. unfold is_pow10_neg, num, den. simpl.
    intros Hpow. change (10 ^ (- (-1))) with 10 in Hpow.
    assert (Hge : 10 ^ 1 <= 10 ^ Z.of_nat k) by (apply Z.pow_le_mono_r; lia).
    change (10 ^ 1) with 10 in Hge. lia.
  - destruct (conversion_of_leaves (RT := Examples.bareRuntime) 0
                [("type", JStr "integer")] DefaultSchemaParsingOpts None)
      as (_ & _ & _ & _ & H).
    destruct (H eq_refl) as (H1 & _). apply H1; [split; reflexivity | reflexivity].
  - destruct (conversion_of_leaves (RT := Examples.bareRuntime) 0
                [("type", JStr "number"); ("minimum", JNum (of_Z 0))]
                DefaultSchemaParsingOpts None) as (_ & _ & _ & _ & H).
    destruct (H eq_refl) as (_ & H2).
    apply (H2 (Some (of_Z 0)) None); [split; reflexivity | reflexivity | reflexivity | auto].
  - destruct (conversion_of_leaves (RT := Examples.bareRuntime) 1
                [("type", JStr "array");
                 ("items",
                  JArr [JObj [("type", JStr "string")];
                        JObj [("type", JStr "integer"); ("minimum", JNum (of_Z 0))];
                        JObj [("$ref", JStr "#/definitions/encryptableString")]])]
                DefaultSchemaParsingOpts None) as (_ & _ & _ & H & _).
    destruct (H [JObj [("type", JStr "string")];
                 JObj [("type", JStr "integer"); ("minimum", JNum (of_Z 0))];
                 JObj [("$ref", JStr "#/definitions/encryptableString")]])
      as (Harr & _); [split; reflexivity | reflexivity |].
    apply Harr. repeat constructor.
Defined.

End SchemaFacts.

(** * Flattening of a schema *)

Module FlattenFacts.
Import Json Schema.

(** ** Dictionaries *)

Lemma dict_keys_set {A : Type} (k : string) (v : A) (o : dict A) :
  dict_keys (dict_set k v o)
  = match dict_get k o with Some _ => dict_keys o | None => dict_keys o ++ [k] end.
Proof.
  induction o as [|[k' v'] o IH]; simpl; [reflexivity|].
  destruct (String.eqb_spec k k') as [->|Hne]; simpl; [reflexivity|].
  rewrite IH. destruct (dict_get k o); reflexivity.
Qed.

Lemma dict_get_keys {A : Type} (k : string) (o : dict A) :
  In k (dict_keys o) <-> exists v, dict_get k o = Some v.
Proof.
  induction o as [|[k' v'] o IH]; simpl.
  - split; [intros [] | intros [v H]; discriminate].
  - destruct (String.eqb_spec k k') as [->|Hne].
    + split; [intros _; eexists; reflexivity | intros _; left; reflexivity].
    + rewrite <- IH. split; [intros [H|H]; [congruence | exact H] | right; assumption].
Qed.

Lemma in_keys_set {A : Type} (r k : string) (v : A) (o : dict A) :
  In r (dict_keys (dict_set k v o)) <-> In r (dict_keys o) \/ r = k.
Proof.
  rewrite dict_keys_set. destruct (dict_get k o) eqn:E.
  - split; [auto | intros [H| ->]; [exact H|]]. apply dict_get_keys. eauto.
  - rewrite in_app_iff. simpl. intuition.
Qed.

Lemma NoDup_keys_set {A : Type} (k : string) (v : A) (o : dict A) :
  NoDup (dict_keys o) -> NoDup (dict_keys (dict_set k v o)).
Proof.
  intros Hnd. rewrite dict_keys_set. destruct (dict_get k o) eqn:E; [exact Hnd|].
  apply NoDup_app. split; [exact Hnd|]. split; [|apply NoDup_singleton].
  intros x Hx Hk. apply list_elem_of_singleton in Hk. subst x.
  apply list_elem_of_In, dict_get_keys in Hx as [w Hw]. congruence.
Qed.

Lemma dict_set_in {A : Type} (k k' : string) (v v' : A) (o : dict A) :
  In (k, v) o ->
  In (k, v) (dict_set k' v' o) \/ (k = k' /\ In (k', v') (dict_set k' v' o)).
Proof.
  induction o as [|[k0 v0] o IH]; simpl; [intros []|].
  intros [H|H].
  - injection H as -> ->. destruct (String.eqb_spec k' k) as [->|Hne].
    + right. split; [reflexivity | left; reflexivity].
    + left. left. reflexivity.
  - destruct (String.eqb_spec k' k0) as [->|Hne].
    + left. right. exact H.
    + destruct (IH H) as [H1 | [-> H1]]; [left | right; split; [reflexivity|]];
        right; exact H1.
Qed.

Lemma dict_set_in_inv {A : Type} (k k' : string) (v v' : A) (o : dict A) :
  In (k, v) (dict_set k' v' o) -> In (k, v) o \/ (k, v) = (k', v').
Proof.
  induction o as [|[k0 v0] o IH]; simpl.
  - intros [H|[]]. right. symmetry. exact H.
  - destruct (String.eqb_spec k' k0) as [->|Hne]; simpl.
    + intros [H|H]; [right; symmetry; exact H | left; right; exact H].
    + intros [H|H]; [left; left; exact H|].
      destruct (IH H) as [H1|H1]; [left; right; exact H1 | right; exact H1].
Qed.

(** [{ ...a, ...b }] keeps every key of [a], with the value of [a] or with
    one that [b] gives it. *)
Lemma spread_in {A : Type} (a b : dict A) (k : string) (v : A) :
  In (k, v) a -> exists y, In (k, y) (spread a b) /\ (y = v \/ In (k, y) b).
Proof.
  unfold spread. revert a v. induction b as [|[k' v'] b IH]; intros a v Hin; simpl.
  - exists v. split; [exact Hin | left; reflexivity].
  - destruct (dict_set_in k k' v v' a Hin) as [H | [-> H]].
    + destruct (IH _ _ H) as (y & Hy & Hor). exists y. split; [exact Hy|].
      destruct Hor as [->|Hb]; [left; reflexivity | right; right; exact Hb].
    + destruct (IH _ _ H) as (y & Hy & Hor). exists y. split; [exact Hy|].
      right. destruct Hor as [->|Hb]; [left; reflexivity | right; exact Hb].
Qed.

(** The keys of a dictionary built by a loop of assignments *)
Lemma fold_keys {A B : Type} (f : dict B -> A -> dict B) (Q : A -> string -> Prop)
    (l : list A) :
  Forall (fun a => forall out r,
            In r (dict_keys (f out a)) <-> In r (dict_keys out) \/ Q a r) l ->
  forall out r,
    In r (dict_keys (fold_left f l out))
    <-> In r (dict_keys out) \/ exists a, In a l /\ Q a r.
Proof.
  induction 1 as [|a l Ha _ IH]; intros out r; simpl.
  - split; [auto | intros [H | (a & [] & _)]; exact H].
  - rewrite IH, Ha. split.
    + intros [[H|H]|(b & Hb & Hq)]; [left; exact H | right; exists a; auto |
                                     right; exists b; auto].
    + intros [H|(b & [<-|Hb] & Hq)]; [left; left; exact H | left; right; exact Hq |
                                      right; exists b; auto].
Qed.

Lemma fold_keys_NoDup {A B : Type} (f : dict B -> A -> dict B) (l : list A) :
  (forall out a, NoDup (dict_keys out) -> NoDup (dict_keys (f out a))) ->
  forall out, NoDup (dict_keys out) -> NoDup (dict_keys (fold_left f l out)).
Proof.
  intros Hf. induction l as [|a l IH]; intros out Hnd; simpl; [exact Hnd|].
  apply IH, Hf, Hnd.
Qed.

(** ** The keys [flat] stores *)

Lemma array_entries_from_in (items : list json) (i : nat) (k : string) (x : json) :
  In (k, x) (array_entries_from i items)
  <-> exists j, items !! j = Some x /\ k = index_key (i + j).
Proof.
  revert i. induction items as [|y items IH]; intros i; simpl.
  - split; [intros [] | intros (j & H & _); discriminate].
  - rewrite IH. split.
    + intros [H | (j & Hj & ->)].
      * injection H as <- <-. exists 0%nat. rewrite Nat.add_0_r. auto.
      * exists (S j). rewrite Nat.add_succ_r. auto.
    + intros ([|j] & Hj & ->).
      * left. injection Hj as ->. rewrite Nat.add_0_r. reflexivity.
      * right. exists j. rewrite Nat.add_succ_r. auto.
Qed.

Lemma fields_loop (key : string) (l : dict json) (out : dict json) :
  (fix go (fs : list (string * json)) (out : dict json) : dict json :=
     match fs with
     | [] => out
     | (k, x) :: fs' => go fs' (flat_value x (join_key key k) out)
     end) l out
  = fold_left (fun o kv => flat_value (snd kv) (join_key key (fst kv)) o) l out.
Proof.
  revert out. induction l as [|[k x] l IH]; intros out; simpl; [reflexivity | apply IH].
Qed.

Lemma items_loop (key : string) (l : list json) (i : nat) (out : dict json) :
  (fix go (i : nat) (its : list json) (out : dict json) : dict json :=
     match its with
     | [] => out
     | x :: its' => go (S i) its' (flat_value x (join_key key (index_key i)) out)
     end) i l out
  = fold_left (fun o kv => flat_value (snd kv) (join_key key (fst kv)) o)
      (array_entries_from i l) out.
Proof.
  revert i out. induction l as [|x l IH]; intros i out; simpl; [reflexivity | apply IH].
Qed.

Lemma flat_value_obj (f : string * json) (fs : dict json) (key : string)
    (out : dict json) :
  flat_value (JObj (f :: fs)) key out
  = fold_left (fun o kv => flat_value (snd kv) (join_key key (fst kv)) o) (f :: fs) out.
Proof. exact (fields_loop key (f :: fs) out). Qed.

Lemma flat_value_arr (x : json) (items : list json) (key : string) (out : dict json) :
  flat_value (JArr (x :: items)) key out
  = fold_left (fun o kv => flat_value (snd kv) (join_key key (fst kv)) o)
      (array_entries (x :: items)) out.
Proof. exact (items_loop key (x :: items) 0 out). Qed.

Lemma FlatKey_leaf_inv (v : json) (key r : string) :
  entered v = false -> FlatKey v key r <-> r = key.
Proof.
  intros He. split; [|intros ->; apply FlatKey_leaf; exact He].
  intros H. inversion H as [fields ? k x ? Hin _ | items ? i x ? Hlook _ |]; subst.
  - destruct fields; [destruct Hin | discriminate He].
  - destruct items; [discriminate Hlook | discriminate He].
  - reflexivity.
Qed.

Lemma FlatKey_obj_inv (f : string * json) (fs : dict json) (key r : string) :
  FlatKey (JObj (f :: fs)) key r
  <-> exists kv, In kv (f :: fs) /\ FlatKey (snd kv) (join_key key (fst kv)) r.
Proof.
  split.
  - intros H. inversion H as [fields ? k x ? Hin Hk | | ? ? He]; subst.
    + exists (k, x). auto.
    + discriminate He.
  - intros ([k x] & Hin & Hk). exact (FlatKey_field _ _ _ _ _ Hin Hk).
Qed.

Lemma FlatKey_arr_inv (y : json) (items : list json) (key r : string) :
  FlatKey (JArr (y :: items)) key r
  <-> exists kv, In kv (array_entries (y :: items))
                 /\ FlatKey (snd kv) (join_key key (fst kv)) r.
Proof.
  split.
  - intros H. inversion H as [| its ? i x ? Hlook Hk | ? ? He]; subst.
    + exists (index_key i, x). split; [|exact Hk].
      apply array_entries_from_in. exists i. auto.
    + discriminate He.
  - intros ([k x] & Hin & Hk). apply array_entries_from_in in Hin as (j & Hj & ->).
    exact (FlatKey_item _ _ _ _ _ Hj Hk).
Qed.

Lemma Forall_array_entries (P : json -> Prop) (items : list json) (i : nat) :
  Forall P items -> Forall (fun kv => P (snd kv)) (array_entries_from i items).
Proof.
  intros H. revert i. induction H as [|x l Hx _ IH]; intros i; simpl; constructor; auto.
Qed.

Lemma flat_value_keys (v : json) :
  forall (key : string) (out : dict json) (r : string),
    In r (dict_keys (flat_value v key out)) <-> In r (dict_keys out) \/ FlatKey v key r.
Proof.
  induction v as [| b | n | s | items IH | fields IH] using json_nested_ind;
    intros key out r.
  1-4: simpl; rewrite in_keys_set, FlatKey_leaf_inv by reflexivity; reflexivity.
  - destruct items as [|x items].
    + simpl. rewrite in_keys_set, FlatKey_leaf_inv by reflexivity. reflexivity.
    + rewrite flat_value_arr, FlatKey_arr_inv.
      apply (fold_keys (fun o kv => flat_value (snd kv) (join_key key (fst kv)) o)
               (fun kv r => FlatKey (snd kv) (join_key key (fst kv)) r)).
      apply (Forall_impl (fun kv => forall key out r,
                            In r (dict_keys (flat_value (snd kv) key out))
                            <-> In r (dict_keys out) \/ FlatKey (snd kv) key r)).
      * apply (Forall_array_entries
                 (fun x => forall key out r,
                    In r (dict_keys (flat_value x key out))
                    <-> In r (dict_keys out) \/ FlatKey x key r)).
        exact IH.
      * intros kv Hkv out' r'. apply Hkv.
  - destruct fields as [|f fields].
    + simpl. rewrite in_keys_set, FlatKey_leaf_inv by reflexivity. reflexivity.
    + rewrite flat_value_obj, FlatKey_obj_inv.
      apply (fold_keys (fun o kv => flat_value (snd kv) (join_key key (fst kv)) o)
               (fun kv r => FlatKey (snd kv) (join_key key (fst kv)) r)).
      apply (Forall_impl _ _ _ IH). intros kv Hkv out' r'. apply Hkv.
Qed.

Lemma flat_keys (obj : dict json) (r : string) :
  In r (dict_keys (flat obj)) <-> exists k x, In (k, x) obj /\ FlatKey x k r.
Proof.
  unfold flat.
  rewrite (fold_keys (fun out kv => flat_value (snd kv) (fst kv) out)
             (fun kv r => FlatKey (snd kv) (fst kv) r)).
  - simpl. split.
    + intros [[] | ([k x] & Hin & Hk)]. exists k, x. auto.
    + intros (k & x & Hin & Hk). right. exists (k, x). auto.
  - apply Forall_forall. intros kv _ out r'. apply flat_value_keys.
Qed.

Lemma FlatKey_sub (v : json) (key : string) (v' : json) (key' r : string) :
  SubValue v key v' key' -> FlatKey v' key' r -> FlatKey v key r.
Proof.
  induction 1 as [| fields key k x v' key' Hin _ IH | items key i x v' key' Hl _ IH];
    intros Hk; [exact Hk | |].
  - exact (FlatKey_field _ _ _ _ _ Hin (IH Hk)).
  - exact (FlatKey_item _ _ _ _ _ Hl (IH Hk)).
Qed.

(** ** Regrouping by the last key *)

Lemma regroup_one_keys (flattened : dict (dict json)) (kv : string * json)
    (n : string) :
  In n (dict_keys (regroup_one flattened kv))
  <-> In n (dict_keys flattened) \/ n = fst (split_last_dot (fst kv)).
Proof.
  unfold regroup_one. destruct (split_last_dot (fst kv)) as [name t]. simpl.
  apply in_keys_set.
Qed.

Lemma regroup_keys (temp : dict json) (n : string) :
  In n (dict_keys (regroup temp))
  <-> exists r, In r (dict_keys temp) /\ n = fst (split_last_dot r).
Proof.
  unfold regroup.
  rewrite (fold_keys regroup_one (fun kv n => n = fst (split_last_dot (fst kv)))).
  - simpl. split.
    + intros [[] | (kv & Hin & ->)]. exists (fst kv). split; [|reflexivity].
      apply in_map. exact Hin.
    + intros (r & Hin & ->). right. apply in_map_iff in Hin as (kv & <- & Hin).
      exists kv. auto.
  - apply Forall_forall. intros kv _ out r. apply regroup_one_keys.
Qed.

Lemma regroup_NoDup (temp : dict json) : NoDup (dict_keys (regroup temp)).
Proof.
  unfold regroup. apply fold_keys_NoDup; [|apply NoDup_nil_2].
  intros out kv Hnd. unfold regroup_one.
  destruct (split_last_dot (fst kv)) as [name t]. apply NoDup_keys_set, Hnd.
Qed.

Lemma split_last_dot_aux_append (p t : string) :
  split_last_dot_aux t = None ->
  split_last_dot_aux (p +:+ String "." t) = Some (p, t).
Proof.
  intros Ht. induction p as [|c p IH].
  - change ("" +:+ String "." t) with (String "." t). simpl. rewrite Ht. reflexivity.
  - rewrite NumberFacts.append_cons. simpl. rewrite IH. reflexivity.
Qed.

Lemma split_last_dot_type (p : string) :
  split_last_dot (p +:+ "." +:+ TYPE_STR) = (p, TYPE_STR).
Proof.
  unfold split_last_dot.
  change ("." +:+ TYPE_STR) with (String "." TYPE_STR).
  rewrite split_last_dot_aux_append; reflexivity.
Qed.

Lemma append_assoc (a b c : string) : (a +:+ b) +:+ c = a +:+ b +:+ c.
Proof.
  induction a as [|x a IH]; [reflexivity|].
  rewrite !NumberFacts.append_cons, IH. reflexivity.
Qed.

Lemma join_key_nonempty (prev key : string) :
  prev <> "" -> join_key prev key = prev +:+ "." +:+ key /\ join_key prev key <> "".
Proof.
  intros Hne. unfold join_key. destruct (String.eqb_spec prev "") as [->|_]; [congruence|].
  split; [reflexivity|]. destruct prev; [congruence|].
  rewrite NumberFacts.append_cons. discriminate.
Qed.

(** A descriptor [{type: ty, ...}] found under a non-empty dotted key is a
    leaf of that name. *)
Lemma FlatKey_descriptor (leaf : dict json) (key ty : string) :
  key <> "" -> In (TYPE_STR, JStr ty) leaf ->
  FlatKey (JObj leaf) key (key +:+ "." +:+ TYPE_STR).
Proof.
  intros Hne Hin. apply (FlatKey_field _ _ _ _ _ Hin).
  rewrite (proj1 (join_key_nonempty key TYPE_STR Hne)). apply FlatKey_leaf. reflexivity.
Qed.

(** ** Sorting *)

Lemma string_lt_trans (a b c : string) : string_lt a b -> string_lt b c -> string_lt a c.
Proof.
  unfold string_lt, String.ltb. intros Hab Hbc.
  assert (H : OrdersEx.String_as_OT.lt a c).
  { apply (@StrictOrder_Transitive _ _ OrdersEx.String_as_OT.lt_strorder a b c);
      unfold OrdersEx.String_as_OT.lt;
      change OrdersEx.String_as_OT.compare with String.compare.
    - destruct (String.compare a b); [discriminate | reflexivity | discriminate].
    - destruct (String.compare b c); [discriminate | reflexivity | discriminate]. }
  unfold OrdersEx.String_as_OT.lt in H.
  change OrdersEx.String_as_OT.compare with String.compare in H.
  rewrite H. reflexivity.
Qed.

Lemma leb_true_lt (x y : string) : String.leb x y = true -> x <> y -> string_lt x y.
Proof.
  unfold string_lt, String.leb, String.ltb. intros H Hne.
  destruct (String.compare x y) eqn:E; [|reflexivity | discriminate].
  apply String.compare_eq_iff in E. contradiction.
Qed.

Lemma leb_false_lt (x y : string) : String.leb x y = false -> string_lt y x.
Proof.
  unfold string_lt, String.leb, String.ltb. intros H.
  rewrite String.compare_antisym.
  destruct (String.compare x y); [discriminate | discriminate | reflexivity].
Qed.

Lemma insert_sorted_perm (x : string) (l : list string) :
  Permutation (insert_sorted x l) (x :: l).
Proof.
  induction l as [|y l IH]; simpl; [reflexivity|].
  destruct (String.leb x y); [reflexivity|].
  rewrite IH. apply perm_swap.
Qed.

Lemma sort_strings_perm (l : list string) : Permutation (sort_strings l) l.
Proof.
  induction l as [|x l IH]; simpl; [reflexivity|].
  rewrite insert_sorted_perm. apply perm_skip, IH.
Qed.

Lemma insert_sorted_sorted (x : string) (l : list string) :
  ~ In x l -> StronglySorted string_lt l -> StronglySorted string_lt (insert_sorted x l).
Proof.
  intros Hnot Hs. induction Hs as [|y l Hs IH Hall]; simpl.
  - constructor; constructor.
  - destruct (String.leb x y) eqn:E.
    + assert (Hxy : string_lt x y).
      { apply leb_true_lt; [exact E|]. intros ->. apply Hnot. left. reflexivity. }
      constructor; [constructor; assumption|].
      constructor; [exact Hxy|].
      revert Hall. apply List.Forall_impl. intros z. apply string_lt_trans, Hxy.
    + constructor.
      * apply IH. intros H. apply Hnot. right. exact H.
      * apply List.Forall_forall. intros z Hz.
        apply (Permutation_in _ (insert_sorted_perm x l)) in Hz as [<-|Hz].
        -- apply leb_false_lt, E.
        -- revert z Hz. apply List.Forall_forall. exact Hall.
Qed.

Lemma sort_strings_sorted (l : list string) :
  NoDup l -> StronglySorted string_lt (sort_strings l).
Proof.
  induction 1 as [|x l Hx Hnd IH]; simpl; [constructor|].
  apply insert_sorted_sorted; [|exact IH].
  intros H. apply Hx, list_elem_of_In.
  exact (Permutation_in _ (sort_strings_perm l) H).
Qed.

Lemma sort_strings_in (l : list string) (x : string) : In x (sort_strings l) <-> In x l.
Proof.
  split; apply Permutation_in; [|symmetry]; apply sort_strings_perm.
Qed.

(** ** The flattened schema *)

Lemma flatten_names (schema : json) :
  fst (flattenSchemaObj schema)
  = sort_strings
      (dict_keys (regroup (flat (spread IMPLICIT_FIELDS (spread_value schema))))).
Proof. reflexivity. Qed.

Lemma flatten_name_iff (schema : json) (n : string) :
  In n (fst (flattenSchemaObj schema))
  <-> exists k x r,
        In (k, x) (spread IMPLICIT_FIELDS (spread_value schema))
        /\ FlatKey x k r /\ n = fst (split_last_dot r).
Proof.
  rewrite flatten_names, sort_strings_in, regroup_keys. split.
  - intros (r & Hr & ->). apply flat_keys in Hr as (k & x & Hin & Hk).
    exists k, x, r. auto.
  - intros (k & x & r & Hin & Hk & ->). exists r. split; [|reflexivity].
    apply flat_keys. exists k, x. auto.
Qed.

Lemma SubValue_trans (a : json) (ka : string) (b : json) (kb : string) (c : json)
    (kc : string) :
  SubValue a ka b kb -> SubValue b kb c kc -> SubValue a ka c kc.
Proof.
  induction 1 as [| fields key k x v' key' Hin _ IH | items key i x v' key' Hl _ IH];
    intros Hc; [exact Hc | |].
  - exact (SubValue_field _ _ _ _ _ _ Hin (IH Hc)).
  - exact (SubValue_item _ _ _ _ _ _ Hl (IH Hc)).
Qed.

Lemma SubValue_nonempty (v : json) (key : string) (v' : json) (key' : string) :
  SubValue v key v' key' -> key <> "" -> key' <> "".
Proof.
  induction 1 as [| fields key k x v' key' _ _ IH | items key i x v' key' _ _ IH];
    intros Hne; [exact Hne | |]; apply IH, join_key_nonempty, Hne.
Qed.

(** A descriptor met while flattening is a leaf under the key that leads to
    it. *)
Lemma descriptor_name (schema : json) (k : string) (x : json) (key : string)
    (leaf : dict json) (ty : string) :
  In (k, x) (spread IMPLICIT_FIELDS (spread_value schema)) -> k <> "" ->
  SubValue x k (JObj leaf) key -> In (TYPE_STR, JStr ty) leaf ->
  In key (fst (flattenSchemaObj schema)).
Proof.
  intros Hin Hk Hsub Hty. apply flatten_name_iff.
  exists k, x, (key +:+ "." +:+ TYPE_STR). split; [exact Hin|]. split.
  - apply (FlatKey_sub _ _ _ _ _ Hsub).
    apply (FlatKey_descriptor leaf key ty); [|exact Hty].
    exact (SubValue_nonempty _ _ _ _ Hsub Hk).
  - rewrite split_last_dot_type. reflexivity.
Qed.

(** C1, as the code has it.  For every internal schema object, with
    [(names, types) = flattenSchemaObj schema]:
    - [types] has one entry per name;
    - [names] is in strictly ascending lexicographic order of the full dotted
      paths, the two implicit names included: they stand where the order
      puts them, not in front;
    - the names are exactly the dotted paths, without their last key, that
      flattening [{...IMPLICIT_FIELDS, ...schema}] stores;
    - [cryptoVersion] and [credentialSchema] are among the names, unless
      the schema declares them itself as something else than a string;
    - a descriptor [{type: ...}] met under the dotted path [key] gives the
      name [key]: a nested object contributes [<parent>.<child>], and the
      [i]-th item (from zero) of an array found under [key] contributes
      [<key>.<i>.<child>] for each descriptor [child] of that item. *)
Theorem flatten_sorted_with_implicit (schema : json) (names : list string)
    (types : list json) :
  flattenSchemaObj schema = (names, types) ->
  length types = length names /\
  StronglySorted string_lt names /\
  (forall n : string,
     In n names
     <-> exists (k : string) (x : json) (r : string),
           In (k, x) (spread IMPLICIT_FIELDS (spread_value schema))
           /\ FlatKey x k r /\ n = fst (split_last_dot r)) /\
  (forall k : string,
     In k [CRYPTO_VERSION_STR; SCHEMA_STR] ->
     (forall x, In (k, x) (spread_value schema) -> x = string_leaf) ->
     In k names) /\
  (forall (k : string) (x : json) (key : string) (leaf : dict json) (ty : string),
     In (k, x) (spread IMPLICIT_FIELDS (spread_value schema)) -> k <> "" ->
     SubValue x k (JObj leaf) key -> In (TYPE_STR, JStr ty) leaf ->
     In key names) /\
  (forall (k : string) (x : json) (key : string) (items : list json) (i : nat)
          (fields : dict json) (child : string) (leaf : dict json) (ty : string),
     In (k, x) (spread IMPLICIT_FIELDS (spread_value schema)) -> k <> "" ->
     SubValue x k (JArr items) key ->
     items !! i = Some (JObj fields) ->
     In (child, JObj leaf) fields -> In (TYPE_STR, JStr ty) leaf ->
     In (key +:+ "." +:+ index_key i +:+ "." +:+ child) names).
Proof.
  intros Hflat.
  assert (Hnames : names = fst (flattenSchemaObj schema)) by (rewrite Hflat; reflexivity).
  assert (Htypes : types = snd (flattenSchemaObj schema)) by (rewrite Hflat; reflexivity).
  clear Hflat. subst names.
  split; [|split; [|split; [|split; [|split]]]].
  - subst types. unfold flattenSchemaObj, flattenTill2ndLastKey. simpl.
    apply length_map.
  - rewrite flatten_names. apply sort_strings_sorted, regroup_NoDup.
  - intros n. apply flatten_name_iff.
  - intros k Hk Hdecl.
    assert (Hin : In (k, string_leaf) IMPLICIT_FIELDS).
    { destruct Hk as [<-|[<-|[]]]; [left | right; left]; reflexivity. }
    assert (Hne : k <> "").
    { destruct Hk as [<-|[<-|[]]]; discriminate. }
    destruct (spread_in IMPLICIT_FIELDS (spread_value schema) k string_leaf Hin)
      as (y & Hy & Hor).
    assert (y = string_leaf) as -> by (destruct Hor as [->|Hb]; [reflexivity | auto]).
    apply (descriptor_name schema k string_leaf k [(TYPE_STR, JStr STR_TYPE)] STR_TYPE);
      [exact Hy | exact Hne | apply SubValue_here | left; reflexivity].
  - intros k x key leaf ty. apply descriptor_name.
  - intros k x key items i fields child leaf ty Hin Hk Hsub Hitem Hchild Hty.
    pose proof (SubValue_nonempty _ _ _ _ Hsub Hk) as Hkey.
    destruct (join_key_nonempty key (index_key i) Hkey) as [Hj1 Hne1].
    destruct (join_key_nonempty (join_key key (index_key i)) child Hne1) as [Hj2 _].
    replace (key +:+ "." +:+ index_key i +:+ "." +:+ child)
      with (join_key (join_key key (index_key i)) child).
    + apply (descriptor_name schema k x _ leaf ty Hin Hk); [|exact Hty].
      apply (SubValue_trans _ _ _ _ _ _ Hsub).
      apply (SubValue_item _ _ _ _ _ _ Hitem).
      apply (SubValue_field _ _ _ _ _ _ Hchild). apply SubValue_here.
    + rewrite Hj2, Hj1, !append_assoc. reflexivity.
Qed.

(** C1 as stated fails on the first schema of the flattening test: the names
    are sorted as a whole, so [credentialSubject.fname] comes before
    [cryptoVersion]. *)
Lemma implicit_leaves_not_leading :
  newCredentialSchema (RT := Examples.bareRuntime) 5 Examples.fnameJsonSchema
    noParsingOpts = Ok Examples.fnameSchema /\
  flatten Examples.fnameSchema
  = (["credentialSchema"; "credentialSubject.fname"; "cryptoVersion"],
     [string_leaf; string_leaf; string_leaf]) /\
  implicit_leaves_lead (fst (flatten Examples.fnameSchema)) = false.
Proof. repeat split. Qed.

Lemma flatten_sorted_with_implicit_witness :
  StronglySorted string_lt
    ["credentialSchema"; "credentialSubject.fname"; "credentialSubject.pets.0.name";
     "credentialSubject.pets.1.name"; "cryptoVersion"] /\
  In "credentialSubject.pets.1.name"
    (fst (flattenSchemaObj Examples.petsInternal)).
Proof.
  pose proof (flatten_sorted_with_implicit Examples.petsInternal _ _ eq_refl)
    as (_ & Hs & _ & _ & _ & Harr).
  split; [exact Hs|].
  apply (Harr "credentialSubject"
           (JObj [("fname", string_leaf);
                  ("pets", JArr [JObj [("name", string_leaf)];
                                 JObj [("name", string_leaf)]])])
           "credentialSubject.pets"
           [JObj [("name", string_leaf)]; JObj [("name", string_leaf)]]
           1%nat [("name", string_leaf)] "name" [(TYPE_STR, JStr STR_TYPE)] STR_TYPE).
  - right. right. left. reflexivity.
  - discriminate.
  - apply (SubValue_field _ _ "pets" (JArr [JObj [("name", string_leaf)];
                                            JObj [("name", string_leaf)]]));
      [right; left; reflexivity | apply SubValue_here].
  - reflexivity.
  - left. reflexivity.
  - left. reflexivity.
Defined.

End FlattenFacts.

(** * Round trip of a schema through JSON *)

Module RoundTripFacts.
Import Json Schema.

Section RoundTrip.
Context `{RT : JsRuntime}.

Lemma strip_newlines_prefix (e : string) :
  strip_newlines (DATA_URI_PREFIX +:+ e) = DATA_URI_PREFIX +:+ strip_newlines e.
Proof. reflexivity. Qed.

Lemma prefix_data (e : string) : String.prefix "data:" (DATA_URI_PREFIX +:+ e) = true.
Proof. reflexivity. Qed.

Lemma index_comma (e : string) :
  String.index 0 "," (DATA_URI_PREFIX +:+ e) = Some 22%nat.
Proof. destruct e; reflexivity. Qed.

Lemma substring_meta (e : string) :
  String.substring 5 (22 - 5) (DATA_URI_PREFIX +:+ e) = "application/json;".
Proof. reflexivity. Qed.

Lemma drop_prefix (e : string) : drop_chars 23 (DATA_URI_PREFIX +:+ e) = e.
Proof. reflexivity. Qed.

(** The data URI that [toJSON] builds is read back as the text it embeds. *)
Lemma extract_embedded (e : string) :
  strip_newlines e = e ->
  extractJsonSchemaFromEmbedded (DATA_URI_PREFIX +:+ e)
  = (dataStr ← decodeURIComponent e; JSON_parse dataStr).
Proof.
  intros Hstrip. unfold extractJsonSchemaFromEmbedded.
  rewrite prefix_data, strip_newlines_prefix, Hstrip, index_comma, substring_meta,
    drop_prefix.
  reflexivity.
Qed.

Lemma merge_asPartial (o : ISchemaParsingOpts) : mergeParsingOpts (asPartial o) = o.
Proof. destruct o. reflexivity. Qed.

Lemma merge_idempotent (p : PartialParsingOpts) :
  mergeParsingOpts (asPartial (mergeParsingOpts p)) = mergeParsingOpts p.
Proof. apply merge_asPartial. Qed.

Lemma newCredentialSchema_fields (fuel : nat) (S : json) (opts : PartialParsingOpts)
    (cs : CredentialSchema) :
  newCredentialSchema fuel S opts = Ok cs ->
  version cs = VERSION /\ jsonSchema cs = S /\ parsingOptions cs = mergeParsingOpts opts.
Proof.
  unfold newCredentialSchema. intros H. inv_binds. simpl. auto.
Qed.

Lemma newCredentialSchema_merged (fuel : nat) (S : json) (opts : PartialParsingOpts) :
  newCredentialSchema fuel S (asPartial (mergeParsingOpts opts))
  = newCredentialSchema fuel S opts.
Proof. unfold newCredentialSchema. rewrite merge_idempotent. reflexivity. Qed.

(** C5.  Let [cs] be the schema the constructor builds from the JSON Schema
    [S] and parsing options [opts].  Provided the run time's [JSON.parse]
    reads back what [JSON.stringify] prints for [S], [decodeURIComponent]
    undoes [encodeURIComponent] on that text, and the encoded text holds no
    line feed for [extractJsonSchemaFromEmbedded] to strip, [fromJSON (toJSON
    cs)] returns a schema equal to [cs]: same version, same internal schema
    object, same [flatten()] output, and an encoder configured for the same
    attribute names (with the same functions).  The same holds after the
    version of [cs] was set to any [v]. *)
Theorem schema_round_trip (fuel : nat) (S : json) (opts : PartialParsingOpts)
    (cs : CredentialSchema) :
  newCredentialSchema fuel S opts = Ok cs ->
  JSON_parse (JSON_stringify S) = Ok S ->
  decodeURIComponent (encodeURIComponent (JSON_stringify S)) = Ok (JSON_stringify S) ->
  strip_newlines (encodeURIComponent (JSON_stringify S))
  = encodeURIComponent (JSON_stringify S) ->
  (exists cs' : CredentialSchema,
     fromJSON fuel (toJSON cs) = Ok cs' /\
     version cs' = version cs /\
     schema cs' = schema cs /\
     flatten cs' = flatten cs /\
     dict_keys (encoders (encoder cs')) = dict_keys (encoders (encoder cs)) /\
     cs' = cs) /\
  (forall v : string,
     fromJSON fuel (toJSON (set_version cs v)) = Ok (set_version cs v)).
Proof.
  intros Hnew Hparse Hdecode Hstrip.
  destruct (newCredentialSchema_fields fuel S opts cs Hnew) as (Hv & Hj & Hp).
  assert (Hgen : forall v, fromJSON fuel (toJSON (set_version cs v)) = Ok (set_version cs v)).
  { intros v. unfold fromJSON, toJSON. simpl. rewrite Hj, Hp.
    rewrite (extract_embedded _ Hstrip), Hdecode. simpl. rewrite Hparse. simpl.
    rewrite newCredentialSchema_merged, Hnew. reflexivity. }
  split; [|exact Hgen].
  exists cs. replace cs with (set_version cs (version cs)) at 1 by (destruct cs; reflexivity).
  rewrite Hgen. replace (set_version cs (version cs)) with cs by (destruct cs; reflexivity).
  repeat split; reflexivity.
Qed.

End RoundTrip.

Lemma schema_round_trip_witness :
  String.prefix "data:application/json;,%7B%22%24schema%22%3A%22http%3A%2F%2Fjson-schema.org"
    (sj_id (toJSON (RT := Examples.printingRuntime) Examples.fnameSchema)) = true /\
  fromJSON (RT := Examples.printingRuntime) 5
    (toJSON (RT := Examples.printingRuntime) Examples.fnameSchema)
  = Ok Examples.fnameSchema.
Proof.
  split; [vm_compute; reflexivity|].
  apply (proj2 (schema_round_trip (RT := Examples.printingRuntime) 5
                  Examples.fnameJsonSchema noParsingOpts Examples.fnameSchema
                  eq_refl eq_refl eq_refl eq_refl) VERSION).
Defined.
End RoundTripFacts.

(** ** The presentation builder *)

Module PresentationFacts.
Import Json Schema SigParams Presentation PresentationSpec.

(** *** Credential indices *)

Lemma validateCredIndex_too_large (b : PresentationBuilder) (credIdx : Z) :
  Z.of_nat (length (credentials b)) <= credIdx ->
  validateCredIndex b credIdx = Throw (InvalidCredIndex credIdx (length (credentials b))).
Proof.
  intros H. unfold validateCredIndex.
  destruct (Z.leb_spec (Z.of_nat (length (credentials b))) credIdx); [reflexivity | lia].
Qed.

Lemma validateCredIndex_below (b : PresentationBuilder) (credIdx : Z) :
  credIdx < Z.of_nat (length (credentials b)) ->
  validateCredIndex b credIdx = Ok tt.
Proof.
  intros H. unfold validateCredIndex.
  destruct (Z.leb_spec (Z.of_nat (length (credentials b))) credIdx); [lia | reflexivity].
Qed.

(** An index at or beyond the number of credentials is refused by the three
    operations, and a refused call returns no new builder: the check comes
    before the first assignment. *)
Lemma index_too_large_refused (b : PresentationBuilder) (credIdx : Z) :
  Z.of_nat (length (credentials b)) <= credIdx ->
  (forall names, markAttributesRevealed b credIdx names
     = Throw (InvalidCredIndex credIdx (length (credentials b)))) /\
  (forall name, markAttributesEqual b [(credIdx, name)]
     = Throw (InvalidCredIndex credIdx (length (credentials b)))) /\
  (forall w acc pk extra, addAccumInfoForCredStatus b credIdx w acc pk extra
     = Throw (InvalidCredIndex credIdx (length (credentials b)))).
Proof.
  intros H. repeat split; intros;
    unfold markAttributesRevealed, markAttributesEqual, addAccumInfoForCredStatus;
    simpl; rewrite (validateCredIndex_too_large b credIdx H); reflexivity.
Qed.

Lemma markAttributesEqual_refused (b : PresentationBuilder) (equality : AttributeEquality) :
  Exists (fun aRef => Z.of_nat (length (credentials b)) <= fst aRef) equality ->
  throws (markAttributesEqual b equality).
Proof.
  intros H. unfold markAttributesEqual. apply bind_throw_l.
  induction H as [aRef rest H | aRef rest H IH]; simpl.
  - rewrite (validateCredIndex_too_large b _ H). eexists; reflexivity.
  - apply bind_throw_r. intros _. exact IH.
Qed.

(** A negative index passes [validateCredIndex], whatever the builder holds. *)
Lemma negative_index_passes (b : PresentationBuilder) (credIdx : Z) :
  credIdx < 0 -> validateCredIndex b credIdx = Ok tt.
Proof. intros H. apply validateCredIndex_below. lia. Qed.

(** C8, at the input where the code departs from it.  With one credential
    in the builder the index [-1] is outside [0, 1), yet the three operations
    that take a credential index accept it, and [markAttributesRevealed]
    records the names under the key [-1]. *)
Theorem negative_credIdx_accepted :
  (exists b',
     markAttributesRevealed Examples.oneCredentialBuilder (-1) {["fname"]} = Ok b' /\
     revealedAttributes b' !! (-1) = Some {["credentialSubject.fname"]}) /\
  is_ok (markAttributesEqual Examples.oneCredentialBuilder [(-1, "fname")]) = true /\
  is_ok (addAccumInfoForCredStatus Examples.oneCredentialBuilder (-1)
           (MembershipWitness []) [] [] (JObj [])) = true.
Proof.
  split; [|split; reflexivity].
  eexists. split; [reflexivity|].
  vm_compute. reflexivity.
Qed.


(** *** The first loop of [finalize]: one signature statement per credential *)

Section Loops.
Context `{PB : PresentationBackend} `{SB : SigParamsBackend}.

(** What a successful pass through the body of the first loop did. *)
Record CredStepFacts (b : PresentationBuilder) (i : nat) (credpk : Credential * bytes)
    (st st' : Locals) (p : PSSignatureParams) (rm um : gmap nat bytes) : Prop := {
  csf_adapt : adapt (sigParams st) (length (namesOf (fst credpk))) = Ok p;
  csf_split : exists raw,
    getRevealedAndUnrevealed (serializeForSigning (fst credpk))
      (revealedNamesFor (l_revealedAttributes st) i (fst credpk))
      (encoder (cred_schema (fst credpk))) = Ok (rm, um, raw);
  csf_sigParams : sigParams st' = sigParams st;
  csf_maxAttribs : maxAttribs st' = Nat.max (maxAttribs st) (length (namesOf (fst credpk)));
  csf_statements :
    ProofSpec.values (statements st')
    = ProofSpec.values (statements st) ++ [St_bbsSignature p (snd credpk) rm false];
  csf_witnesses :
    ProofSpec.values (witnesses st')
    = ProofSpec.values (witnesses st) ++ [Wi_bbsSignature (signature (fst credpk)) um false];
  csf_metaStatements : metaStatements st' = metaStatements st;
  csf_flattened :
    flattenedSchemas st' = flattenedSchemas st ++ [flatten (cred_schema (fst credpk))];
  csf_revealed : forall j, j <> Z.of_nat i ->
    l_revealedAttributes st' !! j = l_revealedAttributes st !! j;
  csf_aux :
    match credStatus (fst credpk) with
    | None => credStatusAux st' = credStatusAux st
    | Some cs =>
        exists s v,
          credStatuses b !! Z.of_nat i = Some s /\
          encodeMessage (encoder (cred_schema (fst credpk))) (dotted STATUS_STR REV_ID_STR)
            (dict_get REV_ID_STR cs) = Ok v /\
          credStatusAux st'
          = credStatusAux st ++ [(Z.of_nat i, dict_get REV_CHECK_STR cs, v)]
    end
}.

Lemma credStep_ok (b : PresentationBuilder) (i : nat) (credpk : Credential * bytes)
    (st st' : Locals) :
  credStep b i credpk st = Ok st' ->
  exists p rm um, CredStepFacts b i credpk st st' p rm um.
Proof.
  unfold credStep. intros H.
  apply mbind_ok_inv in H as (mx & Hmx & H).
  apply mbind_ok_inv in H as ([[rm um] raw] & Hsplit & H).
  apply mbind_ok_inv in H as (p & Hp & H).
  apply mbind_ok_inv in H as ([presented aux'] & Haux & H).
  apply Ok_inj in H. subst st'.
  exists p, rm, um. constructor; simpl; try reflexivity.
  - exact Hp.
  - exists raw. exact Hsplit.
  - destruct (Nat.ltb_spec (maxAttribs st) (length (fst (flatten (cred_schema (fst credpk)))))).
    + inv_binds. unfold namesOf. lia.
    + inv_binds. unfold namesOf. lia.
  - intros j Hj. destruct (l_revealedAttributes st !! Z.of_nat i); [|reflexivity].
    rewrite lookup_insert_ne by congruence. reflexivity.
  - destruct (credStatus (fst credpk)) as [cs|].
    + destruct (credStatuses b !! Z.of_nat i) as [s|]; [|discriminate].
      inv_binds. eauto.
    + inv_binds. reflexivity.
Qed.

Lemma revealedNamesFor_ext (r r' : gmap Z (gset string)) (i : nat) (cred : Credential) :
  r !! Z.of_nat i = r' !! Z.of_nat i ->
  revealedNamesFor r i cred = revealedNamesFor r' i cred.
Proof. intros H. unfold revealedNamesFor. rewrite H. reflexivity. Qed.

Lemma SigFor_ext (sp : PSSignatureParams) (r r' : gmap Z (gset string))
    (i : nat) (creds : list (Credential * bytes)) (sts : list Statement)
    (wts : list Witness) :
  (forall j, Z.of_nat i <= j -> r !! j = r' !! j) ->
  SigFor sp r i creds sts wts -> SigFor sp r' i creds sts wts.
Proof.
  intros Hext H. induction H as [i | i credpk creds p rm um raw sts wts Hp Hs H IH].
  - constructor.
  - econstructor; eauto.
    + rewrite <- (revealedNamesFor_ext r r') by (apply Hext; lia). exact Hs.
    + apply IH. intros j Hj. apply Hext. lia.
Qed.

(** What a successful run of the first loop did. *)
Record CredLoopFacts (b : PresentationBuilder) (i : nat) (creds : list (Credential * bytes))
    (st st' : Locals) : Prop := {
  clf_sigParams : sigParams st' = sigParams st;
  clf_metaStatements : metaStatements st' = metaStatements st;
  clf_maxAttribs :
    maxAttribs st'
    = fold_left (fun m c => Nat.max m (length (namesOf (fst c)))) creds (maxAttribs st);
  clf_flattened :
    flattenedSchemas st'
    = flattenedSchemas st ++ map (fun c => flatten (cred_schema (fst c))) creds;
  clf_revealed : forall j, j < Z.of_nat i ->
    l_revealedAttributes st' !! j = l_revealedAttributes st !! j;
  clf_statements : exists sts wts,
    ProofSpec.values (statements st') = ProofSpec.values (statements st) ++ sts /\
    ProofSpec.values (witnesses st') = ProofSpec.values (witnesses st) ++ wts /\
    SigFor (sigParams st) (l_revealedAttributes st) i creds sts wts;
  clf_aux : exists auxs,
    credStatusAux st' = credStatusAux st ++ auxs /\ AuxFor b i creds auxs
}.

Lemma credLoop_ok (b : PresentationBuilder) (creds : list (Credential * bytes)) :
  forall (i : nat) (st st' : Locals),
    credLoop b i creds st = Ok st' -> CredLoopFacts b i creds st st'.
Proof.
  induction creds as [|credpk creds IH]; intros i st st' H; simpl in H.
  - apply Ok_inj in H. subst st'. constructor; try reflexivity.
    + rewrite app_nil_r. reflexivity.
    + exists [], []. rewrite !app_nil_r. repeat split. constructor.
    + exists []. rewrite app_nil_r. split; [reflexivity | constructor].
  - apply mbind_ok_inv in H as (st1 & H1 & H).
    apply credStep_ok in H1 as (p & rm & um & F1).
    apply IH in H. destruct H as [Hs Hm Hx Hf Hr (sts & wts & Hst & Hwt & Hsig) (auxs & Hau & Haux)].
    destruct F1 as [Fa (raw & Fsp) Fs Fx Fst Fw Fm Ff Fr Fau].
    constructor.
    + congruence.
    + congruence.
    + simpl. rewrite Hx, Fx. reflexivity.
    + rewrite Hf, Ff. simpl. rewrite <- app_assoc. reflexivity.
    + intros j Hj. rewrite Hr by lia. apply Fr. lia.
    + eexists (_ :: sts), (_ :: wts). split; [|split].
      * rewrite Hst, Fst. rewrite <- app_assoc. reflexivity.
      * rewrite Hwt, Fw. rewrite <- app_assoc. reflexivity.
      * econstructor; [exact Fa | exact Fsp |].
        rewrite <- Fs. apply (SigFor_ext _ (l_revealedAttributes st1)); [|exact Hsig].
        intros j Hj. apply Fr. lia.
    + destruct (credStatus (fst credpk)) as [cs|] eqn:Ecs.
      * destruct Fau as (s & v & Hcs & Hv & Fau).
        exists ((Z.of_nat i, dict_get REV_CHECK_STR cs, v) :: auxs). split.
        -- rewrite Hau, Fau. rewrite <- app_assoc. reflexivity.
        -- eapply AuxFor_status; eauto.
      * exists auxs. split; [congruence|]. apply AuxFor_skip; assumption.
Qed.

(** *** The second loop: one accumulator statement per status entry *)

Lemma add_index {A : Type} (c : ProofSpec.Container A) (x : A) :
  fst (ProofSpec.add c x) = Z.of_nat (length (ProofSpec.values c)) /\
  ProofSpec.values (snd (ProofSpec.add c x)) = ProofSpec.values c ++ [x].
Proof.
  unfold ProofSpec.add. simpl. rewrite length_app. simpl. split; [lia | reflexivity].
Qed.

Record StatusLoopFacts (b : PresentationBuilder) (auxs : list (Z * option json * bytes))
    (st st' : Locals) : Prop := {
  slf_sigParams : sigParams st' = sigParams st;
  slf_maxAttribs : maxAttribs st' = maxAttribs st;
  slf_flattened : flattenedSchemas st' = flattenedSchemas st;
  slf_spec : l_spec st' = l_spec st;
  slf_revealed : l_revealedAttributes st' = l_revealedAttributes st;
  slf_emitted : exists sts wts eqs,
    ProofSpec.values (statements st') = ProofSpec.values (statements st) ++ sts /\
    ProofSpec.values (witnesses st') = ProofSpec.values (witnesses st) ++ wts /\
    ProofSpec.values (metaStatements st') = ProofSpec.values (metaStatements st) ++ eqs /\
    AccFor b (flattenedSchemas st) (length (ProofSpec.values (statements st)))
      auxs sts wts eqs
}.

Lemma statusStep_ok (b : PresentationBuilder) (entry : Z * option json * bytes)
    (st st' : Locals) :
  statusStep b entry st = Ok st' ->
  StatusLoopFacts b [entry] st st'.
Proof.
  unfold statusStep. destruct entry as [[i t] value].
  destruct (credStatuses b !! i) as [[[[wit acc] pk] extra]|] eqn:Ecs; [|discriminate].
  intros H. apply mbind_ok_inv in H as ([stm w] & Hst & H).
  destruct (ProofSpec.add (statements st) stm) as [sIdx statements'] eqn:Eadd.
  destruct (nthZ (flattenedSchemas st) i) as [fs|] eqn:Efs; [|discriminate].
  apply Ok_inj in H. subst st'.
  pose proof (add_index (statements st) stm) as [Hidx Hvals]. rewrite Eadd in Hidx, Hvals.
  simpl in Hidx, Hvals.
  constructor; simpl; try reflexivity.
  eexists [stm], [w], [_]. split; [exact Hvals|]. split; [reflexivity|].
  split; [reflexivity|].
  constructor; [|constructor].
  exists wit, acc, pk, extra, fs. simpl. repeat split; try assumption.
  rewrite Hidx. reflexivity.
Qed.

Lemma statusLoop_ok (b : PresentationBuilder) (auxs : list (Z * option json * bytes)) :
  forall (st st' : Locals),
    statusLoop b auxs st = Ok st' -> StatusLoopFacts b auxs st st'.
Proof.
  induction auxs as [|entry auxs IH]; intros st st' H; simpl in H.
  - apply Ok_inj in H. subst st'. constructor; try reflexivity.
    exists [], [], []. rewrite !app_nil_r. repeat split. constructor.
  - apply mbind_ok_inv in H as (st1 & H1 & H).
    apply statusStep_ok in H1. apply IH in H.
    destruct H1 as [Gs Gx Gf Gsp Gr (sts1 & wts1 & eqs1 & Gst & Gwt & Geq & Gacc)].
    destruct H as [Hs Hx Hf Hsp Hr (sts & wts & eqs & Hst & Hwt & Heq & Hacc)].
    constructor; try congruence.
    inversion Gacc as [|n e a stm w eq sts0 wts0 eqs0 Hentry Hrest]; subst.
    inversion Hrest; subst.
    exists (stm :: sts), (w :: wts), (eq :: eqs). split; [|split; [|split]].
    + rewrite Hst, Gst, <- app_assoc. reflexivity.
    + rewrite Hwt, Gwt, <- app_assoc. reflexivity.
    + rewrite Heq, Geq, <- app_assoc. reflexivity.
    + constructor; [exact Hentry|].
      rewrite Gf, Gst, length_app in Hacc. simpl in Hacc.
      replace (S (length (ProofSpec.values (statements st))))
        with (length (ProofSpec.values (statements st)) + 1)%nat by lia.
      exact Hacc.
Qed.

(** *** The third loop: one witness equality per attribute equality *)

Lemma resolveRefs_ok (schemas : list FlattenedSchema) (eql : AttributeEquality) :
  forall (w0 w : WitnessEqualityMetaStatement),
    resolveRefs schemas eql w0 = Ok w ->
    exists refs,
      witnessRefs w = witnessRefs w0 ++ refs /\
      Forall2 (ResolvedRef schemas) eql refs.
Proof.
  induction eql as [|[cIdx name] eql IH]; intros w0 w H; simpl in H.
  - apply Ok_inj in H. subst w. exists []. rewrite app_nil_r. split; [reflexivity|constructor].
  - destruct (nthZ schemas cIdx) as [fs|] eqn:Efs; [|discriminate].
    apply mbind_ok_inv in H as (u & Hu & H).
    apply throw_if_ok in Hu. apply Z.eqb_neq in Hu.
    apply IH in H as (refs & Hrefs & Hall).
    exists ((cIdx, indexOf (fst fs) (dotted SUBJECT_STR name)) :: refs). split.
    + rewrite Hrefs. simpl. rewrite <- app_assoc. reflexivity.
    + constructor; [|exact Hall]. exists fs. simpl. auto.
Qed.

Record EqualityLoopFacts (eqls : list AttributeEquality) (st st' : Locals) : Prop := {
  elf_sigParams : sigParams st' = sigParams st;
  elf_maxAttribs : maxAttribs st' = maxAttribs st;
  elf_flattened : flattenedSchemas st' = flattenedSchemas st;
  elf_statements : statements st' = statements st;
  elf_witnesses : witnesses st' = witnesses st;
  elf_revealed : l_revealedAttributes st' = l_revealedAttributes st;
  elf_spec :
    spec_attributeEqualities (l_spec st') = spec_attributeEqualities (l_spec st) ++ eqls;
  elf_emitted : exists eqs,
    ProofSpec.values (metaStatements st') = ProofSpec.values (metaStatements st) ++ eqs /\
    Forall2 (ResolvedEquality (flattenedSchemas st)) eqls eqs
}.

Lemma equalityLoop_ok (eqls : list AttributeEquality) :
  forall (st st' : Locals),
    equalityLoop eqls st = Ok st' -> EqualityLoopFacts eqls st st'.
Proof.
  induction eqls as [|eql eqls IH]; intros st st' H; simpl in H.
  - apply Ok_inj in H. subst st'. constructor; try reflexivity.
    + rewrite app_nil_r. reflexivity.
    + exists []. rewrite app_nil_r. split; [reflexivity|constructor].
  - apply mbind_ok_inv in H as (st1 & H1 & H).
    unfold equalityStep in H1. apply mbind_ok_inv in H1 as (w & Hw & H1).
    apply Ok_inj in H1. subst st1.
    apply resolveRefs_ok in Hw as (refs & Hrefs & Hall). simpl in Hrefs.
    apply IH in H. destruct H as [Hs Hx Hf Hst Hwt Hr Hsp (eqs & Heq & Hres)].
    simpl in *. constructor; try assumption.
    + rewrite Hsp. rewrite <- app_assoc. reflexivity.
    + exists (w :: eqs). split.
      * rewrite Heq. rewrite <- app_assoc. reflexivity.
      * constructor; [|exact Hres]. unfold ResolvedEquality. rewrite Hrefs. exact Hall.
Qed.

(** *** [finalize] as a whole *)

Record AssembleFacts (b : PresentationBuilder) (st : Locals) : Prop := {
  af_sigParams : sigParams st = generate 2 (Some SIGNATURE_PARAMS_LABEL_BYTES);
  af_maxAttribs :
    maxAttribs st
    = fold_left (fun m c => Nat.max m (length (namesOf (fst c)))) (credentials b) 2%nat;
  af_flattened : flattenedSchemas st = schemasOf b;
  af_emitted : exists sts wts auxs accs awts seqs eqs,
    ProofSpec.values (statements st) = sts ++ accs /\
    ProofSpec.values (witnesses st) = wts ++ awts /\
    ProofSpec.values (metaStatements st) = seqs ++ eqs /\
    SigFor (generate 2 (Some SIGNATURE_PARAMS_LABEL_BYTES)) (revealedAttributes b)
      0 (credentials b) sts wts /\
    AuxFor b 0 (credentials b) auxs /\
    AccFor b (schemasOf b) (length sts) auxs accs awts seqs /\
    Forall2 (ResolvedEquality (schemasOf b)) (attributeEqualities b) eqs
}.

Lemma assemble_ok (b : PresentationBuilder) (st : Locals) :
  assemble b = Ok st -> AssembleFacts b st.
Proof.
  unfold assemble. intros H.
  apply mbind_ok_inv in H as (st1 & H1 & H).
  apply mbind_ok_inv in H as (st2 & H2 & H3).
  apply credLoop_ok in H1.
  destruct H1 as [Hs Hm Hx Hf Hr (sts & wts & Hst & Hwt & Hsig) (auxs & Hau & Haux)].
  simpl in *. rewrite Hau in H2. simpl in H2.
  apply statusLoop_ok in H2.
  destruct H2 as [Gs Gx Gf Gsp Gr (accs & awts & seqs & Gst & Gwt & Geq & Gacc)].
  apply equalityLoop_ok in H3.
  destruct H3 as [Es Ex Ef Est Ewt Er Esp (eqs & Eeq & Eres)].
  constructor.
  - congruence.
  - congruence.
  - unfold schemasOf. congruence.
  - exists sts, wts, auxs, accs, awts, seqs, eqs.
    rewrite Est, Ewt, Eeq, Gst, Gwt, Geq, Hst, Hwt, Hm. simpl.
    repeat split; try assumption.
    + rewrite Hf, Hst in Gacc. exact Gacc.
    + rewrite Gf, Hf in Eres. exact Eres.
Qed.

Lemma finalize_ok (b : PresentationBuilder) (pres : Presentation) (b' : PresentationBuilder) :
  finalize b = Ok (pres, b') ->
  exists st,
    assemble b = Ok st /\
    _proofSpec b' = Some (proofSpecOf b st) /\
    p_spec pres = l_spec st /\
    ProofSpec.statements (proofSpecOf b st) = statements st /\
    ProofSpec.metaStatements (proofSpecOf b st) = metaStatements st.
Proof.
  unfold finalize. intros H.
  apply mbind_ok_inv in H as (st & Hst & H).
  apply mbind_ok_inv in H as (pr & Hpr & H).
  apply Ok_inj in H. apply pair_equal_spec in H as [<- <-].
  exists st. repeat split; assumption.
Qed.

Lemma assemble_throws (b : PresentationBuilder) :
  throws (assemble b) -> throws (finalize b).
Proof. intros H. unfold finalize. apply bind_throw_l. exact H. Qed.

Lemma not_ok_throws {A : Type} (r : Result A) :
  (forall a, r <> Ok a) -> throws r.
Proof.
  intros H. destruct r as [a|e]; [destruct (H a eq_refl) | exists e; reflexivity].
Qed.

(** *** Reading the emitted lists by index *)

Lemma SigFor_length (sp : PSSignatureParams) (r : gmap Z (gset string)) (i : nat)
    (creds : list (Credential * bytes)) (sts : list Statement) (wts : list Witness) :
  SigFor sp r i creds sts wts ->
  length sts = length creds /\ length wts = length creds.
Proof. induction 1; simpl; [auto | destruct IHSigFor; auto]. Qed.

Lemma SigFor_lookup (sp : PSSignatureParams) (r : gmap Z (gset string)) (i : nat)
    (creds : list (Credential * bytes)) (sts : list Statement) (wts : list Witness) :
  SigFor sp r i creds sts wts ->
  forall (k : nat) (credpk : Credential * bytes),
    creds !! k = Some credpk ->
    exists p rm um raw,
      sts !! k = Some (St_bbsSignature p (snd credpk) rm false) /\
      wts !! k = Some (Wi_bbsSignature (signature (fst credpk)) um false) /\
      adapt sp (length (namesOf (fst credpk))) = Ok p /\
      getRevealedAndUnrevealed (serializeForSigning (fst credpk))
        (revealedNamesFor r (i + k) (fst credpk))
        (encoder (cred_schema (fst credpk))) = Ok (rm, um, raw).
Proof.
  induction 1 as [i | i c creds p rm um raw sts wts Hp Hs H IH]; intros k credpk Hk.
  - discriminate.
  - destruct k as [|k]; simpl in Hk.
    + apply Some_inj in Hk. subst c. exists p, rm, um, raw.
      rewrite Nat.add_0_r. auto.
    + destruct (IH k credpk Hk) as (p' & rm' & um' & raw' & ? & ? & ? & Hg).
      exists p', rm', um', raw'. replace (i + S k)%nat with (S i + k)%nat by lia. auto.
Qed.

Lemma statusRank_nil (i : nat) : statusRank [] i = 0%nat.
Proof. unfold statusRank. rewrite take_nil. reflexivity. Qed.

Lemma statusRank_0 (creds : list (Credential * bytes)) : statusRank creds 0 = 0%nat.
Proof. reflexivity. Qed.

Lemma statusRank_S (c : Credential * bytes) (creds : list (Credential * bytes)) (k : nat) :
  statusRank (c :: creds) (S k)
  = ((if declaresStatus c then 1 else 0) + statusRank creds k)%nat.
Proof.
  unfold statusRank. simpl. rewrite filter_cons.
  destruct (declaresStatus c); simpl; [|reflexivity].
  destruct (decide (true = true)); [reflexivity | contradiction].
Qed.

Lemma AuxFor_length (b : PresentationBuilder) (i : nat) (creds : list (Credential * bytes))
    (auxs : list (Z * option json * bytes)) :
  AuxFor b i creds auxs -> length auxs = statusRank creds (length creds).
Proof.
  induction 1 as [i | i c creds auxs Hn H IH | i c creds cs s v auxs Hc Hs Hv H IH]; simpl.
  - reflexivity.
  - rewrite statusRank_S. unfold declaresStatus. rewrite Hn. exact IH.
  - rewrite statusRank_S. unfold declaresStatus. rewrite Hc. simpl. rewrite IH. reflexivity.
Qed.

Lemma AuxFor_lookup (b : PresentationBuilder) (i : nat) (creds : list (Credential * bytes))
    (auxs : list (Z * option json * bytes)) :
  AuxFor b i creds auxs ->
  forall (k : nat) (credpk : Credential * bytes) (cs : dict json),
    creds !! k = Some credpk ->
    credStatus (fst credpk) = Some cs ->
    exists s v,
      credStatuses b !! Z.of_nat (i + k) = Some s /\
      encodeMessage (encoder (cred_schema (fst credpk))) (dotted STATUS_STR REV_ID_STR)
        (dict_get REV_ID_STR cs) = Ok v /\
      auxs !! statusRank creds k = Some (Z.of_nat (i + k), dict_get REV_CHECK_STR cs, v).
Proof.
  induction 1 as [i | i c creds auxs Hn H IH | i c creds cs' s v auxs Hc Hs Hv H IH];
    intros k credpk cs Hk Hcs.
  - discriminate.
  - destruct k as [|k]; simpl in Hk.
    + apply Some_inj in Hk. subst c. congruence.
    + destruct (IH k credpk cs Hk Hcs) as (s' & v' & ? & ? & Ha).
      exists s', v'. rewrite statusRank_S. unfold declaresStatus. rewrite Hn. simpl.
      replace (i + S k)%nat with (S i + k)%nat by lia. auto.
  - destruct k as [|k]; simpl in Hk.
    + apply Some_inj in Hk. subst c. rewrite Hc in Hcs. apply Some_inj in Hcs. subst cs'.
      exists s, v. rewrite Nat.add_0_r. auto.
    + destruct (IH k credpk cs Hk Hcs) as (s' & v' & ? & ? & Ha).
      exists s', v'. rewrite statusRank_S. unfold declaresStatus. rewrite Hc. simpl.
      replace (i + S k)%nat with (S i + k)%nat by lia. auto.
Qed.

Lemma AccFor_length (b : PresentationBuilder) (schemas : list FlattenedSchema) (n : nat)
    (auxs : list (Z * option json * bytes)) (sts : list Statement) (wts : list Witness)
    (eqs : list WitnessEqualityMetaStatement) :
  AccFor b schemas n auxs sts wts eqs ->
  length sts = length auxs /\ length wts = length auxs /\ length eqs = length auxs.
Proof. induction 1; simpl; [auto | destruct IHAccFor as (? & ? & ?); auto]. Qed.

Lemma AccFor_lookup (b : PresentationBuilder) (schemas : list FlattenedSchema) (n : nat)
    (auxs : list (Z * option json * bytes)) (sts : list Statement) (wts : list Witness)
    (eqs : list WitnessEqualityMetaStatement) :
  AccFor b schemas n auxs sts wts eqs ->
  forall (k : nat) (entry : Z * option json * bytes),
    auxs !! k = Some entry ->
    exists stm w eq,
      sts !! k = Some stm /\ wts !! k = Some w /\ eqs !! k = Some eq /\
      AccEntry b schemas (n + k) entry stm w eq.
Proof.
  induction 1 as [n | n e auxs stm w eq sts wts eqs He H IH]; intros k entry Hk.
  - discriminate.
  - destruct k as [|k]; simpl in Hk.
    + apply Some_inj in Hk. subst e. exists stm, w, eq. rewrite Nat.add_0_r. auto.
    + destruct (IH k entry Hk) as (stm' & w' & eq' & ? & ? & ? & Ha).
      exists stm', w', eq'. replace (n + S k)%nat with (S n + k)%nat by lia. auto.
Qed.

Lemma statusStatement_ok (i : Z) (t : option json) (value : bytes)
    (wit : AccumulatorWitness) (acc pk : bytes) (stm : Statement) (w : Witness) :
  statusStatement i t value wit acc pk = Ok (stm, w) ->
  isMembershipWitness wit = is_str t MEM_CHECK_STR /\
  stm = (if is_str t MEM_CHECK_STR
         then St_accumulatorMembership dockAccumulatorParams pk
                dockAccumulatorMemProvingKey acc
         else St_accumulatorNonMembership dockAccumulatorParams pk
                dockAccumulatorNonMemProvingKey acc) /\
  w = (if is_str t MEM_CHECK_STR
       then Wi_accumulatorMembership value wit
       else Wi_accumulatorNonMembership value wit).
Proof.
  unfold statusStatement. destruct (is_str t MEM_CHECK_STR); destruct wit; simpl;
    intros H; try discriminate; apply Ok_inj in H; apply pair_equal_spec in H as [<- <-];
    auto.
Qed.

Lemma nthZ_of_nat {A : Type} (l : list A) (i : nat) : nthZ l (Z.of_nat i) = l !! i.
Proof.
  unfold nthZ. destruct (Z.ltb_spec (Z.of_nat i) 0); [lia|]. rewrite Nat2Z.id. reflexivity.
Qed.

Lemma schemasOf_lookup (b : PresentationBuilder) (i : nat) (credpk : Credential * bytes) :
  credentials b !! i = Some credpk ->
  nthZ (schemasOf b) (Z.of_nat i) = Some (flatten (cred_schema (fst credpk))).
Proof.
  intros H. rewrite nthZ_of_nat. unfold schemasOf. rewrite list_lookup_fmap, H. reflexivity.
Qed.

(** *** Credential status *)

Lemma status_emitted (b : PresentationBuilder) (st : Locals) :
  assemble b = Ok st ->
  length (ProofSpec.values (statements st))
  = (length (credentials b) + statusRank (credentials b) (length (credentials b)))%nat /\
  forall (i : nat) (cred : Credential) (pk : bytes) (cs : dict json),
    credentials b !! i = Some (cred, pk) ->
    credStatus cred = Some cs ->
    exists wit acc apk extra eq,
      credStatuses b !! Z.of_nat i = Some (wit, acc, apk, extra) /\
      isMembershipWitness wit = is_str (dict_get REV_CHECK_STR cs) MEM_CHECK_STR /\
      ProofSpec.values (statements st)
        !! (length (credentials b) + statusRank (credentials b) i)%nat
      = Some (if is_str (dict_get REV_CHECK_STR cs) MEM_CHECK_STR
              then St_accumulatorMembership dockAccumulatorParams apk
                     dockAccumulatorMemProvingKey acc
              else St_accumulatorNonMembership dockAccumulatorParams apk
                     dockAccumulatorNonMemProvingKey acc) /\
      ProofSpec.values (metaStatements st) !! statusRank (credentials b) i = Some eq /\
      witnessRefs eq
      = [(Z.of_nat i, indexOf (namesOf cred) (dotted STATUS_STR REV_ID_STR));
         (Z.of_nat (length (credentials b) + statusRank (credentials b) i), 0)].
Proof.
  intros H. apply assemble_ok in H.
  destruct H as [_ _ _ (sts & wts & auxs & accs & awts & seqs & eqs &
                        Hst & Hwt & Hmeta & Hsig & Haux & Hacc & Heq)].
  destruct (SigFor_length _ _ _ _ _ _ Hsig) as [Hlen _].
  destruct (AccFor_length _ _ _ _ _ _ _ Hacc) as (Hl1 & _ & Hl3).
  split.
  - rewrite Hst, length_app, Hlen, Hl1. rewrite (AuxFor_length _ _ _ _ Haux). reflexivity.
  - intros i cred pk cs Hi Hcs.
    destruct (AuxFor_lookup _ _ _ _ Haux i (cred, pk) cs Hi Hcs) as (s & v & Hs & Hv & Hk).
    destruct (AccFor_lookup _ _ _ _ _ _ _ Hacc _ _ Hk) as (stm & w & eq & Hstm & Hw & He & Hentry).
    destruct Hentry as (wit & acc & apk & extra & fs & Hcsi & Hss & Hfs & Hrefs).
    simpl in *. rewrite (schemasOf_lookup b i (cred, pk) Hi) in Hfs.
    apply Some_inj in Hfs. subst fs.
    apply statusStatement_ok in Hss as (Hvar & -> & ->).
    exists wit, acc, apk, extra, eq. repeat split.
    + exact Hcsi.
    + exact Hvar.
    + rewrite Hst, <- Hlen. rewrite lookup_app_r by lia.
      replace (length sts + statusRank (credentials b) i - length sts)%nat
        with (statusRank (credentials b) i) by lia.
      exact Hstm.
    + rewrite Hmeta. apply lookup_app_l_Some. exact He.
    + rewrite Hrefs, Hlen. reflexivity.
Qed.

(** C4.  When [finalize] succeeds, the statements are the signature
    statements of the credentials followed by exactly one accumulator
    statement per status-bearing credential: for credential [i] with status
    [cs], the statement at index [numCreds + rank i] ([rank i] being the
    number of status-bearing credentials before [i]) is a membership
    statement if [cs.revocationCheck] is the membership string and a
    non-membership statement otherwise, built from the status info supplied
    for [i]; and the meta-statement number [rank i] is a witness equality
    between the flattened position of [credentialStatus.revocationId] in the
    signature statement [i] and position 0 of that accumulator statement.
    [finalize] throws if a status-bearing credential has no status info, and
    if the supplied witness is not of the variant the check asks for. *)
Theorem status_statements (b : PresentationBuilder) :
  (forall (pres : Presentation) (b' : PresentationBuilder),
     finalize b = Ok (pres, b') ->
     exists st,
       assemble b = Ok st /\
       _proofSpec b' = Some (proofSpecOf b st) /\
       length (ProofSpec.values (statements st))
       = (length (credentials b)
          + statusRank (credentials b) (length (credentials b)))%nat /\
       forall (i : nat) (cred : Credential) (pk : bytes) (cs : dict json),
         credentials b !! i = Some (cred, pk) ->
         credStatus cred = Some cs ->
         exists wit acc apk extra eq,
           credStatuses b !! Z.of_nat i = Some (wit, acc, apk, extra) /\
           isMembershipWitness wit = is_str (dict_get REV_CHECK_STR cs) MEM_CHECK_STR /\
           ProofSpec.values (statements st)
             !! (length (credentials b) + statusRank (credentials b) i)%nat
           = Some (if is_str (dict_get REV_CHECK_STR cs) MEM_CHECK_STR
                   then St_accumulatorMembership dockAccumulatorParams apk
                          dockAccumulatorMemProvingKey acc
                   else St_accumulatorNonMembership dockAccumulatorParams apk
                          dockAccumulatorNonMemProvingKey acc) /\
           ProofSpec.values (metaStatements st) !! statusRank (credentials b) i = Some eq /\
           witnessRefs eq
           = [(Z.of_nat i, indexOf (namesOf cred) (dotted STATUS_STR REV_ID_STR));
              (Z.of_nat (length (credentials b) + statusRank (credentials b) i), 0)]) /\
  (forall (i : nat) (cred : Credential) (pk : bytes),
     credentials b !! i = Some (cred, pk) ->
     credStatus cred <> None ->
     credStatuses b !! Z.of_nat i = None ->
     throws (finalize b)) /\
  (forall (i : nat) (cred : Credential) (pk : bytes) (cs : dict json)
          (wit : AccumulatorWitness) (acc apk : bytes) (extra : json),
     credentials b !! i = Some (cred, pk) ->
     credStatus cred = Some cs ->
     credStatuses b !! Z.of_nat i = Some (wit, acc, apk, extra) ->
     isMembershipWitness wit <> is_str (dict_get REV_CHECK_STR cs) MEM_CHECK_STR ->
     throws (finalize b)).
Proof.
  split; [|split].
  - intros pres b' H. apply finalize_ok in H as (st & Hst & Hps & _).
    exists st. split; [exact Hst|]. split; [exact Hps|].
    apply status_emitted. exact Hst.
  - intros i cred pk Hi Hcs Hnone. apply assemble_throws. apply not_ok_throws.
    intros st Hst. destruct (credStatus cred) as [cs|] eqn:Ecs; [|congruence].
    destruct (proj2 (status_emitted b st Hst) i cred pk cs Hi Ecs)
      as (wit & acc & apk & extra & eq & Hsome & _).
    congruence.
  - intros i cred pk cs wit acc apk extra Hi Hcs Hsome Hvar.
    apply assemble_throws. apply not_ok_throws. intros st Hst.
    destruct (proj2 (status_emitted b st Hst) i cred pk cs Hi Hcs)
      as (wit' & acc' & apk' & extra' & eq & Hsome' & Hvar' & _).
    rewrite Hsome in Hsome'. apply Some_inj in Hsome'.
    apply pair_equal_spec in Hsome' as [Hsome' _].
    apply pair_equal_spec in Hsome' as [Hsome' _].
    apply pair_equal_spec in Hsome' as [Hsome' _].
    subst wit'. contradiction.
Qed.

(** *** Attribute equalities *)

Lemma equalities_emitted (b : PresentationBuilder) (st : Locals) :
  assemble b = Ok st ->
  length (ProofSpec.values (metaStatements st))
  = (statusRank (credentials b) (length (credentials b))
     + length (attributeEqualities b))%nat /\
  forall (k : nat) (eql : AttributeEquality),
    attributeEqualities b !! k = Some eql ->
    exists eq,
      ProofSpec.values (metaStatements st)
        !! (statusRank (credentials b) (length (credentials b)) + k)%nat = Some eq /\
      ResolvedEquality (schemasOf b) eql eq.
Proof.
  intros H. apply assemble_ok in H.
  destruct H as [_ _ _ (sts & wts & auxs & accs & awts & seqs & eqs &
                        Hst & Hwt & Hmeta & Hsig & Haux & Hacc & Heq)].
  destruct (AccFor_length _ _ _ _ _ _ _ Hacc) as (_ & _ & Hl3).
  rewrite (AuxFor_length _ _ _ _ Haux) in Hl3.
  split.
  - rewrite Hmeta, length_app, Hl3. rewrite (Forall2_length _ _ _ Heq). reflexivity.
  - intros k eql Hk.
    destruct (Forall2_lookup_l _ _ _ _ _ Heq Hk) as (eq & He & Hres).
    exists eq. split; [|exact Hres].
    rewrite Hmeta, <- Hl3. rewrite lookup_app_r by lia.
    replace (length seqs + k - length seqs)%nat with k by lia. exact He.
Qed.

(** C7.  When [finalize] succeeds, every attribute-equality request has
    become one witness-equality meta-statement (they follow the witness
    equalities of the status entries, in the order of the requests) whose
    references pair each credential index of the request with the position
    of [credentialSubject.<name>] in the flattened schema of that credential,
    and every such position was found.  If a named attribute is absent from
    the flattened schema of its credential (the index lookup gives [-1]),
    [finalize] throws. *)
Theorem attribute_equalities_resolved (b : PresentationBuilder) :
  (forall (pres : Presentation) (b' : PresentationBuilder),
     finalize b = Ok (pres, b') ->
     exists st,
       assemble b = Ok st /\
       _proofSpec b' = Some (proofSpecOf b st) /\
       length (ProofSpec.values (metaStatements st))
       = (statusRank (credentials b) (length (credentials b))
          + length (attributeEqualities b))%nat /\
       forall (k : nat) (eql : AttributeEquality),
         attributeEqualities b !! k = Some eql ->
         exists eq,
           ProofSpec.values (metaStatements st)
             !! (statusRank (credentials b) (length (credentials b)) + k)%nat = Some eq /\
           Forall2
             (fun (ref : Z * string) (wref : Z * Z) =>
                exists fs,
                  nthZ (schemasOf b) (fst ref) = Some fs /\
                  fst wref = fst ref /\
                  snd wref = indexOf (fst fs) (dotted SUBJECT_STR (snd ref)) /\
                  snd wref <> -1)
             eql (witnessRefs eq)) /\
  (forall (eql : AttributeEquality) (cIdx : Z) (name : string) (fs : FlattenedSchema),
     In eql (attributeEqualities b) ->
     In (cIdx, name) eql ->
     nthZ (schemasOf b) cIdx = Some fs ->
     indexOf (fst fs) (dotted SUBJECT_STR name) = -1 ->
     throws (finalize b)).
Proof.
  split.
  - intros pres b' H. apply finalize_ok in H as (st & Hst & Hps & _).
    exists st. split; [exact Hst|]. split; [exact Hps|].
    apply equalities_emitted. exact Hst.
  - intros eql cIdx name fs Hin Href Hfs Habsent.
    apply assemble_throws. apply not_ok_throws. intros st Hst.
    apply list_elem_of_In in Hin. apply list_elem_of_lookup in Hin as (k & Hk).
    destruct (proj2 (equalities_emitted b st Hst) k eql Hk) as (eq & _ & Hres).
    apply list_elem_of_In in Href. apply list_elem_of_lookup in Href as (j & Hj).
    destruct (Forall2_lookup_l _ _ _ _ _ Hres Hj) as (wref & _ & fs' & Hfs' & _ & Hpos & Hne).
    simpl in *. rewrite Hfs in Hfs'. apply Some_inj in Hfs'. subst fs'. congruence.
Qed.

(** *** Revealed and unrevealed attributes *)

Lemma splitMsgs_revealed (R : gset string) (names : list string) :
  forall (vals : list bytes) (i : nat) (acc : gmap nat bytes * gmap nat bytes) (pos : nat),
    fst (splitMsgs R i names vals acc) !! pos
    = if decide (i <= pos)%nat then
        match names !! (pos - i)%nat, vals !! (pos - i)%nat with
        | Some n, Some v => if bool_decide (n ∈ R) then Some v else fst acc !! pos
        | _, _ => fst acc !! pos
        end
      else fst acc !! pos.
Proof.
  induction names as [|n names IH]; intros vals i acc pos; simpl.
  - destruct (decide (i <= pos)%nat); reflexivity.
  - destruct vals as [|v vals]; simpl.
    + destruct (decide (i <= pos)%nat); [|reflexivity].
      destruct ((n :: names) !! (pos - i)%nat); reflexivity.
    + rewrite IH. destruct (decide (S i <= pos)%nat) as [Hle|Hgt].
      * destruct (decide (i <= pos)%nat); [|lia].
        replace (pos - i)%nat with (S (pos - S i)) by lia. simpl.
        destruct (names !! (pos - S i)%nat) as [n'|]; destruct (vals !! (pos - S i)%nat) as [v'|];
          try destruct (bool_decide (n' ∈ R)); try reflexivity;
          destruct (bool_decide (n ∈ R)); simpl; try reflexivity;
          rewrite lookup_insert_ne by lia; reflexivity.
      * destruct (decide (i <= pos)%nat) as [Hle|Hgt2].
        -- assert (pos = i) by lia. subst pos. rewrite Nat.sub_diag. simpl.
           destruct (bool_decide (n ∈ R)); simpl; [apply lookup_insert_eq | reflexivity].
        -- destruct (bool_decide (n ∈ R)); simpl; [|reflexivity].
           rewrite lookup_insert_ne by lia. reflexivity.
Qed.

Lemma splitMsgs_unrevealed (R : gset string) (names : list string) :
  forall (vals : list bytes) (i : nat) (acc : gmap nat bytes * gmap nat bytes) (pos : nat),
    snd (splitMsgs R i names vals acc) !! pos
    = if decide (i <= pos)%nat then
        match names !! (pos - i)%nat, vals !! (pos - i)%nat with
        | Some n, Some v => if bool_decide (n ∈ R) then snd acc !! pos else Some v
        | _, _ => snd acc !! pos
        end
      else snd acc !! pos.
Proof.
  induction names as [|n names IH]; intros vals i acc pos; simpl.
  - destruct (decide (i <= pos)%nat); reflexivity.
  - destruct vals as [|v vals]; simpl.
    + destruct (decide (i <= pos)%nat); [|reflexivity].
      destruct ((n :: names) !! (pos - i)%nat); reflexivity.
    + rewrite IH. destruct (decide (S i <= pos)%nat) as [Hle|Hgt].
      * destruct (decide (i <= pos)%nat); [|lia].
        replace (pos - i)%nat with (S (pos - S i)) by lia. simpl.
        destruct (names !! (pos - S i)%nat) as [n'|]; destruct (vals !! (pos - S i)%nat) as [v'|];
          try destruct (bool_decide (n' ∈ R)); try reflexivity;
          destruct (bool_decide (n ∈ R)); simpl; try reflexivity;
          rewrite lookup_insert_ne by lia; reflexivity.
      * destruct (decide (i <= pos)%nat) as [Hle|Hgt2].
        -- assert (pos = i) by lia. subst pos. rewrite Nat.sub_diag. simpl.
           destruct (bool_decide (n ∈ R)); simpl; [reflexivity | apply lookup_insert_eq].
        -- destruct (bool_decide (n ∈ R)); simpl; [reflexivity|].
           rewrite lookup_insert_ne by lia. reflexivity.
Qed.

Lemma encodeEach_length (enc : Encoder) (raw : dict json) (names : list string) :
  forall vals, encodeEach enc names raw = Ok vals -> length vals = length names.
Proof.
  induction names as [|n names IH]; intros vals H; simpl in H.
  - apply Ok_inj in H. subst vals. reflexivity.
  - apply mbind_ok_inv in H as (v & _ & H). apply mbind_ok_inv in H as (vs & Hvs & H).
    apply Ok_inj in H. subst vals. simpl. rewrite (IH vs Hvs). reflexivity.
Qed.

Lemma getRevealedAndUnrevealed_ok (messages : json) (R : gset string) (enc : Encoder)
    (rm um : gmap nat bytes) (raw : dict json) :
  getRevealedAndUnrevealed messages R enc = Ok (rm, um, raw) ->
  exists names vals,
    encodeMessageObject enc messages = Ok (names, vals) /\
    length vals = length names /\
    SplitBy R names vals rm um.
Proof.
  unfold getRevealedAndUnrevealed. intros H.
  apply mbind_ok_inv in H as ([names vals] & Henc & H).
  destruct (splitMsgs R 0 names vals (∅, ∅)) as [rm' um'] eqn:Es.
  apply Ok_inj in H. apply pair_equal_spec in H as [H _].
  apply pair_equal_spec in H as [<- <-].
  exists names, vals. split; [exact Henc|]. split.
  - unfold encodeMessageObject in Henc. apply mbind_ok_inv in Henc as (vs & Hvs & Henc).
    apply Ok_inj in Henc. apply pair_equal_spec in Henc as [<- <-].
    eapply encodeEach_length. exact Hvs.
  - intros pos.
    pose proof (splitMsgs_revealed R names vals 0 (∅, ∅) pos) as Hr.
    pose proof (splitMsgs_unrevealed R names vals 0 (∅, ∅) pos) as Hu.
    rewrite Es in Hr, Hu. simpl in Hr, Hu. rewrite Nat.sub_0_r in Hr, Hu.
    rewrite lookup_empty in Hr, Hu.
    destruct (decide (0 <= pos)%nat); [|lia].
    destruct (names !! pos) as [n|]; destruct (vals !! pos) as [v|]; auto.
    destruct (bool_decide (n ∈ R)); auto.
Qed.

Lemma signature_emitted (b : PresentationBuilder) (st : Locals) :
  assemble b = Ok st ->
  forall (i : nat) (cred : Credential) (pk : bytes),
    credentials b !! i = Some (cred, pk) ->
    exists p rm um names vals,
      ProofSpec.values (statements st) !! i = Some (St_bbsSignature p pk rm false) /\
      ProofSpec.values (witnesses st) !! i
      = Some (Wi_bbsSignature (signature cred) um false) /\
      adapt (generate 2 (Some SIGNATURE_PARAMS_LABEL_BYTES)) (length (namesOf cred)) = Ok p /\
      encodeMessageObject (encoder (cred_schema cred)) (serializeForSigning cred)
      = Ok (names, vals) /\
      length vals = length names /\
      SplitBy (revealedNamesFor (revealedAttributes b) i cred) names vals rm um.
Proof.
  intros H i cred pk Hi. apply assemble_ok in H.
  destruct H as [_ _ _ (sts & wts & auxs & accs & awts & seqs & eqs &
                        Hst & Hwt & Hmeta & Hsig & Haux & Hacc & Heq)].
  destruct (SigFor_lookup _ _ _ _ _ _ Hsig i (cred, pk) Hi)
    as (p & rm & um & raw & Hs & Hw & Hp & Hg).
  simpl in *.
  apply getRevealedAndUnrevealed_ok in Hg as (names & vals & Henc & Hlen & Hsplit).
  exists p, rm, um, names, vals. repeat split; try assumption.
  - rewrite Hst. apply lookup_app_l_Some. exact Hs.
  - rewrite Hwt. apply lookup_app_l_Some. exact Hw.
Qed.

End Loops.

Lemma prefix_append (p s : string) : String.prefix p (p +:+ s) = true.
Proof.
  induction p as [|c p IH]; simpl.
  - destruct s; reflexivity.
  - destruct (ascii_dec c c) as [_|Hne]; [exact IH | contradiction].
Qed.

Lemma dotted_is_subject_name (a : string) : is_subject_name (dotted SUBJECT_STR a) = true.
Proof.
  unfold is_subject_name, dotted.
  change (SUBJECT_STR +:+ "." +:+ a) with ((SUBJECT_STR +:+ ".") +:+ a).
  apply prefix_append.
Qed.

Lemma reachable_subjectOnly (b : PresentationBuilder) : reachable b -> subjectOnly b.
Proof.
  induction 1 as [ | b cred pk Hb IH | b b' credIdx names Hb IH Hm
                   | b b' equality Hb IH Hm | b b' credIdx w acc pk extra Hb IH Hm
                   | b ctx Hb IH | b nonce Hb IH ]; intros i X name HX Hin.
  - simpl in HX. rewrite lookup_empty in HX. discriminate.
  - exact (IH i X name HX Hin).
  - unfold markAttributesRevealed in Hm. apply mbind_ok_inv in Hm as (u & _ & Hm).
    apply Ok_inj in Hm. subst b'. simpl in HX.
    destruct (decide (credIdx = i)) as [->|Hne].
    + rewrite lookup_insert_eq in HX. apply Some_inj in HX. subst X.
      apply elem_of_union in Hin as [Hold|Hnew].
      * destruct (revealedAttributes b !! i) as [Y|] eqn:EY; simpl in Hold.
        -- exact (IH i Y name EY Hold).
        -- set_solver.
      * apply elem_of_map in Hnew as (a & -> & _). apply dotted_is_subject_name.
    + rewrite lookup_insert_ne in HX by exact Hne. exact (IH i X name HX Hin).
  - unfold markAttributesEqual in Hm. apply mbind_ok_inv in Hm as (u & _ & Hm).
    apply Ok_inj in Hm. subst b'. exact (IH i X name HX Hin).
  - unfold addAccumInfoForCredStatus in Hm. apply mbind_ok_inv in Hm as (u & _ & Hm).
    apply Ok_inj in Hm. subst b'. exact (IH i X name HX Hin).
  - exact (IH i X name HX Hin).
  - exact (IH i X name HX Hin).
Qed.

(** The set of revealed names of a credential: the two implicit leaves
    always, the two status leaves exactly when the credential declares a
    status, and beyond these the names the caller marked. *)
Lemma revealedNames_spec (b : PresentationBuilder) (i : nat) (cred : Credential) :
  subjectOnly b ->
  CRED_VERSION_STR ∈ revealedNamesFor (revealedAttributes b) i cred /\
  SCHEMA_STR ∈ revealedNamesFor (revealedAttributes b) i cred /\
  (dotted STATUS_STR REGISTRY_ID_STR ∈ revealedNamesFor (revealedAttributes b) i cred
   <-> credStatus cred <> None) /\
  (dotted STATUS_STR REV_CHECK_STR ∈ revealedNamesFor (revealedAttributes b) i cred
   <-> credStatus cred <> None) /\
  (forall name,
     name ∈ revealedNamesFor (revealedAttributes b) i cred <->
     name = CRED_VERSION_STR \/ name = SCHEMA_STR \/
     (credStatus cred <> None /\
      (name = dotted STATUS_STR REGISTRY_ID_STR \/ name = dotted STATUS_STR REV_CHECK_STR)) \/
     (exists X, revealedAttributes b !! Z.of_nat i = Some X /\ name ∈ X)).
Proof.
  intros Hsub.
  assert (Hall : forall name,
     name ∈ revealedNamesFor (revealedAttributes b) i cred <->
     name = CRED_VERSION_STR \/ name = SCHEMA_STR \/
     (credStatus cred <> None /\
      (name = dotted STATUS_STR REGISTRY_ID_STR \/ name = dotted STATUS_STR REV_CHECK_STR)) \/
     (exists X, revealedAttributes b !! Z.of_nat i = Some X /\ name ∈ X)).
  { intros name. unfold revealedNamesFor, alwaysRevealed.
    destruct (revealedAttributes b !! Z.of_nat i) as [X|];
      destruct (credStatus cred) as [cs|]; simpl;
      rewrite ?elem_of_union, ?elem_of_singleton, ?elem_of_empty;
      (split;
       [ intros H; decompose [or] H; clear H; subst; eauto 10; try contradiction;
         try (right; right; left; split; [discriminate | auto])
       | intros H; decompose [or and ex] H; clear H; subst; auto 10; try congruence;
         match goal with
         | E : Some _ = Some _ |- _ => apply Some_inj in E; subst; auto
         end ]). }
  assert (Hstatus : forall name,
     is_subject_name name = false -> name <> CRED_VERSION_STR -> name <> SCHEMA_STR ->
     (name = dotted STATUS_STR REGISTRY_ID_STR \/ name = dotted STATUS_STR REV_CHECK_STR) ->
     (name ∈ revealedNamesFor (revealedAttributes b) i cred <-> credStatus cred <> None)).
  { intros name Hns Hv Hs Hname. rewrite Hall. split.
    - intros [?|[?|[[Hc _]|(X & HX & Hin)]]]; try contradiction; [exact Hc|].
      rewrite (Hsub _ X name HX Hin) in Hns. discriminate.
    - intros Hc. right. right. left. auto. }
  split; [apply Hall; auto|]. split; [apply Hall; auto|].
  split; [|split; [|exact Hall]].
  - apply Hstatus; [reflexivity | discriminate | discriminate | auto].
  - apply Hstatus; [reflexivity | discriminate | discriminate | auto].
Qed.

Section Claims.
Context `{PB : PresentationBackend} `{SB : SigParamsBackend}.

(** C3.  Take a builder made through the API and a successful [finalize].
    For every credential [i] the set of revealed names holds [cryptoVersion]
    and [credentialSchema], holds [credentialStatus.id] and
    [credentialStatus.revocationCheck] if and only if the credential declares
    a status, and holds beyond these exactly the names the caller marked;
    the signature statement [i] carries [revealedMsgs] and the signature
    witness [i] carries [unrevealedMsgs], which split the positions of the
    flat attribute vector: a position whose name is revealed is in
    [revealedMsgs] only, any other position is in [unrevealedMsgs] only, each
    with the scalar of that position. *)
Theorem revealed_and_unrevealed (b : PresentationBuilder) (pres : Presentation)
    (b' : PresentationBuilder) :
  reachable b ->
  finalize b = Ok (pres, b') ->
  exists st,
    assemble b = Ok st /\
    _proofSpec b' = Some (proofSpecOf b st) /\
    forall (i : nat) (cred : Credential) (pk : bytes),
      credentials b !! i = Some (cred, pk) ->
      CRED_VERSION_STR ∈ revealedNamesFor (revealedAttributes b) i cred /\
      SCHEMA_STR ∈ revealedNamesFor (revealedAttributes b) i cred /\
      (dotted STATUS_STR REGISTRY_ID_STR ∈ revealedNamesFor (revealedAttributes b) i cred
       <-> credStatus cred <> None) /\
      (dotted STATUS_STR REV_CHECK_STR ∈ revealedNamesFor (revealedAttributes b) i cred
       <-> credStatus cred <> None) /\
      (forall name,
         name ∈ revealedNamesFor (revealedAttributes b) i cred <->
         name = CRED_VERSION_STR \/ name = SCHEMA_STR \/
         (credStatus cred <> None /\
          (name = dotted STATUS_STR REGISTRY_ID_STR \/
           name = dotted STATUS_STR REV_CHECK_STR)) \/
         (exists X, revealedAttributes b !! Z.of_nat i = Some X /\ name ∈ X)) /\
      exists p rm um names vals,
        ProofSpec.values (statements st) !! i = Some (St_bbsSignature p pk rm false) /\
        ProofSpec.values (witnesses st) !! i
        = Some (Wi_bbsSignature (signature cred) um false) /\
        encodeMessageObject (encoder (cred_schema cred)) (serializeForSigning cred)
        = Ok (names, vals) /\
        length vals = length names /\
        SplitBy (revealedNamesFor (revealedAttributes b) i cred) names vals rm um.
Proof.
  intros Hreach H. apply finalize_ok in H as (st & Hst & Hps & _).
  exists st. split; [exact Hst|]. split; [exact Hps|].
  intros i cred pk Hi.
  destruct (revealedNames_spec b i cred (reachable_subjectOnly b Hreach))
    as (Hv & Hs & Hid & Hrc & Hall).
  repeat (split; [assumption|]).
  destruct (signature_emitted b st Hst i cred pk Hi)
    as (p & rm & um & names & vals & H1 & H2 & _ & H3 & H4 & H5).
  exists p, rm, um, names, vals. auto.
Qed.

(** *** The size of the signature parameters *)

Lemma adapt_label (p q : PSSignatureParams) (n : nat) :
  adapt p n = Ok q -> label q = label p.
Proof.
  unfold adapt. destruct (label p) as [l|] eqn:E; [|discriminate].
  intros H. apply Ok_inj in H. subst q. simpl. reflexivity.
Qed.

Lemma adapt_supported `{L : !SigParamsBackendLaws} (p q : PSSignatureParams) (n : nat) :
  adapt p n = Ok q -> supportedMessageCount q = n.
Proof.
  unfold adapt. destruct (label p) as [l|]; [|discriminate].
  intros H. apply Ok_inj in H. subst q. unfold supportedMessageCount. simpl.
  destruct (Nat.leb_spec n (length (h (value p)))) as [Hle|Hgt]; simpl.
  - rewrite length_take. unfold supportedMessageCount in *. lia.
  - apply adapt_count.
Qed.

(** The statement of credential [i] uses parameters for exactly as many
    messages as the flattened schema of [i] has names. *)
Lemma statement_params_fit `{L : !SigParamsBackendLaws} (b : PresentationBuilder)
    (st : Locals) :
  assemble b = Ok st ->
  forall (i : nat) (cred : Credential) (pk : bytes),
    credentials b !! i = Some (cred, pk) ->
    exists p rm,
      ProofSpec.values (statements st) !! i = Some (St_bbsSignature p pk rm false) /\
      supportedMessageCount p = length (fst (flatten (cred_schema cred))).
Proof.
  intros Hst i cred pk Hi.
  destruct (signature_emitted b st Hst i cred pk Hi)
    as (p & rm & um & names & vals & H1 & _ & Hp & _).
  exists p, rm. split; [exact H1|]. exact (adapt_supported _ _ _ Hp).
Qed.

Lemma fold_max_ge (creds : list (Credential * bytes)) :
  forall m : nat,
    (m <= fold_left (fun m c => Nat.max m (length (namesOf (fst c)))) creds m)%nat /\
    (forall c, In c creds ->
       (length (namesOf (fst c))
        <= fold_left (fun m c => Nat.max m (length (namesOf (fst c)))) creds m)%nat) /\
    (fold_left (fun m c => Nat.max m (length (namesOf (fst c)))) creds m = m \/
     exists c, In c creds /\
       fold_left (fun m c => Nat.max m (length (namesOf (fst c)))) creds m
       = length (namesOf (fst c))).
Proof.
  induction creds as [|c creds IH]; intros m; simpl.
  - split; [lia|]. split; [contradiction | left; reflexivity].
  - destruct (IH (Nat.max m (length (namesOf (fst c))))) as (H1 & H2 & H3).
    split; [lia|]. split.
    + intros c' [<-|Hin]; [lia | apply H2; exact Hin].
    + destruct H3 as [H3|(c' & Hin & H3)].
      * rewrite H3. destruct (Nat.max_spec m (length (namesOf (fst c)))) as [[_ ->]|[_ ->]].
        -- right. exists c. auto.
        -- left. reflexivity.
      * right. exists c'. auto.
Qed.

(** [maxAttribs] ends as the largest flattened-schema length, and at least
    the two implicit leaves; the variable [sigParams] is never assigned
    again and still supports the two messages it was generated for. *)
Lemma maxAttribs_and_sigParams `{L : !SigParamsBackendLaws} (b : PresentationBuilder)
    (st : Locals) :
  assemble b = Ok st ->
  (2 <= maxAttribs st)%nat /\
  (forall c, In c (credentials b) -> (length (namesOf (fst c)) <= maxAttribs st)%nat) /\
  (maxAttribs st = 2%nat \/
   exists c, In c (credentials b) /\ maxAttribs st = length (namesOf (fst c))) /\
  supportedMessageCount (sigParams st) = 2%nat.
Proof.
  intros H. apply assemble_ok in H. destruct H as [Hs Hx _ _].
  rewrite Hx. destruct (fold_max_ge (credentials b) 2) as (H1 & H2 & H3).
  repeat split; try assumption.
  rewrite Hs. unfold supportedMessageCount, generate. simpl. apply generate_count.
Qed.

End Claims.

(** C2, at the input where the code departs from it.  One credential whose
    flattened schema has three names: after the loop [maxAttribs] is 3, but
    the parameters held in [sigParams] still support 2 messages, because the
    result of [sigParams.adapt(numAttribs)] is dropped.  (The statement of
    the credential is built from a fresh [sigParams.adapt(numAttribs)] and
    does support 3 messages.) *)
Theorem sigParams_left_at_two :
  exists st p rm,
    assemble (PB := Examples.demoPresentationBackend) (SB := Examples.demoSigBackend)
      Examples.oneCredentialBuilder = Ok st /\
    length (fst (flatten (cred_schema Examples.fnameCredential))) = 3%nat /\
    maxAttribs st = 3%nat /\
    supportedMessageCount (sigParams st) = 2%nat /\
    ProofSpec.values (statements st) = [St_bbsSignature p [] rm false] /\
    supportedMessageCount p = 3%nat.
Proof.
  destruct (assemble (PB := Examples.demoPresentationBackend)
              (SB := Examples.demoSigBackend) Examples.oneCredentialBuilder)
    as [st|e] eqn:E; [|vm_compute in E; discriminate].
  vm_compute in E. apply Ok_inj in E. subst st.
  do 3 eexists. split; [reflexivity|]. repeat split.
Qed.

(** *** The statements at work on two credentials *)

Abbreviation demo_finalize :=
  (finalize (PB := Examples.demoPresentationBackend) (SB := Examples.demoSigBackend)).
Abbreviation demo_assemble :=
  (assemble (PB := Examples.demoPresentationBackend) (SB := Examples.demoSigBackend)).

Lemma readyBuilder_reachable : reachable Examples.readyBuilder.
Proof.
  apply (reach_addAccumInfo Examples.twoEqual _ 0 (MembershipWitness ["w"]%byte)
           ["c"]%byte ["k"]%byte (JObj [])); [|vm_compute; reflexivity].
  apply (reach_markEqual Examples.twoRevealed _ [(0, "fname"); (1, "fname")]);
    [|vm_compute; reflexivity].
  apply (reach_markRevealed Examples.twoCredentials _ 0 {["fname"]});
    [|vm_compute; reflexivity].
  apply reach_addCredential. apply reach_addCredential. apply reach_new.
Defined.

Lemma status_statements_witness :
  (exists st eq,
     demo_assemble Examples.readyBuilder = Ok st /\
     length (ProofSpec.values (statements st)) = 3%nat /\
     ProofSpec.values (statements st) !! 2%nat
     = Some (St_accumulatorMembership [] ["k"]%byte [] ["c"]%byte) /\
     ProofSpec.values (metaStatements st) !! 0%nat = Some eq /\
     witnessRefs eq = [(0, 3); (2, 0)]) /\
  throws (demo_finalize Examples.twoEqual) /\
  throws (demo_finalize Examples.wrongWitnessBuilder).
Proof.
  split; [|split].
  - destruct (demo_finalize Examples.readyBuilder) as [[pres b']|e] eqn:E;
      [|vm_compute in E; discriminate].
    destruct (status_statements (PB := Examples.demoPresentationBackend)
                (SB := Examples.demoSigBackend) Examples.readyBuilder) as (HA & _ & _).
    destruct (HA pres b' E) as (st & Hst & _ & Hlen & Hall).
    destruct (Hall 0%nat Examples.statusCredential ["a"]%byte Examples.statusObject
                eq_refl eq_refl) as (wit & acc & apk & extra & eq & Hcs & _ & Hs & Hm & Hr).
    vm_compute in Hcs. apply Some_inj in Hcs.
    apply pair_equal_spec in Hcs as [Hcs _]. apply pair_equal_spec in Hcs as [Hcs <-].
    apply pair_equal_spec in Hcs as [_ <-].
    exists st, eq. split; [exact Hst|]. split; [exact Hlen|]. split; [exact Hs|].
    split; [exact Hm | exact Hr].
  - destruct (status_statements (PB := Examples.demoPresentationBackend)
                (SB := Examples.demoSigBackend) Examples.twoEqual) as (_ & HB & _).
    apply (HB 0%nat Examples.statusCredential ["a"]%byte);
      [reflexivity | discriminate | reflexivity].
  - destruct (status_statements (PB := Examples.demoPresentationBackend)
                (SB := Examples.demoSigBackend) Examples.wrongWitnessBuilder) as (_ & _ & HC).
    apply (HC 0%nat Examples.statusCredential ["a"]%byte Examples.statusObject
             (NonMembershipWitness ["w"]%byte) ["c"]%byte ["k"]%byte (JObj []));
      [reflexivity | reflexivity | vm_compute; reflexivity | discriminate].
Defined.

Lemma attribute_equalities_resolved_witness :
  (exists st eq,
     demo_assemble Examples.readyBuilder = Ok st /\
     length (ProofSpec.values (metaStatements st)) = 2%nat /\
     ProofSpec.values (metaStatements st) !! 1%nat = Some eq /\
     witnessRefs eq = [(0, 5); (1, 1)]) /\
  throws (demo_finalize Examples.missingNameBuilder).
Proof.
  split.
  - destruct (demo_finalize Examples.readyBuilder) as [[pres b']|e] eqn:E;
      [|vm_compute in E; discriminate].
    destruct (attribute_equalities_resolved (PB := Examples.demoPresentationBackend)
                (SB := Examples.demoSigBackend) Examples.readyBuilder) as (HA & _).
    destruct (HA pres b' E) as (st & Hst & _ & Hlen & Hall).
    destruct (Hall 0%nat [(0, "fname"); (1, "fname")] eq_refl) as (eq & Hm & Hres).
    exists st, eq. split; [exact Hst|]. split; [exact Hlen|]. split; [exact Hm|].
    apply Forall2_cons_inv_l in Hres as (w0 & ws & (fs0 & Hfs0 & Hi0 & Hp0 & _) & Hres & ->).
    apply Forall2_cons_inv_l in Hres as (w1 & ws' & (fs1 & Hfs1 & Hi1 & Hp1 & _) & Hres & ->).
    apply Forall2_nil_inv_l in Hres as ->.
    vm_compute in Hfs0. apply Some_inj in Hfs0. subst fs0.
    vm_compute in Hfs1. apply Some_inj in Hfs1. subst fs1.
    destruct w0 as [s0 p0], w1 as [s1 p1]. simpl in Hi0, Hp0, Hi1, Hp1. subst.
    reflexivity.
  - destruct (attribute_equalities_resolved (PB := Examples.demoPresentationBackend)
                (SB := Examples.demoSigBackend) Examples.missingNameBuilder) as (_ & HB).
    apply (HB [(0, "fname"); (1, "lname")] 1 "lname"
             (flatten (cred_schema Examples.fnameCredential))).
    + right. left. reflexivity.
    + right. left. reflexivity.
    + reflexivity.
    + reflexivity.
Defined.

Lemma revealed_and_unrevealed_witness :
  exists st p rm um,
    demo_assemble Examples.readyBuilder = Ok st /\
    ProofSpec.values (statements st) !! 0%nat = Some (St_bbsSignature p ["a"]%byte rm false) /\
    ProofSpec.values (witnesses st) !! 0%nat = Some (Wi_bbsSignature [] um false) /\
    (* position 5 is [credentialSubject.fname], marked revealed *)
    rm !! 5%nat = Some [] /\ um !! 5%nat = None /\
    (* position 3 is [credentialStatus.revocationId], never revealed *)
    um !! 3%nat = Some [] /\ rm !! 3%nat = None.
Proof.
  destruct (demo_finalize Examples.readyBuilder) as [[pres b']|e] eqn:E;
    [|vm_compute in E; discriminate].
  destruct (revealed_and_unrevealed (PB := Examples.demoPresentationBackend)
              (SB := Examples.demoSigBackend) Examples.readyBuilder pres b'
              readyBuilder_reachable E) as (st & Hst & _ & Hall).
  destruct (Hall 0%nat Examples.statusCredential ["a"]%byte eq_refl)
    as (_ & _ & _ & _ & _ & p & rm & um & names & vals & Hs & Hw & Henc & _ & Hsplit).
  vm_compute in Henc. apply Ok_inj in Henc. apply pair_equal_spec in Henc as [<- <-].
  exists st, p, rm, um. split; [exact Hst|]. split; [exact Hs|]. split; [exact Hw|].
  pose proof (Hsplit 5%nat) as H5. pose proof (Hsplit 3%nat) as H3.
  simpl in H5, H3.
  rewrite bool_decide_eq_true_2 in H5 by (vm_compute; reflexivity).
  rewrite bool_decide_eq_false_2 in H3 by (vm_compute; discriminate).
  destruct H5, H3. auto.
Defined.

End PresentationFacts.

(** * Further properties *)

(** ** The threshold signer: what a history of calls keeps *)

Module ThresholdMoreFacts.
Import ThresholdSig ThresholdOps.

Ltac unfold_calls H :=
  unfold exec, startRound1, processReceivedCommitments, getSharesForOtherSigner,
    getSharesForOtherSigners, processReceivedShares, finishR1, startRound2,
    processReceivedMsg1, processReceivedMsg2, finishRound2 in H;
  inv_binds; simpl in *.

Section Facts.
Context `{F : SignerFuncs}.

Lemma Kept_refl (s : ThresholdSigner) : Kept s s.
Proof. split; auto. Qed.

Lemma Kept_trans (s1 s2 s3 : ThresholdSigner) : Kept s1 s2 -> Kept s2 s3 -> Kept s1 s3.
Proof.
  intros [] []; split; try congruence; auto.
Qed.

Lemma step_Kept (s : ThresholdSigner) (c : Call) : Kept s (step s c).
Proof.
  unfold step. destruct (exec s c) as [s'|e] eqn:E; [|apply Kept_refl].
  destruct c; unfold_calls E; split; simpl; auto; discriminate.
Qed.

Lemma run_Kept (cs : list Call) : forall s, Kept s (run s cs).
Proof.
  induction cs as [|c cs IH]; intros s; [apply Kept_refl|].
  apply (Kept_trans _ (step s c)); [apply step_Kept | apply IH].
Qed.

Lemma flag_true {X : Type} (o : option X) : bool_decide (o <> None) = true <-> o <> None.
Proof. apply bool_decide_eq_true. Qed.

(** X1.  No method of the signer undoes progress or touches the identity of
    the signer.  Whatever calls follow (those that throw included), a signer
    that has started round 1, finished round 1, started round 2 or finished
    round 2 still has; and [id], [others], [sigBatchSize] and [protocolId]
    are what the constructor was given.  In particular [startRound1] called
    again does not clear the output of the earlier round 1. *)
Theorem progress_is_kept (s : ThresholdSigner) (cs : list Call) :
  (hasStarted s = true -> hasStarted (run s cs) = true) /\
  (hasFinishedRound1 s = true -> hasFinishedRound1 (run s cs) = true) /\
  (hasStartedRound2 s = true -> hasStartedRound2 (run s cs) = true) /\
  (hasFinishedRound2 s = true -> hasFinishedRound2 (run s cs) = true) /\
  id (run s cs) = id s /\
  others (run s cs) = others s /\
  sigBatchSize (run s cs) = sigBatchSize s /\
  protocolId (run s cs) = protocolId s.
Proof.
  destruct (run_Kept cs s) as [H1 H2 H3 H4 H5 H6 H7 H8].
  unfold hasStarted, hasFinishedRound1, hasStartedRound2, hasFinishedRound2.
  rewrite !flag_true. auto 10.
Qed.

Lemma guard_true_ok (s : ThresholdSigner) :
  (hasStarted s = true -> ensureRound1Started s = Ok tt /\
                          exists st, round1State s = Some st) /\
  (hasFinishedRound1 s = true -> ensureRound1Finished s = Ok tt /\
                                 exists out, round1Output s = Some out) /\
  (hasStartedRound2 s = true -> ensureRound2Started s = Ok tt /\
                                exists st, round2State s = Some st).
Proof.
  unfold ensureRound1Started, ensureRound1Finished, ensureRound2Started.
  repeat split; try (rewrite H; reflexivity);
    unfold hasStarted, hasFinishedRound1, hasStartedRound2 in H;
    apply flag_true in H;
    match goal with |- exists x, ?o = Some x => destruct o; [eauto | congruence] end.
Qed.

Lemma guard_false_throws (s : ThresholdSigner) (c : Call) :
  guardOf s c = false -> exec s c = Throw (guardError c).
Proof.
  destruct c; simpl; intros H; try discriminate;
    unfold processReceivedCommitments, getSharesForOtherSigner,
      getSharesForOtherSigners, processReceivedShares, finishR1, startRound2,
      processReceivedMsg1, processReceivedMsg2, finishRound2,
      ensureRound1Started, ensureRound1Finished, ensureRound2Started;
    rewrite H; reflexivity.
Qed.

Lemma is_ok_inv {A : Type} (r : Result A) : is_ok r = true -> exists a, r = Ok a.
Proof. destruct r; [eauto | discriminate]. Qed.

(** X2.  The guards are all that the signer class itself refuses.  With
    protocol functions that never throw, a call goes through exactly when
    the flag its guard reads is set ([startRound1] always), and otherwise it
    throws the error of its guard: nothing stops a round from being started
    twice, or messages from being processed after [finishRound2]. *)
Theorem calls_refused_only_by_guards (H : NeverFails F) (s : ThresholdSigner) (c : Call) :
  is_ok (exec s c) = guardOf s c /\
  (guardOf s c = false -> exec s c = Throw (guardError c)).
Proof.
  split; [|apply guard_false_throws].
  destruct (guardOf s c) eqn:G; [|rewrite (guard_false_throws s c G); reflexivity].
  destruct (guard_true_ok s) as (G1 & G2 & G3).
  destruct c; simpl in G |- *;
    unfold startRound1, processReceivedCommitments, getSharesForOtherSigner,
      getSharesForOtherSigners, processReceivedShares, finishR1, startRound2,
      processReceivedMsg1, processReceivedMsg2, finishRound2;
    try (destruct (G1 G) as (-> & st & ->));
    try (destruct (G2 G) as (-> & st & ->));
    try (destruct (G3 G) as (-> & st & ->));
    simpl.
  - destruct (is_ok_inv _ (nf_startRound1 _ H (sigBatchSize s) (id s) (others s) (protocolId s)))
      as ([[r0 r1] r2] & ->). reflexivity.
  - destruct (is_ok_inv _ (nf_processComm _ H st senderId c commsZeroShare)) as (x & ->).
    reflexivity.
  - destruct (is_ok_inv _ (nf_getSharesForOther _ H st signerId)) as (x & ->). reflexivity.
  - destruct (is_ok_inv _ (nf_getSharesForOthers _ H st signerIds)) as (x & ->). reflexivity.
  - destruct (is_ok_inv _ (nf_processShares _ H st senderId shares zeroShares)) as (x & ->).
    reflexivity.
  - destruct (is_ok_inv _ (nf_finishRound1 _ H st secretKey)) as (x & ->). reflexivity.
  - destruct (is_ok_inv _ (nf_startRound2 _ H (id s) (others s) st baseOTOut gadgetVector))
      as ([r0 r1] & ->). reflexivity.
  - destruct (is_ok_inv _ (nf_recvMsg1 _ H st senderId msg gadgetVector)) as ([r0 m] & ->).
    reflexivity.
  - destruct (is_ok_inv _ (nf_recvMsg2 _ H st senderId msg gadgetVector)) as (x & ->).
    reflexivity.
  - destruct (is_ok_inv _ (nf_finishRound2 _ H st)) as (x & ->). reflexivity.
Qed.

End Facts.

Lemma demoSigner_never_fails : NeverFails Examples.demoSigner.
Proof. split; reflexivity. Qed.

Lemma calls_refused_only_by_guards_witness :
  is_ok (exec (F := Examples.demoSigner) (new 1 {[2]} 1 []) CStartRound1) = true /\
  exec (F := Examples.demoSigner) (new 1 {[2]} 1 []) CFinishRound2
  = Throw Round2NotStarted.
Proof.
  split.
  - exact (proj1 (calls_refused_only_by_guards (F := Examples.demoSigner)
                    demoSigner_never_fails (new 1 {[2]} 1 []) CStartRound1)).
  - exact (proj2 (calls_refused_only_by_guards (F := Examples.demoSigner)
                    demoSigner_never_fails (new 1 {[2]} 1 []) CFinishRound2) eq_refl).
Defined.

End ThresholdMoreFacts.

(** ** Signature parameters: adapting, sizing, generators by index *)

Module SigParamsMoreFacts.
Import SigParams SigParamsOps.

Section Facts.
Context `{B : SigParamsBackend}.

Lemma adapt_within (p : PSSignatureParams) (l : bytes) (n : nat) :
  label p = Some l -> (n <= supportedMessageCount p)%nat ->
  adapt p n
  = Ok {| label := Some l;
          value := {| g := g (value p); g_tilde := g_tilde (value p);
                      h := take n (h (value p)) |} |}.
Proof.
  intros Hl Hn. unfold adapt. rewrite Hl.
  destruct (Nat.leb_spec n (supportedMessageCount p)); [reflexivity | lia].
Qed.

(** X3.  [adapt] to a count the parameters already support is plain
    truncation: [g] and [g_tilde] are kept, [h] is cut to its first
    [newMsgCount] generators, the label is kept, and the back-end is not
    called; adapting to the current count returns equal parameters.
    Without a label [adapt] throws for every count, also when there is
    nothing to change. *)
Theorem adapt_truncates (p : PSSignatureParams) :
  (label p = None -> forall n, adapt p n = Throw LabelMissing) /\
  (forall (l : bytes) (n : nat),
     label p = Some l -> (n <= supportedMessageCount p)%nat ->
     exists q,
       adapt p n = Ok q /\
       label q = Some l /\
       g (value q) = g (value p) /\
       g_tilde (value q) = g_tilde (value p) /\
       h (value q) = take n (h (value p)) /\
       supportedMessageCount q = n) /\
  (forall l : bytes, label p = Some l -> adapt p (supportedMessageCount p) = Ok p).
Proof.
  split; [|split].
  - intros Hl n. unfold adapt. rewrite Hl. reflexivity.
  - intros l n Hl Hn. eexists. split; [apply (adapt_within p l n Hl Hn)|].
    simpl. repeat split. unfold supportedMessageCount in *. simpl.
    rewrite length_take. lia.
  - intros l Hl. rewrite (adapt_within p l _ Hl (Nat.le_refl _)).
    unfold supportedMessageCount. rewrite firstn_all.
    destruct p as [lab [pg pgt ph]]. simpl in *. rewrite Hl. reflexivity.
Qed.

(** X4.  Shrinking in two steps is shrinking in one: for
    [m <= n <= supportedMessageCount], adapting to [n] and then to [m] gives
    what adapting to [m] gives. *)
Theorem adapt_twice (p q : PSSignatureParams) (n m : nat) :
  (m <= n)%nat -> (n <= supportedMessageCount p)%nat ->
  adapt p n = Ok q -> adapt q m = adapt p m.
Proof.
  intros Hm Hn Hq. unfold adapt in Hq.
  destruct (label p) as [l|] eqn:Hl; [|discriminate].
  destruct (Nat.leb_spec n (supportedMessageCount p)); [|lia].
  injection Hq as <-.
  rewrite (adapt_within p l m Hl) by lia.
  rewrite (adapt_within _ l m); [| reflexivity |].
  - simpl. rewrite take_take. replace (m `min` n)%nat with m by lia. reflexivity.
  - unfold supportedMessageCount in *. simpl. rewrite length_take. lia.
Qed.

Lemma adapt_count `{L : !SigParamsBackendLaws} (p q : PSSignatureParams) (n : nat) :
  adapt p n = Ok q -> supportedMessageCount q = n.
Proof.
  unfold adapt. destruct (label p) as [l|]; [|discriminate].
  intros H. injection H as <-. unfold supportedMessageCount. simpl.
  destruct (Nat.leb_spec n (length (h (value p)))); simpl.
  - rewrite length_take. lia.
  - apply SigParams.adapt_count.
Qed.

(** X5.  [getSigParamsOfRequiredSize] returns parameters for exactly
    [msgCount] messages whenever it returns (the back-end generating and
    adapting to the count it is asked for): generated from a label, adapted
    from labelled parameters of another size, or the given parameters
    themselves when they already fit, labelled or not.  It throws exactly
    when given unlabelled parameters of another size. *)
Theorem required_size_is_met `{L : !SigParamsBackendLaws} (msgCount : nat)
    (labelOrParams : LabelOrParams) :
  (forall q, getSigParamsOfRequiredSize msgCount labelOrParams = Returns q ->
             supportedMessageCount q = msgCount) /\
  (forall p, labelOrParams = IsParams p -> supportedMessageCount p = msgCount ->
             getSigParamsOfRequiredSize msgCount labelOrParams = Returns p) /\
  (returns (getSigParamsOfRequiredSize msgCount labelOrParams) = false
   <-> exists p, labelOrParams = IsParams p /\ supportedMessageCount p <> msgCount
                 /\ label p = None) /\
  (forall p, labelOrParams = IsParams p -> supportedMessageCount p <> msgCount ->
             label p = None ->
             getSigParamsOfRequiredSize msgCount labelOrParams
             = Raises (SigParamsMismatch msgCount (supportedMessageCount p))).
Proof.
  unfold getSigParamsOfRequiredSize.
  destruct labelOrParams as [l|p].
  - split; [|split; [|split]].
    + intros q H. injection H as <-. unfold generate, supportedMessageCount. simpl.
      apply generate_count.
    + intros p H. discriminate.
    + split; [discriminate | intros (p & H & _); discriminate].
    + intros p H. discriminate.
  - destruct (Nat.eqb_spec (supportedMessageCount p) msgCount) as [He|Hne]; simpl.
    + split; [|split; [|split]].
      * intros q H. injection H as <-. exact He.
      * intros p' H _. injection H as <-. reflexivity.
      * split; [discriminate|]. intros (p' & H & Hne & _). injection H as <-. contradiction.
      * intros p' H Hne. injection H as <-. contradiction.
    + destruct (label p) as [l|] eqn:Hl.
      * assert (Ha : exists q, adapt p msgCount = Ok q).
        { unfold adapt. rewrite Hl. eauto. }
        destruct Ha as (q & Ha). rewrite Ha. simpl.
        split; [|split; [|split]].
        -- intros q' H. injection H as <-. exact (adapt_count p q msgCount Ha).
        -- intros p' H He. injection H as <-. contradiction.
        -- split; [discriminate|]. intros (p' & H & _ & Hn). injection H as <-. congruence.
        -- intros p' H _ Hn. injection H as <-. congruence.
      * split; [|split; [|split]].
        -- intros q H. discriminate.
        -- intros p' H He. injection H as <-. contradiction.
        -- split; [intros _; exists p; auto | reflexivity].
        -- intros p' H _ _. injection H as <-. reflexivity.
Qed.

Lemma valid_index_lookup (p : PSSignatureParams) (i : Z) :
  isValidIndex p i = true <-> 0 <= i /\ exists hi, h (value p) !! Z.to_nat i = Some hi.
Proof.
  unfold isValidIndex, supportedMessageCount. rewrite andb_true_iff, Z.leb_le, Z.ltb_lt.
  split.
  - intros [H0 H1]. split; [exact H0|]. apply lookup_lt_is_Some. lia.
  - intros [H0 Hhi]. split; [exact H0|]. apply lookup_lt_is_Some in Hhi. lia.
Qed.

Lemma pushParamsFor_valid (p : PSSignatureParams) (indices : list Z) :
  Forall (fun i => isValidIndex p i = true) indices ->
  forall acc, exists hs,
    pushParamsFor p indices acc = Returns (acc ++ hs) /\
    Forall2 (fun i hi => 0 <= i /\ h (value p) !! Z.to_nat i = Some hi) indices hs.
Proof.
  induction 1 as [|i rest Hi _ IH]; intros acc.
  - exists []. rewrite app_nil_r. split; [reflexivity | constructor].
  - simpl. rewrite Hi. simpl.
    apply valid_index_lookup in Hi as [H0 (hi & Hhi)]. rewrite Hhi.
    destruct (IH (acc ++ [hi])) as (hs & Hp & Hall).
    exists (hi :: hs). rewrite Hp, <- app_assoc. split; [reflexivity|].
    constructor; auto.
Qed.

Lemma pushParamsFor_invalid (p : PSSignatureParams) (ok : list Z) (i : Z) (rest : list Z) :
  Forall (fun j => isValidIndex p j = true) ok ->
  isValidIndex p i = false ->
  forall acc, pushParamsFor p (ok ++ i :: rest) acc
              = Raises (InvalidParamIndex i (supportedMessageCount p)).
Proof.
  intros Hok Hi. induction Hok as [|j ok Hj _ IH]; intros acc; simpl.
  - rewrite Hi. reflexivity.
  - rewrite Hj. simpl. apply valid_index_lookup in Hj as [_ (hj & ->)]. apply IH.
Qed.

(** X6.  [getParamsForIndices] returns [g_tilde] followed, index by index
    and in the order asked, by the generators [h[i]]; it does so exactly
    when every index is in [0, supportedMessageCount), and otherwise throws
    at the first index that is not, whatever follows it.  An empty list of
    indices gives [[g_tilde]]. *)
Theorem params_for_indices (p : PSSignatureParams) (indices : list Z) :
  (Forall (fun i => isValidIndex p i = true) indices ->
   exists hs,
     getParamsForIndices p indices = Returns (g_tilde (value p) :: hs) /\
     Forall2 (fun i hi => 0 <= i /\ h (value p) !! Z.to_nat i = Some hi) indices hs) /\
  (forall (ok : list Z) (i : Z) (rest : list Z),
     indices = ok ++ i :: rest ->
     Forall (fun j => isValidIndex p j = true) ok ->
     isValidIndex p i = false ->
     getParamsForIndices p indices
     = Raises (InvalidParamIndex i (supportedMessageCount p))) /\
  getParamsForIndices p [] = Returns [g_tilde (value p)].
Proof.
  split; [|split; [|reflexivity]].
  - intros Hall. unfold getParamsForIndices.
    destruct (pushParamsFor_valid p indices Hall [g_tilde (value p)]) as (hs & Hp & H2).
    exists hs. split; [exact Hp | exact H2].
  - intros ok i rest -> Hok Hi. apply pushParamsFor_invalid; assumption.
Qed.

End Facts.

Lemma demoSigBackend_laws : SigParamsBackendLaws (B := Examples.demoSigBackend).
Proof. split; intros; simpl; apply repeat_length. Qed.

Lemma adapt_truncates_witness :
  (exists q, adapt (B := Examples.demoSigBackend) MoreExamples.fiveParams 3 = Ok q /\
             h (value q) = [["0"]; ["1"]; ["2"]]%byte) /\
  adapt (B := Examples.demoSigBackend)
    {| label := None; value := value MoreExamples.fiveParams |} 5 = Throw LabelMissing.
Proof.
  split.
  - destruct (proj1 (proj2 (adapt_truncates (B := Examples.demoSigBackend)
                              MoreExamples.fiveParams)) ["l"]%byte 3%nat eq_refl)
      as (q & H & _ & _ & _ & Hh & _); [unfold supportedMessageCount; simpl; lia|].
    exists q. split; [exact H | exact Hh].
  - apply (proj1 (adapt_truncates (B := Examples.demoSigBackend) _)). reflexivity.
Defined.

Lemma adapt_twice_witness :
  adapt (B := Examples.demoSigBackend) MoreExamples.fiveParams 3 = Ok MoreExamples.threeParams /\
  adapt (B := Examples.demoSigBackend) MoreExamples.threeParams 2
  = adapt (B := Examples.demoSigBackend) MoreExamples.fiveParams 2.
Proof.
  split; [reflexivity|].
  apply (adapt_twice (B := Examples.demoSigBackend) MoreExamples.fiveParams
           MoreExamples.threeParams 3 2); [lia | unfold supportedMessageCount; simpl; lia | reflexivity].
Defined.

Lemma required_size_is_met_witness :
  getSigParamsOfRequiredSize (B := Examples.demoSigBackend) 3
    (IsParams MoreExamples.fiveParams) = Returns MoreExamples.threeParams /\
  supportedMessageCount MoreExamples.threeParams = 3%nat.
Proof.
  split; [reflexivity|].
  apply (proj1 (required_size_is_met (B := Examples.demoSigBackend)
                  (L := demoSigBackend_laws) 3 (IsParams MoreExamples.fiveParams))
           MoreExamples.threeParams).
  reflexivity.
Defined.

Lemma params_for_indices_witness :
  getParamsForIndices MoreExamples.fiveParams [4; 0]
  = Returns [["t"]; ["4"]; ["0"]]%byte /\
  getParamsForIndices MoreExamples.fiveParams [1; 5; -1]
  = Raises (InvalidParamIndex 5 5).
Proof.
  destruct (params_for_indices MoreExamples.fiveParams [4; 0]) as (H1 & _ & _).
  destruct (params_for_indices MoreExamples.fiveParams [1; 5; -1]) as (_ & H2 & _).
  split.
  - destruct H1 as (hs & -> & Hall); [repeat constructor|].
    apply Forall2_cons_inv_l in Hall as (h4 & hs' & [_ E4] & Hall & ->).
    apply Forall2_cons_inv_l in Hall as (h0 & hs'' & [_ E0] & Hall & ->).
    apply Forall2_nil_inv_l in Hall as ->.
    injection E4 as <-. injection E0 as <-. reflexivity.
  - apply (H2 [1] 5 [-1]); [reflexivity | repeat constructor | reflexivity].
Defined.

End SigParamsMoreFacts.

(** ** The quasi proof spec built step by step *)

Module QuasiMoreFacts.
Import ProofSpec QuasiOps.

Section Facts.
Context {Stmt MetaStmt : Type} `{B : ProofSpecBackend Stmt MetaStmt}.

(** What a history of calls leaves in the four fields. *)
Lemma quasi_fields_after (q0 : QuasiProofSpecG1 Stmt MetaStmt)
    (cs : list (QuasiCall Stmt MetaStmt)) :
  values (statements (fold_left quasiStep cs q0))
  = values (statements q0) ++ statementsOf cs /\
  values (metaStatements (fold_left quasiStep cs q0))
  = values (metaStatements q0) ++ metaStatementsOf cs /\
  setupParams (fold_left quasiStep cs q0) = setupParams q0 ++ setupParamsOf cs /\
  context (fold_left quasiStep cs q0)
  = match lastContext cs with Some ctx => Some ctx | None => context q0 end.
Proof.
  induction cs as [|c cs IH] using rev_ind.
  - simpl. rewrite !app_nil_r. auto.
  - rewrite fold_left_app. simpl.
    destruct IH as (H1 & H2 & H3 & H4).
    unfold statementsOf, metaStatementsOf, setupParamsOf, lastContext in *.
    rewrite !omap_app, last_app.
    destruct c; simpl; rewrite ?app_nil_r, ?app_assoc, ?H1, ?H2, ?H3, ?H4;
      repeat split; reflexivity.
Qed.

(** X7.  A quasi proof spec filled by any interleaving of [addStatement],
    [addMetaStatement], [addSetupParam] and [setContext] calls materialises
    to the proof spec of the statements, the meta-statements and the setup
    params in the order each kind was added, with the context set last (none
    if it was never set): only the order within a kind matters. *)
Theorem quasi_built_stepwise (cs : list (QuasiCall Stmt MetaStmt)) :
  toProofSpec (fold_left quasiStep cs (newQuasiProofSpecG1 None None None None))
  = newProofSpecG1 {| values := statementsOf cs |} {| values := metaStatementsOf cs |}
      (Some (setupParamsOf cs)) (lastContext cs).
Proof.
  destruct (quasi_fields_after (newQuasiProofSpecG1 None None None None) cs)
    as (H1 & H2 & H3 & H4).
  unfold toProofSpec, newProofSpecG1. simpl in *.
  rewrite H1, H2, H3, H4. destruct (lastContext cs); reflexivity.
Qed.

(** X8.  [addSetupParam] returns the position of the param it appended,
    counted from zero, and the index stays good whatever is added or set
    afterwards: the param is still found there, just as every param added
    earlier is found at its own index.  Nothing removes or reorders setup
    params. *)
Theorem addSetupParam_index (q : QuasiProofSpecG1 Stmt MetaStmt) (sp : SetupParam)
    (cs : list (QuasiCall Stmt MetaStmt)) :
  fst (addSetupParam q sp) = Z.of_nat (length (setupParams q)) /\
  setupParams (fold_left quasiStep cs (snd (addSetupParam q sp)))
    !! Z.to_nat (fst (addSetupParam q sp)) = Some sp /\
  (forall (j : nat) (x : SetupParam),
     setupParams q !! j = Some x ->
     setupParams (fold_left quasiStep cs (snd (addSetupParam q sp))) !! j = Some x).
Proof.
  destruct (quasi_fields_after (snd (addSetupParam q sp)) cs) as (_ & _ & H & _).
  rewrite H. unfold addSetupParam. simpl. rewrite length_app. simpl.
  replace (Z.of_nat (length (setupParams q) + 1) - 1) with (Z.of_nat (length (setupParams q)))
    by lia.
  rewrite Nat2Z.id. repeat split.
  - rewrite <- app_assoc. rewrite lookup_app_r by lia. rewrite Nat.sub_diag. reflexivity.
  - intros j x Hj. apply lookup_app_l_Some, lookup_app_l_Some. exact Hj.
Qed.

End Facts.
End QuasiMoreFacts.

(** ** Conversion of a JSON-Schema document: defaults, objects, references *)

Module ConversionMoreFacts.
Import JsNumber Json Schema NumberFacts SchemaFacts.

Section Facts.
Context `{RT : JsRuntime}.

(** X9.  With [useDefaults = true] the parsing options fill what a numeric
    node leaves out, and only that: an [integer] without minimum is read
    with [defaultMinimumInteger]; a [number] without [multipleOf] gets
    [decimalPlaces = defaultDecimalPlaces] (copied as it is, not derived
    from a power of ten); a [number] without minimum is read with
    [defaultMinimumInteger].  The sign of the minimum in force decides
    between the positive and the general leaf. *)
Theorem lenient_defaults (fuel : nat) (fields : dict json) (opts : ISchemaParsingOpts)
    (root : option json) :
  useDefaults opts = true ->
  (plain_node fields "integer" -> number_field fields "minimum" None ->
   convertToInternalSchemaObj (S fuel) (JObj fields) opts root
   = Ok (if ge_zero (defaultMinimumInteger opts) then positiveIntegerLeaf
         else integerLeaf (defaultMinimumInteger opts))) /\
  (forall mn : option number,
     plain_node fields "number" -> number_field fields "minimum" mn ->
     number_field fields "multipleOf" None ->
     convertToInternalSchemaObj (S fuel) (JObj fields) opts root
     = Ok (if ge_zero (default (defaultMinimumInteger opts) mn)
           then positiveDecimalLeaf (defaultDecimalPlaces opts)
           else decimalLeaf (default (defaultMinimumInteger opts) mn)
                  (defaultDecimalPlaces opts))) /\
  (forall (d : number) (k : nat),
     plain_node fields "number" -> number_field fields "minimum" None ->
     number_field fields "multipleOf" (Some d) ->
     (1 <= k <= 6)%nat -> d = pow10_neg k ->
     convertToInternalSchemaObj (S fuel) (JObj fields) opts root
     = Ok (if ge_zero (defaultMinimumInteger opts)
           then positiveDecimalLeaf (of_Z (Z.of_nat k))
           else decimalLeaf (defaultMinimumInteger opts) (of_Z (Z.of_nat k)))).
Proof.
  intros Hu. split; [|split].
  - intros Hp Hm. rewrite (convert_plain fuel fields "integer" opts root Hp). simpl.
    unfold parseIntegerType. rewrite (get_number_field _ _ _ Hm). simpl.
    rewrite Hu. reflexivity.
  - intros mn Hp Hm Hd. rewrite (convert_plain fuel fields "number" opts root Hp). simpl.
    unfold parseNumberType.
    rewrite (get_number_field _ _ _ Hm), (get_number_field _ _ _ Hd). simpl.
    rewrite Hu. reflexivity.
  - intros d k Hp Hm Hd Hk ->.
    rewrite (convert_plain fuel fields "number" opts root Hp). simpl.
    unfold parseNumberType.
    rewrite (get_number_field _ _ _ Hm), (get_number_field _ _ _ Hd). simpl.
    rewrite Hu. simpl. rewrite (getDecimalPlaces_pow10 k Hk). reflexivity.
Qed.

(** *** Objects *)

Lemma fresh_key (acc : dict json) (k : string) (rest : list string) :
  NoDup (dict_keys acc ++ k :: rest) -> dict_get k acc = None.
Proof.
  intros Hnd. destruct (dict_get k acc) as [w|] eqn:E; [|reflexivity]. exfalso.
  assert (Hin : In k (dict_keys acc)) by (apply FlattenFacts.dict_get_keys; eauto).
  apply NoDup_app in Hnd as (_ & Hdis & _).
  apply (Hdis k); [apply list_elem_of_In; exact Hin | left].
Qed.

Lemma dict_set_fresh (acc : dict json) (k : string) (x : json) :
  dict_get k acc = None -> dict_set k x acc = acc ++ [(k, x)].
Proof.
  intros Hk. induction acc as [|[k' v'] acc IHa]; simpl in *; [reflexivity|].
  destruct (String.eqb_spec k k'); [discriminate|]. rewrite IHa; auto.
Qed.

Lemma convert_entries_ok (conv : json -> Result json) (entries : dict json) :
  forall acc result,
    convert_entries conv entries acc = Ok result ->
    NoDup (dict_keys acc ++ dict_keys entries) ->
    exists xs,
      result = acc ++ xs /\
      Forall2 (fun kv kx => fst kx = fst kv /\ conv (snd kv) = Ok (snd kx)) entries xs.
Proof.
  induction entries as [|[k v] entries IH]; intros acc result H Hnd; simpl in H.
  - apply Ok_inj in H. subst result. exists []. rewrite app_nil_r. split; [reflexivity|constructor].
  - apply mbind_ok_inv in H as (x & Hx & H). apply mbind_ok_inv in H as (u & _ & H).
    rewrite (dict_set_fresh acc k x (fresh_key acc k _ Hnd)) in H.
    apply IH in H as (xs & -> & Hall).
    + exists ((k, x) :: xs). rewrite <- app_assoc. split; [reflexivity|].
      constructor; [split; [reflexivity | exact Hx] | exact Hall].
    + unfold dict_keys in *. rewrite map_app. simpl in *. rewrite <- app_assoc. exact Hnd.
Qed.

Lemma convert_entries_complete (conv : json -> Result json) (entries xs : dict json) :
  Forall2 (fun kv kx => fst kx = fst kv /\ conv (snd kv) = Ok (snd kx)) entries xs ->
  forall acc,
    NoDup (dict_keys acc ++ dict_keys entries) ->
    ~ In "__proto__" (dict_keys entries) ->
    convert_entries conv entries acc = Ok (acc ++ xs).
Proof.
  induction 1 as [|[k v] [k' x] entries xs [Hk Hc] _ IH]; intros acc Hnd Hnp.
  - simpl. rewrite app_nil_r. reflexivity.
  - simpl in Hk, Hc. subst k'. cbn [convert_entries]. rewrite Hc.
    change (Ok x ≫= ?f) with (f x). cbv beta.
    assert (Hno : mem_string k ["__proto__"] = false).
    { simpl. destruct (String.eqb_spec k "__proto__") as [->|_]; [|reflexivity].
      exfalso. apply Hnp. left. reflexivity. }
    rewrite Hno. change (throw_if false OutsideModel ≫= ?f) with (f tt). cbv beta.
    rewrite (dict_set_fresh acc k x (fresh_key acc k _ Hnd)).
    rewrite IH.
    + rewrite <- app_assoc. reflexivity.
    + unfold dict_keys in *. rewrite map_app. simpl in *. rewrite <- app_assoc. exact Hnd.
    + intros Hin. apply Hnp. right. exact Hin.
Qed.

Lemma convert_entries_throws (conv : json -> Result json) (entries : dict json)
    (k : string) (v : json) :
  In (k, v) entries -> throws (conv v) ->
  forall acc, throws (convert_entries conv entries acc).
Proof.
  intros Hin Hthrow. induction entries as [|[k' v'] entries IH]; [destruct Hin|].
  intros acc. simpl.
  destruct Hin as [E|Hin].
  - injection E as -> ->. apply bind_throw_l. exact Hthrow.
  - apply bind_throw_r. intros x. apply bind_throw_r. intros _. apply IH. exact Hin.
Qed.

Lemma Forall2_keys (conv : json -> Result json) (entries xs : dict json) :
  Forall2 (fun kv kx => fst kx = fst kv /\ conv (snd kv) = Ok (snd kx)) entries xs ->
  dict_keys xs = dict_keys entries.
Proof.
  induction 1 as [|kv kx entries xs [Hk _] _ IH]; simpl; [reflexivity|].
  rewrite Hk, IH. reflexivity.
Qed.

Lemma Forall2_get (conv : json -> Result json) (entries xs : dict json) :
  Forall2 (fun kv kx => fst kx = fst kv /\ conv (snd kv) = Ok (snd kx)) entries xs ->
  NoDup (dict_keys entries) ->
  forall k v, In (k, v) entries ->
    exists x, dict_get k xs = Some x /\ conv v = Ok x.
Proof.
  induction 1 as [|[k0 v0] [k1 x1] entries xs [Hk Hc] _ IH]; intros Hnd k v Hin;
    [destruct Hin|].
  simpl in Hk, Hc. subst k1. simpl in Hnd. apply NoDup_cons in Hnd as [Hnot Hnd].
  simpl. destruct Hin as [E|Hin].
  - injection E as -> ->. rewrite String.eqb_refl. eauto.
  - destruct (String.eqb_spec k k0) as [->|_].
    + exfalso. apply Hnot, list_elem_of_In. apply (in_map fst) in Hin. exact Hin.
    + apply IH; assumption.
Qed.

(** What the conversion of an [object] node returns, whenever it returns. *)
Lemma object_conversion (fuel : nat) (fields props : dict json)
    (opts : ISchemaParsingOpts) (root : option json) :
  plain_node fields "object" ->
  dict_get "properties" fields = Some (JObj props) ->
  NoDup (dict_keys props) ->
  forall res,
    convertToInternalSchemaObj (S fuel) (JObj fields) opts root = Ok res ->
    exists result,
      res = JObj result /\
      dict_keys result = dict_keys props /\
      forall k v, In (k, v) props ->
        exists x, dict_get k result = Some x /\
          convertToInternalSchemaObj fuel v opts
            (Some (rootNodeOf (JObj fields) root)) = Ok x.
Proof.
  intros Hp Hprops Hnd.
  rewrite (convert_plain fuel fields "object" opts root Hp). simpl. rewrite Hprops. simpl.
  set (conv := fun v => convertToInternalSchemaObj fuel v opts
                         (Some (rootNodeOf (JObj fields) root))).
  intros res H. apply mbind_ok_inv in H as (result & Hres & H). apply Ok_inj in H.
  subst res. apply convert_entries_ok in Hres as (xs & -> & Hall); [|exact Hnd].
  exists xs. split; [reflexivity|]. split; [exact (Forall2_keys conv _ _ Hall)|].
  exact (Forall2_get conv _ _ Hall Hnd).
Qed.

(** X10.  An [object] node whose [properties] have no key [__proto__]
    converts key by key.  When every property's node converts (with the
    root document passed down), the node converts to the object that holds,
    under the same keys and in the same order, these conversions; the
    node's own [type] and [properties] wrappers are dropped.  Whatever the
    conversion returns is such an object.  And a property whose node the
    conversion refuses makes the conversion of the object throw. *)
Theorem object_properties_converted (fuel : nat) (fields props : dict json)
    (opts : ISchemaParsingOpts) (root : option json) :
  plain_node fields "object" ->
  dict_get "properties" fields = Some (JObj props) ->
  NoDup (dict_keys props) ->
  ~ In "__proto__" (dict_keys props) ->
  (forall result : dict json,
     Forall2 (fun kv kx =>
                fst kx = fst kv /\
                convertToInternalSchemaObj fuel (snd kv) opts
                  (Some (rootNodeOf (JObj fields) root)) = Ok (snd kx))
       props result ->
     convertToInternalSchemaObj (S fuel) (JObj fields) opts root = Ok (JObj result)) /\
  (forall res,
     convertToInternalSchemaObj (S fuel) (JObj fields) opts root = Ok res ->
     exists result,
       res = JObj result /\
       dict_keys result = dict_keys props /\
       forall k v, In (k, v) props ->
         exists x, dict_get k result = Some x /\
           convertToInternalSchemaObj fuel v opts
             (Some (rootNodeOf (JObj fields) root)) = Ok x) /\
  (forall k v e, In (k, v) props ->
     convertToInternalSchemaObj fuel v opts (Some (rootNodeOf (JObj fields) root))
     = Throw e ->
     e <> OutsideModel ->
     throws (convertToInternalSchemaObj (S fuel) (JObj fields) opts root)).
Proof.
  intros Hp Hprops Hnd Hnp. split; [|split].
  - intros result Hall.
    rewrite (convert_plain fuel fields "object" opts root Hp). simpl. rewrite Hprops. simpl.
    set (conv := fun v => convertToInternalSchemaObj fuel v opts
                           (Some (rootNodeOf (JObj fields) root))).
    rewrite (convert_entries_complete conv props result Hall [] Hnd Hnp). reflexivity.
  - exact (object_conversion fuel fields props opts root Hp Hprops Hnd).
  - intros k v e Hin Hthrow _.
    rewrite (convert_plain fuel fields "object" opts root Hp). simpl. rewrite Hprops. simpl.
    apply bind_throw_l.
    apply (convert_entries_throws _ props k v Hin); exists e; exact Hthrow.
Qed.

(** X11.  What the conversion refuses outright, whatever the parsing
    options and the root document: a node with neither [$ref] nor [type];
    a node whose [type] is not one of [string], [integer], [number],
    [object] and [array] ([boolean] and [null] among them); and an [object]
    without [properties]. *)
Theorem unsupported_nodes_rejected (fuel : nat) (fields : dict json)
    (opts : ISchemaParsingOpts) (root : option json) :
  (dict_get "$ref" fields = None -> dict_get "type" fields = None ->
   convertToInternalSchemaObj (S fuel) (JObj fields) opts root = Throw CannotParseNode) /\
  (forall t : string,
     plain_node fields t ->
     ~ In t ["string"; "integer"; "number"; "object"; "array"] ->
     convertToInternalSchemaObj (S fuel) (JObj fields) opts root
     = Throw UnknownSchemaType) /\
  (plain_node fields "object" -> dict_get "properties" fields = None ->
   convertToInternalSchemaObj (S fuel) (JObj fields) opts root
   = Throw NoPropertiesObject).
Proof.
  split; [|split].
  - intros Href Htype. simpl. rewrite (resolve_ref_plain fields _ Href). simpl.
    rewrite Htype. reflexivity.
  - intros t Hp Hnot. rewrite (convert_plain fuel fields t opts root Hp).
    simpl in Hnot.
    destruct (String.eqb_spec t "string"); [subst t; exfalso; apply Hnot; auto 10|].
    destruct (String.eqb_spec t "integer"); [subst t; exfalso; apply Hnot; auto 10|].
    destruct (String.eqb_spec t "number"); [subst t; exfalso; apply Hnot; auto 10|].
    destruct (String.eqb_spec t "object"); [subst t; exfalso; apply Hnot; auto 10|].
    destruct (String.eqb_spec t "array"); [subst t; exfalso; apply Hnot; auto 10|]. reflexivity.
  - intros Hp Hprops. rewrite (convert_plain fuel fields "object" opts root Hp). simpl.
    rewrite Hprops. reflexivity.
Qed.

(** *** References *)

Lemma resolve_ref_pointer (fields : dict json) (rootNode : json) (ref : string) :
  dict_get "$ref" fields = Some (JStr ref) ->
  ref <> "" ->
  mem_string ref OBJECT_PROTOTYPE_KEYS = false ->
  dict_get ref JSON_SCHEMA_OVERRIDE_DEFS = None ->
  resolve_ref (JObj fields) rootNode
  = (node ← resolve_pointer rootNode ref; Ok (inr node)).
Proof.
  intros Href Hne Hproto Hover. unfold resolve_ref. simpl get_prop. rewrite Href.
  unfold mbind at 1, Result_bind at 1, bind at 1. cbv beta iota. unfold truthy.
  destruct (String.eqb_spec ref ""); [contradiction|]. cbv beta iota delta [negb].
  rewrite Hproto, Hover. reflexivity.
Qed.

Lemma rootNodeOf_truthy (inputNode : dict json) (root : option json) :
  truthy (rootNodeOf (JObj inputNode) root) = true.
Proof.
  unfold rootNodeOf. destruct root as [r|]; [|reflexivity].
  destruct (truthy r) eqn:E; [exact E | reflexivity].
Qed.

Lemma rootNodeOf_idem (a b : dict json) (root : option json) :
  rootNodeOf (JObj b) (Some (rootNodeOf (JObj a) root)) = rootNodeOf (JObj a) root.
Proof.
  unfold rootNodeOf at 1. rewrite rootNodeOf_truthy. reflexivity.
Qed.

(** X12.  A [$ref] that is not one of the two overrides is looked up once,
    in the root document, with the first [#] of the reference removed, and
    the node converts as a copy of what was found there: the other keys of
    the referring node are ignored.  The lookup is not repeated: when the
    definition found has no [type] of its own (say it is itself a [$ref],
    even one to an encryptable string), the conversion throws; and a
    pointer that cannot be resolved is an error. *)
Theorem ref_looked_up_once (fuel : nat) (fields : dict json) (ref : string)
    (opts : ISchemaParsingOpts) (root : option json) :
  dict_get "$ref" fields = Some (JStr ref) ->
  ref <> "" ->
  mem_string ref OBJECT_PROTOTYPE_KEYS = false ->
  dict_get ref JSON_SCHEMA_OVERRIDE_DEFS = None ->
  (forall pointed : json,
     pointer_get (rootNodeOf (JObj fields) root) (remove_first_hash ref) = Ok pointed ->
     (dict_get "$ref" (spread_value pointed) = None ->
      convertToInternalSchemaObj (S fuel) (JObj fields) opts root
      = convertToInternalSchemaObj (S fuel) (JObj (spread_value pointed)) opts
          (Some (rootNodeOf (JObj fields) root))) /\
     (dict_get "type" (spread_value pointed) = None ->
      convertToInternalSchemaObj (S fuel) (JObj fields) opts root
      = Throw CannotParseNode)) /\
  (forall e : Error,
     pointer_get (rootNodeOf (JObj fields) root) (remove_first_hash ref) = Throw e ->
     convertToInternalSchemaObj (S fuel) (JObj fields) opts root = Throw PointerError).
Proof.
  intros Href Hne Hproto Hover.
  assert (Hres : forall rootNode,
            resolve_ref (JObj fields) rootNode
            = (node ← resolve_pointer rootNode ref; Ok (inr node)))
    by (intros; apply resolve_ref_pointer; assumption).
  split.
  - intros pointed Hget. split.
    + intros Hnoref. cbn [convertToInternalSchemaObj].
      fold (rootNodeOf (JObj fields) root).
      fold (rootNodeOf (JObj (spread_value pointed)) (Some (rootNodeOf (JObj fields) root))).
      rewrite rootNodeOf_idem, Hres.
      unfold resolve_pointer. rewrite Hget. simpl.
      rewrite (resolve_ref_plain _ _ Hnoref). reflexivity.
    + intros Hnotype. cbn [convertToInternalSchemaObj].
      fold (rootNodeOf (JObj fields) root). rewrite Hres.
      unfold resolve_pointer. rewrite Hget. simpl. rewrite Hnotype. reflexivity.
  - intros e Hget. cbn [convertToInternalSchemaObj].
    fold (rootNodeOf (JObj fields) root). rewrite Hres.
    unfold resolve_pointer. rewrite Hget. reflexivity.
Qed.

(** *** Decimal places *)

Lemma is_pow10_neg_unique (d : number) (k k' : nat) :
  is_pow10_neg d k -> is_pow10_neg d k' -> k = k'.
Proof.
  unfold is_pow10_neg. intros H H'.
  assert (Hden : 0 < den d).
  { unfold den. destruct (Z.leb_spec 0 (expo d)); [lia | apply Z.pow_pos_nonneg; lia]. }
  assert (Hnum : num d <> 0) by (intros E; rewrite E in H; lia).
  assert (Hpow : 10 ^ Z.of_nat k = 10 ^ Z.of_nat k').
  { apply (Z.mul_reg_l _ _ (num d) Hnum). lia. }
  apply Z.pow_inj_r in Hpow; lia.
Qed.

(** X13.  [getDecimalPlaces] returns between one and six places: when it
    returns [k], [1 <= k <= 6] and the argument is [10^-k]; every other
    number is rejected, the powers [10^-7] and smaller included (they print
    in exponent notation, which the pattern does not match) and [1 = 10^-0]
    too. *)
Theorem decimal_places_between_one_and_six (d : number) :
  (forall r, getDecimalPlaces d = Ok r ->
     exists k : nat, (1 <= k <= 6)%nat /\ r = of_Z (Z.of_nat k) /\ is_pow10_neg d k) /\
  (forall k : nat, is_pow10_neg d k -> (k = 0 \/ 7 <= k)%nat ->
     getDecimalPlaces d = Throw (BadMultipleOf (toString d))) /\
  ((forall k : nat, ~ is_pow10_neg d k) ->
     getDecimalPlaces d = Throw (BadMultipleOf (toString d))).
Proof.
  assert (Hsound : forall r, getDecimalPlaces d = Ok r ->
            exists k : nat, (1 <= k <= 6)%nat /\ r = of_Z (Z.of_nat k) /\ is_pow10_neg d k).
  { intros r H. apply getDecimalPlaces_sound in H as (k & -> & Hk & Hpow). eauto. }
  assert (Hcases : (exists r, getDecimalPlaces d = Ok r) \/
                   getDecimalPlaces d = Throw (BadMultipleOf (toString d))).
  { unfold getDecimalPlaces. destruct (match_decimal_point (toString d)); eauto. }
  split; [exact Hsound|]. split.
  - intros k Hk Hrange. destruct Hcases as [(r & Hr)|Ht]; [|exact Ht].
    destruct (Hsound r Hr) as (k' & Hk' & _ & Hpow).
    pose proof (is_pow10_neg_unique d k k' Hk Hpow). lia.
  - intros Hnone. destruct Hcases as [(r & Hr)|Ht]; [|exact Ht].
    destruct (Hsound r Hr) as (k' & _ & _ & Hpow). destruct (Hnone k' Hpow).
Qed.

(** *** A schema that refers to itself *)

Lemma convert_self_reference (k : string) (opts : ISchemaParsingOpts) :
  (forall r : json, pointer_get r "" = Ok r) ->
  forall fuel,
    convertToInternalSchemaObj fuel (JObj [("$ref", JStr "#")]) opts
      (Some (MoreExamples.selfReferring k))
    = Throw StackOverflow.
Proof.
  intros Hptr. induction fuel as [|fuel IH]; [reflexivity|].
  cbn [convertToInternalSchemaObj]. unfold resolve_ref, resolve_pointer. simpl.
  rewrite Hptr. simpl. rewrite IH. reflexivity.
Qed.

(** X14.  The conversion does not detect cycles.  With a pointer library
    that resolves the empty pointer to the document itself, the schema
    [{ type: 'object', properties: { k: { $ref: '#' } } }] sends the
    conversion through itself without end, whatever the key [k]: at no call
    depth does the conversion return.  It ends when the stack is used up,
    with the overflow of the run time or, where the stack runs out inside
    the [try] block around [pointer.get], with the pointer error that block
    rethrows. *)
Theorem self_reference_never_returns (k : string) (opts : ISchemaParsingOpts)
    (fuel : nat) :
  (forall r : json, pointer_get r "" = Ok r) ->
  convertToInternalSchemaObj fuel (MoreExamples.selfReferring k) opts None
  = Throw StackOverflow \/
  convertToInternalSchemaObj fuel (MoreExamples.selfReferring k) opts None
  = Throw PointerError.
Proof.
  intros Hptr. left. destruct fuel as [|fuel]; [reflexivity|].
  cbn [convertToInternalSchemaObj]. unfold resolve_ref. simpl.
  rewrite (convert_self_reference k opts Hptr fuel). reflexivity.
Qed.

End Facts.

Lemma lenient_defaults_witness :
  convertToInternalSchemaObj (RT := Examples.bareRuntime) 1
    (JObj [("type", JStr "integer")]) MoreExamples.lenientOpts None
  = Ok (integerLeaf (of_Z (- (2 ^ 32 - 1)))) /\
  convertToInternalSchemaObj (RT := Examples.bareRuntime) 1
    (JObj [("type", JStr "number"); ("minimum", JNum (of_Z 0))])
    MoreExamples.lenientOpts None
  = Ok (positiveDecimalLeaf (of_Z 0)).
Proof.
  destruct (lenient_defaults (RT := Examples.bareRuntime) 0
              [("type", JStr "integer")] MoreExamples.lenientOpts None eq_refl)
    as (H1 & _ & _).
  destruct (lenient_defaults (RT := Examples.bareRuntime) 0
              [("type", JStr "number"); ("minimum", JNum (of_Z 0))]
              MoreExamples.lenientOpts None eq_refl)
    as (_ & H2 & _).
  split.
  - apply H1; [split; reflexivity | reflexivity].
  - apply (H2 (Some (of_Z 0))); [split; reflexivity | reflexivity | reflexivity].
Defined.

Lemma object_properties_converted_witness :
  convertToInternalSchemaObj (RT := Examples.bareRuntime) 3
    (JObj [("type", JStr "object");
           ("properties",
            JObj [("fname", JObj [("type", JStr "string")]);
                  ("age", JObj [("type", JStr "integer"); ("minimum", JNum (of_Z 0))])])])
    DefaultSchemaParsingOpts None
  = Ok (JObj [("fname", string_leaf); ("age", positiveIntegerLeaf)]) /\
  throws (convertToInternalSchemaObj (RT := Examples.bareRuntime) 3
            (JObj [("type", JStr "object");
                   ("properties",
                    JObj [("fname", JObj [("type", JStr "string")]);
                          ("age", JObj [("type", JStr "boolean")])])])
            DefaultSchemaParsingOpts None).
Proof.
  split.
  - destruct (object_properties_converted (RT := Examples.bareRuntime) 2
                [("type", JStr "object");
                 ("properties",
                  JObj [("fname", JObj [("type", JStr "string")]);
                        ("age", JObj [("type", JStr "integer");
                                      ("minimum", JNum (of_Z 0))])])]
                [("fname", JObj [("type", JStr "string")]);
                 ("age", JObj [("type", JStr "integer"); ("minimum", JNum (of_Z 0))])]
                DefaultSchemaParsingOpts None) as (H & _).
    + split; reflexivity.
    + reflexivity.
    + repeat constructor; intros Hin; apply list_elem_of_In in Hin; simpl in Hin;
        intuition discriminate.
    + simpl. intuition discriminate.
    + apply (H [("fname", string_leaf); ("age", positiveIntegerLeaf)]).
      repeat constructor.
  - destruct (object_properties_converted (RT := Examples.bareRuntime) 2
                [("type", JStr "object");
                 ("properties",
                  JObj [("fname", JObj [("type", JStr "string")]);
                        ("age", JObj [("type", JStr "boolean")])])]
                [("fname", JObj [("type", JStr "string")]);
                 ("age", JObj [("type", JStr "boolean")])]
                DefaultSchemaParsingOpts None) as (_ & _ & H).
    + split; reflexivity.
    + reflexivity.
    + repeat constructor; intros Hin; apply list_elem_of_In in Hin; simpl in Hin;
        intuition discriminate.
    + simpl. intuition discriminate.
    + apply (H "age" (JObj [("type", JStr "boolean")]) UnknownSchemaType).
      * right. left. reflexivity.
      * reflexivity.
      * discriminate.
Defined.

Lemma ref_looked_up_once_witness :
  convertToInternalSchemaObj (RT := MoreExamples.rootPointerRuntime) 1
    (JObj [("$ref", JStr "#"); ("type", JStr "integer")]) DefaultSchemaParsingOpts
    (Some string_leaf)
  = Ok string_leaf /\
  convertToInternalSchemaObj (RT := MoreExamples.rootPointerRuntime) 1
    (JObj [("$ref", JStr "#")]) DefaultSchemaParsingOpts
    (Some (JObj [("$ref", JStr "#/definitions/encryptableString")]))
  = Throw CannotParseNode.
Proof.
  split.
  - destruct (ref_looked_up_once (RT := MoreExamples.rootPointerRuntime) 0
                [("$ref", JStr "#"); ("type", JStr "integer")] "#"
                DefaultSchemaParsingOpts (Some string_leaf))
      as (H & _); [reflexivity | discriminate | reflexivity | reflexivity |].
    destruct (H string_leaf eq_refl) as (H1 & _). rewrite (H1 eq_refl). reflexivity.
  - destruct (ref_looked_up_once (RT := MoreExamples.rootPointerRuntime) 0
                [("$ref", JStr "#")] "#" DefaultSchemaParsingOpts
                (Some (JObj [("$ref", JStr "#/definitions/encryptableString")])))
      as (H & _); [reflexivity | discriminate | reflexivity | reflexivity |].
    destruct (H (JObj [("$ref", JStr "#/definitions/encryptableString")]) eq_refl)
      as (_ & H2).
    exact (H2 eq_refl).
Defined.

Lemma self_reference_never_returns_witness :
  is_ok (convertToInternalSchemaObj (RT := MoreExamples.rootPointerRuntime) 1000
           (MoreExamples.selfReferring "me") DefaultSchemaParsingOpts None) = false.
Proof.
  destruct (self_reference_never_returns (RT := MoreExamples.rootPointerRuntime) "me"
              DefaultSchemaParsingOpts 1000) as [H|H];
    [intros r; reflexivity | rewrite H; reflexivity | rewrite H; reflexivity].
Defined.

Lemma unsupported_nodes_rejected_witness :
  convertToInternalSchemaObj (RT := Examples.bareRuntime) 3
    (JObj [("type", JStr "boolean")]) MoreExamples.lenientOpts None
  = Throw UnknownSchemaType /\
  convertToInternalSchemaObj (RT := Examples.bareRuntime) 3
    (JObj [("type", JStr "object")]) MoreExamples.lenientOpts None
  = Throw NoPropertiesObject.
Proof.
  split.
  - apply (proj1 (proj2 (unsupported_nodes_rejected (RT := Examples.bareRuntime) 2
                           [("type", JStr "boolean")] MoreExamples.lenientOpts None))
             "boolean").
    + split; reflexivity.
    + simpl. intuition discriminate.
  - apply (proj2 (proj2 (unsupported_nodes_rejected (RT := Examples.bareRuntime) 2
                           [("type", JStr "object")] MoreExamples.lenientOpts None))).
    + split; reflexivity.
    + reflexivity.
Defined.

Lemma decimal_places_between_one_and_six_witness :
  (exists k : nat, (1 <= k <= 6)%nat /\
     getDecimalPlaces (pow10_neg 2) = Ok (of_Z (Z.of_nat k))) /\
  getDecimalPlaces (pow10_neg 7) = Throw (BadMultipleOf "1e-7").
Proof.
  split.
  - destruct (getDecimalPlaces (pow10_neg 2)) as [r|e] eqn:E; [|vm_compute in E; discriminate].
    destruct (proj1 (decimal_places_between_one_and_six (pow10_neg 2)) r E)
      as (k & Hk & Hr & _).
    exists k. split; [exact Hk | rewrite Hr; reflexivity].
  - apply (proj1 (proj2 (decimal_places_between_one_and_six (pow10_neg 7))) 7%nat).
    + reflexivity.
    + right. lia.
Defined.

End ConversionMoreFacts.

(** ** The schema object: validation, encoder, types, JSON *)

Module SchemaObjectFacts.
Import JsNumber Json Schema SchemaOps.

(** *** Dictionaries and indices *)

Lemma dict_get_set_eq {A : Type} (k : string) (v : A) (o : dict A) :
  dict_get k (dict_set k v o) = Some v.
Proof.
  induction o as [|[k' v'] o IH]; simpl.
  - rewrite String.eqb_refl. reflexivity.
  - destruct (String.eqb_spec k k') as [->|Hne]; simpl.
    + rewrite String.eqb_refl. reflexivity.
    + destruct (String.eqb_spec k k'); [contradiction | exact IH].
Qed.

Lemma dict_get_set_ne {A : Type} (k k' : string) (v : A) (o : dict A) :
  k <> k' -> dict_get k (dict_set k' v o) = dict_get k o.
Proof.
  intros Hne. induction o as [|[k0 v0] o IH]; simpl.
  - destruct (String.eqb_spec k k'); [contradiction | reflexivity].
  - destruct (String.eqb_spec k' k0) as [->|Hne0]; simpl.
    + destruct (String.eqb_spec k k0); [contradiction | reflexivity].
    + destruct (String.eqb_spec k k0); [reflexivity | exact IH].
Qed.

Lemma mem_string_In (s : string) (l : list string) : mem_string s l = true <-> In s l.
Proof.
  unfold mem_string. rewrite existsb_exists. split.
  - intros (x & Hin & E). apply String.eqb_eq in E. subst x. exact Hin.
  - intros Hin. exists s. split; [exact Hin | apply String.eqb_refl].
Qed.

Lemma mem_string_not_In (s : string) (l : list string) :
  mem_string s l = false <-> ~ In s l.
Proof.
  rewrite <- mem_string_In. destruct (mem_string s l); split; congruence.
Qed.

Lemma indexOf_from_absent (name : string) (names : list string) :
  forall i, ~ In name names -> indexOf_from i name names = -1.
Proof.
  induction names as [|n names IH]; intros i Hnot; simpl; [reflexivity|].
  destruct (String.eqb_spec n name) as [->|_].
  - exfalso. apply Hnot. left. reflexivity.
  - apply IH. intros H. apply Hnot. right. exact H.
Qed.

Lemma indexOf_from_NoDup (name : string) (names : list string) :
  NoDup names ->
  forall (i : Z) (j : nat),
    names !! j = Some name -> indexOf_from i name names = i + Z.of_nat j.
Proof.
  induction 1 as [|n names Hn Hnd IH]; intros i j Hj; [discriminate|].
  simpl. destruct j as [|j]; simpl in Hj.
  - injection Hj as ->. rewrite String.eqb_refl. lia.
  - destruct (String.eqb_spec n name) as [->|_].
    + exfalso. apply Hn. apply list_elem_of_lookup. eauto.
    + rewrite (IH (i + 1) j Hj). lia.
Qed.

Lemma flatten_names_NoDup (schema : json) : NoDup (fst (flattenSchemaObj schema)).
Proof.
  rewrite FlattenFacts.flatten_names.
  apply (NoDup_Permutation_proper _ _ (FlattenFacts.sort_strings_perm _)).
  apply FlattenFacts.regroup_NoDup.
Qed.

Lemma flatten_lengths (schema : json) :
  length (snd (flattenSchemaObj schema)) = length (fst (flattenSchemaObj schema)).
Proof. unfold flattenSchemaObj, flattenTill2ndLastKey. simpl. apply length_map. Qed.

(** *** The loop of [validateGeneric] *)

Lemma is_str_inv (v : option json) (s : string) : is_str v s = true -> v = Some (JStr s).
Proof.
  destruct v as [[| | |s'| |]|]; simpl; try discriminate.
  intros H. apply String.eqb_eq in H. subst. reflexivity.
Qed.

Lemma validateEntry_ok (ignoreKeys : list string) (name : string) (value : json) :
  validateEntry ignoreKeys name value = Ok tt ->
  In name ignoreKeys \/ well_typed_leaf value.
Proof.
  unfold validateEntry. destruct (mem_string name ignoreKeys) eqn:Hmem.
  - intros _. left. apply mem_string_In. exact Hmem.
  - intros H. right.
    apply mbind_ok_inv in H as (typ & Htyp & H).
    destruct typ as [[| | |t| |]|]; try discriminate.
    apply mbind_ok_inv in H as (u & Hposs & H). apply throw_if_ok in Hposs.
    apply negb_false_iff, mem_string_In in Hposs.
    apply mbind_ok_inv in H as (compress & Hc & H).
    apply mbind_ok_inv in H as (minimum & Hm & H).
    apply mbind_ok_inv in H as (decimalPlaces & Hd & H).
    exists t. split; [exact Htyp|]. split; [exact Hposs|].
    destruct (String.eqb_spec t STR_REV_TYPE) as [->|N1].
    { apply throw_if_ok, negb_false_iff in H.
      split; [|split; intros [E|E]; discriminate E].
      intros _. destruct compress as [[|b| | | |]|]; try discriminate. eauto. }
    destruct (String.eqb_spec t INT_TYPE) as [->|N2].
    { apply throw_if_ok, negb_false_iff in H.
      split; [intros E; discriminate E|]. split; [|intros [E|E]; discriminate E].
      intros _. destruct minimum as [[| |n| | |]|]; try discriminate. eauto. }
    destruct (String.eqb_spec t POSITIVE_NUM_TYPE) as [->|N3].
    { apply throw_if_ok, negb_false_iff in H.
      split; [intros E; discriminate E|]. split; [intros [E|E]; discriminate E|].
      intros _. eauto. }
    destruct (String.eqb_spec t NUM_TYPE) as [->|N4].
    { apply throw_if_ok in H. apply orb_false_elim in H as [H1 H2].
      apply negb_false_iff in H1, H2.
      split; [intros E; discriminate E|]. split; intros _; [|eauto].
      destruct minimum as [[| |n| | |]|]; try discriminate. eauto. }
    split; [intros E; contradiction|]. split; intros [E|E]; contradiction.
Qed.

Lemma validateEntries_ok (ignoreKeys : list string) (names : list string) :
  forall values,
    validateEntries ignoreKeys names values = Ok tt ->
    forall (i : nat) (name : string) (value : json),
      names !! i = Some name -> values !! i = Some value ->
      In name ignoreKeys \/ well_typed_leaf value.
Proof.
  induction names as [|n names IH]; intros values H i name value Hn Hv; [discriminate|].
  destruct values as [|v values]; [discriminate|]. simpl in H.
  apply mbind_ok_inv in H as ([] & He & H).
  destruct i as [|i]; simpl in Hn, Hv.
  - injection Hn as <-. injection Hv as <-. exact (validateEntry_ok _ _ _ He).
  - exact (IH values H i name value Hn Hv).
Qed.

Lemma validateStringType_ok (st : json) (fieldName : string) :
  validateStringType st fieldName = Ok tt ->
  exists v, get_prop st fieldName = Ok (Some v) /\
            get_prop v "type" = Ok (Some (JStr "string")).
Proof.
  unfold validateStringType. intros H.
  apply mbind_ok_inv in H as (f & Hf & H).
  destruct f as [v|]; [|discriminate].
  destruct (truthy v); [|discriminate].
  apply mbind_ok_inv in H as (t & Ht & H).
  apply throw_if_ok, negb_false_iff, is_str_inv in H. subst t. eauto.
Qed.

Section Facts.
Context `{RT : JsRuntime}.

Lemma constructed_valid (fuel : nat) (S : json) (opts : PartialParsingOpts)
    (cs : CredentialSchema) :
  newCredentialSchema fuel S opts = Ok cs ->
  convertToInternalSchemaObj fuel S (mergeParsingOpts opts) None = Ok (schema cs) /\
  validate (schema cs) = Ok tt /\
  initEncoder (schema cs) (mergeParsingOpts opts) = Ok (encoder cs) /\
  version cs = VERSION /\ jsonSchema cs = S /\ parsingOptions cs = mergeParsingOpts opts.
Proof.
  unfold newCredentialSchema. intros H.
  apply mbind_ok_inv in H as (sch & Hconv & H).
  apply mbind_ok_inv in H as ([] & Hval & H).
  apply mbind_ok_inv in H as (enc & Henc & H).
  apply Ok_inj in H. subst cs. simpl. auto 10.
Qed.

Lemma constructed_leaves_checked (fuel : nat) (S : json) (opts : PartialParsingOpts)
    (cs : CredentialSchema) :
  newCredentialSchema fuel S opts = Ok cs ->
  forall (i : nat) (name : string) (value : json),
    fst (flatten cs) !! i = Some name -> snd (flatten cs) !! i = Some value ->
    ~ In name IGNORE_GENERIC_VALIDATION ->
    well_typed_leaf value.
Proof.
  intros Hnew i name value Hn Hv Hnot.
  destruct (constructed_valid fuel S opts cs Hnew) as (_ & Hval & _).
  unfold validate in Hval.
  apply mbind_ok_inv in Hval as (subject & _ & Hval).
  apply mbind_ok_inv in Hval as (u & _ & Hval).
  apply mbind_ok_inv in Hval as (schemaStatus & _ & Hval).
  apply mbind_ok_inv in Hval as (u' & _ & Hval).
  unfold validateGeneric in Hval. unfold flatten in Hn, Hv.
  destruct (flattenSchemaObj (schema cs)) as [names values]. destruct u'.
  destruct (validateEntries_ok _ _ _ Hval i name value Hn Hv) as [Hin|Hw];
    [contradiction | exact Hw].
Qed.

(** X15.  Every schema object the constructor returns has passed
    [validateGeneric]: each flattened leaf, the five names exempted from
    the generic check apart, has a [type] among the six internal types, a
    boolean [compress] if it is a reversible string, an integer [minimum] if
    it is an integer or a decimal number, and [decimalPlaces] accepted by
    [isPositiveInteger] if it is a (positive) decimal number. *)
Theorem constructed_leaves_well_typed (fuel : nat) (S : json) (opts : PartialParsingOpts)
    (cs : CredentialSchema) :
  newCredentialSchema fuel S opts = Ok cs ->
  forall (i : nat) (name : string) (value : json),
    fst (flatten cs) !! i = Some name -> snd (flatten cs) !! i = Some value ->
    ~ In name IGNORE_GENERIC_VALIDATION ->
    well_typed_leaf value.
Proof. exact (constructed_leaves_checked fuel S opts cs). Qed.

Lemma constructed_has_subject (fuel : nat) (S : json)
    (opts : PartialParsingOpts) (cs : CredentialSchema) :
  newCredentialSchema fuel S opts = Ok cs ->
  (exists subject, get_prop (schema cs) SUBJECT_STR = Ok (Some subject)) /\
  (forall st, get_prop (schema cs) STATUS_STR = Ok (Some st) ->
     forall f, In f [TYPE_STR; ID_STR; REV_CHECK_STR; REV_ID_STR] ->
       exists v, get_prop st f = Ok (Some v) /\
                 get_prop v "type" = Ok (Some (JStr "string"))).
Proof.
  intros Hnew.
  destruct (constructed_valid fuel S opts cs Hnew) as (_ & Hval & _).
  unfold validate in Hval.
  apply mbind_ok_inv in Hval as (subject & Hsubj & Hval).
  apply mbind_ok_inv in Hval as (u & Hnone & Hval). apply throw_if_ok in Hnone.
  apply mbind_ok_inv in Hval as (schemaStatus & Hstat & Hval).
  apply mbind_ok_inv in Hval as (u' & Hfields & _).
  split.
  - destruct subject as [subject|]; [eauto | discriminate].
  - intros st Hst f Hf. rewrite Hst in Hstat. apply Ok_inj in Hstat. subst schemaStatus.
    apply mbind_ok_inv in Hfields as ([] & H1 & Hfields).
    apply mbind_ok_inv in Hfields as ([] & H2 & Hfields).
    apply mbind_ok_inv in Hfields as ([] & H3 & H4). destruct u'.
    destruct Hf as [<-|[<-|[<-|[<-|[]]]]]; apply validateStringType_ok; assumption.
Qed.

(** X16.  Every schema object the constructor returns has a top-level
    [credentialSubject]; and if it has a [credentialStatus], that one holds
    the four fields [type], [id], [revocationCheck] and [revocationId], each
    a descriptor of type [string]. *)
Theorem constructed_subject_and_status (fuel : nat) (S : json)
    (opts : PartialParsingOpts) (cs : CredentialSchema) :
  newCredentialSchema fuel S opts = Ok cs ->
  (exists subject, get_prop (schema cs) SUBJECT_STR = Ok (Some subject)) /\
  (forall st, get_prop (schema cs) STATUS_STR = Ok (Some st) ->
     forall f, In f [TYPE_STR; ID_STR; REV_CHECK_STR; REV_ID_STR] ->
       exists v, get_prop st f = Ok (Some v) /\
                 get_prop v "type" = Ok (Some (JStr "string"))).
Proof. exact (constructed_has_subject fuel S opts cs). Qed.

(** *** The top-level keys *)

Lemma result_throws {A : Type} (r : Result A) : (forall a, r <> Ok a) -> throws r.
Proof.
  intros H. destruct r as [a|e]; [destruct (H a eq_refl) | exists e; reflexivity].
Qed.

(** X17.  For a JSON schema of type [object] whose [properties] have no
    key [__proto__], the top-level keys of the internal schema of the
    object the constructor returns are the keys of the JSON schema's
    [properties], in their order.  Hence such a JSON schema whose
    properties do not declare [credentialSubject] is rejected, and
    [hasStatus()] tells whether they declare [credentialStatus]. *)
Theorem top_level_keys (fuel : nat) (fields props : dict json)
    (opts : PartialParsingOpts) :
  plain_node fields "object" ->
  dict_get "properties" fields = Some (JObj props) ->
  NoDup (dict_keys props) ->
  ~ In "__proto__" (dict_keys props) ->
  (forall cs,
     newCredentialSchema fuel (JObj fields) opts = Ok cs ->
     exists result,
       schema cs = JObj result /\
       dict_keys result = dict_keys props /\
       In SUBJECT_STR (dict_keys props) /\
       hasStatus cs = mem_string STATUS_STR (dict_keys props)) /\
  (~ In SUBJECT_STR (dict_keys props) ->
   throws (newCredentialSchema fuel (JObj fields) opts)).
Proof.
  intros Hp Hprops Hnd _.
  assert (Hmain : forall cs,
            newCredentialSchema fuel (JObj fields) opts = Ok cs ->
            exists result,
              schema cs = JObj result /\
              dict_keys result = dict_keys props /\
              In SUBJECT_STR (dict_keys props) /\
              hasStatus cs = mem_string STATUS_STR (dict_keys props)).
  { intros cs Hnew.
    destruct (constructed_valid fuel _ opts cs Hnew) as (Hconv & _).
    destruct (constructed_has_subject fuel _ opts cs Hnew) as ((subj & Hsubj) & _).
    destruct fuel as [|fuel]; [discriminate Hconv|].
    destruct (ConversionMoreFacts.object_conversion fuel fields props
                (mergeParsingOpts opts) None Hp Hprops Hnd _ Hconv)
      as (result & Hres & Hkeys & _).
    exists result. split; [exact Hres|]. split; [exact Hkeys|].
    unfold hasStatus. rewrite Hres in Hsubj |- *. simpl in Hsubj |- *.
    apply Ok_inj in Hsubj. split.
    - rewrite <- Hkeys. apply FlattenFacts.dict_get_keys. eauto.
    - rewrite <- Hkeys.
      destruct (dict_get STATUS_STR result) as [st|] eqn:E.
      + symmetry. apply mem_string_In, FlattenFacts.dict_get_keys. eauto.
      + symmetry. apply mem_string_not_In. intros Hin.
        apply FlattenFacts.dict_get_keys in Hin as (w & Hw). congruence. }
  split; [exact Hmain|].
  intros Hnot. apply result_throws. intros cs Hnew.
  destruct (Hmain cs Hnew) as (_ & _ & _ & Hin & _). contradiction.
Qed.

(** *** The encoder *)

Lemma setEncoders_ok (names : list string) :
  NoDup names ->
  forall (values : list json) (acc encs : dict EncodeFunc),
    length values = length names ->
    setEncoders names values acc = Ok encs ->
    (forall k, In k (dict_keys encs) <-> In k (dict_keys acc) \/ In k names) /\
    (forall (i : nat) (name : string) (value : json),
       names !! i = Some name -> values !! i = Some value ->
       exists f, encodeFuncFor value = Ok f /\ dict_get name encs = Some f) /\
    (forall k, ~ In k names -> dict_get k encs = dict_get k acc).
Proof.
  induction 1 as [|n names Hn Hnd IH]; intros values acc encs Hlen H.
  - simpl in H. apply Ok_inj in H. subst encs. split; [|split].
    + intros k. simpl. tauto.
    + intros i name value Hi. discriminate.
    + reflexivity.
  - destruct values as [|v values]; [discriminate Hlen|]. simpl in H, Hlen.
    apply mbind_ok_inv in H as (f & Hf & H).
    destruct (IH values (dict_set n f acc) encs ltac:(lia) H) as (Hkeys & Hleaf & Hother).
    assert (Hn' : ~ In n names) by (intros Hin; apply Hn, list_elem_of_In; exact Hin).
    split; [|split].
    + intros k. rewrite Hkeys, FlattenFacts.in_keys_set. simpl.
      split; [intros [[H1|H1]|H1] | intros [H1|[H1|H1]]]; subst; auto.
    + intros [|i] name value Hi Hv; simpl in Hi, Hv.
      * injection Hi as <-. injection Hv as <-. exists f. split; [exact Hf|].
        rewrite (Hother n Hn'). apply dict_get_set_eq.
      * exact (Hleaf i name value Hi Hv).
    + intros k Hk. rewrite Hother by (intros Hin; apply Hk; right; exact Hin).
      apply dict_get_set_ne. intros ->. apply Hk. left. reflexivity.
Qed.

(** X18.  The encoder of a constructed schema object has an entry for
    exactly the flattened names and the two implicit names.  The implicit
    names get the default encoding function whatever the schema says about
    them; every other flattened name gets the function chosen from its own
    descriptor.  The encoder has a default function, applied to names it
    has no entry for, exactly when the parsing options say
    [useDefaults]. *)
Theorem encoder_covers_flattened_names (fuel : nat) (S : json)
    (opts : PartialParsingOpts) (cs : CredentialSchema) :
  newCredentialSchema fuel S opts = Ok cs ->
  (forall k, In k (dict_keys (encoders (encoder cs)))
             <-> In k (fst (flatten cs)) \/ k = CRYPTO_VERSION_STR \/ k = SCHEMA_STR) /\
  dict_get CRYPTO_VERSION_STR (encoders (encoder cs)) = Some defaultEncodeFunc /\
  dict_get SCHEMA_STR (encoders (encoder cs)) = Some defaultEncodeFunc /\
  (forall (i : nat) (name : string) (value : json),
     fst (flatten cs) !! i = Some name -> snd (flatten cs) !! i = Some value ->
     name <> CRYPTO_VERSION_STR -> name <> SCHEMA_STR ->
     exists f, encodeFuncFor value = Ok f /\
               dict_get name (encoders (encoder cs)) = Some f) /\
  defaultEncoder (encoder cs)
  = (if useDefaults (parsingOptions cs) then Some defaultEncodeFunc else None).
Proof.
  intros Hnew.
  destruct (constructed_valid fuel S opts cs Hnew) as (_ & _ & Henc & _ & _ & Hopts).
  unfold initEncoder in Henc. unfold flatten.
  pose proof (flatten_names_NoDup (schema cs)) as Hnd.
  pose proof (flatten_lengths (schema cs)) as Hlen.
  destruct (flattenSchemaObj (schema cs)) as [names values]. simpl in Hnd, Hlen |- *.
  apply mbind_ok_inv in Henc as (encs & Hset & Henc). apply Ok_inj in Henc.
  rewrite <- Henc, Hopts. simpl.
  destruct (setEncoders_ok names Hnd values [] encs Hlen Hset) as (Hkeys & Hleaf & _).
  split; [|split; [|split; [|split]]].
  - intros k. rewrite !FlattenFacts.in_keys_set, Hkeys. simpl. tauto.
  - rewrite dict_get_set_ne by discriminate. apply dict_get_set_eq.
  - apply dict_get_set_eq.
  - intros i name value Hi Hv Hn1 Hn2.
    destruct (Hleaf i name value Hi Hv) as (f & Hf & Hget).
    exists f. split; [exact Hf|]. rewrite !dict_get_set_ne by assumption. exact Hget.
  - reflexivity.
Qed.

(** *** The type of a name *)

Lemma get_prop_total (v : json) (k : string) (x : option json) :
  get_prop v k = Ok x -> forall k', exists y, get_prop v k' = Ok y.
Proof. destruct v; simpl; intros H k'; try discriminate; eauto. Qed.

Lemma typeOfValue_well_typed (value : json) :
  well_typed_leaf value ->
  exists t,
    typeOfValue (Some value) = Returns t /\
    get_prop value "type" = Ok (Some (JStr (typeString (vt_type t)))) /\
    (vt_type t = RevStr -> exists b, vt_compress t = Some (JBool b)) /\
    (vt_type t = Integer \/ vt_type t = Number ->
     exists n, vt_minimum t = Some (JNum n) /\ isInteger n = true).
Proof.
  intros (ty & Hty & Hposs & Hrev & Hmin & _).
  destruct (get_prop_total value "type" _ Hty "compress") as (c & Hc).
  destruct (get_prop_total value "type" _ Hty "minimum") as (m & Hm).
  destruct (get_prop_total value "type" _ Hty "decimalPlaces") as (d & Hd).
  unfold typeOfValue. rewrite Hty, Hc, Hm, Hd. simpl.
  destruct Hposs as [<-|[<-|[<-|[<-|[<-|[<-|[]]]]]]]; simpl;
    eexists; (split; [reflexivity|]); simpl; (split; [reflexivity|]);
    (split; [intros E; try discriminate E | intros [E|E]; try discriminate E]).
  - destruct (Hrev eq_refl) as (b & Hb). rewrite Hc in Hb. apply Ok_inj in Hb. eauto.
  - destruct (Hmin (or_introl eq_refl)) as (n & Hn & Hi). rewrite Hm in Hn.
    apply Ok_inj in Hn. eauto.
  - destruct (Hmin (or_intror eq_refl)) as (n & Hn & Hi). rewrite Hm in Hn.
    apply Ok_inj in Hn. eauto.
Qed.

(** X19.  On a constructed schema object, [typeOfName] answers for every
    flattened name that went through the generic validation: it returns the
    tag that corresponds to the [type] of the leaf's descriptor, with a
    boolean [compress] for a reversible string and an integer [minimum] for
    an integer or a decimal number.  For a name that is not among the
    flattened names it throws (the lookup of index [-1] gives [undefined],
    and reading its [type] fails); the error is rethrown with the name. *)
Theorem typeOfName_total_on_leaves (fuel : nat) (S : json) (opts : PartialParsingOpts)
    (cs : CredentialSchema) :
  newCredentialSchema fuel S opts = Ok cs ->
  (forall (i : nat) (name : string) (value : json),
     fst (flatten cs) !! i = Some name -> snd (flatten cs) !! i = Some value ->
     ~ In name IGNORE_GENERIC_VALIDATION ->
     exists t,
       typeOfNameIn cs name None = Returns t /\
       get_prop value "type" = Ok (Some (JStr (typeString (vt_type t)))) /\
       (vt_type t = RevStr -> exists b, vt_compress t = Some (JBool b)) /\
       (vt_type t = Integer \/ vt_type t = Number ->
        exists n, vt_minimum t = Some (JNum n) /\ isInteger n = true)) /\
  (forall name : string,
     ~ In name (fst (flatten cs)) ->
     typeOfNameIn cs name None = Raises (ForName (Earlier TypeError) name)).
Proof.
  intros Hnew. split.
  - intros i name value Hi Hv Hnot.
    pose proof (constructed_leaves_checked fuel S opts cs Hnew i name value Hi Hv Hnot)
      as Hw.
    destruct (typeOfValue_well_typed value Hw) as (t & Ht & Hrest).
    exists t. split; [|exact Hrest].
    change (typeOfNameIn cs name None)
      with (typeOfName name (flattenSchemaObj (schema cs))).
    unfold typeOfName. unfold flatten in *.
    pose proof (flatten_names_NoDup (schema cs)) as Hnd.
    destruct (flattenSchemaObj (schema cs)) as [names values]. simpl in Hi, Hv, Hnd.
    unfold indexOf. rewrite (indexOf_from_NoDup name names Hnd 0 i Hi).
    unfold Presentation.nthZ.
    destruct (Z.ltb_spec (0 + Z.of_nat i) 0); [lia|].
    replace (Z.to_nat (0 + Z.of_nat i)) with i by lia. rewrite Hv, Ht. reflexivity.
  - intros name Hnot.
    change (typeOfNameIn cs name None)
      with (typeOfName name (flattenSchemaObj (schema cs))).
    unfold typeOfName. unfold flatten in *.
    destruct (flattenSchemaObj (schema cs)) as [names values]. simpl in Hnot.
    unfold indexOf. rewrite (indexOf_from_absent name names 0 Hnot). reflexivity.
Qed.

(** *** From JSON *)

(** X20.  [fromJSON] refuses an object whose [type] is not the schema type
    tag before it looks at anything else.  When it returns a schema
    object, that object is what the constructor builds from the document
    embedded in [id] and the [parsingOptions] of the JSON, except for its
    version: the version is the one written in the JSON, not the one of the
    class. *)
Theorem fromJSON_restores_version (fuel : nat) (j : SchemaJson) :
  (sj_type j <> SCHEMA_TYPE_STR -> fromJSON fuel j = Throw WrongSchemaType) /\
  (forall cs,
     fromJSON fuel j = Ok cs ->
     sj_type j = SCHEMA_TYPE_STR /\
     version cs = sj_version j /\
     exists S,
       extractJsonSchemaFromEmbedded (sj_id j) = Ok S /\
       jsonSchema cs = S /\
       newCredentialSchema fuel S (sj_parsingOptions j) = Ok (set_version cs VERSION)).
Proof.
  unfold fromJSON. split.
  - intros Hne. destruct (String.eqb_spec (sj_type j) SCHEMA_TYPE_STR); [contradiction|].
    reflexivity.
  - intros cs H.
    apply mbind_ok_inv in H as (u & Htype & H). apply throw_if_ok, negb_false_iff in Htype.
    apply String.eqb_eq in Htype.
    apply mbind_ok_inv in H as (S & HS & H).
    apply mbind_ok_inv in H as (cs0 & Hnew & H). apply Ok_inj in H. subst cs.
    split; [exact Htype|]. split; [reflexivity|].
    exists S. split; [exact HS|].
    destruct (constructed_valid fuel S _ cs0 Hnew) as (_ & _ & _ & Hv & Hj & _).
    split; [exact Hj|]. rewrite Hnew. f_equal.
    destruct cs0. simpl in *. subst. reflexivity.
Qed.

(** *** The status schema the class hands out *)

(** [statusAsJsonSchema()] converts, under any parsing options, to
    the four string leaves [id], [type], [revocationCheck] and
    [revocationId], and these pass the four checks [validate] makes on a
    [credentialStatus]. *)
Theorem status_schema_accepted (fuel : nat) (opts : ISchemaParsingOpts)
    (root : option json) :
  convertToInternalSchemaObj (S (S fuel)) statusAsJsonSchema opts root
  = Ok (JObj [(ID_STR, string_leaf); (TYPE_STR, string_leaf);
              (REV_CHECK_STR, string_leaf); (REV_ID_STR, string_leaf)]) /\
  forall f, In f [TYPE_STR; ID_STR; REV_CHECK_STR; REV_ID_STR] ->
    validateStringType
      (JObj [(ID_STR, string_leaf); (TYPE_STR, string_leaf);
             (REV_CHECK_STR, string_leaf); (REV_ID_STR, string_leaf)]) f = Ok tt.
Proof.
  split; [reflexivity|].
  intros f [<-|[<-|[<-|[<-|[]]]]]; reflexivity.
Qed.

End Facts.

Lemma typedSchema_constructed :
  newCredentialSchema (RT := Examples.bareRuntime) 10 MoreExamples.typedJsonSchema
    noParsingOpts = Ok MoreExamples.typedSchema.
Proof. vm_compute. reflexivity. Qed.

Lemma statusSchema_constructed :
  newCredentialSchema (RT := Examples.bareRuntime) 10 Examples.statusJsonSchema
    noParsingOpts = Ok Examples.statusSchema.
Proof. vm_compute. reflexivity. Qed.

Lemma score_not_ignored : ~ In "credentialSubject.score" IGNORE_GENERIC_VALIDATION.
Proof. intros Hin. apply mem_string_In in Hin. discriminate Hin. Qed.

Lemma constructed_leaves_well_typed_witness :
  fst (flatten MoreExamples.typedSchema) !! 4%nat = Some "credentialSubject.score" /\
  well_typed_leaf (decimalLeaf (of_Z (-100)) (of_Z 1)).
Proof.
  split; [reflexivity|].
  apply (constructed_leaves_well_typed (RT := Examples.bareRuntime) 10
           MoreExamples.typedJsonSchema noParsingOpts MoreExamples.typedSchema
           typedSchema_constructed 4 "credentialSubject.score");
    [reflexivity | reflexivity | exact score_not_ignored].
Defined.

Lemma constructed_subject_and_status_witness :
  exists v, get_prop (JObj (map (fun f => (f, string_leaf))
                              [ID_STR; TYPE_STR; REV_CHECK_STR; REV_ID_STR]))
              REV_ID_STR = Ok (Some v) /\
            get_prop v "type" = Ok (Some (JStr "string")).
Proof.
  destruct (constructed_subject_and_status (RT := Examples.bareRuntime) 10
              Examples.statusJsonSchema noParsingOpts Examples.statusSchema
              statusSchema_constructed) as (_ & H).
  apply (H (JObj (map (fun f => (f, string_leaf))
                    [ID_STR; TYPE_STR; REV_CHECK_STR; REV_ID_STR])));
    [reflexivity | right; right; right; left; reflexivity].
Defined.

Lemma top_level_keys_witness :
  hasStatus Examples.statusSchema = true /\
  throws (newCredentialSchema (RT := Examples.bareRuntime) 10
            (JObj [("type", JStr "object");
                   ("properties", JObj [("issuer", string_leaf)])])
            noParsingOpts).
Proof.
  split.
  - destruct (top_level_keys (RT := Examples.bareRuntime) 10
                (spread_value Examples.statusJsonSchema)
                [("credentialSubject",
                  JObj [("type", JStr "object");
                        ("properties", JObj [("fname", string_leaf)])]);
                 ("credentialStatus", statusAsJsonSchema)]
                noParsingOpts) as (H & _).
    + split; reflexivity.
    + reflexivity.
    + repeat constructor; intros Hin; apply list_elem_of_In in Hin; simpl in Hin;
        intuition discriminate.
    + simpl. intuition discriminate.
    + destruct (H Examples.statusSchema statusSchema_constructed) as (r & _ & _ & _ & ->).
      reflexivity.
  - destruct (top_level_keys (RT := Examples.bareRuntime) 10
                [("type", JStr "object"); ("properties", JObj [("issuer", string_leaf)])]
                [("issuer", string_leaf)] noParsingOpts) as (_ & H).
    + split; reflexivity.
    + reflexivity.
    + repeat constructor. intros Hin. apply list_elem_of_In in Hin. destruct Hin.
    + simpl. intuition discriminate.
    + apply H. simpl. intuition discriminate.
Defined.

Lemma encoder_covers_flattened_names_witness :
  dict_get "credentialSubject.score" (encoders (encoder MoreExamples.typedSchema))
  = Some (decimalNumberEncoder (Some (JNum (of_Z (-100)))) (Some (JNum (of_Z 1)))) /\
  defaultEncoder (encoder MoreExamples.typedSchema) = None.
Proof.
  destruct (encoder_covers_flattened_names (RT := Examples.bareRuntime) 10
              MoreExamples.typedJsonSchema noParsingOpts MoreExamples.typedSchema
              typedSchema_constructed) as (_ & _ & _ & Hleaf & Hdef).
  split; [|exact Hdef].
  destruct (Hleaf 4%nat "credentialSubject.score" (decimalLeaf (of_Z (-100)) (of_Z 1)))
    as (f & Hf & Hget); [reflexivity | reflexivity | discriminate | discriminate |].
  apply Ok_inj in Hf. rewrite <- Hf in Hget. exact Hget.
Defined.

Lemma typeOfName_total_on_leaves_witness :
  (exists t, typeOfNameIn MoreExamples.typedSchema "credentialSubject.score" None
             = Returns t /\ vt_type t = Number) /\
  typeOfNameIn MoreExamples.typedSchema "fname" None
  = Raises (ForName (Earlier TypeError) "fname").
Proof.
  destruct (typeOfName_total_on_leaves (RT := Examples.bareRuntime) 10
              MoreExamples.typedJsonSchema noParsingOpts MoreExamples.typedSchema
              typedSchema_constructed) as (H1 & H2).
  split.
  - destruct (H1 4%nat "credentialSubject.score" (decimalLeaf (of_Z (-100)) (of_Z 1)))
      as (t & Ht & Hty & _); [reflexivity | reflexivity | exact score_not_ignored |].
    exists t. split; [exact Ht|].
    simpl in Hty. apply Ok_inj in Hty. apply Some_inj in Hty.
    destruct (vt_type t); try discriminate Hty. reflexivity.
  - apply H2. intros Hin. apply mem_string_In in Hin. discriminate Hin.
Defined.

Lemma fromJSON_restores_version_witness :
  exists cs,
    fromJSON (RT := Examples.printingRuntime) 5 MoreExamples.olderVersionJson = Ok cs /\
    version cs = "0.0.1" /\
    jsonSchema cs = Examples.fnameJsonSchema.
Proof.
  destruct (fromJSON (RT := Examples.printingRuntime) 5 MoreExamples.olderVersionJson)
    as [cs|e] eqn:E; [|vm_compute in E; discriminate].
  exists cs. split; [reflexivity|].
  destruct (proj2 (fromJSON_restores_version (RT := Examples.printingRuntime) 5
                     MoreExamples.olderVersionJson) cs E) as (_ & Hv & S & HS & Hj & _).
  split; [exact Hv|].
  rewrite Hj. apply Ok_inj. rewrite <- HS. vm_compute. reflexivity.
Defined.

End SchemaObjectFacts.

(** ** The embedded schema: reading a data URI *)

Module DataUriFacts.
Import JsNumber Json Schema SchemaOps NumberFacts.

Lemma lacks_cons (c x : ascii) (r : string) :
  lacks c (String x r) = true <-> x <> c /\ lacks c r = true.
Proof.
  simpl. rewrite andb_true_iff, negb_true_iff. split; intros [H1 H2]; split; auto.
  - intros ->. rewrite Ascii.eqb_refl in H1. discriminate.
  - destruct (Ascii.eqb_spec x c); [contradiction | reflexivity].
Qed.

Lemma lacks_app (c : ascii) (a b : string) :
  lacks c (a +:+ b) = (lacks c a && lacks c b).
Proof.
  induction a as [|x a IH]; [reflexivity|].
  rewrite append_cons. simpl. rewrite IH, andb_assoc. reflexivity.
Qed.

Lemma strip_newlines_lacks (a : string) :
  lacks "010" a = true ->
  forall (c : ascii) (r : string), c <> "010"%char ->
    strip_newlines (a +:+ String c r) = a +:+ strip_newlines (String c r).
Proof.
  induction a as [|x a IH]; intros Hl c r Hc; [reflexivity|].
  apply lacks_cons in Hl as [Hx Hl].
  rewrite !append_cons.
  assert (Hnext : exists c' r', a +:+ String c r = String c' r' /\ c' <> "010"%char).
  { destruct a as [|y a]; [exists c, r; auto|].
    rewrite append_cons. apply lacks_cons in Hl as [Hy _]. eauto. }
  destruct Hnext as (c' & r' & E & Hc').
  cbn [strip_newlines].
  destruct (Ascii.eqb_spec x "010"); [contradiction|].
  destruct (Ascii.eqb_spec x "013").
  - rewrite E. destruct (Ascii.eqb_spec c' "010"); [contradiction|].
    rewrite <- E, (IH Hl c r Hc). reflexivity.
  - rewrite (IH Hl c r Hc). reflexivity.
Qed.

Lemma strip_newlines_cons (x : ascii) (s : string) :
  strip_newlines (String x s)
  = if Ascii.eqb x "010" then strip_newlines s
    else if Ascii.eqb x "013" then
      match s with
      | String c' r' =>
          if Ascii.eqb c' "010" then strip_newlines r'
          else String x (strip_newlines s)
      | EmptyString => String x EmptyString
      end
    else String x (strip_newlines s).
Proof. reflexivity. Qed.

Lemma strip_newlines_keeps_lacks_le (c : ascii) (n : nat) :
  forall s, (String.length s <= n)%nat ->
    lacks c s = true -> lacks c (strip_newlines s) = true.
Proof.
  induction n as [|n IH]; intros [|x s] Hn Hl; try reflexivity; [simpl in Hn; lia|].
  simpl in Hn. apply lacks_cons in Hl as [Hx Hl].
  rewrite strip_newlines_cons.
  assert (Hs : lacks c (strip_newlines s) = true) by (apply IH; [lia | exact Hl]).
  destruct (Ascii.eqb x "010"); [exact Hs|].
  destruct (Ascii.eqb x "013"); [|apply lacks_cons; auto].
  destruct s as [|y r]; [apply lacks_cons; auto|].
  destruct (Ascii.eqb y "010"); [|apply lacks_cons; auto].
  apply lacks_cons in Hl as [_ Hl]. apply IH; [simpl in Hn; lia | exact Hl].
Qed.

Lemma strip_newlines_keeps_lacks (c : ascii) (s : string) :
  lacks c s = true -> lacks c (strip_newlines s) = true.
Proof. apply (strip_newlines_keeps_lacks_le c (String.length s)). lia. Qed.

Lemma prefix_empty (s : string) : String.prefix "" s = true.
Proof. destruct s; reflexivity. Qed.

Lemma index_comma_cons (c : ascii) (s : string) :
  String.index 0 "," (String c s)
  = if Ascii.eqb c "," then Some 0%nat
    else match String.index 0 "," s with Some n => Some (S n) | None => None end.
Proof.
  change (String.index 0 "," (String c s))
    with (if String.prefix "," (String c s) then Some 0%nat
          else match String.index 0 "," s with Some n => Some (S n) | None => None end).
  change (String.prefix "," (String c s))
    with (if ascii_dec "," c then String.prefix "" s else false).
  destruct (ascii_dec "," c) as [<-|Hne].
  - rewrite prefix_empty. reflexivity.
  - destruct (Ascii.eqb_spec c ","); [congruence | reflexivity].
Qed.

Lemma index_lacks (a r : string) :
  lacks "," a = true ->
  String.index 0 "," (a +:+ String "," r) = Some (String.length a).
Proof.
  induction a as [|x a IH]; intros Hl.
  - change ("" +:+ String "," r) with (String "," r). rewrite index_comma_cons.
    reflexivity.
  - apply lacks_cons in Hl as [Hx Hl]. rewrite append_cons, index_comma_cons.
    destruct (Ascii.eqb_spec x ","); [contradiction|].
    rewrite (IH Hl). reflexivity.
Qed.

Lemma index_none (s : string) : lacks "," s = true -> String.index 0 "," s = None.
Proof.
  induction s as [|x s IH]; intros Hl; [reflexivity|].
  apply lacks_cons in Hl as [Hx Hl]. rewrite index_comma_cons.
  destruct (Ascii.eqb_spec x ","); [contradiction|].
  rewrite (IH Hl). reflexivity.
Qed.

Lemma substring_head (a r : string) :
  String.substring 0 (String.length a) (a +:+ r) = a.
Proof.
  induction a as [|x a IH]; [destruct r; reflexivity|].
  rewrite append_cons. simpl. rewrite IH. reflexivity.
Qed.

Lemma prefix_data_scheme (x : string) : String.prefix "data:" ("data:" +:+ x) = true.
Proof. destruct x; reflexivity. Qed.

Lemma drop_chars_after (a : string) (c : ascii) (r : string) :
  drop_chars (S (String.length a)) (a +:+ String c r) = r.
Proof.
  induction a as [|x a IH]; [reflexivity|]. rewrite append_cons. exact IH.
Qed.

Section Facts.
Context `{RT : JsRuntime}.

(** X21.  How [extractJsonSchemaFromEmbedded] reads [data:<meta>,<payload>],
    where [<meta>] holds no comma and no line feed: [<meta>] is split at
    its semicolons; the first part must be [application/json]; no part may
    be [base64]; other parameters (a [charset], say) are accepted and
    ignored; and the payload, line breaks removed, is URI-decoded and parsed
    as JSON.  A string that does not start with [data:] is refused, and so
    is one that starts with it but holds no comma. *)
Theorem embedded_data_uri :
  (forall meta payload : string,
     lacks "," meta = true -> lacks "010" meta = true ->
     extractJsonSchemaFromEmbedded ("data:" +:+ meta +:+ "," +:+ payload)
     = (throw_if (negb (String.eqb (hd "" (split_on ";" meta)) "application/json"))
          (WrongMediaType (hd "" (split_on ";" meta)));;
        throw_if (mem_string "base64" (split_on ";" meta)) Base64NotSupported;;
        dataStr ← decodeURIComponent (strip_newlines payload);
        JSON_parse dataStr)) /\
  (forall s : string,
     String.prefix "data:" s = false ->
     extractJsonSchemaFromEmbedded s = Throw NotDataUri) /\
  (forall s : string,
     String.prefix "data:" s = true -> lacks "," s = true ->
     extractJsonSchemaFromEmbedded s = Throw MalformedDataUri).
Proof.
  split; [|split].
  - intros meta payload Hcomma Hlf.
    unfold extractJsonSchemaFromEmbedded.
    assert (Hstrip : strip_newlines ("data:" +:+ meta +:+ "," +:+ payload)
                     = ("data:" +:+ meta) +:+ String "," (strip_newlines payload)).
    { change ("," +:+ payload) with (String "," payload).
      rewrite <- FlattenFacts.append_assoc.
      rewrite strip_newlines_lacks; [reflexivity | | discriminate].
      rewrite lacks_app, Hlf. reflexivity. }
    rewrite Hstrip.
    rewrite prefix_data_scheme.
    cbn [throw_if negb mbind Result_bind bind].
    rewrite index_lacks by (rewrite lacks_app, Hcomma; reflexivity).
    assert (Hlen : String.length ("data:" +:+ meta) = (5 + String.length meta)%nat)
      by reflexivity.
    rewrite Hlen.
    replace (5 + String.length meta - 5)%nat with (String.length meta) by lia.
    assert (Hsub : String.substring 5 (String.length meta)
                     (("data:" +:+ meta) +:+ String "," (strip_newlines payload)) = meta).
    { rewrite FlattenFacts.append_assoc.
      change (String.substring 5 (String.length meta)
                ("data:" +:+ meta +:+ String "," (strip_newlines payload)))
        with (String.substring 0 (String.length meta)
                (meta +:+ String "," (strip_newlines payload))).
      apply substring_head. }
    rewrite Hsub.
    assert (Hdrop : drop_chars (S (5 + String.length meta))
                      (("data:" +:+ meta) +:+ String "," (strip_newlines payload))
                    = strip_newlines payload).
    { rewrite <- Hlen. apply drop_chars_after. }
    rewrite Hdrop.
    destruct (split_on ";" meta) as [|m ms]; reflexivity.
  - intros s Hp. unfold extractJsonSchemaFromEmbedded. rewrite Hp. reflexivity.
  - intros s Hp Hl. unfold extractJsonSchemaFromEmbedded. rewrite Hp.
    cbn [throw_if negb mbind Result_bind bind].
    rewrite (index_none _ (strip_newlines_keeps_lacks "," s Hl)). reflexivity.
Qed.

End Facts.

Lemma embedded_data_uri_witness :
  extractJsonSchemaFromEmbedded (RT := Examples.bareRuntime)
    ("data:" +:+ "text/plain;charset=utf-8" +:+ "," +:+ "abc")
  = Throw (WrongMediaType "text/plain") /\
  extractJsonSchemaFromEmbedded (RT := Examples.bareRuntime)
    ("data:" +:+ "application/json;base64" +:+ "," +:+ "e30=")
  = Throw Base64NotSupported.
Proof.
  destruct (embedded_data_uri (RT := Examples.bareRuntime)) as (H & _ & _).
  split.
  - rewrite (H "text/plain;charset=utf-8" "abc" eq_refl eq_refl). reflexivity.
  - rewrite (H "application/json;base64" "e30=" eq_refl eq_refl). reflexivity.
Defined.

End DataUriFacts.

(** ** The JSON-LD context of a schema *)

Module JsonLdFacts.
Import JsNumber Json Schema SchemaOps SchemaObjectFacts.

Lemma set_add_In (terms : list string) (term x : string) :
  In x (set_add terms term) <-> In x terms \/ x = term.
Proof.
  unfold set_add. destruct (mem_string term terms) eqn:E.
  - apply mem_string_In in E. split; [auto | intros [H| ->]; assumption].
  - rewrite in_app_iff. simpl. split; [intros [H|[H|[]]] | intros [H|H]]; auto.
Qed.

Lemma fold_set_add_In (parts terms : list string) (x : string) :
  In x (fold_left set_add parts terms) <-> In x terms \/ In x parts.
Proof.
  revert terms. induction parts as [|p parts IH]; intros terms; simpl.
  - tauto.
  - rewrite IH, set_add_In. split; [intros [[H|H]|H] | intros [H|[H|H]]]; auto.
Qed.

Lemma addNameParts_In (names terms : list string) (x : string) :
  In x (addNameParts terms names)
  <-> In x terms \/ exists name, In name names /\ In x (split_on "." name).
Proof.
  unfold addNameParts. revert terms.
  induction names as [|n names IH]; intros terms; simpl.
  - split; [auto | intros [H|(name & [] & _)]; exact H].
  - rewrite IH, fold_set_add_In. split.
    + intros [[H|H]|(name & Hn & Hx)]; [auto | right; exists n; auto |
                                        right; exists name; auto].
    + intros [H|(name & [<-|Hn] & Hx)]; [auto | auto | right; exists name; auto].
Qed.

Lemma contextTerms_In (cs : CredentialSchema) (x : string) :
  In x (contextTerms cs)
  <-> x = SCHEMA_STR \/ x = CRYPTO_VERSION_STR
      \/ (hasStatus cs = true /\ In x [ID_STR; REV_CHECK_STR; REV_ID_STR; TYPE_STR])
      \/ exists name, In name (fst (flatten cs)) /\ In x (split_on "." name).
Proof.
  unfold contextTerms. rewrite addNameParts_In.
  destruct (hasStatus cs); rewrite ?set_add_In; simpl; intuition congruence.
Qed.

Lemma fold_assignTerm (terms : list string) :
  forall (ctx : gmap string string) (k : string),
    fold_left assignTerm terms ctx !! k
    = if mem_string k terms && negb (String.eqb k "__proto__")
      then Some (getDummyContextValue k) else ctx !! k.
Proof.
  induction terms as [|t terms IH]; intros ctx k; [reflexivity|].
  simpl fold_left. rewrite IH. unfold assignTerm, mem_string. simpl existsb.
  fold (mem_string k terms).
  destruct (String.eqb_spec k "__proto__") as [->|Hk]; simpl.
  - rewrite !andb_false_r.
    destruct (String.eqb_spec t "__proto__"); [reflexivity|].
    apply lookup_insert_ne. congruence.
  - rewrite !andb_true_r.
    destruct (mem_string k terms); [rewrite orb_true_r; reflexivity|].
    rewrite orb_false_r.
    destruct (String.eqb_spec k t) as [->|Hne].
    + destruct (String.eqb_spec t "__proto__"); [contradiction|].
      apply lookup_insert_eq.
    + destruct (String.eqb_spec t "__proto__"); [reflexivity|].
      apply lookup_insert_ne. congruence.
Qed.

(** X22.  The context [getJsonLdContext] returns maps every collected term
    to ["dk:" + term]: the two implicit names, the four status fields when
    the schema has a status, and every dot-separated part of every
    flattened name (array indices included).  It holds nothing else, but for
    [dk], the namespace prefix itself; an attribute whose name has a part
    [dk] overwrites that prefix with ["dk:dk"]. *)
Theorem jsonld_context_terms (cs : CredentialSchema) :
  (forall k : string,
     In k (contextTerms cs) -> k <> "__proto__" ->
     ld_ctx (getJsonLdContext cs) !! k = Some ("dk:" +:+ k)) /\
  (forall name part : string,
     In name (fst (flatten cs)) -> In part (split_on "." name) -> part <> "__proto__" ->
     ld_ctx (getJsonLdContext cs) !! part = Some ("dk:" +:+ part)) /\
  ld_ctx (getJsonLdContext cs) !! SCHEMA_STR = Some "dk:credentialSchema" /\
  ld_ctx (getJsonLdContext cs) !! CRYPTO_VERSION_STR = Some "dk:cryptoVersion" /\
  (forall k v : string,
     ld_ctx (getJsonLdContext cs) !! k = Some v ->
     (In k (contextTerms cs) /\ v = "dk:" +:+ k) \/ (k = "dk" /\ v = LD_NAMESPACE)) /\
  (~ In "dk" (contextTerms cs) ->
   ld_ctx (getJsonLdContext cs) !! "dk" = Some LD_NAMESPACE) /\
  (In "dk" (contextTerms cs) ->
   ld_ctx (getJsonLdContext cs) !! "dk" = Some "dk:dk").
Proof.
  assert (Hlook : forall k,
            ld_ctx (getJsonLdContext cs) !! k
            = if mem_string k (contextTerms cs) && negb (String.eqb k "__proto__")
              then Some ("dk:" +:+ k)
              else ({["dk" := LD_NAMESPACE]} : gmap string string) !! k).
  { intros k. unfold getJsonLdContext, contextOf. simpl. apply fold_assignTerm. }
  assert (Hterm : forall k, In k (contextTerms cs) -> k <> "__proto__" ->
                            ld_ctx (getJsonLdContext cs) !! k = Some ("dk:" +:+ k)).
  { intros k Hin Hk. rewrite Hlook. apply mem_string_In in Hin. rewrite Hin.
    destruct (String.eqb_spec k "__proto__"); [contradiction | reflexivity]. }
  split; [exact Hterm|]. split; [|split; [|split; [|split; [|split]]]].
  - intros name part Hn Hp Hk. apply Hterm; [|exact Hk].
    apply contextTerms_In. right. right. right. eauto.
  - apply (Hterm SCHEMA_STR); [apply contextTerms_In; auto | discriminate].
  - apply (Hterm CRYPTO_VERSION_STR); [apply contextTerms_In; auto | discriminate].
  - intros k v. rewrite Hlook.
    destruct (mem_string k (contextTerms cs)) eqn:E; simpl.
    + apply mem_string_In in E.
      destruct (String.eqb k "__proto__"); simpl.
      * intros H. apply lookup_singleton_Some in H as [<- <-]. right. auto.
      * intros H. injection H as <-. left. auto.
    + intros H. apply lookup_singleton_Some in H as [<- <-]. right. auto.
  - intros Hnot. rewrite Hlook. apply mem_string_not_In in Hnot. rewrite Hnot.
    apply lookup_singleton_eq.
  - intros Hin. apply (Hterm "dk" Hin). discriminate.
Qed.

Lemma jsonld_context_terms_witness :
  ld_ctx (getJsonLdContext MoreExamples.dkSchema) !! "dk" = Some "dk:dk" /\
  ld_ctx (getJsonLdContext Examples.fnameSchema) !! "dk" = Some LD_NAMESPACE /\
  ld_ctx (getJsonLdContext Examples.fnameSchema) !! "fname" = Some "dk:fname".
Proof.
  split; [|split].
  - apply (jsonld_context_terms MoreExamples.dkSchema).
    vm_compute. intuition.
  - apply (jsonld_context_terms Examples.fnameSchema).
    vm_compute. intuition discriminate.
  - apply (proj1 (proj2 (jsonld_context_terms Examples.fnameSchema))
             "credentialSubject.fname" "fname").
    + vm_compute. intuition.
    + vm_compute. intuition.
    + discriminate.
Defined.

End JsonLdFacts.

(** ** The presentation builder: indices, revealed names, what [finalize]
    leaves behind *)

Module BuilderMoreFacts.
Import Json Schema SigParams Presentation PresentationSpec BuilderOps PresentationFacts.

(** *** Credential indices *)

Lemma builderStep_credentials (b : PresentationBuilder) (c : BuilderCall) :
  credentials b `prefix_of` credentials (builderStep b c).
Proof.
  unfold builderStep. destruct (builderExec b c) as [b'|e] eqn:E; [|reflexivity].
  destruct c; simpl in E;
    unfold markAttributesRevealed, markAttributesEqual, addAccumInfoForCredStatus in E;
    inv_binds; simpl; try reflexivity.
  apply prefix_app_r. reflexivity.
Qed.

Lemma builderRun_credentials (cs : list BuilderCall) :
  forall b, credentials b `prefix_of` credentials (builderRun b cs).
Proof.
  induction cs as [|c cs IH]; intros b; [reflexivity|].
  simpl. etransitivity; [apply builderStep_credentials | apply IH].
Qed.

(** X23.  [addCredential] returns the position of the credential it
    appended, counted from zero, and the index stays good for the life of
    the builder: whatever calls follow, it is accepted by
    [validateCredIndex] and still denotes the same credential and key;
    credentials added before keep their index too.  Nothing removes or
    reorders credentials. *)
Theorem addCredential_index_stays_valid (b : PresentationBuilder) (cred : Credential)
    (pk : bytes) (cs : list BuilderCall) :
  fst (addCredential b cred pk) = Z.of_nat (length (credentials b)) /\
  nthZ (credentials (builderRun (snd (addCredential b cred pk)) cs))
    (fst (addCredential b cred pk)) = Some (cred, pk) /\
  validateCredIndex (builderRun (snd (addCredential b cred pk)) cs)
    (fst (addCredential b cred pk)) = Ok tt /\
  (forall (j : nat) (x : Credential * bytes),
     credentials b !! j = Some x ->
     credentials (builderRun (snd (addCredential b cred pk)) cs) !! j = Some x).
Proof.
  pose proof (builderRun_credentials cs (snd (addCredential b cred pk))) as [k Hk].
  unfold addCredential in *. simpl in *. rewrite length_app. simpl.
  replace (Z.of_nat (length (credentials b) + 1) - 1)
    with (Z.of_nat (length (credentials b))) by lia.
  split; [reflexivity|]. rewrite Hk. split; [|split].
  - rewrite nthZ_of_nat, <- app_assoc.
    rewrite lookup_app_r by lia. rewrite Nat.sub_diag. reflexivity.
  - apply validateCredIndex_below. rewrite Hk, !length_app. simpl. lia.
  - intros j x Hj. rewrite <- app_assoc. apply lookup_app_l_Some. exact Hj.
Qed.

Lemma builderStep_bounds (b : PresentationBuilder) (c : BuilderCall) :
  (forall (i : Z) X, revealedAttributes b !! i = Some X ->
                     i < Z.of_nat (length (credentials b))) ->
  (forall (i : Z) s, credStatuses b !! i = Some s ->
                     i < Z.of_nat (length (credentials b))) ->
  (forall eql ref, In eql (attributeEqualities b) -> In ref eql ->
                   fst ref < Z.of_nat (length (credentials b))) ->
  (forall (i : Z) X, revealedAttributes (builderStep b c) !! i = Some X ->
                     i < Z.of_nat (length (credentials (builderStep b c)))) /\
  (forall (i : Z) s, credStatuses (builderStep b c) !! i = Some s ->
                     i < Z.of_nat (length (credentials (builderStep b c)))) /\
  (forall eql ref, In eql (attributeEqualities (builderStep b c)) -> In ref eql ->
                   fst ref < Z.of_nat (length (credentials (builderStep b c)))).
Proof.
  intros H1 H2 H3. unfold builderStep.
  destruct (builderExec b c) as [b'|e] eqn:E; [|auto].
  destruct c; simpl in E;
    unfold markAttributesRevealed, markAttributesEqual, addAccumInfoForCredStatus in E;
    inv_binds; simpl; auto.
  - rewrite length_app. simpl. repeat split; intros.
    + specialize (H1 _ _ H). lia.
    + specialize (H2 _ _ H). lia.
    + specialize (H3 _ _ H H0). lia.
  - repeat split; auto. intros i X Hi.
    destruct (decide (i = credIdx)) as [->|Hne].
    + unfold validateCredIndex in Ha.
      destruct (Z.leb_spec (Z.of_nat (length (credentials b))) credIdx); [discriminate | lia].
    + rewrite lookup_insert_ne in Hi by congruence. eauto.
  - repeat split; auto. intros eql ref Hin Href.
    apply in_app_iff in Hin as [Hin|[<-|[]]]; [eauto|].
    clear -Ha Href. induction equality as [|r rest IH]; [destruct Href|].
    simpl in Ha. apply mbind_ok_inv in Ha as (u & Hu & Ha).
    destruct Href as [<-|Href]; [|exact (IH Ha Href)].
    unfold validateCredIndex in Hu.
    destruct (Z.leb_spec (Z.of_nat (length (credentials b))) (fst r)); [discriminate | lia].
  - repeat split; auto. intros i s Hi.
    destruct (decide (i = credIdx)) as [->|Hne].
    + unfold validateCredIndex in Ha.
      destruct (Z.leb_spec (Z.of_nat (length (credentials b))) credIdx); [discriminate | lia].
    + rewrite lookup_insert_ne in Hi by congruence. eauto.
Qed.

(** X24.  What the index check does guarantee.  In a builder driven from
    its creation by any calls, every credential index that was recorded,
    as a key of [revealedAttributes], as a key of [credStatuses] or inside an
    attribute equality, is below the number of credentials held. *)
Theorem recorded_indices_below_count (cs : list BuilderCall) :
  (forall (i : Z) X,
     revealedAttributes (builderRun newPresentationBuilder cs) !! i = Some X ->
     i < Z.of_nat (length (credentials (builderRun newPresentationBuilder cs)))) /\
  (forall (i : Z) s,
     credStatuses (builderRun newPresentationBuilder cs) !! i = Some s ->
     i < Z.of_nat (length (credentials (builderRun newPresentationBuilder cs)))) /\
  (forall eql ref,
     In eql (attributeEqualities (builderRun newPresentationBuilder cs)) -> In ref eql ->
     fst ref < Z.of_nat (length (credentials (builderRun newPresentationBuilder cs)))).
Proof.
  induction cs as [|c cs IH] using rev_ind.
  - simpl. repeat split; intros; try discriminate. destruct H.
  - unfold builderRun in *. rewrite fold_left_app. simpl.
    destruct IH as (H1 & H2 & H3). apply builderStep_bounds; assumption.
Qed.

(** *** Revealed names *)

(** X25.  [markAttributesRevealed] adds to what was marked before: marking
    [A] and then [B] for a credential leaves the builder that marking
    [A ∪ B] at once leaves, with the names stored under the subject prefix;
    no call takes a name back, and the other credentials are not
    touched. *)
Theorem revealed_names_accumulate (b b1 b2 : PresentationBuilder) (credIdx : Z)
    (A B : gset string) :
  markAttributesRevealed b credIdx A = Ok b1 ->
  markAttributesRevealed b1 credIdx B = Ok b2 ->
  markAttributesRevealed b credIdx (A ∪ B) = Ok b2 /\
  revealedAttributes b2 !! credIdx
  = Some (default ∅ (revealedAttributes b !! credIdx)
          ∪ set_map (dotted SUBJECT_STR) (A ∪ B)) /\
  (forall j, j <> credIdx -> revealedAttributes b2 !! j = revealedAttributes b !! j).
Proof.
  unfold markAttributesRevealed. intros H1 H2.
  apply mbind_ok_inv in H1 as ([] & Hv & H1). apply Ok_inj in H1. subst b1.
  simpl in H2.
  assert (Hv' : validateCredIndex
                  {| version := version b; _context := _context b; _nonce := _nonce b;
                     proof := proof b; _proofSpec := _proofSpec b; spec := spec b;
                     credentials := credentials b;
                     revealedAttributes :=
                       <[credIdx := default ∅ (revealedAttributes b !! credIdx)
                                    ∪ set_map (dotted SUBJECT_STR) A]> (revealedAttributes b);
                     attributeEqualities := attributeEqualities b;
                     credStatuses := credStatuses b |} credIdx = Ok tt) by exact Hv.
  rewrite Hv' in H2. simpl in H2. apply Ok_inj in H2. subst b2.
  rewrite Hv. simpl. rewrite lookup_insert_eq. simpl.
  rewrite insert_insert_eq, set_map_union_L, (assoc_L (∪)).
  split; [reflexivity|]. split.
  - rewrite lookup_insert_eq. reflexivity.
  - intros j Hj. rewrite lookup_insert_ne by congruence. reflexivity.
Qed.

(** *** What [finalize] leaves behind *)

Section Finalize.
Context `{PB : PresentationBackend} `{SB : SigParamsBackend}.

Lemma credStep_leaves (b : PresentationBuilder) (i : nat) (credpk : Credential * bytes)
    (st st' : Locals) :
  credStep b i credpk st = Ok st' ->
  (exists pc, spec_credentials (l_spec st') = spec_credentials (l_spec st) ++ [pc] /\
              PresentedFor credpk pc) /\
  spec_attributeEqualities (l_spec st') = spec_attributeEqualities (l_spec st) /\
  l_revealedAttributes st'
  = match l_revealedAttributes st !! Z.of_nat i with
    | Some X => <[Z.of_nat i := X ∪ alwaysRevealed (fst credpk)]> (l_revealedAttributes st)
    | None => l_revealedAttributes st
    end.
Proof.
  unfold credStep. intros H.
  apply mbind_ok_inv in H as (mx & Hmx & H).
  apply mbind_ok_inv in H as ([[rm um] raw] & Hsplit & H).
  apply mbind_ok_inv in H as (p & Hp & H).
  apply mbind_ok_inv in H as ([presented aux'] & Haux & H).
  apply Ok_inj in H. subst st'. simpl. split; [|split].
  - eexists. split; [reflexivity|]. unfold PresentedFor. simpl.
    split; [reflexivity|]. split; [|reflexivity].
    destruct (credStatus (fst credpk)) as [cs|].
    + destruct (credStatuses b !! Z.of_nat i) as [s|]; [|discriminate].
      inv_binds. split; discriminate.
    + inv_binds. split; reflexivity.
  - reflexivity.
  - unfold revealedNamesFor.
    destruct (l_revealedAttributes st !! Z.of_nat i); reflexivity.
Qed.

Lemma credLoop_leaves (b : PresentationBuilder) (creds : list (Credential * bytes)) :
  forall (i : nat) (st st' : Locals),
    credLoop b i creds st = Ok st' ->
    (exists pcs, spec_credentials (l_spec st') = spec_credentials (l_spec st) ++ pcs /\
                 Forall2 PresentedFor creds pcs) /\
    spec_attributeEqualities (l_spec st') = spec_attributeEqualities (l_spec st) /\
    (forall (k : nat) credpk, creds !! k = Some credpk ->
       l_revealedAttributes st' !! Z.of_nat (i + k)
       = match l_revealedAttributes st !! Z.of_nat (i + k) with
         | Some X => Some (X ∪ alwaysRevealed (fst credpk))
         | None => None
         end) /\
    (forall j : Z, j < Z.of_nat i \/ Z.of_nat (i + length creds) <= j ->
       l_revealedAttributes st' !! j = l_revealedAttributes st !! j).
Proof.
  induction creds as [|credpk creds IH]; intros i st st' H; simpl in H.
  - apply Ok_inj in H. subst st'. split; [|split; [|split]].
    + exists []. rewrite app_nil_r. split; [reflexivity | constructor].
    + reflexivity.
    + intros k c Hk. discriminate.
    + reflexivity.
  - apply mbind_ok_inv in H as (st1 & H1 & H).
    apply credStep_leaves in H1 as ((pc & Hpc & Hfor) & Heq1 & Hrev1).
    apply IH in H as ((pcs & Hpcs & Hall) & Heq & Hin & Hout).
    assert (Hother : forall j, j <> Z.of_nat i ->
              l_revealedAttributes st1 !! j = l_revealedAttributes st !! j).
    { intros j Hj. rewrite Hrev1.
      destruct (l_revealedAttributes st !! Z.of_nat i); [|reflexivity].
      apply lookup_insert_ne. congruence. }
    split; [|split; [|split]].
    + exists (pc :: pcs). rewrite Hpcs, Hpc, <- app_assoc. split; [reflexivity|].
      constructor; assumption.
    + congruence.
    + intros [|k] c Hk; simpl in Hk.
      * injection Hk as <-. rewrite Nat.add_0_r. rewrite Hout by lia. rewrite Hrev1.
        destruct (l_revealedAttributes st !! Z.of_nat i) as [X|] eqn:E;
          [apply lookup_insert_eq | exact E].
      * replace (i + S k)%nat with (S i + k)%nat by lia.
        rewrite (Hin k c Hk). rewrite Hother by lia. reflexivity.
    + intros j Hj. simpl in Hj. rewrite Hout by lia. apply Hother. lia.
Qed.

Lemma equalityLoop_credentials (eqls : list AttributeEquality) :
  forall st st', equalityLoop eqls st = Ok st' ->
    spec_credentials (l_spec st') = spec_credentials (l_spec st).
Proof.
  induction eqls as [|eql eqls IH]; intros st st' H; simpl in H.
  - apply Ok_inj in H. subst st'. reflexivity.
  - apply mbind_ok_inv in H as (st1 & H1 & H).
    unfold equalityStep in H1. apply mbind_ok_inv in H1 as (w & _ & H1).
    apply Ok_inj in H1. subst st1. rewrite (IH _ _ H). reflexivity.
Qed.

Lemma finalize_leaves (b : PresentationBuilder) (pres : Presentation)
    (b' : PresentationBuilder) :
  finalize b = Ok (pres, b') ->
  p_spec pres = spec b' /\
  (exists pcs, spec_credentials (spec b') = spec_credentials (spec b) ++ pcs /\
               Forall2 PresentedFor (credentials b) pcs) /\
  spec_attributeEqualities (spec b')
  = spec_attributeEqualities (spec b) ++ attributeEqualities b /\
  credentials b' = credentials b /\
  attributeEqualities b' = attributeEqualities b /\
  credStatuses b' = credStatuses b /\
  (forall (k : nat) credpk, credentials b !! k = Some credpk ->
     revealedAttributes b' !! Z.of_nat k
     = match revealedAttributes b !! Z.of_nat k with
       | Some X => Some (X ∪ alwaysRevealed (fst credpk))
       | None => None
       end) /\
  (forall j : Z, j < 0 \/ Z.of_nat (length (credentials b)) <= j ->
     revealedAttributes b' !! j = revealedAttributes b !! j).
Proof.
  unfold finalize. intros H.
  apply mbind_ok_inv in H as (st & Hst & H).
  apply mbind_ok_inv in H as (pr & Hpr & H).
  apply Ok_inj in H. apply pair_equal_spec in H as [<- <-]. simpl.
  unfold assemble in Hst.
  apply mbind_ok_inv in Hst as (st1 & H1 & Hst).
  apply mbind_ok_inv in Hst as (st2 & H2 & H3).
  apply credLoop_leaves in H1 as ((pcs & Hpcs & Hall) & Heq1 & Hin & Hout).
  apply statusLoop_ok in H2. destruct H2 as [_ _ _ Gsp Gr _].
  pose proof (equalityLoop_credentials _ _ _ H3) as Hc3.
  apply equalityLoop_ok in H3. destruct H3 as [_ _ _ _ _ Er Esp _].
  simpl in *.
  split; [reflexivity|]. split; [|split; [|split; [|split; [|split; [|split]]]]];
    try reflexivity.
  - exists pcs. rewrite Hc3, Gsp, Hpcs. split; [reflexivity | exact Hall].
  - rewrite Esp, Gsp, Heq1. reflexivity.
  - intros k credpk Hk. rewrite Er, Gr. exact (Hin k credpk Hk).
  - intros j Hj. rewrite Er, Gr. apply Hout. simpl. exact Hj.
Qed.

(** X26.  [finalize] writes into the builder's own specification: the
    specification of the returned presentation is the builder's, extended
    by one entry per credential, in order, with the credential's issuer, a
    status exactly when the credential has one and no bounds, and by the
    attribute equalities marked so far.  What [forPresentation()] shows of
    it is the list of credential entries.  The credentials, the equalities
    and the status infos of the builder are left as they were. *)
Theorem finalize_extends_spec (b : PresentationBuilder) (pres : Presentation)
    (b' : PresentationBuilder) :
  finalize b = Ok (pres, b') ->
  p_spec pres = spec b' /\
  (exists pcs,
     fp_credentials (forPresentation (p_spec pres)) = spec_credentials (spec b) ++ pcs /\
     Forall2 PresentedFor (credentials b) pcs) /\
  spec_attributeEqualities (p_spec pres)
  = spec_attributeEqualities (spec b) ++ attributeEqualities b /\
  credentials b' = credentials b /\
  attributeEqualities b' = attributeEqualities b /\
  credStatuses b' = credStatuses b.
Proof.
  intros H. apply finalize_leaves in H as (Hs & Hpcs & Heq & Hc & Ha & Hst & _).
  rewrite Hs. unfold forPresentation. simpl. auto 10.
Qed.

(** X27.  [finalize] is not idempotent.  Called a second time on the same
    builder, it lists every credential a second time in the
    specification, and every attribute equality too: after two calls on a
    builder that started with an empty specification, the presentation
    names [2n] credentials for the [n] it proves. *)
Theorem finalize_twice_duplicates (b b1 b2 : PresentationBuilder)
    (pres1 pres2 : Presentation) :
  finalize b = Ok (pres1, b1) ->
  finalize b1 = Ok (pres2, b2) ->
  length (spec_credentials (p_spec pres2))
  = (length (spec_credentials (spec b)) + 2 * length (credentials b))%nat /\
  spec_attributeEqualities (p_spec pres2)
  = spec_attributeEqualities (spec b) ++ attributeEqualities b ++ attributeEqualities b.
Proof.
  intros H1 H2.
  apply finalize_leaves in H1 as (_ & (pcs1 & Hp1 & Hall1) & Heq1 & Hc1 & Ha1 & _).
  apply finalize_leaves in H2 as (Hs2 & (pcs2 & Hp2 & Hall2) & Heq2 & _).
  rewrite Hs2, Hp2, Hp1, Heq2, Heq1, Ha1, !length_app.
  apply Forall2_length in Hall1, Hall2. rewrite Hc1 in Hall2.
  rewrite <- Hall1, <- Hall2, <- app_assoc. split; [lia | reflexivity].
Qed.

(** X28.  [finalize] adds the names it always reveals to the sets the
    builder itself holds.  For a credential with marked attributes, the
    builder's set afterwards contains [cryptoVersion], [credentialSchema]
    and, if the credential has a status, the two status names, besides what
    was marked; a credential with nothing marked gets no set; keys that are
    no credential index are left alone. *)
Theorem finalize_marks_builder (b : PresentationBuilder) (pres : Presentation)
    (b' : PresentationBuilder) :
  finalize b = Ok (pres, b') ->
  (forall (k : nat) (cred : Credential) (pk : bytes),
     credentials b !! k = Some (cred, pk) ->
     revealedAttributes b' !! Z.of_nat k
     = match revealedAttributes b !! Z.of_nat k with
       | Some X => Some (X ∪ alwaysRevealed cred)
       | None => None
       end) /\
  (forall j : Z, j < 0 \/ Z.of_nat (length (credentials b)) <= j ->
     revealedAttributes b' !! j = revealedAttributes b !! j).
Proof.
  intros H. apply finalize_leaves in H as (_ & _ & _ & _ & _ & _ & Hin & Hout).
  split; [|exact Hout]. intros k cred pk Hk. exact (Hin k (cred, pk) Hk).
Qed.

End Finalize.

Lemma finalizedOnce_eq :
  demo_finalize Examples.readyBuilder
  = Ok (MoreExamples.presentedOnce, MoreExamples.builderAfterOnce).
Proof. vm_compute. reflexivity. Qed.

Lemma finalizedTwice_eq :
  demo_finalize MoreExamples.builderAfterOnce
  = Ok (MoreExamples.presentedTwice, MoreExamples.builderAfterTwice).
Proof. vm_compute. reflexivity. Qed.

Lemma revealed_names_accumulate_witness :
  exists b2,
    markAttributesRevealed Examples.oneCredentialBuilder 0
      (({["fname"]} : gset string) ∪ {["lname"]}) = Ok b2 /\
    revealedAttributes b2 !! 0
    = Some (default ∅ (revealedAttributes Examples.oneCredentialBuilder !! 0)
            ∪ set_map (dotted SUBJECT_STR) (({["fname"]} : gset string) ∪ {["lname"]})).
Proof.
  destruct (markAttributesRevealed Examples.oneCredentialBuilder 0 ({["fname"]} : gset string))
    as [b1|e] eqn:E1; [|vm_compute in E1; discriminate].
  destruct (markAttributesRevealed b1 0 ({["lname"]} : gset string)) as [b2|e] eqn:E2.
  - destruct (revealed_names_accumulate Examples.oneCredentialBuilder b1 b2 0
                {["fname"]} {["lname"]} E1 E2) as (H & Hl & _).
    exists b2. split; [exact H | exact Hl].
  - exfalso. unfold markAttributesRevealed in E1, E2.
    apply mbind_ok_inv in E1 as ([] & Hv & E1). apply Ok_inj in E1. subst b1.
    vm_compute in E2. discriminate E2.
Defined.

Lemma finalize_extends_spec_witness :
  length (fp_credentials (forPresentation (p_spec MoreExamples.presentedOnce))) = 2%nat /\
  spec_attributeEqualities (p_spec MoreExamples.presentedOnce)
  = [[(0, "fname"); (1, "fname")]].
Proof.
  destruct (finalize_extends_spec (PB := Examples.demoPresentationBackend)
              (SB := Examples.demoSigBackend) Examples.readyBuilder
              MoreExamples.presentedOnce MoreExamples.builderAfterOnce
              finalizedOnce_eq) as (_ & (pcs & Hp & Hall) & Heq & _).
  split.
  - rewrite Hp. apply Forall2_length in Hall. rewrite length_app, <- Hall.
    vm_compute. reflexivity.
  - rewrite Heq. vm_compute. reflexivity.
Defined.

Lemma finalize_twice_duplicates_witness :
  length (credentials Examples.readyBuilder) = 2%nat /\
  length (spec_credentials (p_spec MoreExamples.presentedTwice)) = 4%nat.
Proof.
  split; [vm_compute; reflexivity|].
  rewrite (proj1 (finalize_twice_duplicates (PB := Examples.demoPresentationBackend)
                    (SB := Examples.demoSigBackend) Examples.readyBuilder
                    MoreExamples.builderAfterOnce MoreExamples.builderAfterTwice
                    MoreExamples.presentedOnce MoreExamples.presentedTwice
                    finalizedOnce_eq finalizedTwice_eq)).
  vm_compute. reflexivity.
Defined.

Lemma finalize_marks_builder_witness :
  revealedAttributes MoreExamples.builderAfterOnce !! 0
  = Some ({["credentialSubject.fname"]} ∪ alwaysRevealed Examples.statusCredential) /\
  revealedAttributes MoreExamples.builderAfterOnce !! 1 = None.
Proof.
  destruct (finalize_marks_builder (PB := Examples.demoPresentationBackend)
              (SB := Examples.demoSigBackend) Examples.readyBuilder
              MoreExamples.presentedOnce MoreExamples.builderAfterOnce
              finalizedOnce_eq) as (H & _).
  split.
  - pose proof (H 0%nat Examples.statusCredential ["a"]%byte) as H0.
    change (Z.of_nat 0) with 0 in H0. rewrite H0; vm_compute; reflexivity.
  - pose proof (H 1%nat Examples.fnameCredential ["b"]%byte) as H1.
    change (Z.of_nat 1) with 1 in H1. rewrite H1; vm_compute; reflexivity.
Defined.

End BuilderMoreFacts.
